(** * Jodit editor: DOM helpers and the style applicator

    A shallow embedding of [src/core/dom.ts] (class [Dom]), of the style
    applicator [ApplyStyle] and of [View.getInstance].

    The browser's document is a table of nodes addressed by identifiers:
    every node records its parent and the ordered list of its children, so
    that node identity, aliasing and in-place mutation are those of the DOM.
    Code runs in a state-and-exception monad over the document and over the
    state captured by closures; loops and recursion of the source are driven
    by an explicit amount of fuel. *)

From Stdlib Require Import String Ascii List Bool Arith Lia.
From stdpp Require Import base option list strings gmap.

(** ** Strings *)

Module Str.

Definition lower_ascii (c : ascii) : ascii :=
  let n := nat_of_ascii c in
  if ((65 <=? n) && (n <=? 90))%nat then ascii_of_nat (n + 32) else c.

(** [String.prototype.toLowerCase] on the ASCII range. *)
Fixpoint toLowerCase (s : string) : string :=
  match s with
  | EmptyString => EmptyString
  | String c r => String (lower_ascii c) (toLowerCase r)
  end.

Definition upper_ascii (c : ascii) : ascii :=
  let n := nat_of_ascii c in
  if ((97 <=? n) && (n <=? 122))%nat then ascii_of_nat (n - 32) else c.

(** [String.prototype.toUpperCase] on the ASCII range. *)
Fixpoint toUpperCase (s : string) : string :=
  match s with
  | EmptyString => EmptyString
  | String c r => String (upper_ascii c) (toUpperCase r)
  end.

(** The characters matched by [\s] that occur in the ASCII range. *)
Definition is_space (c : ascii) : bool :=
  let n := nat_of_ascii c in
  ((n =? 32) || (n =? 9) || (n =? 10) || (n =? 11) || (n =? 12) || (n =? 13))%nat.

Fixpoint trimStart (s : string) : string :=
  match s with
  | EmptyString => EmptyString
  | String c r => if is_space c then trimStart r else s
  end.

Fixpoint rev_onto (s acc : string) : string :=
  match s with
  | EmptyString => acc
  | String c r => rev_onto r (String c acc)
  end.

Definition rev (s : string) : string := rev_onto s EmptyString.

Definition trimEnd (s : string) : string := rev (trimStart (rev s)).

(** Modelled from the spec: the helper [trim] of [core/helpers], which is
    not part of the sources at hand; it strips the white space at both
    ends of a string ("whitespace-only or empty text node"). *)
Definition trim (s : string) : string := trimStart (trimEnd s).

Definition is_blank (s : string) : bool :=
  Nat.eqb (String.length (trim s)) 0.

(** Modelled from the spec: [consts.INVISIBLE_SPACE_REG_EXP], the
    "invisible marker characters" stripped by [Dom.isEmptyTextNode]; the
    zero-width no-break space U+FEFF, here in its UTF-8 encoding. *)
Definition INVISIBLE_SPACE : string :=
  String (ascii_of_nat 239) (String (ascii_of_nat 187)
    (String (ascii_of_nat 191) EmptyString)).

Fixpoint strip_invisible (s : string) : string :=
  match s with
  | EmptyString => EmptyString
  | String c r =>
      if String.prefix INVISIBLE_SPACE s
      then match r with
           | String _ (String _ r') => strip_invisible r'
           | _ => EmptyString
           end
      else String c (strip_invisible r)
  end.

End Str.

(** ** The document: a table of nodes *)

Abbreviation NodeId := nat.

Inductive NodeType := ELEMENT_NODE | TEXT_NODE | DOCUMENT_FRAGMENT_NODE.

#[global] Instance NodeType_eq_dec : EqDecision NodeType.
Proof. solve_decision. Defined.

(** A node as the code sees it: [nodeName] is the upper-case tag of an
    element ("#text" for a text node), [nodeValue] is [null] for an element,
    [style] holds the declarations of the inline [style] attribute and
    [attributes] the other attributes. *)
Record Node := mkNode {
  nodeType : NodeType;
  nodeName : string;
  nodeValue : option string;
  parentNode : option NodeId;
  childNodes : list NodeId;
  style : list (string * string);
  attributes : list (string * string)
}.

Abbreviation Document := (list Node).

Definition with_parent (p : option NodeId) (nd : Node) : Node :=
  mkNode (nodeType nd) (nodeName nd) (nodeValue nd) p (childNodes nd)
         (style nd) (attributes nd).

Definition with_children (cs : list NodeId) (nd : Node) : Node :=
  mkNode (nodeType nd) (nodeName nd) (nodeValue nd) (parentNode nd) cs
         (style nd) (attributes nd).

Definition with_style (st : list (string * string)) (nd : Node) : Node :=
  mkNode (nodeType nd) (nodeName nd) (nodeValue nd) (parentNode nd)
         (childNodes nd) st (attributes nd).

Definition with_value (v : option string) (nd : Node) : Node :=
  mkNode (nodeType nd) (nodeName nd) v (parentNode nd)
         (childNodes nd) (style nd) (attributes nd).

(** *** Reading the tree *)

Definition parent_of (d : Document) (n : NodeId) : option NodeId :=
  d !! n ≫= parentNode.

Definition children_of (d : Document) (n : NodeId) : list NodeId :=
  from_option childNodes [] (d !! n).

Definition name_of (d : Document) (n : NodeId) : string :=
  from_option nodeName EmptyString (d !! n).

Definition type_of (d : Document) (n : NodeId) : option NodeType :=
  nodeType <$> d !! n.

Definition value_of (d : Document) (n : NodeId) : option string :=
  d !! n ≫= nodeValue.

Definition style_of (d : Document) (n : NodeId) : list (string * string) :=
  from_option style [] (d !! n).

Definition attributes_of (d : Document) (n : NodeId) : list (string * string) :=
  from_option attributes [] (d !! n).

Definition firstChild (d : Document) (n : NodeId) : option NodeId :=
  head (children_of d n).

Definition lastChild (d : Document) (n : NodeId) : option NodeId :=
  last (children_of d n).

Fixpoint after_in (n : NodeId) (l : list NodeId) : option NodeId :=
  match l with
  | [] => None
  | x :: r => if decide (x = n) then head r else after_in n r
  end.

Fixpoint before_in (n : NodeId) (l : list NodeId) : option NodeId :=
  match l with
  | x :: r =>
      match r with
      | y :: _ => if decide (y = n) then Some x else before_in n r
      | [] => None
      end
  | [] => None
  end.

Definition nextSibling (d : Document) (n : NodeId) : option NodeId :=
  parent_of d n ≫= fun p => after_in n (children_of d p).

Definition previousSibling (d : Document) (n : NodeId) : option NodeId :=
  parent_of d n ≫= fun p => before_in n (children_of d p).

(** The chain [n, parent n, parent (parent n), ...], at most [fuel] steps. *)
Fixpoint inclusive_ancestors (fuel : nat) (d : Document) (n : NodeId)
  : list NodeId :=
  n :: match fuel with
       | 0 => []
       | S f => match parent_of d n with
                | Some p => inclusive_ancestors f d p
                | None => []
                end
       end.

(** [a.contains(n)]: [a] is [n] or one of its ancestors. *)
Definition contains (d : Document) (a n : NodeId) : bool :=
  bool_decide (a ∈ inclusive_ancestors (length d) d n).

(** [textContent]: the text of the descendants, in tree order. *)
Fixpoint text_content (fuel : nat) (d : Document) (n : NodeId) : string :=
  match type_of d n with
  | Some TEXT_NODE => default EmptyString (value_of d n)
  | _ =>
      match fuel with
      | 0 => EmptyString
      | S f => foldr (fun c acc => text_content f d c +:+ acc) EmptyString
                     (children_of d n)
      end
  end.

Definition textContent (d : Document) (n : NodeId) : string :=
  text_content (length d) d n.

(** *** Changing the tree: the browser's primitives *)

Inductive Exception :=
| TypeError
| HierarchyRequestError
| NotFoundError
| InvalidNodeTypeError
| JoditError (msg : string).

Definition remove_id (n : NodeId) (l : list NodeId) : list NodeId :=
  filter (fun x => x ≠ n) l.

Fixpoint insert_at (x r : NodeId) (l : list NodeId) : list NodeId :=
  match l with
  | [] => [x]
  | y :: t => if decide (y = r) then x :: y :: t else y :: insert_at x r t
  end.

Definition place (x : NodeId) (ref : option NodeId) (l : list NodeId)
  : list NodeId :=
  match ref with
  | Some r => insert_at x r l
  | None => l ++ [x]
  end.

(** The DOM's "remove": the node leaves the child list of its parent. *)
Definition unlink (d : Document) (n : NodeId) : Document :=
  match parent_of d n with
  | Some p =>
      alter (with_parent None) n
        (alter (fun nd => with_children (remove_id n (childNodes nd)) nd) p d)
  | None => d
  end.

(** The DOM's "insert" of one node before [ref] ([None]: at the end). *)
Definition link (d : Document) (p n : NodeId) (ref : option NodeId)
  : Document :=
  alter (with_parent (Some p)) n
    (alter (fun nd => with_children (place n ref (childNodes nd)) nd) p d).

Definition insert_one (p : NodeId) (ref : option NodeId) (d : Document)
  (n : NodeId) : Document :=
  link (unlink d n) p n ref.

(** The DOM's "ensure pre-insertion validity". *)
Definition pre_insert_validity (d : Document) (p n : NodeId)
  (ref : option NodeId) : option Exception :=
  if bool_decide (type_of d p = Some TEXT_NODE) then Some HierarchyRequestError
  else if contains d n p then Some HierarchyRequestError
  else match ref with
       | Some r => if bool_decide (parent_of d r = Some p) then None
                   else Some NotFoundError
       | None => None
       end.

(** The DOM's "pre-insert": a document fragment stands for its children. *)
Definition pre_insert (d : Document) (p n : NodeId) (ref : option NodeId)
  : Document :=
  let ref' := if bool_decide (ref = Some n) then nextSibling d n else ref in
  match type_of d n with
  | Some DOCUMENT_FRAGMENT_NODE =>
      foldl (insert_one p ref') d (children_of d n)
  | _ => insert_one p ref' d n
  end.

(** *** The monad of the code: closure state, document, exceptions, fuel *)

Inductive Res (A : Type) : Type :=
| Ok (a : A)
| Throw (e : Exception)
| OutOfFuel.
Arguments Ok {A} a.
Arguments Throw {A} e.
Arguments OutOfFuel {A}.

Definition M (C A : Type) : Type := C -> Document -> Res (A * C * Document).

Definition ret {C A} (a : A) : M C A := fun c d => Ok (a, c, d).

Definition bind {C A B} (m : M C A) (k : A -> M C B) : M C B :=
  fun c d =>
    match m c d with
    | Ok (a, c', d') => k a c' d'
    | Throw e => Throw e
    | OutOfFuel => OutOfFuel
    end.

Notation "'let*' x ':=' m 'in' k" := (bind m (fun x => k))
  (at level 10, x pattern, m at level 100, k at level 200).
Notation "m ';;' k" := (bind m (fun _ => k))
  (at level 100, k at level 200, right associativity).

Definition throw {C A} (e : Exception) : M C A := fun _ _ => Throw e.
Definition out_of_fuel {C A} : M C A := fun _ _ => OutOfFuel.

(** Reading a property of the document. *)
Definition read {C A} (f : Document -> A) : M C A := fun c d => Ok (f d, c, d).
(** Mutating the document. *)
Definition write {C} (f : Document -> Document) : M C unit :=
  fun c d => Ok (tt, c, f d).
(** The variables captured by a closure, or the fields of [this]. *)
Definition get {C} : M C C := fun c d => Ok (c, c, d).
Definition put {C} (c : C) : M C unit := fun _ d => Ok (tt, c, d).
Definition modify {C} (f : C -> C) : M C unit := fun c d => Ok (tt, f c, d).

(** Running code whose closure has its own variables [c0]; the variables of
    the caller are out of its reach. *)
Definition scoped {C C' A} (c0 : C') (m : M C' A) : M C (A * C') :=
  fun c d =>
    match m c0 d with
    | Ok (a, c', d') => Ok ((a, c'), c, d')
    | Throw e => Throw e
    | OutOfFuel => OutOfFuel
    end.

Fixpoint forEach {C A} (l : list A) (f : A -> M C unit) : M C unit :=
  match l with
  | [] => ret tt
  | x :: r => f x ;; forEach r f
  end.

Section Primitives.
Context {C : Type}.

Definition insertBefore (p n : NodeId) (ref : option NodeId) : M C NodeId :=
  let* err := read (fun d => pre_insert_validity d p n ref) in
  match err with
  | Some e => throw e
  | None => write (fun d => pre_insert d p n ref) ;; ret n
  end.

Definition appendChild (p n : NodeId) : M C NodeId := insertBefore p n None.

Definition removeChild (p c : NodeId) : M C NodeId :=
  let* par := read (fun d => parent_of d c) in
  if bool_decide (par = Some p)
  then write (fun d => unlink d c) ;; ret c
  else throw NotFoundError.

(** The DOM's "replace": [new] takes the place of [old] under [p]. *)
Definition replaceChild (p new old : NodeId) : M C NodeId :=
  let* d0 := read id in
  if bool_decide (type_of d0 p = Some TEXT_NODE) then throw HierarchyRequestError
  else if contains d0 new p then throw HierarchyRequestError
  else if negb (bool_decide (parent_of d0 old = Some p)) then throw NotFoundError
  else
    let ref := nextSibling d0 old in
    let ref' := if bool_decide (ref = Some new) then nextSibling d0 new
                else ref in
    write (fun d => unlink d old) ;;
    write (fun d =>
             match type_of d new with
             | Some DOCUMENT_FRAGMENT_NODE =>
                 foldl (insert_one p ref') d (children_of d new)
             | _ => insert_one p ref' d new
             end) ;;
    ret old.

Definition alloc (nd : Node) : M C NodeId :=
  fun c d => Ok (length d, c, d ++ [nd]).

End Primitives.

(** ** The collaborators of the DOM helpers *)

(** Modelled from the spec: the Selection Manager ([editor.selection]),
    which is not part of the sources at hand.  It "provides save/restore of
    a caret/range as an abstract marker": [save] creates a marker and
    [restore] consumes it.  The history keeps, for every call, the document
    on which it was made. *)
Abbreviation markerInfo := nat.

Inductive SelEvent :=
| Saved (m : markerInfo) (on : Document)
| Restored (m : markerInfo) (on : Document).

Abbreviation Select := (list SelEvent).

Class HasSelection (C : Type) := {
  selection : C -> Select;
  with_selection : Select -> C -> C
}.

#[global] Instance Select_HasSelection : HasSelection Select :=
  {| selection := fun s => s; with_selection := fun s _ => s |}.

Section Selection.
Context {C : Type} `{HasSelection C}.

Definition save : M C markerInfo :=
  fun c d =>
    let m := length (selection c) in
    Ok (m, with_selection (selection c ++ [Saved m d]) c, d).

Definition restore (m : markerInfo) : M C unit :=
  fun c d => Ok (tt, with_selection (selection c ++ [Restored m d]) c, d).

End Selection.

(** Modelled from the spec: the element factory ([editor.createInside]),
    "create element of tag X in the correct owning document"; the new
    element is detached and empty. *)
Definition new_element (tag : string) : Node :=
  mkNode ELEMENT_NODE (Str.toUpperCase tag) None None [] [] [].

Definition createElement {C} (tag : string) : M C NodeId :=
  alloc (new_element tag).

Definition new_fragment : Node :=
  mkNode DOCUMENT_FRAGMENT_NODE "#document-fragment" None None [] [] [].

Definition createDocumentFragment {C} : M C NodeId := alloc new_fragment.

(** [Element.setAttribute] on the list of attributes. *)
Fixpoint setAttribute (name value : string) (l : list (string * string))
  : list (string * string) :=
  match l with
  | [] => [(name, value)]
  | (k, v) :: r =>
      if bool_decide (k = name) then (k, value) :: r
      else (k, v) :: setAttribute name value r
  end.

(** [tag: HTMLElement | HTMLTagNames] *)
Inductive TagOrElement :=
| TagName (tag : string)
| Element (elm : NodeId).

(** The names of the properties that [Dom.find] reads by name. *)
Inductive SiblingProp := PnextSibling | PpreviousSibling.
Inductive ChildProp := PfirstChild | PlastChild.

Definition sibling_prop (d : Document) (n : NodeId) (p : SiblingProp)
  : option NodeId :=
  match p with
  | PnextSibling => nextSibling d n
  | PpreviousSibling => previousSibling d n
  end.

Definition child_prop (d : Document) (n : NodeId) (p : ChildProp)
  : option NodeId :=
  match p with
  | PfirstChild => firstChild d n
  | PlastChild => lastChild d n
  end.

(** Modelled from the spec: [consts.IS_BLOCK], "a fixed set of block-level
    tag names (e.g. div, p, table, li, h1-h6, blockquote, ul/ol, etc.)". *)
Definition IS_BLOCK : list string :=
  ["pre"; "div"; "p"; "li"; "ul"; "ol"; "h1"; "h2"; "h3"; "h4"; "h5"; "h6";
   "blockquote"; "td"; "th"; "table"; "body"; "html"; "figcaption";
   "figure"; "dt"; "dd"]%string.

(** A regular expression of the shape [/^(a|b|...)$/] is the list of its
    alternatives. *)
Definition regexp_test (alternatives : list string) (s : string) : bool :=
  bool_decide (s ∈ alternatives).

(** ** [class Dom] *)

Module Dom.

(** *** Node classifier *)

Definition isText (d : Document) (node : option NodeId) : bool :=
  match node with
  | Some n => bool_decide (type_of d n = Some TEXT_NODE)
  | None => false
  end.

Definition isElement (d : Document) (node : option NodeId) : bool :=
  match node with
  | Some n => bool_decide (type_of d n = Some ELEMENT_NODE)
  | None => false
  end.

(** Every node of the table belongs to the window of the editor. *)
Definition isNode (d : Document) (object : option NodeId) : bool :=
  match object with
  | Some n => bool_decide (is_Some (d !! n))
  | None => false
  end.

Definition isHTMLElement (d : Document) (node : option NodeId) : bool :=
  isNode d node && isElement d node.

Definition isTag (d : Document) (node : option NodeId) (tagName : string)
  : bool :=
  match node with
  | Some n =>
      isElement d node &&
      bool_decide (Str.toLowerCase (name_of d n) = Str.toLowerCase tagName)
  | None => false
  end.

Definition isBlock (d : Document) (node : option NodeId) : bool :=
  match node with
  | Some n => isNode d node && regexp_test IS_BLOCK (Str.toLowerCase (name_of d n))
  | None => false
  end.

Definition isEmptyTextNode (d : Document) (node : NodeId) : bool :=
  isText d (Some node) &&
  match value_of d node with
  | None => true
  | Some v =>
      bool_decide (v = EmptyString) ||
      Nat.eqb (String.length (Str.strip_invisible v)) 0
  end.

Section WithClosure.
Context {C : Type}.

Definition NodeCondition := option NodeId -> M C bool.

(** The global [Boolean], used as a condition. *)
Definition Boolean : NodeCondition :=
  fun node => ret (bool_decide (is_Some node)).

(** *** Tree walker *)

Fixpoint find (fuel : nat) (node : NodeId) (condition : NodeCondition)
  (root : NodeId) (recurse : bool) (sibling : SiblingProp)
  (child : option ChildProp) {struct fuel} : M C (option NodeId) :=
  match fuel with
  | 0 => out_of_fuel
  | S fuel' =>
      let* hit := (if recurse then condition (Some node) else ret false) in
      if hit then ret (Some node)
      else find_loop fuel' node condition root sibling child
  end
with find_loop (fuel : nat) (start : NodeId) (condition : NodeCondition)
  (root : NodeId) (sibling : SiblingProp) (child : option ChildProp)
  {struct fuel} : M C (option NodeId) :=
  match fuel with
  | 0 => out_of_fuel
  | S fuel' =>
      let* next := read (fun d => sibling_prop d start sibling) in
      let* hit := condition next in
      if hit then ret next
      else
        let* nextOne :=
          match child, next with
          | Some ch, Some nx =>
              let* c := read (fun d => child_prop d nx ch) in
              match c with
              | Some c => find fuel' c condition nx true sibling child
              | None => ret None
              end
          | _, _ => ret None
          end in
        match nextOne with
        | Some r => ret (Some r)
        | None =>
            let* next' :=
              match next with
              | Some nx => ret (Some nx)
              | None => read (fun d => parent_of d start)
              end in
            match next' with
            | Some s =>
                if bool_decide (s = root) then ret None
                else find_loop fuel' s condition root sibling child
            | None => ret None
            end
        end
  end.

Definition prev (fuel : nat) (node : NodeId) (condition : NodeCondition)
  (root : NodeId) (withChild : bool) : M C (option NodeId) :=
  find fuel node condition root false PpreviousSibling
       (if withChild then Some PlastChild else None).

Definition next (fuel : nat) (node : NodeId) (condition : NodeCondition)
  (root : NodeId) (withChild : bool) : M C (option NodeId) :=
  find fuel node condition root false PnextSibling
       (if withChild then Some PfirstChild else None).

(** [findWithCurrent]: "find next/prev node what [condition(next) === true]".
    The inner loop, [while (next && !next[sibling] && next !== root)
    next = next.parentNode]: *)
Fixpoint findWithCurrent_climb (fuel : nat) (next : option NodeId)
  (root : NodeId) (sibling : SiblingProp) : M C (option NodeId) :=
  match fuel with
  | 0 => out_of_fuel
  | S fuel' =>
      match next with
      | Some n =>
          let* s := read (fun d => sibling_prop d n sibling) in
          if bool_decide (s = None) && negb (bool_decide (n = root))
          then
            let* p := read (fun d => parent_of d n) in
            findWithCurrent_climb fuel' p root sibling
          else ret next
      | None => ret None
      end
  end.

(** One turn of the [do ... while (next && next !== root)] loop from [node],
    and the turns that follow. *)
Fixpoint findWithCurrent (fuel : nat) (node : NodeId)
  (condition : NodeCondition) (root : NodeId) (sibling : SiblingProp)
  (child : ChildProp) : M C (option NodeId) :=
  match fuel with
  | 0 => out_of_fuel
  | S fuel' =>
      let* hit := condition (Some node) in
      if hit then ret (Some node)
      else
        let* c := read (fun d => child_prop d node child) in
        let* nextOne :=
          match c with
          | Some c => findWithCurrent fuel' c condition node sibling child
          | None => ret None
          end in
        match nextOne with
        | Some r => ret (Some r)
        | None =>
            let* next := findWithCurrent_climb fuel' (Some node) root sibling in
            let* next :=
              match next with
              | Some n =>
                  let* s := read (fun d => sibling_prop d n sibling) in
                  match s with
                  | Some s =>
                      if negb (bool_decide (n = root)) then ret (Some s)
                      else ret next
                  | None => ret next
                  end
              | None => ret None
              end in
            match next with
            | Some n =>
                if bool_decide (n = root) then ret None
                else findWithCurrent fuel' n condition root sibling child
            | None => ret None
            end
        end
  end.

Fixpoint up_loop (fuel : nat) (start : NodeId) (condition : NodeCondition)
  (root : option NodeId) : M C (option NodeId) :=
  match fuel with
  | 0 => out_of_fuel
  | S fuel' =>
      let* hit := condition (Some start) in
      if hit then ret (Some start)
      else
        let* parent := read (fun d => parent_of d start) in
        match parent with
        | None => ret None
        | Some p =>
            if bool_decide (Some start = root) then ret None
            else if bool_decide (Some p = root) then ret None
            else up_loop fuel' p condition root
        end
  end.

Definition up (fuel : nat) (node : NodeId) (condition : NodeCondition)
  (root : option NodeId) : M C (option NodeId) :=
  up_loop fuel node condition root.

(** [tags: HTMLTagNames | HTMLTagNames[] | NodeCondition] *)
Inductive Tags :=
| OneTag (tag : string)
| SomeTags (tags : list string)
| Condition (condition : NodeCondition).

Definition closest (fuel : nat) (node : NodeId) (tags : Tags) (root : NodeId)
  : M C (option NodeId) :=
  let condition : NodeCondition :=
    match tags with
    | Condition c => c
    | SomeTags l =>
        fun tag =>
          match tag with
          | Some t => read (fun d => bool_decide (Str.toLowerCase (name_of d t) ∈ l))
          | None => ret false
          end
    | OneTag s =>
        fun tag =>
          match tag with
          | Some t => read (fun d => bool_decide (s = Str.toLowerCase (name_of d t)))
          | None => ret false
          end
    end in
  up fuel node condition (Some root).

(** [callback: (node: Node) => void | boolean]: [None] is [undefined]. *)
Fixpoint each (fuel : nat) (elm : NodeId)
  (callback : NodeId -> M C (option bool)) {struct fuel} : M C bool :=
  match fuel with
  | 0 => out_of_fuel
  | S fuel' =>
      let* node := read (fun d => firstChild d elm) in
      each_loop fuel' elm callback node
  end
with each_loop (fuel : nat) (elm : NodeId)
  (callback : NodeId -> M C (option bool)) (node : option NodeId)
  {struct fuel} : M C bool :=
  match node with
  | None => ret true
  | Some n =>
      match fuel with
      | 0 => out_of_fuel
      | S fuel' =>
          let* next := next fuel' n Boolean elm true in
          let* r := callback n in
          match r with
          | Some false => ret false
          | _ =>
              let* parent := read (fun d => parent_of d n) in
              let* inner :=
                match parent with
                | Some _ => each fuel' n callback
                | None => ret true
                end in
              if negb inner then ret false
              else each_loop fuel' elm callback next
          end
      end
  end.

(** *** Structural mutators *)

Definition safeRemove (node : option NodeId) : M C unit :=
  match node with
  | Some n =>
      let* parent := read (fun d => parent_of d n) in
      match parent with
      | Some p => removeChild p n ;; ret tt
      | None => ret tt
      end
  | None => ret tt
  end.

Fixpoint unwrap_loop (fuel : nat) (parent node : NodeId) : M C unit :=
  let* first := read (fun d => firstChild d node) in
  match first with
  | None => ret tt
  | Some c =>
      match fuel with
      | 0 => out_of_fuel
      | S fuel' =>
          insertBefore parent c (Some node) ;;
          unwrap_loop fuel' parent node
      end
  end.

Definition unwrap (fuel : nat) (node : NodeId) : M C unit :=
  let* parent := read (fun d => parent_of d node) in
  match parent with
  | Some p => unwrap_loop fuel p node ;; safeRemove (Some node)
  | None => ret tt
  end.

Fixpoint replace_loop (fuel : nat) (elm tag : NodeId) : M C unit :=
  let* first := read (fun d => firstChild d elm) in
  match first with
  | None => ret tt
  | Some c =>
      match fuel with
      | 0 => out_of_fuel
      | S fuel' => appendChild tag c ;; replace_loop fuel' elm tag
      end
  end.

Definition replace (fuel : nat) (elm : NodeId) (newTagName : TagOrElement)
  (withAttributes notMoveContent : bool) : M C NodeId :=
  let* tag := match newTagName with
              | TagName t => createElement t
              | Element e => ret e
              end in
  (if negb notMoveContent then replace_loop fuel elm tag else ret tt) ;;
  (if withAttributes
   then write (fun d =>
                 alter (fun nd =>
                          mkNode (nodeType nd) (nodeName nd) (nodeValue nd)
                                 (parentNode nd) (childNodes nd)
                                 (match style_of d elm with
                                  | [] => style nd
                                  | st => st
                                  end)
                                 (foldl (fun acc kv => setAttribute kv.1 kv.2 acc)
                                        (attributes nd) (attributes_of d elm)))
                       tag d)
   else ret tt) ;;
  let* parent := read (fun d => parent_of d elm) in
  match parent with
  | Some p => replaceChild p tag elm ;; ret tag
  | None => ret tag
  end.

Definition after (elm newElement : NodeId) : M C unit :=
  let* parent := read (fun d => parent_of d elm) in
  match parent with
  | None => ret tt
  | Some p =>
      let* last := read (fun d => lastChild d p) in
      if bool_decide (last = Some elm)
      then appendChild p newElement ;; ret tt
      else
        let* ns := read (fun d => nextSibling d elm) in
        insertBefore p newElement ns ;; ret tt
  end.

End WithClosure.

(** [Dom.wrap(current, tag, editor)]: the selection of [editor] is the
    closure state. *)
Definition wrap {C} `{HasSelection C} (current : NodeId) (tag : TagOrElement)
  : M C (option NodeId) :=
  let* selInfo := save in
  let* wrapper := match tag with
                  | TagName t => createElement t
                  | Element e => ret e
                  end in
  let* parent := read (fun d => parent_of d current) in
  match parent with
  | None => ret None
  | Some p =>
      insertBefore p wrapper (Some current) ;;
      appendChild wrapper current ;;
      restore selInfo ;;
      ret (Some wrapper)
  end.

(** The default of [condNoEmptyElement]. *)
Definition condNoEmptyElement : list string :=
  ["img"; "svg"; "canvas"; "input"; "textarea"; "form"]%string.

Definition isEmpty {C} (fuel : nat) (node : option NodeId)
  (condNoEmptyElement : list string) : M C bool :=
  match node with
  | None => ret true
  | Some n =>
      let* text := read (fun d => isText d node) in
      if text
      then read (fun d =>
                   match value_of d n with
                   | None => true
                   | Some v => Nat.eqb (String.length (Str.trim v)) 0
                   end)
      else
        let* exception := read (fun d =>
          regexp_test condNoEmptyElement (Str.toLowerCase (name_of d n))) in
        if exception then ret false
        else
          each fuel n (fun elm =>
            let* nonempty := read (fun d =>
              (isText d (Some elm) &&
               match value_of d elm with
               | None => false
               | Some v => negb (Nat.eqb (String.length (Str.trim v)) 0)
               end)
              || (isElement d (Some elm) &&
                  regexp_test condNoEmptyElement
                              (Str.toLowerCase (name_of d elm)))) in
            if nonempty then ret (Some false) else ret None)
  end.

(** *** The other structural mutators *)

Section Mutators.
Context {C : Type}.

(** [Dom.detach]: "remove all content from element". *)
Fixpoint detach (fuel : nat) (node : NodeId) : M C unit :=
  let* first := read (fun d => firstChild d node) in
  match first with
  | None => ret tt
  | Some c =>
      match fuel with
      | 0 => out_of_fuel
      | S fuel' => removeChild node c ;; detach fuel' node
      end
  end.

(** [Dom.appendChildFirst]: "append new element in the start of root". *)
Definition appendChildFirst (root newElement : NodeId) : M C unit :=
  let* child := read (fun d => firstChild d root) in
  match child with
  | Some ch =>
      if negb (bool_decide (ch = newElement))
      then insertBefore root newElement (Some ch) ;; ret tt
      else ret tt
  | None => appendChild root newElement ;; ret tt
  end.

(** [Dom.moveContent]: "move all content to another element"; the nodes
    are those of [Array.from(from.childNodes)], taken before any of them
    moves. *)
Definition moveContent (from to : NodeId) (inStart : bool) : M C unit :=
  let* fragment := createDocumentFragment in
  let* nodes := read (fun d => children_of d from) in
  forEach nodes (fun node => appendChild fragment node ;; ret tt) ;;
  let* first := read (fun d => firstChild d to) in
  match first with
  | Some fc =>
      if negb inStart then appendChild to fragment ;; ret tt
      else insertBefore to fragment (Some fc) ;; ret tt
  | None => appendChild to fragment ;; ret tt
  end.

(** [Dom.all]: "call callback condition function for all elements of
    node"; the children are those of [Array.from(node.childNodes)], taken
    before the condition runs. *)
Fixpoint all (fuel : nat) (node : NodeId) (condition : NodeCondition)
  (prev : bool) : M C (option NodeId) :=
  match fuel with
  | 0 => out_of_fuel
  | S fuel' =>
      let* nodes := read (fun d => children_of d node) in
      let* hit := condition (Some node) in
      if hit then ret (Some node)
      else
        forEach (if prev then rev nodes else nodes)
                (fun child => all fuel' child condition prev ;; ret tt) ;;
        ret None
  end.

(** The first loop of [Dom.wrapInline], and the second: the edge of the
    run moves over the siblings that are no blocks. *)
Fixpoint wrapInline_edge (fuel : nat) (sibling : SiblingProp) (edge : NodeId)
  : M C NodeId :=
  match fuel with
  | 0 => out_of_fuel
  | S fuel' =>
      let* tmp := read (fun d => sibling_prop d edge sibling) in
      match tmp with
      | Some t =>
          let* block := read (fun d => isBlock d tmp) in
          if negb block then wrapInline_edge fuel' sibling t else ret edge
      | None => ret edge
      end
  end.

(** The last loop of [Dom.wrapInline]: the run moves into the wrapper. *)
Fixpoint wrapInline_move (fuel : nat) (wrapper first last : NodeId)
  : M C unit :=
  match fuel with
  | 0 => out_of_fuel
  | S fuel' =>
      let* next := read (fun d => nextSibling d first) in
      appendChild wrapper first ;;
      match next with
      | Some nx =>
          if bool_decide (first = last) then ret tt
          else wrapInline_move fuel' wrapper nx last
      | None => ret tt
      end
  end.

End Mutators.

(** [Dom.wrapInline]: "wrap all inline siblings". *)
Definition wrapInline {C} `{HasSelection C} (fuel : nat) (current : NodeId)
  (tag : TagOrElement) : M C NodeId :=
  let* selInfo := save in
  let* first := wrapInline_edge fuel PpreviousSibling current in
  let* last := wrapInline_edge fuel PnextSibling current in
  let* wrapper := match tag with
                  | TagName t => createElement t
                  | Element e => ret e
                  end in
  let* parent := read (fun d => parent_of d first) in
  match parent with
  | Some p => insertBefore p wrapper (Some first) ;; ret tt
  | None => ret tt
  end ;;
  wrapInline_move fuel wrapper first last ;;
  restore selInfo ;;
  ret wrapper.

(** [Dom.isOrContains]: "check root contains child or equal child". *)
Definition isOrContains (d : Document) (root child : NodeId)
  (onlyContains : bool) : bool :=
  if bool_decide (root = child) && onlyContains then false
  else contains d root child.

End Dom.

(** ** Building and printing documents *)

(** Markup, to write documents down. *)
Inductive Html :=
| El (tag : string) (css : list (string * string)) (kids : list Html)
| Txt (text : string).

(** [build h parent d] adds the tree [h] to the table; identifiers follow
    the document order, starting at [length d]. *)
Fixpoint build (h : Html) (parent : option NodeId) (d : Document)
  : NodeId * Document :=
  match h with
  | Txt s =>
      (length d, d ++ [mkNode TEXT_NODE "#text" (Some s) parent [] [] []])
  | El tag st kids =>
      let me := length d in
      let d0 := d ++ [mkNode ELEMENT_NODE (Str.toUpperCase tag) None parent
                             [] st []] in
      let '(ids, d1) :=
        (fix go (ks : list Html) (d : Document) : list NodeId * Document :=
           match ks with
           | [] => ([], d)
           | k :: r =>
               let '(i, d') := build k (Some me) d in
               let '(rest, d'') := go r d' in
               (i :: rest, d'')
           end) kids d0 in
      (me, alter (with_children ids) me d1)
  end.

Definition document_of (h : Html) : Document := (build h None []).2.

Fixpoint css_text (l : list (string * string)) : string :=
  match l with
  | [] => EmptyString
  | (k, v) :: r => k +:+ ":" +:+ v +:+ ";" +:+ css_text r
  end.

(** The markup of a node, as [outerHTML] prints it. *)
Fixpoint outer_html (fuel : nat) (d : Document) (n : NodeId) : string :=
  match type_of d n with
  | Some TEXT_NODE => default EmptyString (value_of d n)
  | Some ELEMENT_NODE =>
      let tag := Str.toLowerCase (name_of d n) in
      let inner :=
        match fuel with
        | 0 => EmptyString
        | S f => foldr (fun c acc => outer_html f d c +:+ acc) EmptyString
                       (children_of d n)
        end in
      "<" +:+ tag +:+
      match style_of d n with
      | [] => EmptyString
      | st => " style='" +:+ css_text st +:+ "'"
      end +:+ ">" +:+ inner +:+ "</" +:+ tag +:+ ">"
  | Some DOCUMENT_FRAGMENT_NODE =>
      match fuel with
      | 0 => EmptyString
      | S f => foldr (fun c acc => outer_html f d c +:+ acc) EmptyString
                     (children_of d n)
      end
  | None => EmptyString
  end.

Definition outerHTML (d : Document) (n : NodeId) : string :=
  outer_html (length d) d n.

(** ** The browser's [Range]

    Modelled from the spec: "range extraction" is the browser's, not the
    editor's; the model follows the DOM standard for ranges whose boundary
    points lie between nodes (set with [setStartBefore], [setEndAfter] and
    the like), which are the only ones the code creates. *)

Module Range.

Definition BoundaryPoint : Type := NodeId * nat.

(** A fresh range is collapsed at the start of the owner document
    ([None]). *)
Record t := mk {
  start_ : option BoundaryPoint;
  end_ : option BoundaryPoint
}.

Definition createRange : t := mk None None.

Fixpoint index_of (n : NodeId) (l : list NodeId) : nat :=
  match l with
  | [] => 0
  | x :: r => if decide (x = n) then 0 else S (index_of n r)
  end.

(** The index of a node among the children of its parent. *)
Definition index (d : Document) (n : NodeId) : nat :=
  match parent_of d n with
  | Some p => index_of n (children_of d p)
  | None => 0
  end.

Definition root_of (d : Document) (n : NodeId) : NodeId :=
  default n (last (inclusive_ancestors (length d) d n)).

(** The indices that lead from the root to the node. *)
Definition path_of (d : Document) (n : NodeId) : list nat :=
  reverse (map (index d)
               (filter (fun a => is_Some (parent_of d a))
                       (inclusive_ancestors (length d) d n))).

Fixpoint path_before (p q : list nat) : bool :=
  match p, q with
  | [], _ :: _ => true
  | x :: p', y :: q' =>
      if decide (x < y) then true
      else if decide (x = y) then path_before p' q' else false
  | _, [] => false
  end.

(** The position of the first boundary point relative to the second:
    strictly before, in the same tree. *)
Definition before (d : Document) (a b : BoundaryPoint) : bool :=
  path_before (path_of d a.1 ++ [a.2]) (path_of d b.1 ++ [b.2]).

Definition same_root (d : Document) (a : BoundaryPoint)
  (b : option BoundaryPoint) : bool :=
  match b with
  | Some b => bool_decide (root_of d a.1 = root_of d b.1)
  | None => false
  end.

(** The DOM's "set the start". *)
Definition setStart (d : Document) (r : t) (bp : BoundaryPoint) : t :=
  let reset :=
    negb (same_root d bp (end_ r)) ||
    match end_ r with
    | Some e => before d e bp
    | None => true
    end in
  mk (Some bp) (if reset then Some bp else end_ r).

(** The DOM's "set the end". *)
Definition setEnd (d : Document) (r : t) (bp : BoundaryPoint) : t :=
  let reset :=
    negb (same_root d bp (start_ r)) ||
    match start_ r with
    | Some s => before d bp s
    | None => false
    end in
  mk (if reset then Some bp else start_ r) (Some bp).

Section WithClosure.
Context {C : Type}.

Definition boundary (after : bool) (node : NodeId)
  (k : BoundaryPoint -> M C t) : M C t :=
  let* parent := read (fun d => parent_of d node) in
  match parent with
  | None => throw InvalidNodeTypeError
  | Some p =>
      let* i := read (fun d => index d node) in
      k (p, if after then S i else i)
  end.

Definition setStartBefore (r : t) (node : NodeId) : M C t :=
  boundary false node (fun bp => read (fun d => setStart d r bp)).

Definition setStartAfter (r : t) (node : NodeId) : M C t :=
  boundary true node (fun bp => read (fun d => setStart d r bp)).

Definition setEndBefore (r : t) (node : NodeId) : M C t :=
  boundary false node (fun bp => read (fun d => setEnd d r bp)).

Definition setEndAfter (r : t) (node : NodeId) : M C t :=
  boundary true node (fun bp => read (fun d => setEnd d r bp)).

(** [node.cloneNode(false)] *)
Definition cloneNode (node : NodeId) : M C NodeId :=
  let* proto := read (fun d => d !! node) in
  match proto with
  | Some nd => alloc (with_parent None (with_children [] nd))
  | None => throw TypeError
  end.

(** The first inclusive ancestor of [a] that contains [b]. *)
Definition common_ancestor (d : Document) (a b : NodeId) : NodeId :=
  default a (head (filter (fun x => contains d x b)
                          (inclusive_ancestors (length d) d a))).

(** The child of [ca] that is [n] or an ancestor of [n]. *)
Definition child_toward (d : Document) (ca n : NodeId) : option NodeId :=
  head (filter (fun x => parent_of d x = Some ca)
               (inclusive_ancestors (length d) d n)).

(** The DOM's "extract" of the contents between two boundary points; the
    result is the fragment and the point at which the range collapses. *)
Fixpoint extract (fuel : nat) (s e : BoundaryPoint)
  : M C (NodeId * BoundaryPoint) :=
  let* fragment := createDocumentFragment in
  if bool_decide (s = e) then ret (fragment, s)
  else
    match fuel with
    | 0 => out_of_fuel
    | S fuel' =>
        let* d := read id in
        let ca := common_ancestor d s.1 e.1 in
        let first_partial :=
          if contains d s.1 e.1 then None else child_toward d ca s.1 in
        let last_partial :=
          if contains d e.1 s.1 then None else child_toward d ca e.1 in
        let kids := children_of d ca in
        let lo := match first_partial with
                  | Some a => S (index_of a kids)
                  | None => s.2
                  end in
        let hi := match last_partial with
                  | Some b => index_of b kids
                  | None => e.2
                  end in
        let contained := take (hi - lo) (drop lo kids) in
        let collapse := match first_partial with
                        | Some a => (ca, S (index_of a kids))
                        | None => s
                        end in
        match first_partial with
        | Some a =>
            let* clone := cloneNode a in
            appendChild fragment clone ;;
            let* sub := extract fuel' s (a, length (children_of d a)) in
            appendChild clone sub.1 ;; ret tt
        | None => ret tt
        end ;;
        forEach contained (fun c => appendChild fragment c ;; ret tt) ;;
        match last_partial with
        | Some b =>
            let* clone := cloneNode b in
            appendChild fragment clone ;;
            let* sub := extract fuel' (b, 0) e in
            appendChild clone sub.1 ;; ret tt
        | None => ret tt
        end ;;
        ret (fragment, collapse)
    end.

(** [range.extractContents()]: the fragment and the collapsed range. *)
Definition extractContents (fuel : nat) (r : t) : M C (NodeId * t) :=
  match start_ r, end_ r with
  | Some s, Some e =>
      let* res := extract fuel s e in
      ret (res.1, mk (Some res.2) (Some res.2))
  | _, _ =>
      let* fragment := createDocumentFragment in
      ret (fragment, r)
  end.

(** [range.insertNode(node)], for a range that starts between nodes. *)
Definition insertNode (r : t) (node : NodeId) : M C unit :=
  match start_ r with
  | Some (parent, offset) =>
      let* ref := read (fun d => children_of d parent !! offset) in
      let* ref' := (if bool_decide (ref = Some node)
                    then read (fun d => nextSibling d node)
                    else ret ref) in
      write (fun d => unlink d node) ;;
      insertBefore parent node ref' ;; ret tt
  | None => throw HierarchyRequestError
  end.

End WithClosure.
End Range.

(** ** The helpers of [core/helpers] that read and write styles *)

(** Modelled from the spec: the helper [css] of [core/helpers], which is
    not part of the sources at hand.  As a getter it yields the value the
    element has for a property (the empty string when there is none); as a
    setter it sets the property, the empty string removes it, and
    [undefined] ([None]) leaves the element as it is. *)
Fixpoint css_lookup (property : string) (l : list (string * string)) : string :=
  match l with
  | [] => EmptyString
  | (k, v) :: r => if bool_decide (k = property) then v else css_lookup property r
  end.

Definition css_get (d : Document) (elm : NodeId) (property : string) : string :=
  css_lookup property (style_of d elm).

Fixpoint css_update (property value : string) (l : list (string * string))
  : list (string * string) :=
  match l with
  | [] => if bool_decide (value = EmptyString) then [] else [(property, value)]
  | (k, v) :: r =>
      if bool_decide (k = property)
      then if bool_decide (value = EmptyString) then r else (k, value) :: r
      else (k, v) :: css_update property value r
  end.

Definition css_set {C} (elm : NodeId) (property : string)
  (value : option string) : M C unit :=
  match value with
  | Some v => write (fun d => alter (fun nd => with_style (css_update property v (style nd)) nd) elm d)
  | None => ret tt
  end.

(** Modelled from the spec: [normalizeCssValue] of [core/helpers] is taken
    to leave the values of the style descriptor as they are. *)
Definition normalizeCssValue (property : string) (value : option string)
  : option string := value.

(** ** The style applicator *)

(** Modelled from the spec: the style descriptor ([./style]), "a target
    element tag ([element]), a default/fallback tag ([defaultTag]), whether
    the style produces a block-level wrapper ([elementIsBlock]), and an
    optional property map"; a value of the map may be [undefined]. *)
Record Style := mkStyle {
  element : string;
  defaultTag : string;
  elementIsBlock : bool;
  options_style : option (list (string * option string))
}.

(** What the applicator uses of the editor: the editable root, the area of
    the selection and the test for the markers of the selection manager. *)
Record IJodit := mkJodit {
  editor : NodeId;
  area : NodeId;
  isMarker : Document -> NodeId -> bool
}.

Inductive mode := UNWRAP | WRAP.

#[global] Instance mode_eq_dec : EqDecision mode.
Proof. solve_decision. Defined.

Module ApplyStyle.

(** The mutable state of one applicator: its field [mode] and the selection
    manager of its editor. *)
Record State := mkState {
  mode_ : option mode;
  sel : Select
}.

#[global] Instance State_HasSelection : HasSelection State :=
  {| selection := sel; with_selection := fun s c => mkState (mode_ c) s |}.

Definition set_mode (m : mode) : M State unit :=
  modify (fun c => mkState (Some m) (sel c)).

Definition get_mode : M State (option mode) :=
  let* c := get in ret (mode_ c).

Section Instance.
Variable jodit : IJodit.
Variable style : Style.

(** [isNormalNode]: "is normal usual element". *)
Definition isNormalNode (d : Document) (elm : option NodeId) : bool :=
  match elm with
  | Some e => negb (Dom.isEmptyTextNode d e) && negb (isMarker jodit d e)
  | None => false
  end.

(** [elementHasSameStyle]: "element has all rules". *)
Definition elementHasSameStyle (d : Document) (elm : NodeId)
  (rules : option (list (string * option string))) : bool :=
  match rules with
  | Some rules =>
      negb (Dom.isTag d (Some elm) "font") &&
      Dom.isHTMLElement d (Some elm) &&
      forallb (fun rule =>
                 let value := css_get d elm rule.1 in
                 negb (bool_decide (value = EmptyString)) &&
                 match rule.2 with
                 | Some cv =>
                     bool_decide (Str.toLowerCase cv = Str.toLowerCase value)
                 | None => false
                 end)
              rules
  | None => false
  end.

(** [isSuitableElement]: "this element is suitable for options". *)
Definition isSuitableElement (d : Document) (elm : option NodeId)
  (strict : bool) : bool :=
  match elm with
  | None => false
  | Some e =>
      let isDefault := bool_decide (element style = defaultTag style) in
      let elmHasSameStyle := elementHasSameStyle d e (options_style style) in
      let elmIsSame :=
        bool_decide (Str.toLowerCase (name_of d e) = element style) in
      ((negb isDefault || negb strict) && elmIsSame)
      || (elmHasSameStyle && isNormalNode d elm)
  end.

(** A method used as a [NodeCondition]: it only reads the document. *)
Definition condition {C} (f : Document -> option NodeId -> bool)
  : Dom.NodeCondition (C := C) :=
  fun node => read (fun d => f d node).

(** [toggleStyles]: "add or remove styles to element". *)
Definition toggleStyles (fuel : nat) (elm : NodeId) : M State unit :=
  let* name := read (fun d => Str.toLowerCase (name_of d elm)) in
  match options_style style with
  | Some rules =>
      if bool_decide (name = defaultTag style)
      then
        forEach rules (fun kv =>
          let rule := kv.1 in
          let value := kv.2 in
          let* m := get_mode in
          let* current := read (fun d => css_get d elm rule) in
          if bool_decide (m = Some UNWRAP)
             || bool_decide (Some current = normalizeCssValue rule value)
          then
            css_set elm rule (Some EmptyString) ;;
            let* m := get_mode in
            match m with
            | None => set_mode UNWRAP
            | Some _ => ret tt
            end
          else
            css_set elm rule value ;;
            let* m := get_mode in
            match m with
            | None => set_mode WRAP
            | Some _ => ret tt
            end)
      else ret tt
  | None => ret tt
  end ;;
  let* isBlock := read (fun d => Dom.isBlock d (Some elm)) in
  let* noStyleAttr := read (fun d => bool_decide (style_of d elm = [])) in
  let isSuitableInline :=
    negb isBlock &&
    (noStyleAttr || negb (bool_decide (name = defaultTag style))) in
  let isSuitableBlock :=
    negb isSuitableInline && isBlock && bool_decide (name = element style) in
  if isSuitableInline || isSuitableBlock
  then
    Dom.unwrap fuel elm ;;
    let* m := get_mode in
    match m with
    | None => set_mode UNWRAP
    | Some _ => ret tt
    end
  else ret tt.

(** [checkSuitableParent]: [<strong><font>selected</font></strong>] *)
Definition checkSuitableParent (fuel : nat) (font : NodeId) : M State bool :=
  let* parentNode := read (fun d => parent_of d font) in
  match parentNode with
  | None => ret false
  | Some p =>
      let* nx := Dom.next fuel font (condition isNormalNode) p true in
      if bool_decide (is_Some nx) then ret false
      else
        let* pv := Dom.prev fuel font (condition isNormalNode) p true in
        if bool_decide (is_Some pv) then ret false
        else
          let* ok := read (fun d =>
            isSuitableElement d (Some p) false &&
            negb (bool_decide (p = area jodit)) &&
            (negb (Dom.isBlock d (Some p)) || elementIsBlock style)) in
          if ok then toggleStyles fuel p ;; ret true else ret false
  end.

(** [checkSuitableChild]: [<font><strong>selected</strong></font>] *)
Definition checkSuitableChild (fuel : nat) (font : NodeId) : M State bool :=
  let* firstChild := read (fun d => firstChild d font) in
  match firstChild with
  | None => ret false
  | Some fc =>
      let* nx := Dom.next fuel fc (condition isNormalNode) font true in
      if bool_decide (is_Some nx) then ret false
      else
        let* pv := Dom.prev fuel fc (condition isNormalNode) font true in
        if bool_decide (is_Some pv) then ret false
        else
          let* ok := read (fun d => isSuitableElement d (Some fc) false) in
          if ok then toggleStyles fuel fc ;; ret true else ret false
  end.

(** The test guarding [Dom.unwrap] of a remainder: no text, or only white
    space, and a first child. *)
Definition unwrapEmptyRemainder (fuel : nat) (fragment : NodeId)
  : M State unit :=
  let* text := read (fun d => textContent d fragment) in
  let* first := read (fun d => firstChild d fragment) in
  match first with
  | Some fc =>
      if bool_decide (text = EmptyString)
         || Nat.eqb (String.length (Str.trim text)) 0
      then Dom.unwrap fuel fc
      else ret tt
  | None => ret tt
  end.

(** [checkClosestWrapper]:
    [<strong><span>zxc<font>selected</font>dfdsf</span></strong>] *)
Definition checkClosestWrapper (fuel : nat) (font : NodeId) : M State bool :=
  let* wrapper :=
    Dom.closest fuel font
      (Dom.Condition (condition (fun d elm => isSuitableElement d elm true)))
      (editor jodit) in
  match wrapper with
  | None => ret false
  | Some wrapper =>
      if elementIsBlock style
      then toggleStyles fuel wrapper ;; ret true
      else
        let leftRange := Range.createRange in
        let* leftRange := Range.setStartBefore leftRange wrapper in
        let* leftRange := Range.setEndBefore leftRange font in
        let* extracted := Range.extractContents fuel leftRange in
        let leftFragment := extracted.1 in
        let leftRange := extracted.2 in
        unwrapEmptyRemainder fuel leftFragment ;;
        let* parent := read (fun d => parent_of d wrapper) in
        match parent with
        | Some p => insertBefore p leftFragment (Some wrapper) ;; ret tt
        | None => ret tt
        end ;;
        let* leftRange := Range.setStartAfter leftRange font in
        let* leftRange := Range.setEndAfter leftRange wrapper in
        let* extracted := Range.extractContents fuel leftRange in
        let rightFragment := extracted.1 in
        unwrapEmptyRemainder fuel rightFragment ;;
        Dom.after wrapper rightFragment ;;
        toggleStyles fuel wrapper ;;
        ret true
  end.

(** The variables captured by the callback of [unwrapChildren]. *)
Record Found := mkFound {
  needUnwrap : list NodeId;
  firstElementSuit : option bool
}.

(** The callback of [unwrapChildren]; it never stops the search. *)
Definition collect (elm : option NodeId) : M Found bool :=
  let* suit := read (fun d => isSuitableElement d elm true) in
  match elm with
  | Some e =>
      if suit
      then modify (fun v =>
             mkFound (needUnwrap v ++ [e])
                     (Some (default true (firstElementSuit v))))
      else modify (fun v =>
             mkFound (needUnwrap v)
                     (Some (default false (firstElementSuit v))))
  | None =>
      modify (fun v =>
        mkFound (needUnwrap v) (Some (default false (firstElementSuit v))))
  end ;;
  ret false.

(** [unwrapChildren]: "unwrap all suit elements inside". *)
Definition unwrapChildren (fuel : nat) (font : NodeId) : M State bool :=
  let* first := read (fun d => firstChild d font) in
  let* found :=
    match first with
    | Some fc =>
        let* r :=
          scoped (mkFound [] None)
            (Dom.find fuel fc collect font true PnextSibling
                      (Some PfirstChild)) in
        ret r.2
    | None => ret (mkFound [] None)
    end in
  forEach (needUnwrap found) (Dom.unwrap fuel) ;;
  ret (bool_decide (firstElementSuit found = Some true)).

(** [wrapUnwrappedText]: "wrap text or inline elements inside block
    element". *)
Definition wrapUnwrappedText (fuel : nat) (elm : NodeId) : M State NodeId :=
  let edge : Dom.NodeCondition (C := NodeId) :=
    fun node =>
      let* block := read (fun d => Dom.isBlock d node) in
      if block then ret true
      else
        match node with
        | Some n => put n ;; ret false
        | None => ret false
        end in
  let* r := scoped elm (Dom.prev fuel elm edge (area jodit) true) in
  let start := r.2 in
  let* r := scoped elm (Dom.next fuel elm edge (area jodit) true) in
  let end_ := r.2 in
  let range := Range.createRange in
  let* range := Range.setStartBefore range start in
  let* range := Range.setEndAfter range end_ in
  let* extracted := Range.extractContents fuel range in
  let fragment := extracted.1 in
  let range := extracted.2 in
  let* wrapper := createElement (element style) in
  appendChild wrapper fragment ;;
  Range.insertNode range wrapper ;;
  ret wrapper.

(** The four checks of [applyToElement], tried in order. *)
Definition checks (fuel : nat) (font : NodeId) : M State bool :=
  let* a := checkSuitableParent fuel font in
  if a then ret true
  else
    let* b := checkSuitableChild fuel font in
    if b then ret true
    else
      let* c := checkClosestWrapper fuel font in
      if c then ret true else unwrapChildren fuel font.

(** The rest of [applyToElement]: the fragment is wrapped. *)
Definition fallbackWrap (fuel : nat) (font : NodeId) : M State unit :=
  let* wrapper :=
    (if elementIsBlock style
     then
       let* box := Dom.up fuel font
                     (condition (fun d node => Dom.isBlock d node))
                     (Some (area jodit)) in
       match box with
       | Some b => ret b
       | None => wrapUnwrappedText fuel font
       end
     else ret font) in
  let* newWrapper :=
    Dom.replace fuel wrapper (TagName (element style)) false false in
  forEach (if bool_decide (element style = defaultTag style)
           then default [] (options_style style)
           else [])
          (fun kv => css_set newWrapper kv.1 kv.2).

(** [applyToElement]: "apply options to all selected fragment". *)
Definition applyToElement (fuel : nat) (font : NodeId) : M State unit :=
  let* done := checks fuel font in
  if done then ret tt
  else
    let* m := get_mode in
    match m with
    | None => set_mode WRAP
    | Some _ => ret tt
    end ;;
    let* m := get_mode in
    if negb (bool_decide (m = Some WRAP)) then ret tt
    else fallbackWrap fuel font.

(** Modelled from the spec: what the selection manager, which is not part
    of the sources at hand, reports to [apply]: a caret, or the fragments
    that [wrapInTag] hands to its callback one after the other ("for every
    top-level fragment produced by splitting the selection at element
    boundaries, run the per-fragment decision procedure"). *)
Inductive Selected :=
| Collapsed (caret : Range.BoundaryPoint)
| Expanded (fragments : list NodeId).

Definition wrapInTag (fragments : list NodeId)
  (callback : NodeId -> M State unit) : M State unit :=
  forEach fragments callback.

(** The helper [normalizeNode] of [core/helpers] is not part of the sources
    at hand; it is a parameter. *)
Variable normalizeNode : option NodeId -> Document -> Document.

(** [apply]: "apply options to selection". *)
Definition apply (fuel : nat) (selected : Selected) : M State unit :=
  let* selInfo :=
    match selected with
    | Collapsed caret =>
        let* font := createElement "font" in
        Range.insertNode (Range.mk (Some caret) (Some caret)) font ;;
        let* selInfo := save in
        applyToElement fuel font ;;
        Dom.safeRemove (Some font) ;;
        ret selInfo
    | Expanded fragments =>
        let* selInfo := save in
        let* first := read (fun d => firstChild d (area jodit)) in
        write (normalizeNode first) ;;
        wrapInTag fragments (applyToElement fuel) ;;
        ret selInfo
    end in
  restore selInfo.

End Instance.
End ApplyStyle.

(** ** [View.getInstance] *)

Module View.

Section Registry.
(** The instances of the modules, and the options they are made with. *)
Variables Component Options : Type.

(** A value of the registry [modules]: a constructor function, which makes
    a component for a view and options, or a value that is no function. *)
Inductive ModuleValue :=
| Constructor (make : option Options -> Component)
| NotAFunction.

Definition isFunction (module : option ModuleValue) : bool :=
  match module with
  | Some (Constructor _) => true
  | _ => false
  end.

(** [new module(this.j || this, options)] *)
Definition construct (module : option ModuleValue) (options : option Options)
  : Res Component :=
  match module with
  | Some (Constructor make) => Ok (make options)
  | _ => Throw TypeError
  end.

Definition need_real_module_name : Exception :=
  JoditError "Need real module name".

(** [core/view/view.ts]; the state is the field [__modulesInstances]. *)
Definition getInstance (modules : gmap string ModuleValue)
  (moduleName : string) (options : option Options)
  (mi : gmap string Component) : Res (Component * gmap string Component) :=
  let module := modules !! moduleName in
  if negb (isFunction module) then Throw need_real_module_name
  else
    match mi !! moduleName with
    | Some instance => Ok (instance, mi)
    | None =>
        match construct module options with
        | Ok instance => Ok (instance, <[moduleName := instance]> mi)
        | Throw e => Throw e
        | OutOfFuel => OutOfFuel
        end
    end.

(** [modules/view/view.ts], the other copy of the class. *)
Definition getInstance_modules_view (modules : gmap string ModuleValue)
  (moduleName : string) (options : option Options)
  (mi : gmap string Component) : Res (Component * gmap string Component) :=
  let module := modules !! moduleName in
  if isFunction module then Throw need_real_module_name
  else
    match mi !! moduleName with
    | Some instance => Ok (instance, mi)
    | None =>
        match construct module options with
        | Ok instance => Ok (instance, <[moduleName := instance]> mi)
        | Throw e => Throw e
        | OutOfFuel => OutOfFuel
        end
    end.

End Registry.
End View.

(** ** Well-formed documents *)

(** The [k]-th ancestor of a node. *)
Fixpoint nth_parent (k : nat) (d : Document) (n : NodeId) : option NodeId :=
  match k with
  | 0 => Some n
  | S k' => parent_of d n ≫= nth_parent k' d
  end.

(** The table describes a forest: parents and child lists agree, no child
    is listed twice, no node is its own ancestor, text nodes are leaves and
    document fragments have no parent. *)
Definition wf_node (d : Document) (n : NodeId) : bool :=
  forallb (fun c => bool_decide (parent_of d c = Some n)) (children_of d n)
  && match parent_of d n with
     | Some p => bool_decide (n ∈ children_of d p)
     | None => true
     end
  && bool_decide (NoDup (children_of d n))
  && bool_decide (nth_parent (length d) d n = None)
  && (if bool_decide (type_of d n = Some TEXT_NODE)
      then bool_decide (children_of d n = []) else true)
  && (if bool_decide (type_of d n = Some DOCUMENT_FRAGMENT_NODE)
      then bool_decide (parent_of d n = None) else true).

Definition wf (d : Document) : bool :=
  forallb (wf_node d) (seq 0 (length d)).

(** * Example documents *)

Module ModeExample.

(** [<p><strong><font>a</font></strong><font>b</font><em><font>c</font>
    </em></p>]: three fragments, the first of which is bold. *)
Definition doc : Document :=
  document_of
    (El "p" []
       [El "strong" [] [El "font" [] [Txt "a"]];
        El "font" [] [Txt "b"];
        El "em" [] [El "font" [] [Txt "c"]]]).

Definition bold : Style := mkStyle "strong" "span" false None.
Definition jodit : IJodit := mkJodit 0 0 (fun _ _ => false).
Definition fuel : nat := 12.

(** The state after the first fragment. *)
Definition after_first : ApplyStyle.State * Document :=
  match ApplyStyle.applyToElement jodit bold fuel 2
          (ApplyStyle.mkState None []) doc with
  | Ok (_, c, d) => (c, d)
  | _ => (ApplyStyle.mkState None [], doc)
  end.

(** The state after the other two. *)
Definition after_all : ApplyStyle.State * Document :=
  match ApplyStyle.wrapInTag [4; 7]
          (ApplyStyle.applyToElement jodit bold fuel)
          after_first.1 after_first.2 with
  | Ok (_, c, d) => (c, d)
  | _ => after_first
  end.

End ModeExample.

Module WrapExample.

(** [<p>a<em>b</em>c</p>] *)
Definition doc : Document :=
  document_of (El "p" [] [Txt "a"; El "em" [] [Txt "b"]; Txt "c"]).

End WrapExample.

Module UnwrapExample.

(** [<div><span>a<b>b</b></span></div>] *)
Definition doc : Document :=
  document_of (El "div" [] [El "span" [] [Txt "a"; El "b" [] [Txt "b"]]]).

End UnwrapExample.

Module EmptyExample.

(** [<div><p><img></p><p>  </p><p><span></span>x</p><form> </form></div>] *)
Definition doc : Document :=
  document_of
    (El "div" []
       [El "p" [] [El "img" [] []];
        El "p" [] [Txt "  "];
        El "p" [] [El "span" [] []; Txt "x"];
        El "form" [] [Txt " "]]).

End EmptyExample.

Module UnwrapChildrenExample.

Definition bold : Style := mkStyle "strong" "span" false None.
Definition jodit : IJodit := mkJodit 0 0 (fun _ _ => false).

(** [<p><font>a<strong>b</strong><em><strong>c</strong></em><strong>d
    </strong></font></p>]: the first child of the fragment is a text. *)
Definition text_first : Document :=
  document_of
    (El "p" []
       [El "font" []
          [Txt "a"; El "strong" [] [Txt "b"];
           El "em" [] [El "strong" [] [Txt "c"]];
           El "strong" [] [Txt "d"]]]).

(** [<p><font><strong>b<strong>x</strong></strong>a<strong>d<strong>y
    </strong></strong></font></p>]: the first child of the fragment is
    bold. *)
Definition bold_first : Document :=
  document_of
    (El "p" []
       [El "font" []
          [El "strong" [] [Txt "b"; El "strong" [] [Txt "x"]];
           Txt "a";
           El "strong" [] [Txt "d"; El "strong" [] [Txt "y"]]]]).

(** [<p><font><strong>b</strong>a<em>x<strong>y<strong>z</strong></strong>
    </em></font></p>]: the first child of the fragment is bold, and one
    bold element holds another behind a text. *)
Definition bold_run : Document :=
  document_of
    (El "p" []
       [El "font" []
          [El "strong" [] [Txt "b"];
           Txt "a";
           El "em" []
             [Txt "x";
              El "strong" [] [Txt "y"; El "strong" [] [Txt "z"]]]]]).

(** [<p><font><em><strong>c</strong></em>x</font></p>]: a bold element
    inside the first child of the fragment. *)
Definition bold_inside : Document :=
  document_of
    (El "p" []
       [El "font" [] [El "em" [] [El "strong" [] [Txt "c"]]; Txt "x"]]).

End UnwrapChildrenExample.

Module SplitExample.

(** [<div><strong>zxc<font>sel</font>dfdsf</strong></div>], the fragment
    is node 3. *)
Definition doc : Document :=
  document_of
    (El "div" []
       [El "strong" [] [Txt "zxc"; El "font" [] [Txt "sel"]; Txt "dfdsf"]]).

(** [<div><p>a<strong style='color:red;'> <em><img><font>sel</font>x</em>
    <br></strong>b</p></div>], the fragment is node 7: white space and an
    image precede it. *)
Definition deep : Document :=
  document_of
    (El "div" []
       [El "p" []
          [Txt "a";
           El "strong" [("color", "red")]
             [Txt " ";
              El "em" [] [El "img" [] []; El "font" [] [Txt "sel"]; Txt "x"];
              El "br" [] []];
           Txt "b"]]).

Definition bold : Style := mkStyle "strong" "span" false None.
Definition jodit : IJodit := mkJodit 0 0 (fun _ _ => false).
Definition start : ApplyStyle.State := ApplyStyle.mkState None [].

End SplitExample.

(** ** The suitability test as the specification words it *)

Module SuitableSpec.
Section Instance.
Variable jodit : IJodit.
Variable style : Style.

(** "elm carries every CSS property/value pair the style specifies (values
    compared case-insensitively)": nothing is asked of an element when the
    style specifies no pair. *)
Definition carries_every_pair (d : Document) (elm : NodeId) : Prop :=
  forall property value,
    (property, value) ∈ default [] (options_style style) ->
    exists v, value = Some v
              /\ Str.toLowerCase v = Str.toLowerCase (css_get d elm property).

(** The right-hand side of the equivalence, in the words of the
    specification. *)
Definition suitable (d : Document) (elm : NodeId) (strict : bool) : Prop :=
  ((element style <> defaultTag style \/ strict = false)
   /\ Str.toLowerCase (name_of d elm) = element style)
  \/ (carries_every_pair d elm
      /\ isMarker jodit d elm = false
      /\ Dom.isEmptyTextNode d elm = false).

(** The same with the guards of [elementHasSameStyle]: the style has a
    property map, the node is an HTML element other than [<font>], and the
    values it carries are not empty. *)
Definition carries_every_pair_of (rules : list (string * option string))
  (d : Document) (elm : NodeId) : Prop :=
  forall property value,
    (property, value) ∈ rules ->
    css_get d elm property <> EmptyString
    /\ exists v, value = Some v
                 /\ Str.toLowerCase v = Str.toLowerCase (css_get d elm property).

Definition suitable_amended (d : Document) (elm : NodeId) (strict : bool)
  : Prop :=
  ((element style <> defaultTag style \/ strict = false)
   /\ Str.toLowerCase (name_of d elm) = element style)
  \/ (exists rules,
        options_style style = Some rules
        /\ Dom.isTag d (Some elm) "font" = false
        /\ Dom.isHTMLElement d (Some elm) = true
        /\ carries_every_pair_of rules d elm
        /\ isMarker jodit d elm = false
        /\ Dom.isEmptyTextNode d elm = false).

End Instance.
End SuitableSpec.

(** The same as propositions. *)

Record WF (d : Document) : Prop := {
  WF_child : forall n c, c ∈ children_of d n -> parent_of d c = Some n;
  WF_parent : forall n p, parent_of d n = Some p -> n ∈ children_of d p;
  WF_nodup : forall n, NoDup (children_of d n);
  WF_acyclic : forall n, n < length d -> nth_parent (length d) d n = None;
  WF_text : forall n, type_of d n = Some TEXT_NODE -> children_of d n = [];
  WF_fragment :
    forall n, type_of d n = Some DOCUMENT_FRAGMENT_NODE -> parent_of d n = None
}.

(** [a] is [n] or an ancestor of [n]. *)
Definition ancestor_or_self (d : Document) (a n : NodeId) : Prop :=
  exists k, nth_parent k d n = Some a.


(** The callback of [Dom.isEmpty]: a text that is not blank, or an element
    of the exception set, stops the traversal. *)
Definition stops_isEmpty (cond : list string) (d : Document) (elm : NodeId)
  : bool :=
  (Dom.isText d (Some elm) &&
   match value_of d elm with
   | None => false
   | Some v => negb (Nat.eqb (String.length (Str.trim v)) 0)
   end)
  || (Dom.isElement d (Some elm) &&
      regexp_test cond (Str.toLowerCase (name_of d elm))).

Definition isEmpty_callback {C} (cond : list string) (elm : NodeId)
  : M C (option bool) :=
  let* nonempty := read (fun d => stops_isEmpty cond d elm) in
  if nonempty then ret (Some false) else ret None.

(** A text node is blank when it has no value or only white space. *)
Definition blank_text (d : Document) (k : NodeId) : Prop :=
  type_of d k = Some TEXT_NODE
  /\ match value_of d k with
     | None => True
     | Some v => String.length (Str.trim v) = 0
     end.


(** ** Observing the callbacks of [Dom.each] *)

(** The callback, with a record of its invocations: the node it was called
    on and what it returned. *)
Definition traced {C} (callback : NodeId -> M C (option bool))
  : NodeId -> M (C * list (NodeId * option bool)) (option bool) :=
  fun n cl d =>
    match callback n cl.1 d with
    | Ok (r, c', d') => Ok (r, (c', cl.2 ++ [(n, r)]), d')
    | Throw e => Throw e
    | OutOfFuel => OutOfFuel
    end.

(** A callback that removes the node it visits. *)
Definition removing {C} (node : NodeId) : M C (option bool) :=
  Dom.safeRemove (Some node) ;; ret None.

Definition not_false (entry : NodeId * option bool) : Prop :=
  entry.2 <> Some false.

(** The invocations made by a traversal that returned [b]: none returned
    [false] when [b] is [true]; the last one, and only it, did when [b] is
    [false]. *)
Definition abort_trace (b : bool) (new : list (NodeId * option bool)) : Prop :=
  if b then Forall not_false new
  else exists init n, new = init ++ [(n, Some false)] /\ Forall not_false init.

(** ** The nodes that the scan of [unwrapChildren] visits *)

(** Among the children [kids] of a node the scan visits the first one, and
    each later one followed by what it visits among the children of that
    one: it does not enter the first child of a node; [h] bounds the
    depth. *)
Fixpoint scan_kids (h : nat) (d : Document) (kids : list NodeId)
  : list NodeId :=
  match h with
  | 0 => []
  | S h' =>
      match kids with
      | [] => []
      | first :: others =>
          first :: flat_map (fun nx => nx :: scan_kids h' d (children_of d nx))
                            others
      end
  end.

Definition scan_later (h : nat) (d : Document) (others : list NodeId)
  : list NodeId :=
  flat_map (fun nx => nx :: scan_kids h d (children_of d nx)) others.

Definition scan (d : Document) (font : NodeId) : list NodeId :=
  scan_kids (S (length d)) d (children_of d font).

(** The nodes of a list that are suitable for the style. *)
Definition suitable_nodes (jodit : IJodit) (style : Style) (d : Document)
  (l : list NodeId) : list NodeId :=
  List.filter (fun n => ApplyStyle.isSuitableElement jodit style d (Some n) true)
              l.

(** ** Describing moves of nodes *)

(** The fields of a node that moving nodes around leaves alone. *)
Definition data_of (d : Document) (n : NodeId)
  : option (NodeType * string * option string
            * list (string * string) * list (string * string)) :=
  (fun nd => (nodeType nd, nodeName nd, nodeValue nd, style nd, attributes nd))
    <$> d !! n.

(** Where nodes inserted before [ref] end up among the children [l]. *)
Definition placed_at (ref : option NodeId) (l u v : list NodeId) : Prop :=
  match ref with
  | Some r => l = u ++ r :: v
  | None => l = u /\ v = []
  end.

Definition tail_at (ref : option NodeId) (v : list NodeId) : list NodeId :=
  match ref with
  | Some r => r :: v
  | None => []
  end.

(** ** Describing the split of a wrapper around a fragment *)

(** One level of the path from the wrapper down to the fragment: a node,
    its children before the next node of the path and those after it. *)
Record Level := mkLevel {
  lv_node : NodeId;
  lv_before : list NodeId;
  lv_after : list NodeId
}.

Definition next_node (rest : list Level) (target : NodeId) : NodeId :=
  match rest with
  | r :: _ => lv_node r
  | [] => target
  end.

(** The levels lead down to [target]. *)
Fixpoint spine (d : Document) (levels : list Level) (target : NodeId) : Prop :=
  match levels with
  | [] => True
  | lv :: rest =>
      children_of d (lv_node lv)
      = lv_before lv ++ next_node rest target :: lv_after lv
      /\ spine d rest target
  end.

Definition drop_before (lv : Level) : Level :=
  mkLevel (lv_node lv) [] (lv_after lv).











(** ** Describing the searches *)

(** [Dom.up] gets to the [k]-th ancestor of [node]: it tests the node
    itself in any case, and goes up as long as it does not meet the
    root. *)
Definition up_reaches (d : Document) (root : option NodeId) (node : NodeId)
  (k : nat) : Prop :=
  k = 0
  \/ forall j b, j <= k -> nth_parent j d node = Some b -> Some b <> root.

(** A condition that only reads the document. *)
Definition reads_as {C} (condition : Dom.NodeCondition (C := C))
  (f : Document -> option NodeId -> bool) : Prop :=
  forall o c d, condition o c d = Ok (f d o, c, d).

(** What [Dom.up] returns: the nearest of the nodes it gets to that
    satisfies the condition, or nothing when none does. *)
Definition nearest (d : Document) (f : Document -> option NodeId -> bool)
  (root : option NodeId) (node : NodeId) (r : option NodeId) : Prop :=
  match r with
  | Some a =>
      exists k,
        nth_parent k d node = Some a
        /\ up_reaches d root node k
        /\ f d (Some a) = true
        /\ forall j b, j < k -> nth_parent j d node = Some b ->
             f d (Some b) = false
  | None =>
      forall k a,
        nth_parent k d node = Some a -> up_reaches d root node k ->
        f d (Some a) = false
  end.

(** ** Describing traversals *)

(** The nodes of the tree below [n], [n] first, in document order; [h]
    bounds the depth. *)
Fixpoint subtree (h : nat) (d : Document) (n : NodeId) : list NodeId :=
  n :: match h with
       | 0 => []
       | S h' => flat_map (subtree h' d) (children_of d n)
       end.

(** The descendants of a node, in document order. *)
Definition descendants (d : Document) (n : NodeId) : list NodeId :=
  flat_map (subtree (length d) d) (children_of d n).

(** Two documents with the same tree: what their nodes hold may differ. *)
Definition same_tree (d d' : Document) : Prop :=
  length d' = length d
  /\ forall x, parent_of d' x = parent_of d x
               /\ children_of d' x = children_of d x
               /\ type_of d' x = type_of d x.

(** A callback of [Dom.each] that never stops the traversal and leaves the
    tree as it is. *)
Definition keeps_tree {C} (callback : NodeId -> M C (option bool)) : Prop :=
  forall n c d,
    exists r c' d',
      callback n c d = Ok (r, c', d') /\ r <> Some false /\ same_tree d d'.

(** ** The alignment commands ([plugins/justify]) *)

Module Justify.

(** No property is declared twice in a [style] attribute. *)
Definition styles_ok (d : Document) : bool :=
  forallb (fun nd => bool_decide (NoDup (style nd).*1)) d.

(** [elm.style.textAlign], read: the empty string when the property is not
    declared. *)
Definition textAlign (d : Document) (elm : NodeId) : string :=
  css_lookup "text-align" (style_of d elm).

Section WithClosure.
Context {C : Type}.

(** [elm.style.textAlign = value]: the empty string removes the
    declaration. *)
Definition set_textAlign (elm : NodeId) (value : string) : M C unit :=
  write (fun d =>
           alter (fun nd =>
                    with_style (css_update "text-align" value (style nd)) nd)
                 elm d).

(** [elm.removeAttribute('style')] *)
Definition remove_style (elm : NodeId) : M C unit :=
  write (fun d => alter (with_style []) elm d).

(** The callback of [clearAlign]. *)
Definition clearAlign_callback (elm : NodeId) : M C (option bool) :=
  let* html := read (fun d => Dom.isHTMLElement d (Some elm)) in
  if html then
    let* align := read (fun d => textAlign d elm) in
    if negb (bool_decide (align = EmptyString)) then
      set_textAlign elm EmptyString ;;
      let* cssText := read (fun d => css_text (style_of d elm)) in
      if Nat.eqb (String.length (Str.trim cssText)) 0
      then remove_style elm ;; ret None
      else ret None
    else ret None
  else ret None.

(** [clearAlign]: "remove text-align style for all selected children". *)
Definition clearAlign (fuel : nat) (node : NodeId) : M C unit :=
  Dom.each fuel node clearAlign_callback ;; ret tt.

(** [alignElement]: "apply align for element". *)
Definition alignElement (fuel : nat) (command : string) (box : NodeId)
  : M C unit :=
  let* ok := read (fun d =>
    Dom.isNode d (Some box) && Dom.isElement d (Some box)) in
  if ok then
    clearAlign fuel box ;;
    let command := Str.toLowerCase command in
    if bool_decide (command = "justifyfull"%string)
    then set_textAlign box "justify"
    else if bool_decide (command = "justifyright"%string)
    then set_textAlign box "right"
    else if bool_decide (command = "justifyleft"%string)
    then set_textAlign box "left"
    else if bool_decide (command = "justifycenter"%string)
    then set_textAlign box "center"
    else ret tt
  else ret tt.

End WithClosure.

(** The callback of [justify], for one node of the selection: the nearest
    block below the editable root is aligned, and when there is none the
    node and its inline siblings are wrapped in a block first. *)
Definition justify_current {C} `{HasSelection C} (fuel : nat)
  (editor : NodeId) (enterBlock : string) (command : string)
  (current : option NodeId) : M C unit :=
  match current with
  | None => ret tt
  | Some current =>
      let* currentBox :=
        Dom.up fuel current (fun node => read (fun d => Dom.isBlock d node))
               (Some editor) in
      let* currentBox :=
        match currentBox with
        | Some box => ret box
        | None => Dom.wrapInline fuel current (TagName enterBlock)
        end in
      alignElement fuel command currentBox
  end.

(** The alignment that each command asks for. *)
Definition alignments : list (string * string) :=
  [("justifyfull", "justify"); ("justifyright", "right");
   ("justifyleft", "left"); ("justifycenter", "center")]%string.

End Justify.

(** What removing the alignment of the elements among the nodes [X] does to
    a document: these elements have no alignment any more, no alignment
    appears elsewhere, and everything else is as before. *)
Definition alignment_cleared (d d' : Document) (X : list NodeId) : Prop :=
  same_tree d d'
  /\ (forall y, name_of d' y = name_of d y
                /\ value_of d' y = value_of d y
                /\ attributes_of d' y = attributes_of d y)
  /\ (forall y property, property <> "text-align"%string ->
        css_get d' y property = css_get d y property)
  /\ (forall y, y ∉ X -> d' !! y = d !! y)
  /\ (forall y, Justify.textAlign d' y = EmptyString
                \/ Justify.textAlign d' y = Justify.textAlign d y)
  /\ Justify.styles_ok d' = true
  /\ (forall y, y ∈ X -> type_of d y = Some ELEMENT_NODE ->
        Justify.textAlign d' y = EmptyString).

(** Changing the style of one node. *)
Definition restyle_spec (d d' : Document) (x : NodeId)
  (F : list (string * string) -> list (string * string)) : Prop :=
  same_tree d d'
  /\ (forall y, name_of d' y = name_of d y
                /\ value_of d' y = value_of d y
                /\ attributes_of d' y = attributes_of d y)
  /\ (forall y, y <> x -> d' !! y = d !! y)
  /\ style_of d' x = (if d !! x is Some _ then F (style_of d x) else []).


Module AlignExample.

(** [<div style='text-align:left'><p style='text-align:center;color:red'>a
    <span style='text-align:right'>b</span></p></div>] *)
Definition doc : Document :=
  document_of
    (El "div" [("text-align", "left")]
       [El "p" [("text-align", "center"); ("color", "red")]
          [Txt "a"; El "span" [("text-align", "right")] [Txt "b"]]]).

End AlignExample.

Module InlineExample.

(** [<div><p>x</p>a<em>b</em>c<p>y</p></div>] *)
Definition doc : Document :=
  document_of
    (El "div" []
       [El "p" [] [Txt "x"]; Txt "a"; El "em" [] [Txt "b"]; Txt "c";
        El "p" [] [Txt "y"]]).

End InlineExample.

(** ** Describing the search of [Dom.find] *)

(** The siblings ahead of a node, nearest first, among the children
    [before ++ node :: after] of its parent. *)
Definition ahead (sibling : SiblingProp) (before after : list NodeId)
  : list NodeId :=
  match sibling with
  | PnextSibling => after
  | PpreviousSibling => reverse before
  end.

(** The siblings ahead of the child at which the search enters a node with
    the children [kids]. *)
Definition ahead_of_child (sibling : SiblingProp) (child : ChildProp)
  (kids : list NodeId) : list NodeId :=
  match child with
  | PfirstChild => ahead sibling [] (tail kids)
  | PlastChild => ahead sibling (removelast kids) []
  end.

(** The nodes that the search tests, in the order in which it gets to
    them: each sibling ahead and, when the search goes into children, the
    child at which it enters that sibling and what it tests from there in
    the same way; it does not go into the child at which it enters.  [h]
    bounds the depth. *)
Fixpoint visited (h : nat) (d : Document) (sibling : SiblingProp)
  (child : option ChildProp) (nodes : list NodeId) : list NodeId :=
  flat_map
    (fun nx =>
       nx :: match h, child with
             | S h', Some ch =>
                 match child_prop d nx ch with
                 | Some c0 =>
                     c0 :: visited h' d sibling child
                             (ahead_of_child sibling ch (children_of d nx))
                 | None => []
                 end
             | _, _ => []
             end)
    nodes.

(** The first node of a list that satisfies a condition. *)
Definition first_match (f : Document -> option NodeId -> bool)
  (d : Document) (nodes : list NodeId) : option NodeId :=
  head (List.filter (fun x => f d (Some x)) nodes).

(** ** Describing the checks of [applyToElement] *)

(** The first normal node that the search from a fragment finds among the
    siblings ahead of it, if there is one. *)
Definition normal_ahead (jodit : IJodit) (d : Document)
  (sibling : SiblingProp) (child : ChildProp) (before after : list NodeId)
  : option NodeId :=
  first_match (ApplyStyle.isNormalNode jodit) d
    (visited (length d) d sibling (Some child) (ahead sibling before after)).

(** No normal node on either side. *)
Definition alone (jodit : IJodit) (d : Document) (before after : list NodeId)
  : bool :=
  bool_decide (normal_ahead jodit d PnextSibling PfirstChild before after
               = None)
  && bool_decide (normal_ahead jodit d PpreviousSibling PlastChild before
                    after = None).

(** The state of the applicator after a toggle that removes an element. *)
Definition unwrapped (c : ApplyStyle.State) : ApplyStyle.State :=
  ApplyStyle.mkState (Some (default UNWRAP (ApplyStyle.mode_ c)))
                     (ApplyStyle.sel c).

Module ChildExample.

(** [<p><font><strong>sel</strong></font></p>] *)
Definition doc : Document :=
  document_of (El "p" [] [El "font" [] [El "strong" [] [Txt "sel"]]]).

End ChildExample.

(** The property map of a style, written rule by rule onto the declarations
    of a style attribute (a rule without a value writes nothing). *)
Definition written (rules : list (string * option string))
  (st : list (string * string)) : list (string * string) :=
  foldl (fun st kv => match kv.2 with
                      | Some v => css_update kv.1 v st
                      | None => st
                      end) st rules.

Module PlainExample.

(** [<p>a<font>sel</font>b</p>] *)
Definition doc : Document :=
  document_of (El "p" [] [Txt "a"; El "font" [] [Txt "sel"]; Txt "b"]).

Definition red : Style :=
  mkStyle "span" "span" false (Some [("color", Some "red")])%string.

End PlainExample.

(** The declarations of a style attribute after the properties of a
    property map have been given the empty value one after the other. *)
Definition cleared (rules : list (string * option string))
  (st : list (string * string)) : list (string * string) :=
  foldl (fun st kv => css_update kv.1 EmptyString st) st rules.

Module StyledExample.

(** [<p><span style='color:red;font-size:12px'>a</span>b</p>] *)
Definition doc : Document :=
  document_of
    (El "p" []
       [El "span" [("color", "red"); ("font-size", "12px")] [Txt "a"];
        Txt "b"])%string.

Definition big_red : Style :=
  mkStyle "span" "span" false
    (Some [("color", Some "red"); ("font-size", Some "12px")])%string.

End StyledExample.

(** ** Describing the search of [Dom.findWithCurrent] *)

(** The nodes that the search tests, in the order in which it gets to
    them: each node followed by what the search tests below it, from the
    child at which it enters the node on.  [h] bounds the depth. *)
Fixpoint explored (h : nat) (d : Document) (sibling : SiblingProp)
  (child : ChildProp) (nodes : list NodeId) : list NodeId :=
  flat_map
    (fun n =>
       n :: match h with
            | S h' =>
                match child_prop d n child with
                | Some c0 =>
                    explored h' d sibling child
                      (c0 :: ahead_of_child sibling child (children_of d n))
                | None => []
                end
            | 0 => []
            end)
    nodes.

Module DeepExample.

(** [<div><a></a><p><b><i></i></b></p></div>] *)
Definition doc : Document :=
  document_of
    (El "div" [] [El "a" [] []; El "p" [] [El "b" [] [El "i" [] []]]]).

End DeepExample.

Module InstanceExample.

(** A registry with one module, whose instances tell the options they were
    made with. *)
Definition modules : gmap string (View.ModuleValue string nat) :=
  {[ "Dom"%string :=
       View.Constructor _ _
         (fun o => match o with
                   | Some 1 => "a Dom for 1"
                   | _ => "a Dom"
                   end)%string ]}.

End InstanceExample.

Module BlockExample.

(** [<div><p>a<font>sel</font>b</p></div>] *)
Definition doc : Document :=
  document_of
    (El "div" [] [El "p" [] [Txt "a"; El "font" [] [Txt "sel"]; Txt "b"]]).

Definition heading : Style := mkStyle "h1" "span" true None.

End BlockExample.

(** ** Describing the fragments of [unwrapChildren] *)

(** The nodes that lie inside the first child of a node, among the nodes
    below the children [kids]: those below the first of [kids], and, for
    each later one, those that lie inside a first child among its
    children; [h] bounds the depth. *)
Fixpoint inside_first (h : nat) (d : Document) (kids : list NodeId)
  : list NodeId :=
  match kids, h with
  | first :: others, S h' =>
      flat_map (subtree h' d) (children_of d first)
      ++ flat_map (fun nx => inside_first h' d (children_of d nx)) others
  | _, _ => []
  end.

Definition inside_first_children (d : Document) (font : NodeId)
  : list NodeId :=
  inside_first (length d) d (children_of d font).

(** ** Describing [toggleStyles] *)


(** * Properties *)

(** ** Running the monad *)

Lemma bind_Ok {C A B} (m : M C A) (k : A -> M C B) c d a c' d' :
  m c d = Ok (a, c', d') -> bind m k c d = k a c' d'.
Proof. intros H. unfold bind. by rewrite H. Qed.

Lemma bind_inv {C A B} (m : M C A) (k : A -> M C B) c d r :
  bind m k c d = Ok r ->
  exists a c' d', m c d = Ok (a, c', d') /\ k a c' d' = Ok r.
Proof.
  unfold bind. destruct (m c d) as [[[a c'] d']| |]; try discriminate.
  intros H. by exists a, c', d'.
Qed.

Lemma bind_read {C A B} (f : Document -> A) (k : A -> M C B) c d :
  bind (read f) k c d = k (f d) c d.
Proof. reflexivity. Qed.

Lemma bind_ret {C A B} (a : A) (k : A -> M C B) c d :
  bind (ret a) k c d = k a c d.
Proof. reflexivity. Qed.

Lemma bind_write {C B} (f : Document -> Document) (k : unit -> M C B) c d :
  bind (write f) k c d = k tt c (f d).
Proof. reflexivity. Qed.

(** ** Reading a document after an update *)

Section Lookup.
Implicit Types (d : Document) (n m p q : NodeId).

Lemma parent_of_alter_children d n m f :
  parent_of (alter (fun nd => with_children (f nd) nd) n d) m = parent_of d m.
Proof.
  unfold parent_of. destruct (decide (n = m)) as [->|Hne].
  - rewrite list_lookup_alter_eq. destruct (d !! m); reflexivity.
  - by rewrite list_lookup_alter_ne.
Qed.

Lemma children_of_alter_parent d n m x :
  children_of (alter (with_parent x) n d) m = children_of d m.
Proof.
  unfold children_of. destruct (decide (n = m)) as [->|Hne].
  - rewrite list_lookup_alter_eq. destruct (d !! m); reflexivity.
  - by rewrite list_lookup_alter_ne.
Qed.

Lemma parent_of_alter_parent d n m x :
  parent_of (alter (with_parent x) n d) m =
  if decide (m = n) then (if d !! n is Some _ then x else None) else parent_of d m.
Proof.
  unfold parent_of. destruct (decide (m = n)) as [->|Hne].
  - rewrite list_lookup_alter_eq. destruct (d !! n); reflexivity.
  - by rewrite list_lookup_alter_ne.
Qed.

Lemma children_of_alter_children d n m f :
  children_of (alter (fun nd => with_children (f nd) nd) n d) m =
  if decide (m = n)
  then from_option (fun nd => f nd) [] (d !! n)
  else children_of d m.
Proof.
  unfold children_of. destruct (decide (m = n)) as [->|Hne].
  - rewrite list_lookup_alter_eq. destruct (d !! n); reflexivity.
  - by rewrite list_lookup_alter_ne.
Qed.

Lemma type_of_alter d n m f :
  (forall nd, nodeType (f nd) = nodeType nd) ->
  type_of (alter f n d) m = type_of d m.
Proof.
  intros Hf. unfold type_of. destruct (decide (n = m)) as [->|Hne].
  - rewrite list_lookup_alter_eq. destruct (d !! m); simpl; by rewrite ?Hf.
  - by rewrite list_lookup_alter_ne.
Qed.

Lemma parent_of_Some_lookup d n p : parent_of d n = Some p -> is_Some (d !! n).
Proof. unfold parent_of. destruct (d !! n); [eauto | discriminate]. Qed.

(** *** [unlink] *)

Lemma parent_of_unlink d n m :
  parent_of (unlink d n) m = if decide (m = n) then None else parent_of d m.
Proof.
  unfold unlink. destruct (parent_of d n) as [p|] eqn:Hp.
  - rewrite parent_of_alter_parent. destruct (decide (m = n)) as [->|Hne].
    + by destruct (_ !! n).
    + apply parent_of_alter_children.
  - destruct (decide (m = n)) as [->|]; done.
Qed.

Lemma children_of_unlink d n q :
  children_of (unlink d n) q =
  if decide (parent_of d n = Some q) then remove_id n (children_of d q)
  else children_of d q.
Proof.
  unfold unlink. destruct (parent_of d n) as [p|] eqn:Hp.
  - rewrite children_of_alter_parent, children_of_alter_children.
    destruct (decide (q = p)) as [->|Hne].
    + rewrite decide_True by done. unfold children_of. by destruct (d !! p).
    + rewrite decide_False; [done | congruence].
  - by rewrite decide_False.
Qed.

Lemma type_of_unlink d n m : type_of (unlink d n) m = type_of d m.
Proof.
  unfold unlink. destruct (parent_of d n); [|done].
  rewrite !type_of_alter; done.
Qed.

Lemma length_unlink d n : length (unlink d n) = length d.
Proof.
  unfold unlink. destruct (parent_of d n); [|done].
  by rewrite !length_alter.
Qed.

Lemma lookup_unlink_is_Some d n m : is_Some (unlink d n !! m) <-> is_Some (d !! m).
Proof. rewrite !lookup_lt_is_Some. by rewrite length_unlink. Qed.

(** *** [link] *)

Lemma parent_of_link d p n ref m :
  is_Some (d !! n) ->
  parent_of (link d p n ref) m =
  if decide (m = n) then Some p else parent_of d m.
Proof.
  intros [nd Hn]. unfold link. rewrite parent_of_alter_parent.
  destruct (decide (m = n)) as [->|Hne].
  - destruct (alter _ p d !! n) eqn:E; [done|].
    apply lookup_ge_None in E. rewrite length_alter in E.
    apply lookup_lt_Some in Hn. lia.
  - apply parent_of_alter_children.
Qed.

Lemma children_of_link d p n ref q :
  is_Some (d !! p) ->
  children_of (link d p n ref) q =
  if decide (q = p) then place n ref (children_of d p) else children_of d q.
Proof.
  intros [nd Hp]. unfold link.
  rewrite children_of_alter_parent, children_of_alter_children.
  destruct (decide (q = p)) as [->|]; [|done].
  unfold children_of. by rewrite Hp.
Qed.

Lemma type_of_link d p n ref m : type_of (link d p n ref) m = type_of d m.
Proof. unfold link. rewrite !type_of_alter; done. Qed.

Lemma length_link d p n ref : length (link d p n ref) = length d.
Proof. unfold link. by rewrite !length_alter. Qed.

End Lookup.
(** ** What code may do to the closure state *)

Section Respects.
Context {C : Type} (R : C -> C -> Prop) `{!PreOrder R}.

(** Every run of [m] that completes relates the closure state it starts
    from to the one it ends with. *)
Definition respects {A} (m : M C A) : Prop :=
  forall c d a c' d', m c d = Ok (a, c', d') -> R c c'.

Lemma respects_ret {A} (a : A) : respects (ret a).
Proof. intros c d a' c' d' [= _ <- _]. reflexivity. Qed.

Lemma respects_bind {A B} (m : M C A) (k : A -> M C B) :
  respects m -> (forall a, respects (k a)) -> respects (bind m k).
Proof.
  intros Hm Hk c d b c' d' H.
  apply bind_inv in H as (a & c1 & d1 & H1 & H2).
  etransitivity; [eapply Hm | eapply Hk]; eauto.
Qed.

Lemma respects_read {A} (f : Document -> A) : respects (read f).
Proof. intros c d a' c' d' [= _ <- _]. reflexivity. Qed.

Lemma respects_write (f : Document -> Document) : respects (write f).
Proof. intros c d a' c' d' [= _ <- _]. reflexivity. Qed.

Lemma respects_throw {A} e : respects (throw (A := A) e).
Proof. intros c d a' c' d' [=]. Qed.

Lemma respects_out_of_fuel {A} : respects (out_of_fuel (A := A)).
Proof. intros c d a' c' d' [=]. Qed.

Lemma respects_alloc nd : respects (alloc nd).
Proof. intros c d a' c' d' [= _ <- _]. reflexivity. Qed.

Lemma respects_scoped {C' A} (c0 : C') (m : M C' A) : respects (scoped c0 m).
Proof.
  intros c d a' c' d'. unfold scoped.
  destruct (m c0 d) as [[[? ?] ?]| |]; intros [=]. subst. reflexivity.
Qed.

Lemma respects_forEach {A} (l : list A) (f : A -> M C unit) :
  (forall x, respects (f x)) -> respects (forEach l f).
Proof.
  intros Hf. induction l as [|x l IH]; simpl.
  - apply respects_ret.
  - apply respects_bind; auto.
Qed.

End Respects.

Create HintDb respects discriminated.
#[global] Hint Resolve respects_ret respects_read respects_write
  respects_throw respects_out_of_fuel respects_alloc respects_scoped
  : respects.

(** One step of a proof of [respects]: the rule for the head of the code. *)
Ltac respects_step :=
  match goal with
  | |- respects _ _ => solve [eauto with respects typeclass_instances]
  | |- respects _ (bind _ _) =>
      apply respects_bind; [typeclasses eauto | | intros ?]
  | |- respects _ (forEach _ _) =>
      apply respects_forEach; [typeclasses eauto | intros ?]
  | |- respects _ (match ?x with _ => _ end) => destruct x
  | |- respects _ (if ?b then _ else _) => destruct b
  | |- respects _ (let _ := _ in _) => cbv zeta
  end.

Ltac respects_tac := repeat respects_step.

Section RespectsDom.
Context {C : Type} (R : C -> C -> Prop) `{!PreOrder R}.

Lemma respects_insertBefore p n ref : respects R (insertBefore p n ref).
Proof. unfold insertBefore. respects_tac. Qed.

Lemma respects_appendChild p n : respects R (appendChild p n).
Proof. apply respects_insertBefore. Qed.

Lemma respects_removeChild p c : respects R (removeChild p c).
Proof. unfold removeChild. respects_tac. Qed.

Lemma respects_replaceChild p new old : respects R (replaceChild p new old).
Proof. unfold replaceChild. respects_tac. Qed.

Lemma respects_createElement tag : respects R (createElement tag).
Proof. apply respects_alloc; typeclasses eauto. Qed.

Lemma respects_createDocumentFragment : respects R createDocumentFragment.
Proof. apply respects_alloc; typeclasses eauto. Qed.

Hint Resolve respects_insertBefore respects_appendChild respects_removeChild
  respects_replaceChild respects_createElement
  respects_createDocumentFragment : respects.

Lemma respects_css_set elm property value :
  respects R (css_set elm property value).
Proof. unfold css_set. respects_tac. Qed.

Lemma respects_find fuel :
  (forall node condition root recurse sibling child,
      (forall o, respects R (condition o)) ->
      respects R (Dom.find fuel node condition root recurse sibling child))
  /\ (forall start condition root sibling child,
      (forall o, respects R (condition o)) ->
      respects R (Dom.find_loop fuel start condition root sibling child)).
Proof.
  induction fuel as [|fuel [IHfind IHloop]]; split; intros; simpl;
    respects_tac; auto with respects.
Qed.



Lemma respects_find_cond fuel node condition root recurse sibling child :
  (forall o, respects R (condition o)) ->
  respects R (Dom.find fuel node condition root recurse sibling child).
Proof. apply respects_find. Qed.

Lemma respects_next fuel node condition root withChild :
  (forall o, respects R (condition o)) ->
  respects R (Dom.next fuel node condition root withChild).
Proof. apply respects_find. Qed.

Lemma respects_prev fuel node condition root withChild :
  (forall o, respects R (condition o)) ->
  respects R (Dom.prev fuel node condition root withChild).
Proof. apply respects_find. Qed.

Lemma respects_up fuel node condition root :
  (forall o, respects R (condition o)) ->
  respects R (Dom.up fuel node condition root).
Proof.
  intros Hc. unfold Dom.up. revert node.
  induction fuel as [|fuel IH]; intros node; simpl; respects_tac.
Qed.

Lemma respects_closest fuel node tags root :
  (forall c o, tags = Dom.Condition c -> respects R (c o)) ->
  respects R (Dom.closest fuel node tags root).
Proof.
  intros Hc. unfold Dom.closest. apply respects_up.
  intros o. destruct tags; [| |by eapply Hc]; respects_tac.
Qed.

Lemma respects_safeRemove node : respects R (Dom.safeRemove node).
Proof. unfold Dom.safeRemove. respects_tac. Qed.

Lemma respects_unwrap_loop fuel parent node :
  respects R (Dom.unwrap_loop fuel parent node).
Proof. induction fuel as [|fuel IH]; simpl; respects_tac. Qed.

Hint Resolve respects_safeRemove respects_unwrap_loop : respects.

Lemma respects_unwrap fuel node : respects R (Dom.unwrap fuel node).
Proof. unfold Dom.unwrap. respects_tac. Qed.

Lemma respects_replace_loop fuel elm tag :
  respects R (Dom.replace_loop fuel elm tag).
Proof. induction fuel as [|fuel IH]; simpl; respects_tac. Qed.

Hint Resolve respects_unwrap respects_replace_loop : respects.

Lemma respects_replace fuel elm newTagName withAttributes notMoveContent :
  respects R (Dom.replace fuel elm newTagName withAttributes notMoveContent).
Proof. unfold Dom.replace. respects_tac. Qed.

Lemma respects_after elm newElement : respects R (Dom.after elm newElement).
Proof. unfold Dom.after. respects_tac. Qed.

Lemma respects_each fuel :
  (forall elm callback,
      (forall n, respects R (callback n)) ->
      respects R (Dom.each fuel elm callback))
  /\ (forall elm callback node,
      (forall n, respects R (callback n)) ->
      respects R (Dom.each_loop fuel elm callback node)).
Proof.
  induction fuel as [|fuel [IHeach IHloop]]; split; intros; simpl;
    respects_tac; auto with respects.
  apply respects_next. intros o. apply respects_ret. typeclasses eauto.
Qed.

(** The browser's ranges. *)

Lemma respects_boundary after node k :
  (forall bp, respects R (k bp)) -> respects R (Range.boundary after node k).
Proof. intros Hk. unfold Range.boundary. respects_tac. Qed.

Lemma respects_setStartBefore r node : respects R (Range.setStartBefore r node).
Proof. apply respects_boundary. intros; respects_tac. Qed.

Lemma respects_setStartAfter r node : respects R (Range.setStartAfter r node).
Proof. apply respects_boundary. intros; respects_tac. Qed.

Lemma respects_setEndBefore r node : respects R (Range.setEndBefore r node).
Proof. apply respects_boundary. intros; respects_tac. Qed.

Lemma respects_setEndAfter r node : respects R (Range.setEndAfter r node).
Proof. apply respects_boundary. intros; respects_tac. Qed.

Lemma respects_cloneNode node : respects R (Range.cloneNode node).
Proof. unfold Range.cloneNode. respects_tac. Qed.

Hint Resolve respects_cloneNode : respects.

Lemma respects_extract fuel s e : respects R (Range.extract fuel s e).
Proof.
  revert s e. induction fuel as [|fuel IH]; intros s e; simpl; respects_tac.
Qed.

Hint Resolve respects_extract : respects.

Lemma respects_extractContents fuel r :
  respects R (Range.extractContents fuel r).
Proof. unfold Range.extractContents. respects_tac. Qed.

Lemma respects_insertNode r node : respects R (Range.insertNode r node).
Proof. unfold Range.insertNode. respects_tac. Qed.

End RespectsDom.

#[global] Hint Resolve respects_insertBefore respects_appendChild
  respects_removeChild respects_replaceChild respects_createElement
  respects_createDocumentFragment respects_css_set respects_safeRemove
  respects_unwrap respects_replace respects_after respects_setStartBefore
  respects_setStartAfter respects_setEndBefore respects_setEndAfter
  respects_extractContents respects_insertNode : respects.

(** ** The mode of the style applicator *)

(** Once the mode is set, it keeps its value. *)
Definition mode_held (c c' : ApplyStyle.State) : Prop :=
  forall m, ApplyStyle.mode_ c = Some m -> ApplyStyle.mode_ c' = Some m.

#[global] Instance mode_held_preorder : PreOrder mode_held.
Proof.
  split.
  - intros c m H. exact H.
  - intros c1 c2 c3 H12 H23 m H. apply H23, H12, H.
Qed.

Section ModeHeld.
Import ApplyStyle.

Variable jodit : IJodit.
Variable style : Style.
Variable normalizeNode : option NodeId -> Document -> Document.

Lemma respects_get_mode : respects mode_held get_mode.
Proof. intros c d a c' d' [= _ <- _]. reflexivity. Qed.

(** The only assignments to [mode]: [if (this.mode === undefined)
    this.mode = m], and [if (!this.mode) this.mode = mode.WRAP]. *)
Lemma respects_set_mode_if_unset (m : mode) :
  respects mode_held
    (let* cur := get_mode in
     match cur with
     | None => set_mode m
     | Some _ => ret tt
     end).
Proof.
  intros c d a c' d'. unfold bind, get_mode, get, set_mode, modify, ret; simpl.
  destruct (mode_ c) eqn:E; intros [= _ <- _]; intros m' Hm'; congruence.
Qed.

Lemma respects_set_mode_if_unset_then {A} (m : mode) (k : M State A) :
  respects mode_held k ->
  respects mode_held
    (let* cur := get_mode in
     match cur with
     | None => set_mode m
     | Some _ => ret tt
     end ;; k).
Proof.
  intros Hk c d a c' d'.
  unfold bind, get_mode, get, set_mode, modify, ret; simpl.
  destruct (mode_ c) eqn:E; intros H; apply Hk in H.
  - exact H.
  - intros m' Hm'. congruence.
Qed.

Lemma respects_save : respects mode_held save.
Proof. intros c d a c' d' [= _ <- _]. intros m H. exact H. Qed.

Lemma respects_restore m : respects mode_held (restore m).
Proof. intros c d a c' d' [= _ <- _]. intros m' H. exact H. Qed.

Hint Resolve respects_get_mode respects_set_mode_if_unset respects_save
  respects_restore : respects.

Lemma respects_condition f o :
  respects mode_held (condition (C := State) f o).
Proof. unfold condition. respects_tac. Qed.

Hint Resolve respects_condition : respects.

Lemma respects_toggleStyles fuel elm :
  respects mode_held (toggleStyles style fuel elm).
Proof. unfold toggleStyles. respects_tac. Qed.

Hint Resolve respects_toggleStyles : respects.

Lemma respects_checkSuitableParent fuel font :
  respects mode_held (checkSuitableParent jodit style fuel font).
Proof.
  unfold checkSuitableParent. respects_tac;
    (apply respects_next || apply respects_prev);
    (typeclasses eauto || auto with respects).
Qed.

Lemma respects_checkSuitableChild fuel font :
  respects mode_held (checkSuitableChild jodit style fuel font).
Proof.
  unfold checkSuitableChild. respects_tac;
    (apply respects_next || apply respects_prev);
    (typeclasses eauto || auto with respects).
Qed.

Lemma respects_unwrapEmptyRemainder fuel fragment :
  respects mode_held (unwrapEmptyRemainder fuel fragment).
Proof. unfold unwrapEmptyRemainder. respects_tac. Qed.

Hint Resolve respects_unwrapEmptyRemainder : respects.

Lemma respects_checkClosestWrapper fuel font :
  respects mode_held (checkClosestWrapper jodit style fuel font).
Proof.
  unfold checkClosestWrapper. respects_tac.
  apply respects_closest; [typeclasses eauto|].
  intros c o [= <-]. auto with respects.
Qed.

Lemma respects_unwrapChildren fuel font :
  respects mode_held (unwrapChildren jodit style fuel font).
Proof. unfold unwrapChildren. respects_tac. Qed.

Lemma respects_wrapUnwrappedText fuel elm :
  respects mode_held (wrapUnwrappedText jodit style fuel elm).
Proof. unfold wrapUnwrappedText. respects_tac. Qed.

Hint Resolve respects_checkSuitableParent respects_checkSuitableChild
  respects_checkClosestWrapper respects_unwrapChildren
  respects_wrapUnwrappedText : respects.

Lemma respects_checks fuel font :
  respects mode_held (checks jodit style fuel font).
Proof. unfold checks. respects_tac. Qed.

Lemma respects_fallbackWrap fuel font :
  respects mode_held (fallbackWrap jodit style fuel font).
Proof.
  unfold fallbackWrap. respects_tac.
  apply respects_up; [typeclasses eauto | auto with respects].
Qed.

Hint Resolve respects_checks respects_fallbackWrap : respects.

Lemma respects_applyToElement fuel font :
  respects mode_held (applyToElement jodit style fuel font).
Proof.
  unfold applyToElement.
  apply respects_bind; [typeclasses eauto | auto with respects |].
  intros [|]; [respects_tac|].
  apply respects_set_mode_if_unset_then. respects_tac.
Qed.

Hint Resolve respects_applyToElement : respects.

Lemma respects_apply fuel selected :
  respects mode_held (apply jodit style normalizeNode fuel selected).
Proof. unfold apply, wrapInTag. respects_tac. Qed.

(** Under [UNWRAP] the fragment is not wrapped: [applyToElement] is the
    four checks and nothing more. *)
Lemma applyToElement_UNWRAP fuel font c d :
  mode_ c = Some UNWRAP ->
  applyToElement jodit style fuel font c d =
  (checks jodit style fuel font ;; ret tt) c d.
Proof.
  intros Hm. unfold applyToElement, bind at 1 5.
  destruct (checks jodit style fuel font c d) as [[[b c1] d1]| |] eqn:E;
    [|done..].
  destruct b; [done|].
  apply respects_checks in E. specialize (E _ Hm).
  unfold bind, get_mode, get, ret; simpl. rewrite E; simpl. by rewrite E.
Qed.

End ModeHeld.

(** A pass of the applicator over fragments, when the mode is set. *)
Lemma wrapInTag_mode_held jodit style fuel fragments c d c' d' m :
  ApplyStyle.mode_ c = Some m ->
  ApplyStyle.wrapInTag fragments (ApplyStyle.applyToElement jodit style fuel)
    c d = Ok (tt, c', d') ->
  ApplyStyle.mode_ c' = Some m.
Proof.
  intros Hm Hrun. unfold ApplyStyle.wrapInTag in Hrun.
  assert (respects mode_held
            (forEach fragments (ApplyStyle.applyToElement jodit style fuel)))
    as Hr.
  { apply respects_forEach; [typeclasses eauto|].
    intros font. apply respects_applyToElement. }
  exact (Hr _ _ _ _ _ Hrun _ Hm).
Qed.

Lemma wrapInTag_UNWRAP jodit style fuel fragments c d :
  ApplyStyle.mode_ c = Some UNWRAP ->
  ApplyStyle.wrapInTag fragments (ApplyStyle.applyToElement jodit style fuel)
    c d =
  ApplyStyle.wrapInTag fragments
    (fun font => ApplyStyle.checks jodit style fuel font ;; ret tt) c d.
Proof.
  revert c d. unfold ApplyStyle.wrapInTag.
  induction fragments as [|font rest IH]; intros c d Hm; [done|].
  cbn [forEach].
  set (step := ApplyStyle.checks jodit style fuel font ;; ret tt).
  transitivity
    (match step c d with
     | Ok (_, c1, d1) =>
         forEach rest (ApplyStyle.applyToElement jodit style fuel) c1 d1
     | Throw e => Throw e
     | OutOfFuel => OutOfFuel
     end).
  { unfold bind at 1. rewrite applyToElement_UNWRAP by done. reflexivity. }
  unfold bind at 1. fold step.
  destruct (step c d) as [[[[] c1] d1]| |] eqn:E; [|done..].
  apply IH.
  assert (respects mode_held step) as Hr.
  { apply respects_bind; [typeclasses eauto | apply respects_checks |].
    intros ?. apply respects_ret. typeclasses eauto. }
  by apply (Hr _ _ _ _ _ E).
Qed.

(** C1. In one pass of the style applicator over the fragments of a
    selection, once the field [mode] holds WRAP or UNWRAP no later
    per-fragment step gives it another value: it has that value after
    every further fragment.  In particular, when it holds UNWRAP, the rest
    of the pass consists of the four checks only: no later fragment
    reaches the fallback that wraps it. *)
Theorem mode_is_held_for_the_rest_of_the_pass
  (jodit : IJodit) (style : Style) (fuel : nat) (fragments : list NodeId)
  (c : ApplyStyle.State) (d : Document) (m : mode) :
  ApplyStyle.mode_ c = Some m ->
  (forall done later c' d',
      fragments = done ++ later ->
      ApplyStyle.wrapInTag done (ApplyStyle.applyToElement jodit style fuel)
        c d = Ok (tt, c', d') ->
      ApplyStyle.mode_ c' = Some m)
  /\ (m = UNWRAP ->
      ApplyStyle.wrapInTag fragments
        (ApplyStyle.applyToElement jodit style fuel) c d =
      ApplyStyle.wrapInTag fragments
        (fun font => ApplyStyle.checks jodit style fuel font ;; ret tt) c d).
Proof.
  intros Hm. split.
  - intros done later c' d' _ Hrun. by eapply wrapInTag_mode_held.
  - intros ->. by apply wrapInTag_UNWRAP.
Qed.


Lemma mode_is_held_witness :
  outerHTML ModeExample.after_first.2 0
  = "<p><font>a</font><font>b</font><em><font>c</font></em></p>"%string
  /\ ApplyStyle.mode_ ModeExample.after_first.1 = Some UNWRAP
  /\ ApplyStyle.mode_ ModeExample.after_all.1 = Some UNWRAP
  /\ outerHTML ModeExample.after_all.2 0
     = "<p><font>a</font><font>b</font><em><font>c</font></em></p>"%string.
Proof.
  split; [vm_compute; reflexivity|].
  split; [vm_compute; reflexivity|].
  split; [|vm_compute; reflexivity].
  refine (proj1 (mode_is_held_for_the_rest_of_the_pass
            ModeExample.jodit ModeExample.bold ModeExample.fuel [4; 7]
            ModeExample.after_first.1 ModeExample.after_first.2 UNWRAP _)
            [4; 7] [] _ _ _ _).
  - vm_compute; reflexivity.
  - reflexivity.
  - vm_compute; reflexivity.
Defined.

(** ** [isSuitableElement] *)

Section Suitable.
Variable jodit : IJodit.
Variable style : Style.

Lemma elementHasSameStyle_spec d elm :
  ApplyStyle.elementHasSameStyle d elm (options_style style) = true <->
  exists rules,
    options_style style = Some rules
    /\ Dom.isTag d (Some elm) "font" = false
    /\ Dom.isHTMLElement d (Some elm) = true
    /\ SuitableSpec.carries_every_pair_of rules d elm.
Proof.
  unfold ApplyStyle.elementHasSameStyle, SuitableSpec.carries_every_pair_of.
  destruct (options_style style) as [rules|]; [|split; [done|]].
  2: { by intros (rules & [=] & _). }
  rewrite !andb_true_iff, negb_true_iff, forallb_forall.
  split.
  - intros [[Hfont Hhtml] Hall]. exists rules. repeat split; [done..| |].
    + apply list_elem_of_In, Hall in H. simpl in H.
      apply andb_true_iff in H as [H _].
      apply negb_true_iff, bool_decide_eq_false in H. done.
    + apply list_elem_of_In, Hall in H. simpl in H.
      apply andb_true_iff in H as [_ H].
      destruct value as [v|]; [|done].
      exists v. split; [done|]. by apply bool_decide_eq_true in H.
  - intros (rules' & [= <-] & Hfont & Hhtml & Hall). repeat split; [done..|].
    intros [property value] Hin. apply list_elem_of_In, Hall in Hin.
    destruct Hin as [Hne (v & -> & Heq)]. simpl.
    apply andb_true_iff. split.
    + by apply negb_true_iff, bool_decide_eq_false.
    + by apply bool_decide_eq_true.
Qed.

Lemma isNormalNode_spec d elm :
  ApplyStyle.isNormalNode jodit d (Some elm) = true <->
  isMarker jodit d elm = false /\ Dom.isEmptyTextNode d elm = false.
Proof.
  unfold ApplyStyle.isNormalNode.
  rewrite andb_true_iff, !negb_true_iff. tauto.
Qed.

(** C3, amended. [isSuitableElement] is false for [null]; for a node it is
    true exactly when the tag is the target tag and the target tag is not
    the default one or the test is not strict, or when the style has a
    property map, the node is an HTML element other than [<font>] that
    carries every pair of the map with a non-empty value (compared without
    regard to case), and is neither a marker nor an empty text node. *)
Theorem isSuitableElement_iff (d : Document) (strict : bool) :
  ApplyStyle.isSuitableElement jodit style d None strict = false
  /\ forall elm,
      ApplyStyle.isSuitableElement jodit style d (Some elm) strict = true
      <-> SuitableSpec.suitable_amended jodit style d elm strict.
Proof.
  split; [done|]. intros elm.
  unfold ApplyStyle.isSuitableElement, SuitableSpec.suitable_amended.
  rewrite orb_true_iff, !andb_true_iff, orb_true_iff, !negb_true_iff.
  rewrite bool_decide_eq_false, bool_decide_eq_true.
  rewrite elementHasSameStyle_spec, isNormalNode_spec.
  split.
  - intros [H|[(rules & H1 & H2 & H3 & H4) [H5 H6]]]; [by left|].
    right. by exists rules.
  - intros [H|(rules & H1 & H2 & H3 & H4 & H5 & H6)]; [by left|].
    right. split; [|done]. by exists rules.
Qed.

End Suitable.

(** C3, as stated, fails: for the style "span with color red" a
    [<font style='color:red;'>] carries the one pair the style specifies
    and is neither a marker nor an empty text node, yet it is not suitable,
    because [elementHasSameStyle] leaves [<font>] elements out. *)
Lemma isSuitableElement_rejects_font :
  let d := document_of (El "font" [("color", "red")] [Txt "text"]) in
  let red := mkStyle "span" "span" false (Some [("color", Some "red")]) in
  let jodit := mkJodit 0 0 (fun _ _ => false) in
  ~ (ApplyStyle.isSuitableElement jodit red d (Some 0) true = true
     <-> SuitableSpec.suitable jodit red d 0 true).
Proof.
  intros d red jodit [_ H].
  assert (ApplyStyle.isSuitableElement jodit red d (Some 0) true = true)
    as Habs; [|by vm_compute in Habs].
  apply H. right. split; [|by vm_compute].
  intros property value Hin. simpl in Hin.
  apply list_elem_of_singleton in Hin as [= -> ->].
  exists "red"%string. split; reflexivity.
Qed.

(** Likewise for bold (tag [strong], no property map): an [<em>] element
    carries every pair the style specifies, there being none, and is not
    suitable. *)
Example isSuitableElement_needs_a_property_map :
  let d := document_of (El "em" [] [Txt "text"]) in
  let bold := mkStyle "strong" "span" false None in
  let jodit := mkJodit 0 0 (fun _ _ => false) in
  ~ (ApplyStyle.isSuitableElement jodit bold d (Some 0) true = true
     <-> SuitableSpec.suitable jodit bold d 0 true).
Proof.
  intros d bold jodit [_ H].
  assert (ApplyStyle.isSuitableElement jodit bold d (Some 0) true = true)
    as Habs; [|by vm_compute in Habs].
  apply H. right. split; [|by vm_compute].
  intros property value Hin. by apply elem_of_nil in Hin.
Qed.

(** ** [View.getInstance] *)

Section GetInstance.
Context {Component Options : Type}.
Implicit Types (modules : gmap string (View.ModuleValue Component Options))
  (mi : gmap string Component) (options : option Options).

(** [core/view/view.ts] raises exactly when the name does not resolve to a
    constructor function. *)
Lemma getInstance_raises_iff modules moduleName options mi :
  (exists e, View.getInstance _ _ modules moduleName options mi = Throw e)
  <-> View.isFunction _ _ (modules !! moduleName) = false.
Proof.
  unfold View.getInstance.
  destruct (modules !! moduleName) as [[make|]|] eqn:E; simpl.
  - split; [|done]. intros [e H]. by destruct (mi !! moduleName).
  - split; [done|]. intros _. by eexists.
  - split; [done|]. intros _. by eexists.
Qed.

(** For a registered constructor the instance is made on the first request
    and kept. *)
Lemma getInstance_registered modules moduleName options mi make :
  modules !! moduleName = Some (View.Constructor _ _ make) ->
  exists instance mi',
    View.getInstance _ _ modules moduleName options mi = Ok (instance, mi')
    /\ mi' !! moduleName = Some instance
    /\ match mi !! moduleName with
       | Some cached => instance = cached /\ mi' = mi
       | None => instance = make options /\ mi' = <[moduleName := instance]> mi
       end
    /\ forall options',
        View.getInstance _ _ modules moduleName options' mi'
        = Ok (instance, mi').
Proof.
  intros Hreg. unfold View.getInstance. rewrite Hreg. simpl.
  destruct (mi !! moduleName) as [cached|] eqn:E.
  - exists cached, mi. rewrite E. by repeat split.
  - exists (make options), (<[moduleName := make options]> mi).
    rewrite lookup_insert_eq. by repeat split.
Qed.

(** [modules/view/view.ts] raises for every name: for a constructor by its
    own test, for anything else when it calls what is no function. *)
Lemma getInstance_modules_view_raises modules moduleName options mi :
  mi !! moduleName = None ->
  exists e,
    View.getInstance_modules_view _ _ modules moduleName options mi = Throw e.
Proof.
  intros Hmi. unfold View.getInstance_modules_view. rewrite Hmi.
  destruct (modules !! moduleName) as [[make|]|]; simpl; by eexists.
Qed.

End GetInstance.

(** C9. [View.getInstance] of [modules/view/view.ts], asked for a module
    that is registered with a constructor function, raises "Need real
    module name": its test of the registry is the negation of the one in
    [core/view/view.ts], which returns the instance. *)
Theorem getInstance_modules_view_rejects_registered_module :
  let modules : gmap string (View.ModuleValue string unit) :=
    {[ "Dom"%string := View.Constructor _ _ (fun _ => "a Dom"%string) ]} in
  View.getInstance_modules_view _ _ modules "Dom" None ∅
  = Throw (JoditError "Need real module name")
  /\ View.getInstance _ _ modules "Dom" None ∅
     = Ok ("a Dom"%string, {[ "Dom"%string := "a Dom"%string ]}).
Proof. split; vm_compute; reflexivity. Qed.

(** ** Lists of children *)

Section ChildLists.
Implicit Types (l pre post : list NodeId) (n x r : NodeId).

Lemma remove_id_app n l1 l2 :
  remove_id n (l1 ++ l2) = remove_id n l1 ++ remove_id n l2.
Proof. unfold remove_id. apply filter_app. Qed.

Lemma remove_id_notin n l : n ∉ l -> remove_id n l = l.
Proof.
  unfold remove_id. induction l as [|x l IH]; intros Hn; [done|].
  apply not_elem_of_cons in Hn as [Hne Hn].
  rewrite filter_cons_True by congruence. by rewrite IH.
Qed.

Lemma remove_id_cons_eq n l : remove_id n (n :: l) = remove_id n l.
Proof. unfold remove_id. by rewrite filter_cons_False by (intros H; by apply H). Qed.

Lemma remove_id_cons_ne n x l :
  x <> n -> remove_id n (x :: l) = x :: remove_id n l.
Proof. intros. unfold remove_id. by rewrite filter_cons_True. Qed.

Lemma remove_id_middle n pre post :
  n ∉ pre -> n ∉ post -> remove_id n (pre ++ n :: post) = pre ++ post.
Proof.
  intros H1 H2.
  by rewrite remove_id_app, remove_id_cons_eq, !remove_id_notin.
Qed.

Lemma elem_of_remove_id n x l : x ∈ remove_id n l <-> x ∈ l /\ x <> n.
Proof. unfold remove_id. rewrite list_elem_of_filter. tauto. Qed.

Lemma NoDup_remove_id n l : NoDup l -> NoDup (remove_id n l).
Proof. apply NoDup_filter. Qed.

Lemma insert_at_middle x r pre post :
  r ∉ pre -> insert_at x r (pre ++ r :: post) = pre ++ x :: r :: post.
Proof.
  induction pre as [|y pre IH]; intros Hr; simpl.
  - by rewrite decide_True.
  - apply not_elem_of_cons in Hr as [Hne Hr].
    rewrite decide_False by congruence. by rewrite IH.
Qed.

Lemma after_in_middle n pre post :
  n ∉ pre -> after_in n (pre ++ n :: post) = head post.
Proof.
  induction pre as [|y pre IH]; intros Hn; simpl.
  - by rewrite decide_True.
  - apply not_elem_of_cons in Hn as [Hne Hn].
    rewrite decide_False by congruence. by apply IH.
Qed.

Lemma after_in_last n pre : n ∉ pre -> after_in n (pre ++ [n]) = None.
Proof. intros. by rewrite after_in_middle. Qed.

End ChildLists.

(** ** Well-formed documents, as propositions *)

Lemma out_of_range d n :
  length d <= n ->
  d !! n = None /\ parent_of d n = None /\ children_of d n = []
  /\ type_of d n = None.
Proof.
  intros Hn. apply lookup_ge_None in Hn.
  unfold parent_of, children_of, type_of. by rewrite Hn.
Qed.

Lemma wf_node_at d n : wf d = true -> n < length d -> wf_node d n = true.
Proof.
  unfold wf. rewrite forallb_forall. intros H Hn. apply H.
  apply in_seq. lia.
Qed.

Lemma wf_WF d : wf d = true -> WF d.
Proof.
  intros Hwf.
  assert (forall n, n < length d -> wf_node d n = true) as Hn
    by (intros; by apply wf_node_at).
  assert (forall n, n < length d \/ length d <= n) as Hcase by (intros; lia).
  split.
  - intros n c Hc. destruct (Hcase n) as [Hlt|Hge].
    + specialize (Hn n Hlt). unfold wf_node in Hn.
      rewrite !andb_true_iff in Hn. destruct Hn as [[[[[H _] _] _] _] _].
      rewrite forallb_forall in H. apply list_elem_of_In, H in Hc.
      by apply bool_decide_eq_true in Hc.
    + apply out_of_range in Hge as (_ & _ & E & _). rewrite E in Hc.
      by apply elem_of_nil in Hc.
  - intros n p Hp. destruct (Hcase n) as [Hlt|Hge].
    + specialize (Hn n Hlt). unfold wf_node in Hn.
      rewrite !andb_true_iff in Hn. destruct Hn as [[[[[_ H] _] _] _] _].
      rewrite Hp in H. by apply bool_decide_eq_true in H.
    + apply out_of_range in Hge as (_ & E & _). congruence.
  - intros n. destruct (Hcase n) as [Hlt|Hge].
    + specialize (Hn n Hlt). unfold wf_node in Hn.
      rewrite !andb_true_iff in Hn. destruct Hn as [[[[_ H] _] _] _].
      by apply bool_decide_eq_true in H.
    + apply out_of_range in Hge as (_ & _ & E & _). rewrite E. constructor.
  - intros n Hlt. specialize (Hn n Hlt). unfold wf_node in Hn.
    rewrite !andb_true_iff in Hn. destruct Hn as [[[_ H] _] _].
    by apply bool_decide_eq_true in H.
  - intros n Ht. destruct (Hcase n) as [Hlt|Hge].
    + specialize (Hn n Hlt). unfold wf_node in Hn.
      rewrite !andb_true_iff in Hn. destruct Hn as [[_ H] _].
      rewrite bool_decide_eq_true_2 in H by done.
      by apply bool_decide_eq_true in H.
    + by apply out_of_range in Hge as (_ & _ & E & _).
  - intros n Ht. destruct (Hcase n) as [Hlt|Hge].
    + specialize (Hn n Hlt). unfold wf_node in Hn.
      rewrite !andb_true_iff in Hn. destruct Hn as [_ H].
      rewrite bool_decide_eq_true_2 in H by done.
      by apply bool_decide_eq_true in H.
    + by apply out_of_range in Hge as (_ & E & _).
Qed.

(** ** Ancestors *)

Section Ancestors.
Implicit Types (d : Document) (a n p c : NodeId) (k : nat).

Lemma nth_parent_add j k d n :
  nth_parent (j + k) d n = nth_parent j d n ≫= nth_parent k d.
Proof.
  revert n. induction j as [|j IH]; intros n; simpl; [done|].
  destruct (parent_of d n) as [p|]; simpl; [apply IH | done].
Qed.

Lemma nth_parent_S_r k d n :
  nth_parent (S k) d n = nth_parent k d n ≫= parent_of d.
Proof.
  replace (S k) with (k + 1) by lia. rewrite nth_parent_add.
  destruct (nth_parent k d n) as [x|]; simpl; [|done].
  by destruct (parent_of d x).
Qed.

Lemma nth_parent_None_mono j k d n :
  nth_parent j d n = None -> j <= k -> nth_parent k d n = None.
Proof.
  intros Hj Hle. replace k with (j + (k - j)) by lia.
  by rewrite nth_parent_add, Hj.
Qed.

Lemma nth_parent_cycle k d n m :
  nth_parent k d n = Some n -> nth_parent (m * k) d n = Some n.
Proof.
  intros Hk. induction m as [|m IH]; simpl; [done|].
  by rewrite nth_parent_add, Hk.
Qed.

Lemma WF_no_cycle d n k : WF d -> nth_parent k d n = Some n -> k = 0.
Proof.
  intros Hwf Hk. destruct k as [|k]; [done|]. exfalso.
  assert (n < length d) as Hn.
  { simpl in Hk. destruct (parent_of d n) as [p|] eqn:Hp; [|done].
    apply parent_of_Some_lookup, lookup_lt_is_Some in Hp. done. }
  pose proof (nth_parent_cycle _ _ _ (length d) Hk) as Hc.
  pose proof (WF_acyclic _ Hwf n Hn) as Ha.
  rewrite (nth_parent_None_mono (length d) (length d * S k) d n) in Hc;
    [done|done|nia].
Qed.

Lemma ancestor_or_self_refl d n : ancestor_or_self d n n.
Proof. by exists 0. Qed.

Lemma ancestor_or_self_parent d a n p :
  parent_of d n = Some p -> ancestor_or_self d a p -> ancestor_or_self d a n.
Proof. intros Hp [k Hk]. exists (S k). simpl. by rewrite Hp. Qed.

Lemma ancestor_or_self_inv d a n :
  ancestor_or_self d a n ->
  a = n \/ exists p, parent_of d n = Some p /\ ancestor_or_self d a p.
Proof.
  intros [[|k] Hk]; simpl in Hk.
  - left. congruence.
  - right. destruct (parent_of d n) as [p|]; [|done].
    exists p. split; [done|]. by exists k.
Qed.

(** A node is not above its parent. *)
Lemma WF_child_not_above d c p :
  WF d -> parent_of d c = Some p -> ~ ancestor_or_self d c p.
Proof.
  intros Hwf Hp [k Hk].
  assert (nth_parent (S k) d p = Some p) as Hc.
  { rewrite nth_parent_S_r, Hk. exact Hp. }
  by apply WF_no_cycle in Hc.
Qed.

Lemma WF_grandchild_not_above d c n p :
  WF d -> parent_of d c = Some n -> parent_of d n = Some p ->
  ~ ancestor_or_self d c p.
Proof.
  intros Hwf Hc Hn [k Hk].
  assert (nth_parent (S (S k)) d p = Some p) as Hcyc.
  { rewrite !nth_parent_S_r, Hk. simpl. by rewrite Hc. }
  by apply WF_no_cycle in Hcyc.
Qed.

(** A childless node is above itself only. *)
Lemma WF_childless_not_above d a n :
  WF d -> children_of d a = [] -> ancestor_or_self d a n -> a = n.
Proof.
  intros Hwf Ha [k Hk]. destruct k as [|k]; [simpl in Hk; congruence|].
  rewrite nth_parent_S_r in Hk.
  destruct (nth_parent k d n) as [x|]; [|done]. simpl in Hk.
  apply (WF_parent _ Hwf) in Hk. rewrite Ha in Hk.
  by apply elem_of_nil in Hk.
Qed.

Lemma elem_of_inclusive_ancestors fuel d a n :
  a ∈ inclusive_ancestors fuel d n <->
  exists k, k <= fuel /\ nth_parent k d n = Some a.
Proof.
  revert n. induction fuel as [|fuel IH]; intros n; simpl.
  - rewrite list_elem_of_singleton. split.
    + intros ->. exists 0. by split.
    + intros (k & Hk & H). assert (k = 0) as -> by lia. simpl in H. congruence.
  - rewrite elem_of_cons. split.
    + intros [->|H]; [exists 0; split; [lia|done]|].
      destruct (parent_of d n) as [p|] eqn:Hp; [|by apply elem_of_nil in H].
      apply IH in H as (k & Hk & H). exists (S k). split; [lia|].
      simpl. by rewrite Hp.
    + intros ([|k] & Hk & H); simpl in H; [left; congruence|].
      right. destruct (parent_of d n) as [p|] eqn:Hp; [|done].
      apply IH. exists k. split; [lia|done].
Qed.

Lemma contains_ancestor d a n :
  contains d a n = true -> ancestor_or_self d a n.
Proof.
  unfold contains. intros H. apply bool_decide_eq_true in H.
  apply elem_of_inclusive_ancestors in H as (k & _ & H). by exists k.
Qed.

Lemma contains_false d a n : ~ ancestor_or_self d a n -> contains d a n = false.
Proof.
  intros H. destruct (contains d a n) eqn:E; [|done].
  by apply contains_ancestor in E.
Qed.

Lemma WF_ancestor_contains d a n :
  WF d -> ancestor_or_self d a n -> contains d a n = true.
Proof.
  intros Hwf [k Hk]. unfold contains. apply bool_decide_eq_true.
  apply elem_of_inclusive_ancestors. exists k. split; [|done].
  destruct (decide (k <= length d)) as [|Hgt]; [done|]. exfalso.
  destruct (decide (n < length d)) as [Hn|Hn].
  - pose proof (WF_acyclic _ Hwf n Hn) as Ha.
    rewrite (nth_parent_None_mono (length d) k d n) in Hk; [done|done|lia].
  - destruct k as [|k]; [lia|]. simpl in Hk.
    assert (parent_of d n = None) as E by (apply out_of_range; lia).
    by rewrite E in Hk.
Qed.

(** The chain of ancestors only depends on the parents along it. *)
Lemma nth_parent_agree d d' n k :
  (forall x, ancestor_or_self d x n -> parent_of d' x = parent_of d x) ->
  nth_parent k d' n = nth_parent k d n.
Proof.
  revert n. induction k as [|k IH]; intros n Hagree; simpl; [done|].
  rewrite (Hagree n) by apply ancestor_or_self_refl.
  destruct (parent_of d n) as [p|] eqn:Hp; simpl; [|done].
  apply IH. intros x Hx. apply Hagree. by eapply ancestor_or_self_parent.
Qed.

Lemma ancestor_or_self_agree d d' a n :
  (forall x, ancestor_or_self d x n -> parent_of d' x = parent_of d x) ->
  ancestor_or_self d' a n -> ancestor_or_self d a n.
Proof. intros Hagree [k Hk]. exists k. by rewrite <- (nth_parent_agree d d'). Qed.

End Ancestors.

(** ** The browser's insertion, on well-formed documents *)

Section Insertion.
Context {C : Type}.
Implicit Types (d : Document) (n p q x : NodeId) (ref : option NodeId).

Lemma insertBefore_run p n ref (c : C) d :
  type_of d p <> Some TEXT_NODE ->
  ~ ancestor_or_self d n p ->
  (forall r, ref = Some r -> parent_of d r = Some p) ->
  insertBefore p n ref c d = Ok (n, c, pre_insert d p n ref).
Proof.
  intros Htext Hanc Href. unfold insertBefore, bind, read, pre_insert_validity.
  rewrite bool_decide_eq_false_2 by done.
  rewrite contains_false by done.
  destruct ref as [r|]; [|done].
  by rewrite bool_decide_eq_true_2 by (by apply Href).
Qed.

Lemma pre_insert_node d p n ref :
  type_of d n <> Some DOCUMENT_FRAGMENT_NODE -> ref <> Some n ->
  pre_insert d p n ref = insert_one p ref d n.
Proof.
  intros Hfrag Href. unfold pre_insert.
  rewrite bool_decide_eq_false_2 by done.
  destruct (type_of d n) as [[]|]; done.
Qed.

Lemma parent_of_insert_one d p n ref x :
  is_Some (d !! n) ->
  parent_of (insert_one p ref d n) x =
  if decide (x = n) then Some p else parent_of d x.
Proof.
  intros Hn. unfold insert_one.
  rewrite parent_of_link by (by apply lookup_unlink_is_Some).
  destruct (decide (x = n)); [done|].
  rewrite parent_of_unlink. by rewrite decide_False.
Qed.

Lemma children_of_insert_one d p n ref q :
  is_Some (d !! p) ->
  children_of (insert_one p ref d n) q =
  if decide (q = p) then place n ref (children_of (unlink d n) p)
  else children_of (unlink d n) q.
Proof.
  intros Hp. unfold insert_one.
  by rewrite children_of_link by (by apply lookup_unlink_is_Some).
Qed.

Lemma type_of_insert_one d p n ref x :
  type_of (insert_one p ref d n) x = type_of d x.
Proof. unfold insert_one. by rewrite type_of_link, type_of_unlink. Qed.

Lemma length_insert_one d p n ref :
  length (insert_one p ref d n) = length d.
Proof. unfold insert_one. by rewrite length_link, length_unlink. Qed.

Lemma type_of_is_Some d n t : type_of d n = Some t -> is_Some (d !! n).
Proof. unfold type_of. destruct (d !! n); [eauto|done]. Qed.

End Insertion.

(** ** Allocation keeps a document well formed *)

Section Alloc.
Implicit Types (d : Document) (n : NodeId) (nd : Node).

Lemma parent_of_alloc d nd n :
  parentNode nd = None -> parent_of (d ++ [nd]) n = parent_of d n.
Proof.
  intros Hnd. unfold parent_of.
  destruct (decide (n < length d)) as [Hlt|Hge].
  - by rewrite lookup_app_l.
  - rewrite (lookup_ge_None_2 d n) by lia.
    destruct (decide (n = length d)) as [->|Hne].
    + rewrite list_lookup_middle by done. simpl. done.
    + rewrite lookup_ge_None_2; [done|]. rewrite length_app. simpl. lia.
Qed.

Lemma children_of_alloc d nd n :
  childNodes nd = [] -> children_of (d ++ [nd]) n = children_of d n.
Proof.
  intros Hnd. unfold children_of.
  destruct (decide (n < length d)) as [Hlt|Hge].
  - by rewrite lookup_app_l.
  - rewrite (lookup_ge_None_2 d n) by lia.
    destruct (decide (n = length d)) as [->|Hne].
    + rewrite list_lookup_middle by done. simpl. done.
    + rewrite lookup_ge_None_2; [done|]. rewrite length_app. simpl. lia.
Qed.

Lemma type_of_alloc_old d nd n :
  n < length d -> type_of (d ++ [nd]) n = type_of d n.
Proof. intros. unfold type_of. by rewrite lookup_app_l. Qed.

Lemma type_of_alloc_new d nd :
  type_of (d ++ [nd]) (length d) = Some (nodeType nd).
Proof. unfold type_of. by rewrite list_lookup_middle. Qed.

Lemma nth_parent_alloc d nd n k :
  parentNode nd = None -> nth_parent k (d ++ [nd]) n = nth_parent k d n.
Proof.
  intros Hnd. revert n. induction k as [|k IH]; intros n; simpl; [done|].
  rewrite parent_of_alloc by done.
  destruct (parent_of d n); simpl; [apply IH | done].
Qed.

Lemma WF_alloc d nd :
  WF d -> parentNode nd = None -> childNodes nd = [] -> WF (d ++ [nd]).
Proof.
  intros Hwf Hp Hc. split.
  - intros n c. rewrite children_of_alloc, parent_of_alloc by done.
    apply (WF_child _ Hwf).
  - intros n p. rewrite children_of_alloc, parent_of_alloc by done.
    apply (WF_parent _ Hwf).
  - intros n. rewrite children_of_alloc by done. apply (WF_nodup _ Hwf).
  - intros n Hn. rewrite nth_parent_alloc by done.
    rewrite length_app in *. simpl in *.
    destruct (decide (n < length d)) as [Hlt|Hge].
    + eapply nth_parent_None_mono; [by apply (WF_acyclic _ Hwf)|lia].
    + replace (length d + 1) with (S (length d)) by lia. simpl.
      assert (parent_of d n = None) as E by (apply out_of_range; lia).
      by rewrite E.
  - intros n. rewrite children_of_alloc by done.
    destruct (decide (n < length d)) as [Hlt|Hge].
    + rewrite type_of_alloc_old by done. apply (WF_text _ Hwf).
    + intros _. apply out_of_range. lia.
  - intros n. rewrite parent_of_alloc by done.
    destruct (decide (n < length d)) as [Hlt|Hge].
    + rewrite type_of_alloc_old by done. apply (WF_fragment _ Hwf).
    + intros _. apply out_of_range. lia.
Qed.

End Alloc.

(** ** Keeping a document well formed *)

Section CycleFree.
Implicit Types (d : Document) (n p x : NodeId).

Lemma length_inclusive_ancestors fuel d n :
  is_Some (nth_parent fuel d n) ->
  length (inclusive_ancestors fuel d n) = S fuel.
Proof.
  revert n. induction fuel as [|fuel IH]; intros n; simpl; [done|].
  destruct (parent_of d n) as [p|]; simpl; [|by intros [? ?]].
  intros H. by rewrite IH.
Qed.

Lemma NoDup_inclusive_ancestors fuel d n :
  (forall x k, nth_parent k d x = Some x -> k = 0) ->
  NoDup (inclusive_ancestors fuel d n).
Proof.
  intros Hfree. revert n. induction fuel as [|fuel IH]; intros n; simpl.
  - apply NoDup_singleton.
  - apply NoDup_cons. split.
    + destruct (parent_of d n) as [p|] eqn:Hp; [|apply not_elem_of_nil].
      intros Hin. apply elem_of_inclusive_ancestors in Hin as (k & _ & Hk).
      assert (nth_parent (S k) d p = Some p) as Hc.
      { rewrite nth_parent_S_r, Hk. exact Hp. }
      by apply Hfree in Hc.
    + destruct (parent_of d n) as [p|]; [apply IH|constructor].
Qed.

Lemma inclusive_ancestors_valid fuel d n :
  (forall x p, parent_of d x = Some p -> p < length d) ->
  n < length d ->
  forall x, x ∈ inclusive_ancestors fuel d n -> x < length d.
Proof.
  intros Hvalid. revert n. induction fuel as [|fuel IH]; intros n Hn x; simpl.
  - by intros ->%list_elem_of_singleton.
  - intros [->|Hx]%elem_of_cons; [done|].
    destruct (parent_of d n) as [p|] eqn:Hp; [|by apply elem_of_nil in Hx].
    eapply IH; [|done]. by eapply Hvalid.
Qed.

(** Without cycles the chains of ancestors are shorter than the table. *)
Lemma cycle_free_bounded d :
  (forall x k, nth_parent k d x = Some x -> k = 0) ->
  (forall x p, parent_of d x = Some p -> p < length d) ->
  forall n, n < length d -> nth_parent (length d) d n = None.
Proof.
  intros Hfree Hvalid n Hn.
  destruct (nth_parent (length d) d n) as [y|] eqn:E; [|done]. exfalso.
  assert (length (inclusive_ancestors (length d) d n) = S (length d)) as Hlen.
  { apply length_inclusive_ancestors. rewrite E. eauto. }
  assert (length (inclusive_ancestors (length d) d n) <= length (seq 0 (length d)))
    as Hle.
  { apply NoDup_incl_length.
    - apply NoDup_ListNoDup. by apply NoDup_inclusive_ancestors.
    - intros x Hx. apply in_seq. split; [lia|]. simpl.
      eapply inclusive_ancestors_valid; [done|done|].
      by apply list_elem_of_In. }
  rewrite length_seq in Hle. lia.
Qed.

Lemma WF_parent_valid d x p : WF d -> parent_of d x = Some p -> p < length d.
Proof.
  intros Hwf Hp. apply (WF_parent _ Hwf) in Hp.
  unfold children_of in Hp. destruct (d !! p) eqn:E.
  - by apply lookup_lt_Some in E.
  - by apply elem_of_nil in Hp.
Qed.

Lemma WF_intro d :
  (forall n c, c ∈ children_of d n -> parent_of d c = Some n) ->
  (forall n p, parent_of d n = Some p -> n ∈ children_of d p) ->
  (forall n, NoDup (children_of d n)) ->
  (forall x k, nth_parent k d x = Some x -> k = 0) ->
  (forall n, type_of d n = Some TEXT_NODE -> children_of d n = []) ->
  (forall n, type_of d n = Some DOCUMENT_FRAGMENT_NODE -> parent_of d n = None) ->
  WF d.
Proof.
  intros H1 H2 H3 H4 H5 H6. split; try done.
  apply cycle_free_bounded; [done|].
  intros x p Hp. apply H2 in Hp. unfold children_of in Hp.
  destruct (d !! p) eqn:E.
  - by apply lookup_lt_Some in E.
  - by apply elem_of_nil in Hp.
Qed.

End CycleFree.

Section Preserve.
Implicit Types (d : Document) (n p q x : NodeId) (ref : option NodeId).

Lemma elem_of_insert_at x r l y : y ∈ insert_at x r l <-> y = x \/ y ∈ l.
Proof.
  induction l as [|z l IH]; simpl.
  - rewrite list_elem_of_singleton. rewrite elem_of_nil. tauto.
  - destruct (decide (z = r)).
    + by rewrite elem_of_cons.
    + rewrite !elem_of_cons, IH. tauto.
Qed.

Lemma elem_of_place x ref l y : y ∈ place x ref l <-> y = x \/ y ∈ l.
Proof.
  destruct ref as [r|]; simpl; [apply elem_of_insert_at|].
  rewrite elem_of_app, list_elem_of_singleton. tauto.
Qed.

Lemma NoDup_insert_at x r l : x ∉ l -> NoDup l -> NoDup (insert_at x r l).
Proof.
  induction l as [|z l IH]; intros Hx Hnd; simpl.
  - apply NoDup_singleton.
  - destruct (decide (z = r)); [by apply NoDup_cons|].
    apply not_elem_of_cons in Hx as [Hxz Hx].
    apply NoDup_cons in Hnd as [Hz Hnd].
    apply NoDup_cons. split; [|by apply IH].
    rewrite elem_of_insert_at. intros [->|H]; done.
Qed.

Lemma NoDup_place x ref l : x ∉ l -> NoDup l -> NoDup (place x ref l).
Proof.
  destruct ref as [r|]; simpl; [apply NoDup_insert_at|].
  intros Hx Hnd. apply NoDup_app. split; [done|]. split.
  - intros y Hy ->%list_elem_of_singleton. done.
  - apply NoDup_singleton.
Qed.

Lemma nth_parent_unlink d n k x y :
  nth_parent k (unlink d n) x = Some y -> nth_parent k d x = Some y.
Proof.
  revert x. induction k as [|k IH]; intros x; simpl; [done|].
  rewrite parent_of_unlink. destruct (decide (x = n)); [done|].
  destruct (parent_of d x) as [p|]; simpl; [apply IH|done].
Qed.

Lemma WF_unlink d n : WF d -> WF (unlink d n).
Proof.
  intros Hwf.
  assert (forall q c, c ∈ children_of (unlink d n) q ->
                      c ∈ children_of d q /\ c <> n) as Hsub.
  { intros q c. rewrite children_of_unlink.
    destruct (decide (parent_of d n = Some q)) as [Hq|Hq].
    - by rewrite elem_of_remove_id.
    - intros Hc. split; [done|]. intros ->.
      by apply (WF_child _ Hwf) in Hc. }
  apply WF_intro.
  - intros q c Hc. apply Hsub in Hc as [Hc Hne].
    rewrite parent_of_unlink, decide_False by done.
    by apply (WF_child _ Hwf).
  - intros x q. rewrite parent_of_unlink.
    destruct (decide (x = n)); [done|]. intros Hp.
    apply (WF_parent _ Hwf) in Hp. rewrite children_of_unlink.
    destruct (decide (parent_of d n = Some q)); [|done].
    by rewrite elem_of_remove_id.
  - intros q. rewrite children_of_unlink.
    destruct (decide (parent_of d n = Some q)).
    + apply NoDup_remove_id, (WF_nodup _ Hwf).
    + apply (WF_nodup _ Hwf).
  - intros x k Hk. apply nth_parent_unlink in Hk.
    by eapply WF_no_cycle.
  - intros q. rewrite type_of_unlink. intros Ht.
    apply (WF_text _ Hwf) in Ht. rewrite children_of_unlink, Ht.
    by destruct (decide _).
  - intros x. rewrite type_of_unlink, parent_of_unlink. intros Ht.
    destruct (decide (x = n)); [done|]. by apply (WF_fragment _ Hwf).
Qed.

Lemma nth_parent_link_cases d p n ref k x y :
  is_Some (d !! n) ->
  nth_parent k (link d p n ref) x = Some y ->
  nth_parent k d x = Some y
  \/ exists j, j < k /\ nth_parent j d x = Some n
               /\ nth_parent (k - S j) (link d p n ref) p = Some y.
Proof.
  intros Hn. revert x. induction k as [|k IH]; intros x; simpl.
  - by left.
  - rewrite parent_of_link by done.
    destruct (decide (x = n)) as [->|Hne]; simpl.
    + intros H. right. exists 0. split; [lia|]. split; [done|].
      by rewrite Nat.sub_0_r.
    + destruct (parent_of d x) as [q|] eqn:Hq; simpl; [|done].
      intros H. apply IH in H as [H|(j & Hj & H1 & H2)]; [by left|].
      right. exists (S j). split; [lia|]. split; [|done].
      simpl. by rewrite Hq.
Qed.

Lemma WF_link d p n ref :
  WF d ->
  parent_of d n = None ->
  is_Some (d !! n) -> is_Some (d !! p) ->
  type_of d p <> Some TEXT_NODE ->
  type_of d n <> Some DOCUMENT_FRAGMENT_NODE ->
  ~ ancestor_or_self d n p ->
  WF (link d p n ref).
Proof.
  intros Hwf Hdet Hn Hp Htext Hfrag Habove.
  assert (forall q, n ∉ children_of d q) as Hnot.
  { intros q Hin. apply (WF_child _ Hwf) in Hin. congruence. }
  assert (forall k y, nth_parent k (link d p n ref) p = Some y ->
                      nth_parent k d p = Some y) as Hup.
  { intros k y H. rewrite <- H. symmetry. apply nth_parent_agree.
    intros x Hx. rewrite parent_of_link by done.
    destruct (decide (x = n)) as [->|]; done. }
  apply WF_intro.
  - intros q c. rewrite children_of_link, parent_of_link by done.
    destruct (decide (q = p)) as [->|Hq].
    + rewrite elem_of_place. intros [->|Hc]; [by rewrite decide_True|].
      rewrite decide_False by (intros ->; by apply (Hnot p)).
      by apply (WF_child _ Hwf).
    + intros Hc. rewrite decide_False by (intros ->; by apply (Hnot q)).
      by apply (WF_child _ Hwf).
  - intros x q. rewrite parent_of_link, children_of_link by done.
    destruct (decide (x = n)) as [->|Hx].
    + intros [= <-]. rewrite decide_True by done.
      apply elem_of_place. by left.
    + intros Hq. apply (WF_parent _ Hwf) in Hq.
      destruct (decide (q = p)) as [->|]; [|done].
      apply elem_of_place. by right.
  - intros q. rewrite children_of_link by done.
    destruct (decide (q = p)) as [->|].
    + apply NoDup_place; [apply Hnot|apply (WF_nodup _ Hwf)].
    + apply (WF_nodup _ Hwf).
  - intros x k Hk. destruct k as [|k]; [done|]. exfalso.
    apply nth_parent_link_cases in Hk; [|done].
    destruct Hk as [Hk|(j & Hj & H1 & H2)].
    + by apply WF_no_cycle in Hk.
    + apply Hup in H2. apply Habove. exists ((S k - S j) + j).
      by rewrite nth_parent_add, H2.
  - intros q. rewrite type_of_link, children_of_link by done.
    intros Ht. destruct (decide (q = p)) as [->|]; [done|].
    by apply (WF_text _ Hwf).
  - intros x. rewrite type_of_link, parent_of_link by done.
    intros Ht. destruct (decide (x = n)) as [->|]; [done|].
    by apply (WF_fragment _ Hwf).
Qed.

End Preserve.

Section InsertOne.
Implicit Types (d : Document) (n p q x : NodeId) (ref : option NodeId).

Lemma ancestor_or_self_unlink d n a x :
  ancestor_or_self (unlink d n) a x -> ancestor_or_self d a x.
Proof. intros [k Hk]. exists k. by eapply nth_parent_unlink. Qed.

Lemma WF_insert_one d p n ref :
  WF d ->
  is_Some (d !! n) -> is_Some (d !! p) ->
  type_of d p <> Some TEXT_NODE ->
  type_of d n <> Some DOCUMENT_FRAGMENT_NODE ->
  ~ ancestor_or_self d n p ->
  WF (insert_one p ref d n).
Proof.
  intros Hwf Hn Hp Htext Hfrag Habove. unfold insert_one.
  apply WF_link.
  - by apply WF_unlink.
  - rewrite parent_of_unlink. by rewrite decide_True.
  - by apply lookup_unlink_is_Some.
  - by apply lookup_unlink_is_Some.
  - by rewrite type_of_unlink.
  - by rewrite type_of_unlink.
  - intros H. by apply Habove, (ancestor_or_self_unlink d n).
Qed.

Lemma data_of_alter d n m f :
  (forall nd, nodeType (f nd) = nodeType nd /\ nodeName (f nd) = nodeName nd
              /\ nodeValue (f nd) = nodeValue nd /\ style (f nd) = style nd
              /\ attributes (f nd) = attributes nd) ->
  data_of (alter f n d) m = data_of d m.
Proof.
  intros Hf. unfold data_of. destruct (decide (n = m)) as [->|Hne].
  - rewrite list_lookup_alter_eq. destruct (d !! m) as [nd|]; simpl; [|done].
    destruct (Hf nd) as (-> & -> & -> & -> & ->). done.
  - by rewrite list_lookup_alter_ne.
Qed.

Lemma data_of_insert_one d p n ref x :
  data_of (insert_one p ref d n) x = data_of d x.
Proof.
  unfold insert_one, link, unlink.
  destruct (parent_of d n); by rewrite !data_of_alter.
Qed.

Lemma data_of_type d d' x : data_of d' x = data_of d x -> type_of d' x = type_of d x.
Proof.
  unfold data_of, type_of.
  destruct (d' !! x), (d !! x); simpl; intros [=]; congruence.
Qed.


End InsertOne.

Ltac split_conj := repeat match goal with |- _ /\ _ => split end.

Section MoveNodes.
Context {C : Type}.
Implicit Types (d : Document) (n p q x src : NodeId) (ref : option NodeId)
  (ks a b u v : list NodeId).

Lemma place_at x ref l u v :
  NoDup l -> placed_at ref l u v -> place x ref l = u ++ x :: tail_at ref v.
Proof.
  intros Hnd. destruct ref as [r|]; simpl.
  - intros ->. apply insert_at_middle.
    apply NoDup_app in Hnd as (_ & Hnd & _). intros H. apply (Hnd _ H). by left.
  - by intros [-> ->].
Qed.

(** Moving the children [ks] of [src] under [p], one after the other, each
    before [ref]. *)
Lemma move_nodes (c : C) ks :
  forall d src p ref a b u v,
    WF d ->
    children_of d src = a ++ ks ++ b ->
    p <> src ->
    is_Some (d !! p) ->
    type_of d p <> Some TEXT_NODE ->
    ~ ancestor_or_self d src p ->
    placed_at ref (children_of d p) u v ->
    let d' := foldl (insert_one p ref) d ks in
    WF d'
    /\ length d' = length d
    /\ (forall x, data_of d' x = data_of d x)
    /\ children_of d' src = a ++ b
    /\ children_of d' p = u ++ ks ++ tail_at ref v
    /\ (forall q, q <> src -> q <> p -> children_of d' q = children_of d q)
    /\ (forall x, x ∉ ks -> parent_of d' x = parent_of d x)
    /\ (forall x, x ∈ ks -> parent_of d' x = Some p)
    /\ forEach ks (fun k => insertBefore p k ref ;; ret tt) c d
       = Ok (tt, c, d').
Proof.
  induction ks as [|k ks IH];
    intros d src p ref a b u v Hwf Hkids Hne Hp Htext Habove Hplace; simpl.
  - split_conj; try done.
    + destruct ref; simpl in *; [done|].
      destruct Hplace as [-> ->]. by rewrite app_nil_r.
    + intros x Hx. by apply elem_of_nil in Hx.
  - assert (k ∈ children_of d src) as Hk.
    { rewrite Hkids. apply elem_of_app. right. by left. }
    pose proof (WF_child _ Hwf _ _ Hk) as Hkp.
    assert (is_Some (d !! k)) as Hksome by (by eapply parent_of_Some_lookup).
    assert (type_of d k <> Some DOCUMENT_FRAGMENT_NODE) as Hkfrag.
    { intros Ht. apply (WF_fragment _ Hwf) in Ht. congruence. }
    assert (~ ancestor_or_self d k p) as Hkabove.
    { intros [j Hj]. apply Habove. exists (S j).
      rewrite nth_parent_S_r, Hj. exact Hkp. }
    pose proof (WF_nodup _ Hwf src) as Hnd. rewrite Hkids in Hnd.
    assert ((k ∉ a) /\ (k ∉ ks) /\ (k ∉ b)) as (Hka & Hkks & Hkb).
    { apply NoDup_app in Hnd as (_ & Ha & Hnd).
      apply NoDup_cons in Hnd as [Hk' _].
      rewrite not_elem_of_app in Hk'. destruct Hk' as [H1 H2].
      split; [|done]. intros H. apply (Ha _ H). by left. }
    set (d1 := insert_one p ref d k).
    assert (WF d1) as Hwf1 by (by apply WF_insert_one).
    assert (forall x, data_of d1 x = data_of d x) as Hdata1.
    { intros x. apply data_of_insert_one. }
    assert (forall q, children_of (unlink d k) q
                      = if decide (q = src) then a ++ ks ++ b
                        else children_of d q) as Hun.
    { intros q. rewrite children_of_unlink, Hkp.
      destruct (decide (q = src)) as [->|Hq].
      - rewrite decide_True by done. rewrite Hkids.
        change ((k :: ks) ++ b) with (k :: (ks ++ b)).
        rewrite remove_id_middle; [done|done|].
        by rewrite not_elem_of_app.
      - by rewrite decide_False by congruence. }
    assert (children_of d1 p = (u ++ [k]) ++ tail_at ref v) as Hp1.
    { unfold d1. rewrite children_of_insert_one, decide_True by done.
      rewrite Hun, decide_False by done.
      rewrite (place_at k ref _ u v); [by rewrite <- app_assoc| |done].
      apply (WF_nodup _ Hwf). }
    assert (forall x, parent_of d1 x = if decide (x = k) then Some p
                                       else parent_of d x) as Hpar1.
    { intros x. unfold d1. by rewrite parent_of_insert_one. }
    destruct (IH d1 src p ref a b (u ++ [k]) v) as
      (H1 & H2 & H3 & H4 & H5 & H6 & H7 & H8 & H9).
    + done.
    + unfold d1. rewrite children_of_insert_one, decide_False by done.
      by rewrite Hun, decide_True.
    + done.
    + apply lookup_lt_is_Some. unfold d1. rewrite length_insert_one.
      by apply lookup_lt_is_Some.
    + by rewrite (data_of_type d d1).
    + intros Habs. apply Habove. apply (ancestor_or_self_agree d d1); [|done].
      intros x Hx. rewrite Hpar1. destruct (decide (x = k)) as [->|]; done.
    + destruct ref as [r|]; [exact Hp1|].
      destruct Hplace as [_ ->]. split; [|done].
      rewrite Hp1. simpl. by rewrite app_nil_r.
    + split_conj.
      * done.
      * rewrite H2. unfold d1. apply length_insert_one.
      * intros x. by rewrite H3.
      * done.
      * rewrite H5. by rewrite <- app_assoc.
      * intros q Hq1 Hq2. rewrite H6 by done. unfold d1.
        rewrite children_of_insert_one, decide_False by done.
        by rewrite Hun, decide_False.
      * intros x [Hx1 Hx2]%not_elem_of_cons. rewrite H7 by done.
        by rewrite Hpar1, decide_False.
      * intros x [->|Hx]%elem_of_cons; [|by apply H8].
        rewrite H7 by done. by rewrite Hpar1, decide_True.
      * unfold bind at 1. unfold bind at 1.
        rewrite insertBefore_run.
        -- rewrite pre_insert_node; [exact H9|done|].
           destruct ref as [r|]; [|done]. simpl in Hplace.
           intros [= ->]. assert (k ∈ children_of d p) as Hin.
           { rewrite Hplace. apply elem_of_app. right. by left. }
           apply (WF_child _ Hwf) in Hin. congruence.
        -- done.
        -- done.
        -- intros r ->. simpl in Hplace. apply (WF_child _ Hwf).
           rewrite Hplace. apply elem_of_app. right. by left.
Qed.

(** Inserting a document fragment inserts its children. *)
Lemma insert_fragment (c : C) d p frag ref u v :
  WF d ->
  type_of d frag = Some DOCUMENT_FRAGMENT_NODE ->
  p <> frag ->
  is_Some (d !! p) ->
  type_of d p <> Some TEXT_NODE ->
  ~ ancestor_or_self d frag p ->
  placed_at ref (children_of d p) u v ->
  exists d',
    insertBefore p frag ref c d = Ok (frag, c, d')
    /\ WF d'
    /\ length d' = length d
    /\ (forall x, data_of d' x = data_of d x)
    /\ children_of d' frag = []
    /\ children_of d' p = u ++ children_of d frag ++ tail_at ref v
    /\ (forall q, q <> frag -> q <> p -> children_of d' q = children_of d q)
    /\ (forall x, x ∉ children_of d frag -> parent_of d' x = parent_of d x)
    /\ (forall x, x ∈ children_of d frag -> parent_of d' x = Some p).
Proof.
  intros Hwf Hfrag Hne Hp Htext Habove Hplace.
  assert (ref <> Some frag) as Href.
  { destruct ref as [r|]; [|done]. simpl in Hplace. intros [= ->].
    assert (frag ∈ children_of d p) as Hin.
    { rewrite Hplace. apply elem_of_app. right. by left. }
    apply (WF_child _ Hwf) in Hin.
    apply (WF_fragment _ Hwf) in Hfrag. congruence. }
  destruct (move_nodes c (children_of d frag) d frag p ref [] [] u v)
    as (H1 & H2 & H3 & H4 & H5 & H6 & H7 & H8 & _); try done.
  { by rewrite app_nil_r. }
  exists (foldl (insert_one p ref) d (children_of d frag)).
  split; [|done].
  rewrite insertBefore_run.
  - unfold pre_insert. rewrite bool_decide_eq_false_2 by done.
    by rewrite Hfrag.
  - done.
  - done.
  - intros r ->. simpl in Hplace. apply (WF_child _ Hwf).
    rewrite Hplace. apply elem_of_app. right. by left.
Qed.

End MoveNodes.

(** ** The path from a wrapper down to a fragment *)

Section Spine.
Implicit Types (d : Document) (levels rest : list Level) (target X : NodeId).


Lemma spine_drop_before d levels target :
  spine d (map drop_before levels) target <->
  forall i lv, levels !! i = Some lv ->
    children_of d (lv_node lv)
    = next_node (drop (S i) levels) target :: lv_after lv.
Proof.
  induction levels as [|lv rest IH]; simpl.
  - split; [by intros _ i lv|done].
  - rewrite IH. split.
    + intros [H1 H2] [|i] lv'; simpl.
      * intros [= <-]. rewrite drop_0. revert H1. by destruct rest.
      * apply H2.
    + intros H. split.
      * specialize (H 0 lv eq_refl). rewrite drop_0 in H. revert H.
        by destruct rest.
      * intros i lv' Hi. apply (H (S i) lv' Hi).
Qed.





End Spine.

(** ** What the range algorithms compute on a well-formed document *)

Section RangeFacts.
Implicit Types (d : Document) (X E Y : NodeId).

Lemma contains_refl d X : contains d X X = true.
Proof.
  unfold contains. apply bool_decide_eq_true.
  apply elem_of_inclusive_ancestors. exists 0. split; [lia|done].
Qed.







End RangeFacts.

(** ** Extracting the contents of a range *)

Section Detached.
Context {C : Type}.
Implicit Types (d : Document) (n p q x : NodeId) (ref : option NodeId)
  (u v : list NodeId).

(** Inserting a node that has no parent. *)
Lemma insert_detached (c : C) d p n ref u v :
  WF d ->
  parent_of d n = None ->
  is_Some (d !! n) ->
  type_of d n <> Some DOCUMENT_FRAGMENT_NODE ->
  is_Some (d !! p) ->
  type_of d p <> Some TEXT_NODE ->
  ~ ancestor_or_self d n p ->
  placed_at ref (children_of d p) u v ->
  let d' := insert_one p ref d n in
  insertBefore p n ref c d = Ok (n, c, d')
  /\ WF d'
  /\ length d' = length d
  /\ (forall x, data_of d' x = data_of d x)
  /\ children_of d' p = u ++ n :: tail_at ref v
  /\ (forall q, q <> p -> children_of d' q = children_of d q)
  /\ (forall x, parent_of d' x = if decide (x = n) then Some p else parent_of d x).
Proof.
  intros Hwf Hpar Hn Hfrag Hp Htext Habove Hplace d'.
  assert (ref <> Some n) as Href.
  { intros ->. simpl in Hplace.
    assert (parent_of d n = Some p) as E; [|congruence].
    apply (WF_child _ Hwf). rewrite Hplace. apply elem_of_app. right. by left. }
  assert (unlink d n = d) as Hun by (unfold unlink; by rewrite Hpar).
  split_conj.
  - rewrite insertBefore_run; [by rewrite pre_insert_node|done|done|].
    intros r ->. simpl in Hplace. apply (WF_child _ Hwf). rewrite Hplace.
    apply elem_of_app. right. by left.
  - by apply WF_insert_one.
  - apply length_insert_one.
  - intros x. apply data_of_insert_one.
  - unfold d'. rewrite children_of_insert_one by done.
    rewrite decide_True by done. rewrite Hun.
    apply place_at; [apply (WF_nodup _ Hwf)|done].
  - intros q Hq. unfold d'. rewrite children_of_insert_one by done.
    rewrite decide_False by done. by rewrite Hun.
  - intros x. unfold d'. by rewrite parent_of_insert_one.
Qed.

End Detached.

Section ExtractSteps.
Context {C : Type}.
Implicit Types (d : Document) (X E : NodeId) (s e : Range.BoundaryPoint).


End ExtractSteps.

Section ExtractLeft.
Context {C : Type}.
Implicit Types (d : Document) (X E : NodeId) (rest : list Level)
  (sk mid after K : list NodeId).

Lemma children_of_valid d X x : x ∈ children_of d X -> X < length d.
Proof.
  intros H. destruct (decide (X < length d)); [done|].
  destruct (out_of_range d X) as (_ & _ & E & _); [lia|].
  rewrite E in H. by apply elem_of_nil in H.
Qed.







End ExtractLeft.

Section ExtractRight.
Context {C : Type}.
Implicit Types (d : Document) (X E : NodeId) (rest : list Level)
  (sk mid bf K : list NodeId) (s e : Range.BoundaryPoint).









End ExtractRight.

(** ** Boundary points and their order *)

Section Paths.
Context {C : Type}.
Implicit Types (d : Document) (n p W P B : NodeId) (pre post : list NodeId).













End Paths.

(** ** [Dom.wrap] *)

(** C10. On a node without parent [Dom.wrap] returns [null]; every node of
    the document is as it was, the wrapper it may have made stays detached
    and childless, and the selection is saved but not restored. *)
Theorem wrap_detached_node (current : NodeId) (tag : TagOrElement)
  (sel : Select) (d : Document) :
  parent_of d current = None ->
  exists d',
    Dom.wrap current tag sel d
    = Ok (None, sel ++ [Saved (length sel) d], d')
    /\ d' = match tag with
            | TagName t => d ++ [new_element t]
            | Element _ => d
            end
    /\ (forall n, n < length d ->
         d' !! n = d !! n
         /\ parent_of d' n = parent_of d n
         /\ children_of d' n = children_of d n).
Proof.
  intros Hdetached.
  assert (forall nd n, n < length d ->
            (d ++ [nd]) !! n = d !! n
            /\ parent_of (d ++ [nd]) n = parent_of d n
            /\ children_of (d ++ [nd]) n = children_of d n) as Hframe.
  { intros nd n Hn. unfold parent_of, children_of.
    by rewrite lookup_app_l. }
  destruct tag as [t|e].
  - exists (d ++ [new_element t]). split; [|split; [done|by apply Hframe]].
    unfold Dom.wrap, bind, save, createElement, alloc, read, ret; simpl.
    replace (parent_of (d ++ [new_element t]) current) with (@None NodeId);
      [done|].
    symmetry. revert Hdetached. unfold parent_of.
    destruct (decide (current < length d)) as [Hlt|Hge].
    + by rewrite !lookup_app_l.
    + destruct (decide (current = length d)) as [->|Hne].
      * by rewrite !list_lookup_middle.
      * intros _. rewrite lookup_ge_None_2; [done|].
        rewrite length_app. simpl. lia.
  - exists d. split; [|done].
    unfold Dom.wrap, bind, save, read, ret; simpl. by rewrite Hdetached.
Qed.

Lemma wrap_detached_node_witness :
  exists d',
    Dom.wrap 1 (TagName "strong") [] (document_of (El "p" [] []) ++ [new_element "span"])
    = Ok (None, [Saved 0 (document_of (El "p" [] []) ++ [new_element "span"])], d')
    /\ d' = document_of (El "p" [] []) ++ [new_element "span"] ++ [new_element "strong"].
Proof.
  destruct (wrap_detached_node 1 (TagName "strong") []
              (document_of (El "p" [] []) ++ [new_element "span"]) eq_refl)
    as (d' & Hrun & Hd' & _).
  exists d'. split; [exact Hrun|]. rewrite Hd'. reflexivity.
Defined.

(** ** [Dom.wrap] on an attached node *)

Section Wrap.
Implicit Types (d : Document) (current w p : NodeId).

Lemma name_of_alter d n m f :
  (forall nd, nodeName (f nd) = nodeName nd) ->
  name_of (alter f n d) m = name_of d m.
Proof.
  intros Hf. unfold name_of. destruct (decide (n = m)) as [->|Hne].
  - rewrite list_lookup_alter_eq. destruct (d !! m); simpl; by rewrite ?Hf.
  - by rewrite list_lookup_alter_ne.
Qed.

Lemma name_of_insert_one d p n ref x :
  name_of (insert_one p ref d n) x = name_of d x.
Proof.
  unfold insert_one, link, unlink.
  destruct (parent_of d n); by rewrite !name_of_alter.
Qed.

(** What [Dom.wrap] does once the selection is saved and the wrapper is at
    hand. *)
Lemma wrap_moves {C} (c : C) d current w p :
  WF d ->
  parent_of d current = Some p ->
  type_of d w = Some ELEMENT_NODE ->
  w <> current ->
  ~ ancestor_or_self d w p ->
  exists d1 d',
    insertBefore p w (Some current) c d = Ok (w, c, d1)
    /\ appendChild w current c d1 = Ok (current, c, d')
    /\ length d' = length d
    /\ name_of d' w = name_of d w
    /\ type_of d' w = type_of d w
    /\ parent_of d' w = Some p
    /\ parent_of d' current = Some w
    /\ children_of d' w = children_of d w ++ [current]
    /\ (forall pre post,
         children_of d p = pre ++ current :: post ->
         children_of d' p = remove_id w pre ++ w :: remove_id w post).
Proof.
  intros Hwf Hp Hw Hne Habove.
  assert (is_Some (d !! w)) as Hw_some by (by eapply type_of_is_Some).
  assert (is_Some (d !! current)) as Hc_some
    by (by eapply parent_of_Some_lookup).
  assert (current ∈ children_of d p) as Hin by (by apply (WF_parent _ Hwf)).
  assert (is_Some (d !! p)) as Hp_some.
  { unfold children_of in Hin. destruct (d !! p); [eauto|].
    by apply elem_of_nil in Hin. }
  assert (type_of d p <> Some TEXT_NODE) as Hp_text.
  { intros Ht. apply (WF_text _ Hwf) in Ht. rewrite Ht in Hin.
    by apply elem_of_nil in Hin. }
  assert (w <> p) as Hwp.
  { intros ->. apply Habove, ancestor_or_self_refl. }
  assert (type_of d current <> Some DOCUMENT_FRAGMENT_NODE) as Hc_frag.
  { intros Ht. apply (WF_fragment _ Hwf) in Ht. congruence. }
  set (d1 := insert_one p (Some current) d w).
  assert (forall x, parent_of d1 x = if decide (x = w) then Some p
                                     else parent_of d x) as Hpar1.
  { intros x. unfold d1. by rewrite parent_of_insert_one. }
  assert (~ ancestor_or_self d1 current w) as Habove1.
  { intros Habs. apply ancestor_or_self_inv in Habs as [->|(q & Hq & Habs)].
    - done.
    - rewrite Hpar1, decide_True in Hq by done. injection Hq as <-.
      apply (ancestor_or_self_agree d) in Habs.
      + by apply (WF_child_not_above d current p).
      + intros x Hx. rewrite Hpar1. destruct (decide (x = w)) as [->|]; done. }
  set (d2 := insert_one w None d1 current).
  exists d1, d2.
  assert (is_Some (d1 !! current)) as Hc1.
  { apply lookup_lt_is_Some. unfold d1. rewrite length_insert_one.
    by apply lookup_lt_is_Some. }
  assert (is_Some (d1 !! w)) as Hw1.
  { apply lookup_lt_is_Some. unfold d1. rewrite length_insert_one.
    by apply lookup_lt_is_Some. }
  assert (forall q, children_of (unlink d w) q
                    = if decide (q = w) then children_of d w
                      else remove_id w (children_of d q)) as Hun.
  { intros q. rewrite children_of_unlink.
    destruct (decide (q = w)) as [->|Hq].
    - destruct (decide (parent_of d w = Some w)) as [Habs|]; [|done].
      exfalso. assert (nth_parent 1 d w = Some w) as Hcyc
        by (simpl; by rewrite Habs).
      by apply WF_no_cycle in Hcyc.
    - destruct (decide (parent_of d w = Some q)) as [|Hnot]; [done|].
      rewrite remove_id_notin; [done|].
      intros Hwq. by apply (WF_child _ Hwf) in Hwq. }
  split; [|split; [|split; [|split; [|split; [|split; [|split; [|split]]]]]]].
  - rewrite insertBefore_run; [|done|done|by intros r [= <-]].
    rewrite pre_insert_node; [done|by rewrite Hw|congruence].
  - unfold appendChild.
    rewrite insertBefore_run; [|unfold d1; rewrite type_of_insert_one;
      by rewrite Hw|done|done].
    rewrite pre_insert_node; [done|unfold d1;
      by rewrite type_of_insert_one|done].
  - unfold d2, d1. by rewrite !length_insert_one.
  - unfold d2, d1. by rewrite !name_of_insert_one.
  - unfold d2, d1. by rewrite !type_of_insert_one.
  - unfold d2. rewrite parent_of_insert_one by done.
    rewrite decide_False by done. by rewrite Hpar1, decide_True.
  - unfold d2. rewrite parent_of_insert_one by done. by rewrite decide_True.
  - unfold d2. rewrite children_of_insert_one, decide_True by done.
    simpl. f_equal. rewrite children_of_unlink.
    rewrite Hpar1, (decide_False (P := current = w)) by done. rewrite Hp.
    rewrite decide_False by congruence.
    unfold d1. rewrite children_of_insert_one, decide_False by done.
    by rewrite Hun, decide_True.
  - intros pre post Hkids.
    pose proof (WF_nodup _ Hwf p) as Hnd. rewrite Hkids in Hnd.
    apply NoDup_app in Hnd as (_ & Hpre & Hpost).
    apply NoDup_cons in Hpost as [Hpost _].
    assert (current ∉ pre) as Hpre'.
    { intros H. apply (Hpre _ H). by left. }
    unfold d2. rewrite children_of_insert_one, decide_False by done.
    rewrite children_of_unlink, Hpar1.
    rewrite (decide_False (P := current = w)) by done.
    rewrite Hp, decide_True by done.
    unfold d1. rewrite children_of_insert_one, decide_True by done.
    rewrite Hun, decide_False by done. rewrite Hkids. simpl.
    rewrite remove_id_app, remove_id_cons_ne by done.
    rewrite insert_at_middle.
    2: { rewrite elem_of_remove_id. tauto. }
    rewrite remove_id_app, remove_id_cons_ne by done.
    rewrite remove_id_cons_eq.
    rewrite !(remove_id_notin current); [done| |].
    + rewrite elem_of_remove_id. tauto.
    + rewrite elem_of_remove_id. tauto.
Qed.

End Wrap.

(** Wrapping a node in itself, or in an element that contains it, is
    refused when the wrapper is to be inserted. *)
Lemma wrap_in_itself_or_above (current w p : NodeId) (sel : Select)
  (d : Document) :
  WF d -> parent_of d current = Some p -> contains d w current = true ->
  Dom.wrap current (Element w) sel d = Throw HierarchyRequestError.
Proof.
  intros Hwf Hp Hc.
  unfold Dom.wrap, bind at 1, save. simpl.
  unfold bind at 1, ret. unfold bind at 1, read. rewrite Hp.
  unfold insertBefore at 1. unfold bind at 1. rewrite bind_read.
  unfold pre_insert_validity.
  destruct (bool_decide (type_of d p = Some TEXT_NODE)); [done|].
  destruct (contains d w p) eqn:Hwp; [done|].
  assert (w = current) as ->.
  { apply contains_ancestor, ancestor_or_self_inv in Hc
      as [E|(q & Hq & Hc)]; [done|].
    rewrite Hp in Hq. injection Hq as <-.
    apply (WF_ancestor_contains _ _ _ Hwf) in Hc. congruence. }
  rewrite bool_decide_eq_true_2 by done.
  unfold bind at 1, write. unfold bind at 1, ret.
  unfold appendChild, insertBefore. rewrite bind_read.
  unfold pre_insert_validity.
  destruct (bool_decide (type_of _ current = Some TEXT_NODE)); [done|].
  by rewrite contains_refl.
Qed.

(** C8, amended. [Dom.wrap] returns [null] for a node without parent.  For
    a node with a parent, in a well-formed document: with a wrapper that
    is made from a tag name, or is a supplied element that is not the node
    and does not contain it, the selection is saved on the document as it
    was, the wrapper takes the place of the node among the children of the
    parent, the node becomes the last child of the wrapper, the selection
    is restored on the document so obtained, and the wrapper is returned;
    with a supplied element that is the node or contains it,
    HierarchyRequestError is raised. *)
Theorem wrap_inserts_wrapper_and_moves_node
  (current : NodeId) (tag : TagOrElement) (sel : Select) (d : Document) :
  wf d = true ->
  match tag with
  | TagName _ => True
  | Element w => type_of d w = Some ELEMENT_NODE
  end ->
  match parent_of d current with
  | None => exists d', Dom.wrap current tag sel d
                       = Ok (None, sel ++ [Saved (length sel) d], d')
  | Some p =>
      if match tag with
         | TagName _ => false
         | Element w => contains d w current
         end
      then Dom.wrap current tag sel d = Throw HierarchyRequestError
      else
      exists wrapper d',
        Dom.wrap current tag sel d
        = Ok (Some wrapper,
              sel ++ [Saved (length sel) d; Restored (length sel) d'], d')
        /\ wrapper = match tag with
                     | TagName _ => length d
                     | Element w => w
                     end
        /\ match tag with
           | TagName t => type_of d' wrapper = Some ELEMENT_NODE
                          /\ name_of d' wrapper = Str.toUpperCase t
           | Element _ => True
           end
        /\ parent_of d' wrapper = Some p
        /\ parent_of d' current = Some wrapper
        /\ children_of d' wrapper = children_of d wrapper ++ [current]
        /\ (forall pre post,
             children_of d p = pre ++ current :: post ->
             children_of d' p
             = remove_id wrapper pre ++ wrapper :: remove_id wrapper post)
  end.
Proof.
  intros Hwf Htag. apply wf_WF in Hwf.
  destruct (parent_of d current) as [p|] eqn:Hp.
  2: { destruct tag as [t|e].
       - exists (d ++ [new_element t]).
         unfold Dom.wrap, bind, save, createElement, alloc, read, ret; simpl.
         rewrite parent_of_alloc by done. by rewrite Hp.
       - exists d. unfold Dom.wrap, bind, save, read, ret; simpl.
         by rewrite Hp. }
  destruct tag as [t|w].
  - cbv iota. set (d0 := d ++ [new_element t]).
    assert (WF d0) as Hwf0 by (by apply WF_alloc).
    assert (current < length d) as Hcur.
    { by apply parent_of_Some_lookup, lookup_lt_is_Some in Hp. }
    assert (p < length d) as Hplt.
    { apply (WF_parent _ Hwf) in Hp. unfold children_of in Hp.
      destruct (d !! p) eqn:E; [by apply lookup_lt_Some in E|].
      by apply elem_of_nil in Hp. }
    destruct (wrap_moves (sel ++ [Saved (length sel) d]) d0 current
                (length d) p)
      as (d1 & d' & Hr1 & Hr2 & Hlen & Hnm & Hty & H1 & H2 & H3 & H4).
    + done.
    + unfold d0. by rewrite parent_of_alloc.
    + unfold d0. by rewrite type_of_alloc_new.
    + lia.
    + intros Habs. apply WF_childless_not_above in Habs; [lia|done|].
      unfold d0. rewrite children_of_alloc by done. apply out_of_range. lia.
    + exists (length d), d'. split; [|split; [done|split; [|split; [done|
        split; [done|split]]]]].
      * unfold Dom.wrap, bind at 1, save. simpl.
        unfold bind at 1, createElement, alloc. fold d0.
        unfold bind at 1, read. unfold d0 at 1.
        rewrite parent_of_alloc, Hp by done. fold d0.
        rewrite (bind_Ok _ _ _ _ _ _ _ Hr1), (bind_Ok _ _ _ _ _ _ _ Hr2).
        unfold bind, restore, ret. simpl. by rewrite <- app_assoc.
      * rewrite Hty, Hnm. unfold d0, name_of.
        by rewrite type_of_alloc_new, list_lookup_middle.
      * unfold d0 in H3. rewrite children_of_alloc in H3 by done.
        assert (children_of d (length d) = []) as E
          by (apply out_of_range; lia).
        by rewrite E in *.
      * intros pre post Hkids. apply H4. unfold d0.
        by rewrite children_of_alloc.
  - destruct (contains d w current) eqn:Hnot.
    { by apply (wrap_in_itself_or_above current w p). }
    assert (w <> current) as Hne.
    { intros ->. by rewrite contains_refl in Hnot. }
    rename Htag into Hty.
    destruct (wrap_moves (sel ++ [Saved (length sel) d]) d current w p)
      as (d1 & d' & Hr1 & Hr2 & Hlen & Hnm & Hty' & H1 & H2 & H3 & H4);
      [done..| |].
    + intros Habs. apply (ancestor_or_self_parent d w current p Hp) in Habs.
      apply WF_ancestor_contains in Habs; [congruence|done].
    + exists w, d'. split; [|done].
      unfold Dom.wrap, bind at 1, save. simpl.
      unfold bind at 1, ret. unfold bind at 1, read. rewrite Hp.
      rewrite (bind_Ok _ _ _ _ _ _ _ Hr1), (bind_Ok _ _ _ _ _ _ _ Hr2).
      unfold bind, restore, ret. simpl. by rewrite <- app_assoc.
Qed.

Lemma wrap_inserts_wrapper_witness :
  exists wrapper d',
    Dom.wrap 2 (TagName "strong") [] WrapExample.doc
    = Ok (Some wrapper,
          [Saved 0 WrapExample.doc; Restored 0 d'], d')
    /\ children_of d' 0 = [1; wrapper; 4]
    /\ children_of d' wrapper = [2]
    /\ outerHTML d' 0 = "<p>a<strong><em>b</em></strong>c</p>"%string.
Proof.
  pose proof (wrap_inserts_wrapper_and_moves_node 2 (TagName "strong") []
                WrapExample.doc eq_refl I) as H.
  change (parent_of WrapExample.doc 2) with (Some 0) in H. cbv iota in H.
  destruct H as (wrapper & d' & Hrun & -> & _ & _ & _ & Hw & Hp).
  exists (length WrapExample.doc), d'.
  split; [exact Hrun|]. split; [exact (Hp [1] [4] eq_refl)|].
  split; [exact Hw|].
  vm_compute in Hrun. injection Hrun as _ <-. reflexivity.
Defined.
(** C8, as stated, fails for a supplied wrapper that contains the node: in
    [<p>a<em>b</em>c</p>] the text [b] has a parent and the [em] is an
    element, yet wrapping [b] in the [em] raises HierarchyRequestError when
    the [em] is to be inserted into itself; no wrapper is returned, and the
    selection, which has been saved, is not restored.  The same happens
    when the wrapper is the node itself. *)
Lemma wrap_in_an_ancestor_raises :
  parent_of WrapExample.doc 3 = Some 2
  /\ type_of WrapExample.doc 2 = Some ELEMENT_NODE
  /\ Dom.wrap 3 (Element 2) [] WrapExample.doc = Throw HierarchyRequestError
  /\ Dom.wrap 2 (Element 2) [] WrapExample.doc = Throw HierarchyRequestError.
Proof. repeat split. Qed.

(** ** [Dom.unwrap] *)

Section Unwrap.
Context {C : Type}.
Implicit Types (d : Document) (node p x q : NodeId) (c : C).

(** The loop [while (node.firstChild) parent.insertBefore(node.firstChild,
    node)]: the children still under [node] are [rest], those already
    moved are [moved]. *)
Lemma unwrap_loop_moves fuel p node pre post c :
  node <> p ->
  forall rest moved d,
    length rest <= fuel ->
    children_of d node = rest ->
    children_of d p = pre ++ moved ++ node :: post ->
    parent_of d node = Some p ->
    type_of d p <> Some TEXT_NODE ->
    is_Some (d !! p) ->
    NoDup rest ->
    node ∉ pre ++ moved ->
    (forall x, x ∈ rest ->
       parent_of d x = Some node
       /\ type_of d x <> Some DOCUMENT_FRAGMENT_NODE
       /\ ~ ancestor_or_self d x p) ->
    exists d',
      Dom.unwrap_loop fuel p node c d = Ok (tt, c, d')
      /\ children_of d' node = []
      /\ children_of d' p = pre ++ moved ++ rest ++ node :: post
      /\ parent_of d' node = Some p
      /\ (forall x, x ∈ rest -> parent_of d' x = Some p)
      /\ (forall x, x ∉ rest -> parent_of d' x = parent_of d x)
      /\ (forall q, q <> p -> q <> node -> children_of d' q = children_of d q)
      /\ (forall x, d' !! x = None <-> d !! x = None).
Proof.
  intros Hnp rest. revert fuel.
  induction rest as [|x rest IH];
    intros fuel moved d Hfuel Hkids Hp Hpar Htext Hsome Hnd Hnotin Hrest.
  - exists d.
    assert (Dom.unwrap_loop fuel p node c d = Ok (tt, c, d)) as Hrun.
    { destruct fuel; simpl; unfold bind, read, firstChild;
        by rewrite Hkids. }
    repeat split; try done.
    intros x Hx. by apply elem_of_nil in Hx.
  - destruct fuel as [|fuel]; [simpl in Hfuel; lia|].
    destruct (Hrest x) as (Hx & Hxfrag & Hxabove); [by left|].
    apply NoDup_cons in Hnd as [Hxrest Hnd].
    assert (x <> node) as Hxn by congruence.
    assert (x <> p) as Hxp.
    { intros ->. apply Hxabove, ancestor_or_self_refl. }
    assert (is_Some (d !! x)) as Hxsome by (by eapply parent_of_Some_lookup).
    set (d1 := insert_one p (Some node) d x).
    assert (forall y, parent_of d1 y = if decide (y = x) then Some p
                                       else parent_of d y) as Hpar1.
    { intros y. unfold d1. by rewrite parent_of_insert_one. }
    assert (forall q, children_of (unlink d x) q
                      = if decide (q = node) then rest
                        else children_of d q) as Hun.
    { intros q. rewrite children_of_unlink, Hx.
      destruct (decide (q = node)) as [->|Hq].
      - rewrite decide_True by done. rewrite Hkids.
        by rewrite remove_id_cons_eq, remove_id_notin.
      - rewrite decide_False by congruence. done. }
    destruct (IH fuel (moved ++ [x]) d1) as (d' & Hrun & H1 & H2 & H3 & H4
                                            & H5 & H6 & H7).
    + simpl in Hfuel. lia.
    + unfold d1. rewrite children_of_insert_one, decide_False by done.
      by rewrite Hun, decide_True.
    + unfold d1. rewrite children_of_insert_one, decide_True by done.
      rewrite Hun, decide_False by done. rewrite Hp. simpl.
      rewrite (app_assoc pre moved), insert_at_middle by done.
      by rewrite <- !app_assoc.
    + rewrite Hpar1. by rewrite decide_False.
    + unfold d1. by rewrite type_of_insert_one.
    + apply lookup_lt_is_Some. unfold d1. rewrite length_insert_one.
      by apply lookup_lt_is_Some.
    + done.
    + rewrite app_assoc. rewrite not_elem_of_app, list_elem_of_singleton.
      split; [done|congruence].
    + intros y Hy. destruct (Hrest y) as (Hy1 & Hy2 & Hy3); [by right|].
      assert (y <> x) as Hyx by (intros ->; done).
      split; [|split].
      * rewrite Hpar1. by rewrite decide_False.
      * unfold d1. by rewrite type_of_insert_one.
      * intros Habs. apply Hy3. apply (ancestor_or_self_agree d d1); [|done].
        intros z Hz. rewrite Hpar1. destruct (decide (z = x)) as [->|]; done.
    + exists d'. split; [|split; [done|split; [|split; [done|split;
        [|split; [|split]]]]]].
      * simpl. unfold bind at 1, read, firstChild. rewrite Hkids. simpl.
        unfold bind at 1.
        rewrite insertBefore_run; [|done|done|by intros r [= <-]].
        rewrite pre_insert_node; [|done|congruence].
        exact Hrun.
      * rewrite H2. by rewrite <- !app_assoc.
      * intros y [->|Hy]%elem_of_cons; [|by apply H4].
        rewrite H5 by done. by rewrite Hpar1, decide_True.
      * intros y Hy. apply not_elem_of_cons in Hy as [Hy1 Hy2].
        rewrite H5 by done. by rewrite Hpar1, decide_False.
      * intros q Hq1 Hq2. rewrite H6 by done.
        unfold d1. rewrite children_of_insert_one, decide_False by done.
        by rewrite Hun, decide_False.
      * intros y. rewrite H7. unfold d1.
        rewrite !lookup_ge_None. by rewrite length_insert_one.
Qed.

End Unwrap.

(** C7. In a well-formed document, [Dom.unwrap] of a node without parent
    changes nothing; for a node with a parent, given fuel for its children,
    it takes the node out of the tree and leaves its children, in their
    order, in its place among the children of the parent. *)
Theorem unwrap_splices_children {C : Type} (fuel : nat) (node : NodeId)
  (c : C) (d : Document) :
  wf d = true ->
  match parent_of d node with
  | None => Dom.unwrap fuel node c d = Ok (tt, c, d)
  | Some p =>
      length (children_of d node) <= fuel ->
      exists d',
        Dom.unwrap fuel node c d = Ok (tt, c, d')
        /\ parent_of d' node = None
        /\ children_of d' node = []
        /\ (forall x, x ∈ children_of d node -> parent_of d' x = Some p)
        /\ (forall pre post,
             children_of d p = pre ++ node :: post ->
             children_of d' p = pre ++ children_of d node ++ post)
        /\ (forall q, q <> p -> q <> node ->
             children_of d' q = children_of d q)
        /\ (forall x, x <> node -> x ∉ children_of d node ->
             parent_of d' x = parent_of d x)
  end.
Proof.
  intros Hwf. apply wf_WF in Hwf.
  destruct (parent_of d node) as [p|] eqn:Hp.
  2: { unfold Dom.unwrap, bind, read. by rewrite Hp. }
  intros Hfuel.
  pose proof (WF_parent _ Hwf _ _ Hp) as Hin.
  apply list_elem_of_split in Hin as (pre0 & post0 & Hkids).
  pose proof (WF_nodup _ Hwf p) as Hnd. rewrite Hkids in Hnd.
  apply NoDup_app in Hnd as (_ & Hpre & Hpost).
  apply NoDup_cons in Hpost as [Hpost _].
  assert (node ∉ pre0) as Hpre'.
  { intros H. apply (Hpre _ H). by left. }
  assert (node <> p) as Hnp.
  { intros ->. assert (nth_parent 1 d p = Some p) as Hcyc
      by (simpl; by rewrite Hp).
    by apply WF_no_cycle in Hcyc. }
  assert (is_Some (d !! p)) as Hsome.
  { unfold children_of in Hkids. destruct (d !! p); [eauto|].
    by destruct pre0. }
  destruct (unwrap_loop_moves fuel p node pre0 post0 c Hnp
              (children_of d node) [] d)
    as (d1 & Hrun & H1 & H2 & H3 & H4 & H5 & H6 & H7).
  - done.
  - done.
  - done.
  - done.
  - intros Ht. apply (WF_text _ Hwf) in Ht. rewrite Ht in Hkids.
    by destruct pre0.
  - done.
  - apply (WF_nodup _ Hwf).
  - by rewrite app_nil_r.
  - intros x Hx. pose proof (WF_child _ Hwf _ _ Hx) as Hxp.
    split; [done|split].
    + intros Ht. apply (WF_fragment _ Hwf) in Ht. congruence.
    + by eapply WF_grandchild_not_above.
  - simpl in H2.
    assert (node ∉ children_of d node) as Hself.
    { intros Hx. apply (WF_child _ Hwf) in Hx. congruence. }
    exists (unlink d1 node).
    split; [|split; [|split; [|split; [|split; [|split]]]]].
    + unfold Dom.unwrap, bind at 1, read. rewrite Hp.
      rewrite (bind_Ok _ _ _ _ _ _ _ Hrun).
      unfold Dom.safeRemove, bind at 1, read. rewrite H3.
      unfold bind at 1, removeChild, bind at 1, read. rewrite H3.
      by rewrite bool_decide_eq_true_2.
    + rewrite parent_of_unlink. by rewrite decide_True.
    + rewrite children_of_unlink, H3. by rewrite decide_False by congruence.
    + intros x Hx. rewrite parent_of_unlink.
      rewrite decide_False by (intros ->; done). by apply H4.
    + intros pre post Hkids'.
      rewrite Hkids in Hkids'.
      assert (pre = pre0 /\ post = post0) as [-> ->].
      { pose proof (WF_nodup _ Hwf p) as Hnd. rewrite Hkids in Hnd.
        rewrite Hkids' in Hnd.
        assert (node ∉ pre) as Hn1.
        { intros H. apply NoDup_app in Hnd as (_ & Hd & _).
          apply (Hd _ H). by left. }
        revert Hkids' Hpre' Hn1. clear. revert pre.
        induction pre0 as [|y pre0 IH]; intros [|z pre] Heq H1 H2;
          simpl in *.
        - by injection Heq as ->.
        - injection Heq as <- _. exfalso. apply H2. by left.
        - injection Heq as -> _. exfalso. apply H1. by left.
        - injection Heq as -> Heq.
          apply not_elem_of_cons in H1 as [_ H1].
          apply not_elem_of_cons in H2 as [_ H2].
          destruct (IH pre Heq H1 H2) as [-> ->]. done. }
      rewrite children_of_unlink, H3, decide_True by done. rewrite H2.
      rewrite !remove_id_app, remove_id_cons_eq.
      by rewrite !remove_id_notin.
    + intros q Hq1 Hq2. rewrite children_of_unlink, H3.
      rewrite decide_False by congruence. by apply H6.
    + intros x Hx1 Hx2. rewrite parent_of_unlink, decide_False by done.
      by apply H5.
Qed.

Lemma unwrap_splices_children_witness :
  exists d',
    Dom.unwrap 2 1 tt UnwrapExample.doc = Ok (tt, tt, d')
    /\ children_of d' 0 = [2; 3]
    /\ parent_of d' 1 = None
    /\ outerHTML d' 0 = "<div>a<b>b</b></div>"%string.
Proof.
  pose proof (unwrap_splices_children 2 1 tt UnwrapExample.doc eq_refl) as H.
  change (parent_of UnwrapExample.doc 1) with (Some 0) in H.
  destruct (H (le_n 2)) as (d' & Hrun & Hp & _ & _ & Hkids & _).
  exists d'. split; [exact Hrun|]. split; [exact (Hkids [] [] eq_refl)|].
  split; [exact Hp|].
  vm_compute in Hrun. injection Hrun as <-. reflexivity.
Defined.

(** ** [Dom.each] and [Dom.isEmpty] *)

Section Each.
Context {C : Type}.
Implicit Types (d : Document) (n elm : NodeId) (c : C).

(** Inside [Dom.each(elm, ...)] the successor of a child of [elm] is its
    next sibling. *)
Lemma next_Boolean fuel n elm c d :
  parent_of d n = Some elm ->
  2 <= fuel ->
  Dom.next fuel n Dom.Boolean elm true c d = Ok (nextSibling d n, c, d).
Proof.
  intros Hp Hfuel. destruct fuel as [|[|fuel]]; [lia..|].
  unfold Dom.next. simpl. unfold bind, read, ret, Dom.Boolean; simpl.
  destruct (nextSibling d n) as [s|] eqn:E; simpl.
  - done.
  - rewrite Hp. by rewrite bool_decide_eq_true_2.
Qed.

Lemma nextSibling_middle d n p pre post :
  parent_of d n = Some p ->
  children_of d p = pre ++ n :: post ->
  n ∉ pre ->
  nextSibling d n = head post.
Proof.
  intros Hp Hkids Hn. unfold nextSibling. rewrite Hp. simpl.
  rewrite Hkids. by apply after_in_middle.
Qed.

End Each.

Section IsEmpty.
Context {C : Type}.
Implicit Types (d : Document) (n elm : NodeId) (c : C).

Lemma isEmpty_element fuel elm cond c d :
  Dom.isText d (Some elm) = false ->
  Dom.isEmpty fuel (Some elm) cond c d =
  if regexp_test cond (Str.toLowerCase (name_of d elm))
  then Ok (false, c, d)
  else Dom.each fuel elm (isEmpty_callback cond) c d.
Proof.
  intros Ht. unfold Dom.isEmpty, bind at 1, read. rewrite Ht.
  unfold bind at 1, read.
  destruct (regexp_test cond (Str.toLowerCase (name_of d elm))); done.
Qed.

(** One step of the traversal, for a callback that does not change the
    document. *)
Lemma each_loop_step fuel elm cond n c d :
  parent_of d n = Some elm ->
  2 <= fuel ->
  Dom.each_loop (S fuel) elm (isEmpty_callback cond) (Some n) c d =
  if stops_isEmpty cond d n then Ok (false, c, d)
  else
    match Dom.each fuel n (isEmpty_callback cond) c d with
    | Ok (inner, c', d') =>
        if negb inner then Ok (false, c', d')
        else Dom.each_loop fuel elm (isEmpty_callback cond)
                           (nextSibling d n) c' d'
    | Throw e => Throw e
    | OutOfFuel => OutOfFuel
    end.
Proof.
  intros Hp Hfuel. cbn [Dom.each_loop]. unfold bind at 1.
  rewrite next_Boolean by done.
  unfold bind at 1. unfold isEmpty_callback at 1. unfold bind at 1, read at 1.
  destruct (stops_isEmpty cond d n); [done|].
  unfold ret at 1. unfold bind at 1, read at 1. rewrite Hp.
  unfold bind at 1.
  destruct (Dom.each fuel n (isEmpty_callback cond) c d)
    as [[[inner c'] d']| |]; [|done..].
  by destruct inner.
Qed.

(** The traversal of children that are blank texts. *)
Lemma each_loop_blank_texts fuel elm cond c d :
  WF d ->
  forall rest pre,
    children_of d elm = pre ++ rest ->
    (forall k, k ∈ rest ->
       type_of d k = Some TEXT_NODE /\ stops_isEmpty cond d k = false) ->
    length rest + 3 <= fuel ->
    Dom.each_loop fuel elm (isEmpty_callback cond) (head rest) c d
    = Ok (true, c, d).
Proof.
  intros Hwf rest. revert fuel.
  induction rest as [|k rest IH]; intros fuel pre Hkids Hrest Hfuel.
  - destruct fuel; done.
  - destruct fuel as [|fuel]; [simpl in Hfuel; lia|].
    destruct (Hrest k) as [Hk1 Hk2]; [by left|].
    assert (parent_of d k = Some elm) as Hp.
    { apply (WF_child _ Hwf). rewrite Hkids.
      apply elem_of_app. right. by left. }
    assert (k ∉ pre) as Hpre.
    { pose proof (WF_nodup _ Hwf elm) as Hnd. rewrite Hkids in Hnd.
      apply NoDup_app in Hnd as (_ & Hnd & _).
      intros H. apply (Hnd _ H). by left. }
    change (head (k :: rest)) with (Some k).
    rewrite each_loop_step by (done || simpl in Hfuel; lia).
    rewrite Hk2.
    rewrite (nextSibling_middle d k elm pre rest) by done.
    assert (Dom.each fuel k (isEmpty_callback cond) c d = Ok (true, c, d))
      as ->.
    { destruct fuel as [|fuel]; [simpl in Hfuel; lia|].
      simpl. unfold bind, read, firstChild.
      rewrite (WF_text _ Hwf k Hk1). by destruct fuel. }
    simpl. apply (IH fuel (pre ++ [k])).
    + by rewrite <- app_assoc.
    + intros k' Hk'. apply Hrest. by right.
    + simpl in Hfuel. lia.
Qed.

End IsEmpty.

Lemma blank_text_passes d k cond :
  blank_text d k ->
  type_of d k = Some TEXT_NODE /\ stops_isEmpty cond d k = false.
Proof.
  intros [Ht Hv]. split; [done|]. unfold stops_isEmpty, Dom.isText, Dom.isElement.
  rewrite Ht. rewrite bool_decide_eq_true_2 by done.
  rewrite (bool_decide_eq_false_2 (Some TEXT_NODE = Some ELEMENT_NODE)) by done.
  simpl. destruct (value_of d k) as [v|]; [|done].
  rewrite Hv. done.
Qed.

Lemma isText_element d elm :
  type_of d elm = Some ELEMENT_NODE -> Dom.isText d (Some elm) = false.
Proof. intros Ht. unfold Dom.isText. rewrite Ht. done. Qed.

(** C6, amended. [Dom.isEmpty] with the default exception set, on a
    well-formed document: an element whose only child is an [<img>] is
    not empty; an element that is not itself in the exception set and whose
    children are blank text nodes is empty; an element that holds an empty
    [<span>] and a text that is not blank is not empty; a text node is
    empty exactly when it has no value or its value trims to nothing. *)
Theorem isEmpty_cases {C : Type} (fuel : nat) (c : C) (d : Document) :
  wf d = true ->
  (forall elm img,
      type_of d elm = Some ELEMENT_NODE ->
      children_of d elm = [img] ->
      type_of d img = Some ELEMENT_NODE ->
      Str.toLowerCase (name_of d img) = "img"%string ->
      4 <= fuel ->
      Dom.isEmpty fuel (Some elm) Dom.condNoEmptyElement c d
      = Ok (false, c, d))
  /\ (forall elm,
      type_of d elm = Some ELEMENT_NODE ->
      regexp_test Dom.condNoEmptyElement (Str.toLowerCase (name_of d elm))
      = false ->
      (forall k, k ∈ children_of d elm -> blank_text d k) ->
      length (children_of d elm) + 4 <= fuel ->
      Dom.isEmpty fuel (Some elm) Dom.condNoEmptyElement c d
      = Ok (true, c, d))
  /\ (forall elm span text v,
      type_of d elm = Some ELEMENT_NODE ->
      children_of d elm = [span; text] ->
      type_of d span = Some ELEMENT_NODE ->
      Str.toLowerCase (name_of d span) = "span"%string ->
      children_of d span = [] ->
      type_of d text = Some TEXT_NODE ->
      value_of d text = Some v ->
      String.length (Str.trim v) <> 0 ->
      5 <= fuel ->
      Dom.isEmpty fuel (Some elm) Dom.condNoEmptyElement c d
      = Ok (false, c, d))
  /\ (forall text,
      type_of d text = Some TEXT_NODE ->
      Dom.isEmpty fuel (Some text) Dom.condNoEmptyElement c d
      = Ok (match value_of d text with
            | None => true
            | Some v => Nat.eqb (String.length (Str.trim v)) 0
            end, c, d)).
Proof.
  intros Hwf. apply wf_WF in Hwf. split; [|split; [|split]].
  - intros elm img Helm Hkids Himg Hname Hfuel.
    rewrite isEmpty_element by (by apply isText_element).
    destruct (regexp_test _ _); [done|].
    destruct fuel as [|[|fuel]]; [lia..|].
    cbn [Dom.each]. unfold bind at 1, read, firstChild. rewrite Hkids.
    cbn [head].
    rewrite each_loop_step.
    + unfold stops_isEmpty, Dom.isElement. rewrite Himg, Hname.
      by rewrite bool_decide_eq_true_2, orb_true_r.
    + apply (WF_child _ Hwf). rewrite Hkids. by left.
    + lia.
  - intros elm Helm Hnot Hkids Hfuel.
    rewrite isEmpty_element by (by apply isText_element). rewrite Hnot.
    destruct fuel as [|fuel]; [lia|].
    cbn [Dom.each]. unfold bind at 1, read, firstChild.
    apply (each_loop_blank_texts fuel elm _ c d Hwf (children_of d elm) []).
    + done.
    + intros k Hk. by apply blank_text_passes, Hkids.
    + lia.
  - intros elm span text v Helm Hkids Hspan Hname Hnokids Htext Hv Hne Hfuel.
    rewrite isEmpty_element by (by apply isText_element).
    destruct (regexp_test _ _); [done|].
    destruct fuel as [|[|[|fuel]]]; [lia..|].
    assert (parent_of d span = Some elm) as Hp1.
    { apply (WF_child _ Hwf). rewrite Hkids. by left. }
    assert (parent_of d text = Some elm) as Hp2.
    { apply (WF_child _ Hwf). rewrite Hkids. right. by left. }
    assert (span <> text) as Hst.
    { pose proof (WF_nodup _ Hwf elm) as Hnd. rewrite Hkids in Hnd.
      apply NoDup_cons in Hnd as [Hnd _].
      intros ->. apply Hnd. by left. }
    cbn [Dom.each]. unfold bind at 1, read, firstChild. rewrite Hkids.
    cbn [head].
    rewrite each_loop_step by (done || lia).
    assert (stops_isEmpty Dom.condNoEmptyElement d span = false) as ->.
    { unfold stops_isEmpty, Dom.isText, Dom.isElement. rewrite Hspan, Hname.
      by rewrite bool_decide_eq_false_2. }
    assert (Dom.each (S fuel) span
              (isEmpty_callback Dom.condNoEmptyElement) c d
            = Ok (true, c, d)) as ->.
    { cbn [Dom.each]. unfold bind, read, firstChild. rewrite Hnokids.
      by destruct fuel. }
    cbn [negb].
    rewrite (nextSibling_middle d span elm [] [text]);
      [|done|done|apply not_elem_of_nil].
    cbn [head]. rewrite each_loop_step by (done || lia).
    unfold stops_isEmpty, Dom.isText. rewrite Htext, Hv.
    rewrite bool_decide_eq_true_2 by done.
    destruct (String.length (Str.trim v)); done.
  - intros text Htext. unfold Dom.isEmpty, bind, read, Dom.isText.
    rewrite Htext. by rewrite bool_decide_eq_true_2.
Qed.

Lemma isEmpty_cases_witness :
  Dom.isEmpty 6 (Some 1) Dom.condNoEmptyElement tt EmptyExample.doc
  = Ok (false, tt, EmptyExample.doc)
  /\ Dom.isEmpty 6 (Some 3) Dom.condNoEmptyElement tt EmptyExample.doc
     = Ok (true, tt, EmptyExample.doc)
  /\ Dom.isEmpty 6 (Some 5) Dom.condNoEmptyElement tt EmptyExample.doc
     = Ok (false, tt, EmptyExample.doc)
  /\ Dom.isEmpty 6 (Some 4) Dom.condNoEmptyElement tt EmptyExample.doc
     = Ok (true, tt, EmptyExample.doc)
  /\ Dom.isEmpty 6 (Some 7) Dom.condNoEmptyElement tt EmptyExample.doc
     = Ok (false, tt, EmptyExample.doc).
Proof.
  destruct (isEmpty_cases 6 tt EmptyExample.doc eq_refl)
    as (Himg & Hblank & Hspan & Htext).
  split; [|split; [|split; [|split]]].
  - apply (Himg 1 2); [reflexivity..|lia].
  - apply (Hblank 3); [reflexivity..| |simpl; lia].
    intros k Hk. apply list_elem_of_singleton in Hk as ->.
    split; [reflexivity|simpl; reflexivity].
  - apply (Hspan 5 6 7 "x"%string); [reflexivity..|discriminate|lia].
  - apply (Htext 4). reflexivity.
  - apply (Htext 7). reflexivity.
Defined.

(** C6, as stated, fails: a [<form>] whose only child is a blank text is
    an element whose children are only white-space text nodes, and it is
    not empty, because [form] is in the exception set. *)
Lemma isEmpty_blank_form_is_not_empty :
  type_of EmptyExample.doc 8 = Some ELEMENT_NODE
  /\ name_of EmptyExample.doc 8 = "FORM"%string
  /\ (forall k, k ∈ children_of EmptyExample.doc 8 ->
        blank_text EmptyExample.doc k)
  /\ Dom.isEmpty 6 (Some 8) Dom.condNoEmptyElement tt EmptyExample.doc
     = Ok (false, tt, EmptyExample.doc).
Proof.
  split; [reflexivity|]. split; [reflexivity|]. split; [|reflexivity].
  intros k Hk. apply list_elem_of_singleton in Hk as ->.
  split; [reflexivity|simpl; reflexivity].
Qed.

(** ** [Dom.each]: abortion and removal of the visited node *)

Section EachTrace.
Context {C : Type}.
Implicit Types (callback : NodeId -> M C (option bool))
  (log new : list (NodeId * option bool)).

Lemma abort_trace_app b new1 new2 :
  Forall not_false new1 -> abort_trace b new2 -> abort_trace b (new1 ++ new2).
Proof.
  intros H1. destruct b; simpl.
  - intros H2. by apply Forall_app.
  - intros (init & n & -> & H2). exists (new1 ++ init), n.
    split; [by rewrite app_assoc|by apply Forall_app].
Qed.

Lemma next_keeps_closure {C'} fuel n elm (c : C') d r c' d' :
  Dom.next fuel n Dom.Boolean elm true c d = Ok (r, c', d') -> c' = c.
Proof.
  intros H. symmetry.
  refine (respects_next eq fuel n Dom.Boolean elm true _ _ _ _ _ _ H).
  intros o. apply respects_ret. typeclasses eauto.
Qed.

Lemma traced_inv callback n c log d r cl' d' :
  traced callback n (c, log) d = Ok (r, cl', d') ->
  cl'.2 = log ++ [(n, r)].
Proof.
  unfold traced. simpl.
  destruct (callback n c d) as [[[r0 c0] d0]| |]; [|done..].
  by intros [= <- <- _].
Qed.

Lemma each_abort_trace callback fuel :
  (forall elm cl d b cl' d',
      Dom.each fuel elm (traced callback) cl d = Ok (b, cl', d') ->
      exists new, cl'.2 = cl.2 ++ new /\ abort_trace b new)
  /\ (forall elm node cl d b cl' d',
      Dom.each_loop fuel elm (traced callback) node cl d = Ok (b, cl', d') ->
      exists new, cl'.2 = cl.2 ++ new /\ abort_trace b new).
Proof.
  induction fuel as [|fuel [IHeach IHloop]]; split.
  - done.
  - intros elm [n|] cl d b cl' d'; simpl; [done|].
    intros [= <- <- _]. exists []. split; [by rewrite app_nil_r|constructor].
  - intros elm cl d b cl' d'. simpl. unfold bind at 1, read.
    apply IHloop.
  - intros elm [n|] cl d b cl' d'; simpl.
    2: { intros [= <- <- _]. exists [].
         split; [by rewrite app_nil_r|constructor]. }
    intros H. apply bind_inv in H as (nx & cl1 & d1 & Hnext & H).
    apply next_keeps_closure in Hnext as ->.
    apply bind_inv in H as (r & cl2 & d2 & Hcb & H).
    destruct cl as [c log]. apply traced_inv in Hcb. simpl in *.
    assert (r = Some false \/ r <> Some false) as [->|Hr].
    { destruct r as [[|]|]; auto. }
    { injection H as <- <- _. exists [(n, Some false)]. split; [done|].
      exists [], n. split; [done|constructor]. }
    assert (abort_trace true [(n, r)]) as Hone.
    { constructor; [done|constructor]. }
    assert ((let* parent := read (fun d => parent_of d n) in
             let* inner :=
               match parent with
               | Some _ => Dom.each fuel n (traced callback)
               | None => ret true
               end in
             if negb inner then ret false
             else Dom.each_loop fuel elm (traced callback) nx) cl2 d2
            = Ok (b, cl', d')) as H'.
    { destruct r as [[|]|]; [done|done|done]. }
    clear H. unfold bind at 1, read in H'.
    apply bind_inv in H' as (inner & cl3 & d3 & Hinner & H').
    assert (exists new3, cl3.2 = cl2.2 ++ new3 /\ abort_trace inner new3)
      as (new3 & E3 & A3).
    { destruct (parent_of d2 n).
      - by eapply IHeach.
      - injection Hinner as <- <- _. exists [].
        split; [by rewrite app_nil_r|constructor]. }
    destruct inner; simpl in H'.
    + apply IHloop in H' as (new4 & E4 & A4).
      exists ([(n, r)] ++ new3 ++ new4). split.
      * rewrite E4, E3, Hcb. by rewrite <- !app_assoc.
      * apply abort_trace_app; [done|]. by apply abort_trace_app.
    + injection H' as <- <- _. exists ([(n, r)] ++ new3). split.
      * rewrite E3, Hcb. by rewrite <- !app_assoc.
      * by apply abort_trace_app.
Qed.

End EachTrace.

Section EachRemoving.
Context {C : Type}.
Implicit Types (d : Document) (elm : NodeId) (c : C)
  (log : list (NodeId * option bool)).

(** The loop of [Dom.each] when the callback removes the visited node:
    [rest] are the children still to visit. *)
Lemma each_loop_removing elm c :
  forall rest fuel log d,
    children_of d elm = rest ->
    NoDup rest ->
    (forall k, k ∈ rest -> parent_of d k = Some elm) ->
    length rest + 3 <= fuel ->
    Dom.each_loop fuel elm (traced removing) (head rest) (c, log) d
    = Ok (true, (c, log ++ map (fun k => (k, None)) rest),
          foldl unlink d rest).
Proof.
  induction rest as [|k rest IH]; intros fuel log d Hkids Hnd Hpar Hfuel.
  - destruct fuel; simpl; by rewrite app_nil_r.
  - destruct fuel as [|fuel]; [simpl in Hfuel; lia|].
    apply NoDup_cons in Hnd as [Hk Hnd].
    assert (parent_of d k = Some elm) as Hp by (apply Hpar; by left).
    cbn [head Dom.each_loop]. unfold bind at 1.
    rewrite next_Boolean by (done || simpl in Hfuel; lia).
    rewrite (nextSibling_middle d k elm [] rest);
      [|done|done|apply not_elem_of_nil].
    unfold bind at 1, traced at 1, removing at 1. simpl.
    unfold bind at 1, Dom.safeRemove, bind at 1, read at 1. rewrite Hp.
    unfold bind at 1, removeChild, bind at 1, read at 1. rewrite Hp.
    rewrite bool_decide_eq_true_2 by done.
    unfold bind at 1, write at 1. unfold ret at 1. unfold ret at 1.
    unfold ret at 1.
    unfold bind at 1, read at 1.
    rewrite parent_of_unlink, decide_True by done.
    unfold bind at 1, ret at 1. cbn [negb].
    rewrite (IH fuel (log ++ [(k, None)]) (unlink d k)).
    + simpl. by rewrite <- app_assoc.
    + rewrite children_of_unlink, Hp, decide_True by done.
      rewrite Hkids. by rewrite remove_id_cons_eq, remove_id_notin.
    + done.
    + intros k' Hk'. rewrite parent_of_unlink.
      rewrite decide_False by (intros ->; done). apply Hpar. by right.
    + simpl in Hfuel. lia.
Qed.

Lemma foldl_unlink_children d elm rest :
  children_of d elm = rest ->
  NoDup rest ->
  (forall k, k ∈ rest -> parent_of d k = Some elm) ->
  children_of (foldl unlink d rest) elm = []
  /\ (forall k, k ∈ rest -> parent_of (foldl unlink d rest) k = None)
  /\ (forall x, x ∉ rest -> parent_of (foldl unlink d rest) x = parent_of d x)
  /\ (forall q, q <> elm ->
        children_of (foldl unlink d rest) q = children_of d q).
Proof.
  revert d. induction rest as [|k rest IH]; intros d Hkids Hnd Hpar; simpl.
  - repeat split; try done. intros k Hk. by apply elem_of_nil in Hk.
  - apply NoDup_cons in Hnd as [Hk Hnd].
    assert (parent_of d k = Some elm) as Hp by (apply Hpar; by left).
    destruct (IH (unlink d k)) as (H1 & H2 & H3 & H4); [|done| |].
    { rewrite children_of_unlink, Hp, decide_True by done.
      rewrite Hkids. by rewrite remove_id_cons_eq, remove_id_notin. }
    { intros k' Hk'. rewrite parent_of_unlink.
      rewrite decide_False by (intros ->; done). apply Hpar. by right. }
    split; [done|split; [|split]].
    + intros k' [->|Hk']%elem_of_cons; [|by apply H2].
      rewrite H3 by done. rewrite parent_of_unlink. by rewrite decide_True.
    + intros x [Hx1 Hx2]%not_elem_of_cons. rewrite H3 by done.
      rewrite parent_of_unlink. by rewrite decide_False.
    + intros q Hq. rewrite H4 by done. rewrite children_of_unlink, Hp.
      by rewrite decide_False by congruence.
Qed.

End EachRemoving.

(** C5. [Dom.each] takes the successor of a node before it calls the
    callback on it.  For every callback: a traversal that returns [false]
    ends with the one invocation of the callback that returned [false], and
    a traversal that returns [true] has none; and after the callback was
    called on a child of the element, whatever it did to the document, the
    traversal goes on with the node that was the next sibling of that
    child before the call (and does not enter a child that was removed).
    For the callback that removes the node it visits, on a well-formed
    document and with fuel for the children: the traversal raises nothing,
    returns [true], has visited every child of the element, in order, and
    leaves the element without children. *)
Theorem each_aborts_and_survives_removal {C : Type} (fuel : nat)
  (elm : NodeId) (c : C) (log : list (NodeId * option bool)) (d : Document) :
  (forall callback b cl' d',
      Dom.each fuel elm (traced callback) (c, log) d = Ok (b, cl', d') ->
      exists new, cl'.2 = log ++ new /\ abort_trace b new)
  /\ (forall (callback : NodeId -> M C (option bool)) n,
      parent_of d n = Some elm ->
      2 <= fuel ->
      Dom.each_loop (S fuel) elm callback (Some n) c d
      = (let* r := callback n in
         match r with
         | Some false => ret false
         | _ =>
             let* parent := read (fun d' => parent_of d' n) in
             let* inner :=
               match parent with
               | Some _ => Dom.each fuel n callback
               | None => ret true
               end in
             if negb inner then ret false
             else Dom.each_loop fuel elm callback (nextSibling d n)
         end) c d)
  /\ (wf d = true ->
      length (children_of d elm) + 4 <= fuel ->
      exists d',
        Dom.each fuel elm (traced removing) (c, log) d
        = Ok (true,
              (c, log ++ map (fun k => (k, None)) (children_of d elm)), d')
        /\ children_of d' elm = []
        /\ (forall k, k ∈ children_of d elm -> parent_of d' k = None)
        /\ (forall x, x ∉ children_of d elm -> parent_of d' x = parent_of d x)
        /\ (forall q, q <> elm -> children_of d' q = children_of d q)).
Proof.
  split; [|split].
  - intros callback b cl' d' H.
    by apply (proj1 (each_abort_trace callback fuel)) in H.
  - intros callback n Hp Hfuel. cbn [Dom.each_loop]. unfold bind at 1.
    by rewrite next_Boolean.
  - intros Hwf Hfuel. apply wf_WF in Hwf.
    destruct fuel as [|fuel]; [lia|].
    exists (foldl unlink d (children_of d elm)).
    split.
    + cbn [Dom.each]. unfold bind at 1, read at 1, firstChild.
      apply each_loop_removing; [done|apply (WF_nodup _ Hwf)| |lia].
      intros k Hk. by apply (WF_child _ Hwf).
    + apply foldl_unlink_children; [done|apply (WF_nodup _ Hwf)|].
      intros k Hk. by apply (WF_child _ Hwf).
Qed.

Lemma each_survives_removal_witness :
  exists d',
    Dom.each 7 0 (traced removing) (tt, []) WrapExample.doc
    = Ok (true, (tt, [(1, None); (2, None); (4, None)]), d')
    /\ children_of d' 0 = []
    /\ outerHTML d' 0 = "<p></p>"%string
    /\ outerHTML d' 2 = "<em>b</em>"%string.
Proof.
  destruct (proj2 (proj2 (each_aborts_and_survives_removal 7 0 tt []
                            WrapExample.doc)) eq_refl)
    as (d' & Hrun & Hkids & _); [simpl; lia|].
  exists d'. split; [exact Hrun|]. split; [exact Hkids|].
  vm_compute in Hrun. injection Hrun as <-. split; reflexivity.
Defined.

(** ** Unwrapping a node and inserting after a node, on well-formed
    documents *)

Section UnwrapRun.
Context {C : Type}.
Implicit Types (d : Document) (p node x q W P : NodeId)
  (pre post u : list NodeId).

Lemma data_of_unlink d n x : data_of (unlink d n) x = data_of d x.
Proof.
  unfold unlink. destruct (parent_of d n); [|done].
  by rewrite !data_of_alter.
Qed.

Lemma unwrap_loop_run (c : C) p node :
  forall rest fuel d,
    WF d -> children_of d node = rest -> parent_of d node = Some p ->
    length rest <= fuel ->
    Dom.unwrap_loop fuel p node c d
    = Ok (tt, c, foldl (insert_one p (Some node)) d rest).
Proof.
  induction rest as [|x rest IH]; intros fuel d Hwf Hkids Hp Hfuel.
  - destruct fuel; simpl; unfold bind, read, firstChild; by rewrite Hkids.
  - destruct fuel as [|fuel]; [simpl in Hfuel; lia|]. simpl in Hfuel.
    assert (parent_of d x = Some node) as Hx.
    { apply (WF_child _ Hwf). rewrite Hkids. by left. }
    assert (x <> node) as Hxn.
    { intros ->. assert (nth_parent 1 d node = Some node) as Hc
        by (simpl; by rewrite Hx).
      by apply WF_no_cycle in Hc. }
    assert (node ∈ children_of d p) as Hin by (by apply (WF_parent _ Hwf)).
    assert (type_of d p <> Some TEXT_NODE) as Htext.
    { intros E. apply (WF_text _ Hwf) in E. rewrite E in Hin.
      by apply elem_of_nil in Hin. }
    assert (~ ancestor_or_self d x p) as Habove
      by (by apply (WF_grandchild_not_above d x node p)).
    assert (type_of d x <> Some DOCUMENT_FRAGMENT_NODE) as Hfrag.
    { intros E. apply (WF_fragment _ Hwf) in E. congruence. }
    assert (is_Some (d !! x)) as Hxs by (by eapply parent_of_Some_lookup).
    assert (is_Some (d !! p)) as Hps.
    { apply lookup_lt_is_Some. by apply (children_of_valid d p node). }
    assert (p <> node) as Hpn.
    { intros ->. assert (nth_parent 1 d node = Some node) as Hc
        by (simpl; by rewrite Hp).
      by apply WF_no_cycle in Hc. }
    set (d1 := insert_one p (Some node) d x).
    simpl. unfold bind at 1, read, firstChild. rewrite Hkids. simpl.
    unfold bind at 1.
    rewrite insertBefore_run; [|done|done|by intros r [= <-]].
    rewrite pre_insert_node; [|done|congruence]. fold d1.
    apply IH; [| | |lia].
    + by apply WF_insert_one.
    + unfold d1. rewrite children_of_insert_one by done.
      rewrite decide_False by done. rewrite children_of_unlink.
      rewrite decide_True by done. rewrite Hkids.
      rewrite remove_id_cons_eq. apply remove_id_notin.
      pose proof (WF_nodup _ Hwf node) as Hnd. rewrite Hkids in Hnd.
      by apply NoDup_cons in Hnd as [? _].
    + unfold d1. rewrite parent_of_insert_one by done.
      by rewrite decide_False.
Qed.

Lemma unwrap_run (c : C) d p node pre post fuel :
  WF d ->
  children_of d p = pre ++ node :: post ->
  length (children_of d node) <= fuel ->
  exists d',
    Dom.unwrap fuel node c d = Ok (tt, c, d')
    /\ WF d'
    /\ length d' = length d
    /\ (forall x, data_of d' x = data_of d x)
    /\ children_of d' p = pre ++ children_of d node ++ post
    /\ children_of d' node = []
    /\ parent_of d' node = None
    /\ (forall q, q <> p -> q <> node -> children_of d' q = children_of d q)
    /\ (forall x, x <> node -> x ∉ children_of d node ->
          parent_of d' x = parent_of d x).
Proof.
  intros Hwf Hkids Hfuel.
  assert (parent_of d node = Some p) as Hp.
  { apply (WF_child _ Hwf). rewrite Hkids. apply elem_of_app. right. by left. }
  assert (p <> node) as Hpn.
  { intros ->. assert (nth_parent 1 d node = Some node) as Hc
      by (simpl; by rewrite Hp).
    by apply WF_no_cycle in Hc. }
  assert (type_of d p <> Some TEXT_NODE) as Htext.
  { intros E. apply (WF_text _ Hwf) in E. rewrite E in Hkids.
    by destruct pre. }
  destruct (move_nodes c (children_of d node) d node p (Some node) [] []
              pre post)
    as (Hwf2 & Hlen2 & Hdata2 & Hn2 & Hp2 & Hframe2 & Hpar2 & _ & _);
    [done|by rewrite app_nil_r|done| |done| |done|].
  { apply lookup_lt_is_Some. by apply (children_of_valid d p node),
      (WF_parent _ Hwf). }
  { by apply WF_child_not_above. }
  set (d2 := foldl (insert_one p (Some node)) d (children_of d node)) in *.
  simpl in Hn2, Hp2.
  assert (node ∉ children_of d node) as Hself.
  { intros Hin. apply (WF_child _ Hwf) in Hin.
    assert (nth_parent 1 d node = Some node) as Hc
      by (simpl; by rewrite Hin).
    by apply WF_no_cycle in Hc. }
  assert (parent_of d2 node = Some p) as Hpn2 by (by rewrite Hpar2).
  exists (unlink d2 node). split_conj.
  - unfold Dom.unwrap. rewrite bind_read, Hp.
    rewrite (bind_Ok _ _ _ _ _ _ _
               (unwrap_loop_run c p node _ fuel d Hwf eq_refl Hp Hfuel)).
    fold d2. unfold Dom.safeRemove. rewrite bind_read, Hpn2.
    unfold removeChild. unfold bind, read. rewrite Hpn2.
    by rewrite bool_decide_eq_true_2.
  - by apply WF_unlink.
  - by rewrite length_unlink.
  - intros x. by rewrite data_of_unlink.
  - rewrite children_of_unlink. rewrite decide_True by done. rewrite Hp2.
    pose proof (WF_nodup _ Hwf2 p) as Hnd. rewrite Hp2 in Hnd.
    rewrite app_assoc in Hnd |- *.
    apply NoDup_app in Hnd as (_ & Hnd1 & Hnd2).
    apply NoDup_cons in Hnd2 as [Hnd2 _].
    rewrite remove_id_middle; [by rewrite <- app_assoc| |done].
    intros Hin. apply (Hnd1 _ Hin). by left.
  - rewrite children_of_unlink. rewrite decide_False by congruence. done.
  - rewrite parent_of_unlink. by rewrite decide_True.
  - intros q Hq1 Hq2. rewrite children_of_unlink.
    rewrite decide_False by congruence. by apply Hframe2.
  - intros x Hx1 Hx2. rewrite parent_of_unlink.
    rewrite decide_False by done. by apply Hpar2.
Qed.


End UnwrapRun.

(** ** The text of nodes that are moved *)

Section Text.
Implicit Types (d : Document) (n p b x y X : NodeId) (l : list NodeId)
  (rest : list Level).

Lemma append_nil_r (s : string) : s +:+ EmptyString = s.
Proof.
  induction s as [|a s IH]; [done|].
  change (String a (s +:+ EmptyString) = String a s). by rewrite IH.
Qed.

Lemma append_assoc (s1 s2 s3 : string) :
  (s1 +:+ s2) +:+ s3 = s1 +:+ (s2 +:+ s3).
Proof.
  induction s1 as [|a s1 IH]; [done|].
  change (String a ((s1 +:+ s2) +:+ s3) = String a (s1 +:+ (s2 +:+ s3))).
  by rewrite IH.
Qed.











End Text.

(** ** The nodes beside the path *)

Section Sides.
Implicit Types (d : Document) (n p b x y X A : NodeId) (l : list NodeId)
  (rest : list Level).









End Sides.

(** ** Splitting a wrapper around a fragment *)

Section Remainder.
Implicit Types (d : Document) (c : ApplyStyle.State) (rest : list Level)
  (K mid : list NodeId).

Lemma ancestor_valid d a n :
  WF d -> ancestor_or_self d a n -> n < length d -> a < length d.
Proof.
  intros Hwf [k Hk] Hn. destruct k as [|k].
  - simpl in Hk. by injection Hk as <-.
  - rewrite nth_parent_S_r in Hk.
    destruct (nth_parent k d n) as [y|]; [|done]. simpl in Hk.
    apply (WF_parent _ Hwf) in Hk. by apply (children_of_valid d a y).
Qed.





End Remainder.

Section SplitLeft.
Implicit Types (d : Document) (c : ApplyStyle.State) (rest : list Level)
  (K pre post : list NodeId) (P font : NodeId).



End SplitLeft.

Section SplitRight.
Implicit Types (d : Document) (c : ApplyStyle.State) (rest : list Level)
  (K pre post : list NodeId) (P font : NodeId).


End SplitRight.

(** ** [checkClosestWrapper] *)

Section ClosestWrapper.
Implicit Types (d : Document) (rest : list Level) (K mid : list NodeId).








End ClosestWrapper.



(** The example of the split: the text in front of and behind the fragment
    stays bold, the fragment does not. *)
Example checkClosestWrapper_splits_strong :
  exists c' d',
    ApplyStyle.checkClosestWrapper SplitExample.jodit SplitExample.bold 10 3
      SplitExample.start SplitExample.doc = Ok (true, c', d')
    /\ ApplyStyle.mode_ c' = Some UNWRAP
    /\ outerHTML d' 0
       = ("<div><strong>zxc</strong><font>sel</font>" +:+
          "<strong>dfdsf</strong></div>")%string.
Proof. eexists _, _. split; [vm_compute; reflexivity|]. by vm_compute. Qed.

(** A remainder that is white space and an image loses its wrapper, the
    other one keeps it. *)
Example checkClosestWrapper_unwraps_blank_remainder :
  exists c' d',
    ApplyStyle.checkClosestWrapper SplitExample.jodit SplitExample.bold 10 7
      SplitExample.start SplitExample.deep = Ok (true, c', d')
    /\ outerHTML d' 0
       = ("<div><p>a <em><img></img></em><em><font>sel</font></em>" +:+
          "<strong style='color:red;'><em>x</em><br></br></strong>" +:+
          "b</p></div>")%string.
Proof. eexists _, _. split; [vm_compute; reflexivity|]. by vm_compute. Qed.

(** ** [unwrapChildren] *)

Section Scan.
Variables (jodit : IJodit) (style : Style).
Implicit Types (d : Document) (v : ApplyStyle.Found).

Local Abbreviation suitable := (suitable_nodes jodit style).

Lemma suitable_app d l1 l2 :
  suitable d (l1 ++ l2) = suitable d l1 ++ suitable d l2.
Proof. apply List.filter_app. Qed.

Lemma scan_kids_cons h d first others :
  scan_kids (S h) d (first :: others) = first :: scan_later h d others.
Proof. reflexivity. Qed.

Lemma scan_later_cons h d nx others :
  scan_later h d (nx :: others)
  = nx :: scan_kids h d (children_of d nx) ++ scan_later h d others.
Proof. reflexivity. Qed.

Lemma collect_run o v d b :
  ApplyStyle.firstElementSuit v = Some b ->
  ApplyStyle.collect jodit style o v d
  = Ok (false,
        ApplyStyle.mkFound
          (ApplyStyle.needUnwrap v
           ++ suitable d (match o with Some x => [x] | None => [] end))
          (Some b), d).
Proof.
  intros Hb. destruct v as [found first]. simpl in Hb. subst first.
  unfold ApplyStyle.collect, bind, read, modify, ret, suitable_nodes.
  destruct o as [x|]; cbn [List.filter].
  - destruct (ApplyStyle.isSuitableElement jodit style d (Some x) true);
      cbn; by rewrite ?app_nil_r.
  - cbn. by rewrite app_nil_r.
Qed.

Lemma children_bound d n : WF d -> length (children_of d n) <= length d.
Proof.
  intros Hwf.
  assert (length (children_of d n) <= length (seq 0 (length d))) as H.
  { apply NoDup_incl_length.
    - apply NoDup_ListNoDup, (WF_nodup _ Hwf).
    - intros x Hx. apply in_seq. split; [lia|]. simpl.
      apply list_elem_of_In in Hx. apply (WF_child _ Hwf) in Hx.
      by apply parent_of_Some_lookup, lookup_lt_is_Some in Hx. }
  by rewrite length_seq in H.
Qed.

Lemma nth_parent_is_Some_lt d n j :
  WF d -> n < length d -> is_Some (nth_parent j d n) -> j < length d.
Proof.
  intros Hwf Hn [a Ha]. destruct (decide (j < length d)); [done|].
  pose proof (WF_acyclic _ Hwf n Hn) as Hnone.
  rewrite (nth_parent_None_mono (length d) j d n) in Ha; [done|done|lia].
Qed.

(** The walk over the siblings behind [start]. *)
Lemma find_loop_scan d :
  WF d ->
  forall fuel start root j before after v b h,
    children_of d root = before ++ start :: after ->
    is_Some (nth_parent j d start) ->
    (length d - j) * S (length d) + length after < fuel ->
    length d <= h + j ->
    ApplyStyle.firstElementSuit v = Some b ->
    Dom.find_loop fuel start (ApplyStyle.collect jodit style) root
      PnextSibling (Some PfirstChild) v d
    = Ok (None,
          ApplyStyle.mkFound
            (ApplyStyle.needUnwrap v ++ suitable d (scan_later h d after))
            (Some b), d).
Proof.
  intros Hwf fuel. induction fuel as [fuel IH] using lt_wf_ind.
  intros start root j before after v b h Hkids Hj Hfuel Hh Hb.
  destruct fuel as [|f]; [lia|].
  assert (parent_of d start = Some root) as Hp.
  { apply (WF_child _ Hwf). rewrite Hkids. apply elem_of_app. right. by left. }
  assert (start < length d) as Hsv
    by (by apply parent_of_Some_lookup, lookup_lt_is_Some in Hp).
  pose proof (nth_parent_is_Some_lt d start j Hwf Hsv Hj) as Hjlt.
  pose proof (WF_nodup _ Hwf root) as Hnd. rewrite Hkids in Hnd.
  apply NoDup_app in Hnd as (_ & Hnd1 & Hnd2).
  apply NoDup_cons in Hnd2 as [Hnd2 Hnd3].
  assert (start ∉ before) as Hsb by (intros Hin; apply (Hnd1 _ Hin); by left).
  cbn [Dom.find_loop]. rewrite bind_read. cbn [sibling_prop].
  rewrite (nextSibling_middle d start root before after) by done.
  destruct after as [|nx after]; cbn [head].
  - rewrite (bind_Ok _ _ _ _ _ _ _ (collect_run None v d b Hb)).
    rewrite bind_ret, bind_read, Hp.
    rewrite bool_decide_eq_true_2 by done.
    unfold ret, suitable_nodes. simpl. by rewrite !app_nil_r.
  - rewrite (bind_Ok _ _ _ _ _ _ _ (collect_run (Some nx) v d b Hb)).
    set (v1 := ApplyStyle.mkFound
                 (ApplyStyle.needUnwrap v ++ suitable d [nx]) (Some b)).
    assert (parent_of d nx = Some root) as Hpn.
    { apply (WF_child _ Hwf). rewrite Hkids. apply elem_of_app. right.
      right. by left. }
    assert (nx <> root) as Hnr.
    { intros ->. assert (nth_parent 1 d root = Some root) as Hc
        by (simpl; by rewrite Hpn).
      by apply WF_no_cycle in Hc. }
    assert (is_Some (nth_parent j d nx)) as Hjn.
    { destruct j as [|j]; [by eexists|]. simpl in Hj |- *.
      by rewrite Hp in Hj; rewrite Hpn. }
    rewrite scan_later_cons.
    match goal with |- bind ?m _ _ _ = _ =>
      assert (exists v2,
        m v1 d = Ok (None, v2, d)
        /\ v2 = ApplyStyle.mkFound
                  (ApplyStyle.needUnwrap v1
                   ++ suitable d (scan_kids h d (children_of d nx)))
                  (Some b)) as (v2 & Hrun2 & Hv2)
    end.
    { rewrite bind_read. cbn [child_prop]. unfold firstChild.
      destruct (children_of d nx) as [|c0 kids] eqn:Hnk; cbn [head].
      - eexists. split; [reflexivity|]. unfold v1, suitable_nodes.
        destruct h; simpl; by rewrite app_nil_r.
      - pose proof (children_bound d nx Hwf) as Hbound.
        rewrite Hnk in Hbound. cbn [length] in Hbound, Hfuel.
        assert (is_Some (nth_parent (S j) d c0)) as Hjc.
        { simpl. assert (parent_of d c0 = Some nx) as ->; [|done].
          apply (WF_child _ Hwf). rewrite Hnk. by left. }
        assert (c0 < length d) as Hcv.
        { assert (parent_of d c0 = Some nx) as Hpc.
          { apply (WF_child _ Hwf). rewrite Hnk. by left. }
          by apply parent_of_Some_lookup, lookup_lt_is_Some in Hpc. }
        pose proof (nth_parent_is_Some_lt d c0 (S j) Hwf Hcv Hjc) as HSj.
        assert (length d - j = S (length d - S j)) as Hsub by lia.
        rewrite Hsub, Nat.mul_succ_l in Hfuel.
        set (M := (length d - S j) * S (length d)) in *.
        destruct f as [|f2]; [lia|]. cbn [Dom.find].
        assert (ApplyStyle.firstElementSuit v1 = Some b) as Hb1 by done.
        rewrite (bind_Ok _ _ _ _ _ _ _ (collect_run (Some c0) v1 d b Hb1)).
        destruct h as [|h']; [lia|].
        eexists. split.
        + apply (IH f2 ltac:(lia) c0 nx (S j) [] kids _ b h');
            [done|done| |lia|done].
          lia.
        + cbn [ApplyStyle.needUnwrap]. rewrite scan_kids_cons.
          change (c0 :: scan_later h' d kids)
            with ([c0] ++ scan_later h' d kids).
          by rewrite suitable_app, app_assoc. }
    rewrite (bind_Ok _ _ _ _ _ _ _ Hrun2). rewrite bind_ret.
    rewrite bool_decide_eq_false_2 by done.
    rewrite (IH f ltac:(lia) nx root j (before ++ [start]) after v2 b h);
      [| |done| |done|].
    + rewrite Hv2. unfold v1. cbn [ApplyStyle.needUnwrap].
      change (nx :: scan_kids h d (children_of d nx) ++ scan_later h d after)
        with ([nx] ++ scan_kids h d (children_of d nx)
                   ++ scan_later h d after).
      by rewrite !suitable_app, <- !app_assoc.
    + rewrite Hkids. by rewrite <- app_assoc.
    + cbn [length] in Hfuel. lia.
    + by rewrite Hv2.
Qed.

End Scan.

Section UnwrapAll.
Context {C : Type}.
Implicit Types (d : Document) (c : C).

Lemma unwrap_total c d node fuel :
  WF d -> length d <= fuel ->
  exists d',
    Dom.unwrap fuel node c d = Ok (tt, c, d')
    /\ WF d' /\ length d' = length d.
Proof.
  intros Hwf Hfuel. destruct (parent_of d node) as [p|] eqn:Hp.
  - pose proof (WF_parent _ Hwf _ _ Hp) as Hin.
    apply list_elem_of_split in Hin as (pre & post & Hkids).
    destruct (unwrap_run c d p node pre post fuel Hwf Hkids)
      as (d' & Hrun & Hwf' & Hlen & _).
    { pose proof (children_bound d node Hwf). lia. }
    by exists d'.
  - exists d. split; [|done]. unfold Dom.unwrap. by rewrite bind_read, Hp.
Qed.

Lemma forEach_unwrap_total c fuel l :
  forall d,
    WF d -> length d <= fuel ->
    exists d',
      forEach l (Dom.unwrap fuel) c d = Ok (tt, c, d')
      /\ WF d' /\ length d' = length d.
Proof.
  induction l as [|x l IH]; intros d Hwf Hfuel.
  - by exists d.
  - destruct (unwrap_total c d x fuel Hwf Hfuel) as (d1 & Hrun1 & Hwf1 & Hlen1).
    destruct (IH d1 Hwf1) as (d' & Hrun & Hwf' & Hlen); [lia|].
    exists d'. split; [|split; [done|lia]].
    simpl. by rewrite (bind_Ok _ _ _ _ _ _ _ Hrun1).
Qed.

End UnwrapAll.

(** What [unwrapChildren] does on a well-formed document, with fuel for
    it: it unwraps, one after the other, the suitable ones among the nodes
    that its search tests, reports whether the first child of the fragment
    is suitable, and leaves the state of the applicator as it was. *)
Lemma unwrapChildren_run
  (jodit : IJodit) (style : Style) (fuel : nat) (font : NodeId)
  (c : ApplyStyle.State) (d : Document) :
  WF d ->
  (length d + 1) * (length d + 1) <= fuel ->
  exists d',
    ApplyStyle.unwrapChildren jodit style fuel font c d
    = Ok (ApplyStyle.isSuitableElement jodit style d (firstChild d font) true,
          c, d')
    /\ forEach (suitable_nodes jodit style d (scan d font)) (Dom.unwrap fuel)
         c d = Ok (tt, c, d').
Proof.
  intros Hwf Hfuel.
  assert (length d <= fuel) as Hfuel'.
  { assert ((length d + 1) * (length d + 1)
            = length d * S (length d) + length d + 1) as E by ring.
    rewrite E in Hfuel. lia. }
  unfold ApplyStyle.unwrapChildren, scan, firstChild. rewrite bind_read.
  destruct (children_of d font) as [|fc kids] eqn:Hkids; cbn [head].
  - exists d. split; [|done]. rewrite bind_ret. done.
  - pose proof (children_bound d font Hwf) as Hbound.
    rewrite Hkids in Hbound. cbn [length] in Hbound.
    destruct fuel as [|f]; [lia|].
    set (b := ApplyStyle.isSuitableElement jodit style d (Some fc) true).
    set (v1 := ApplyStyle.mkFound (suitable_nodes jodit style d [fc]) (Some b)).
    assert (ApplyStyle.collect jodit style (Some fc)
              (ApplyStyle.mkFound [] None) d = Ok (false, v1, d)) as Hfirst.
    { unfold ApplyStyle.collect, bind, read, modify, ret, v1, suitable_nodes.
      cbn [List.filter]. fold b. by destruct b. }
    assert (Dom.find (S f) fc (ApplyStyle.collect jodit style) font true
              PnextSibling (Some PfirstChild) (ApplyStyle.mkFound [] None) d
            = Ok (None,
                  ApplyStyle.mkFound
                    (suitable_nodes jodit style d
                       (fc :: scan_later (length d) d kids)) (Some b), d))
      as Hscan.
    { cbn [Dom.find]. rewrite (bind_Ok _ _ _ _ _ _ _ Hfirst).
      rewrite (find_loop_scan jodit style d Hwf f fc font 0 [] kids v1 b
                 (length d)); [|done|by eexists| |lia|done].
      - unfold v1. cbn [ApplyStyle.needUnwrap]. unfold suitable_nodes.
        by rewrite <- List.filter_app.
      - assert ((length d + 1) * (length d + 1)
                = length d * S (length d) + length d + 1) as E by ring.
        rewrite E in Hfuel. rewrite Nat.sub_0_r.
        set (M := length d * S (length d)) in *. lia. }
    destruct (forEach_unwrap_total c (S f)
                (suitable_nodes jodit style d
                   (fc :: scan_later (length d) d kids)) d Hwf Hfuel')
      as (d' & Hrun & _).
    exists d'. split; [|exact Hrun].
    match goal with |- bind ?m _ _ _ = _ =>
      assert (m c d
              = Ok (ApplyStyle.mkFound
                      (suitable_nodes jodit style d
                         (fc :: scan_later (length d) d kids)) (Some b), c, d))
        as Hfound
    end.
    { unfold bind at 1, scoped. rewrite Hscan. reflexivity. }
    rewrite (bind_Ok _ _ _ _ _ _ _ Hfound).
    cbn [ApplyStyle.needUnwrap ApplyStyle.firstElementSuit].
    rewrite (bind_Ok _ _ _ _ _ _ _ Hrun). unfold ret. by destruct b.
Qed.

Section Inside.
Variables (jodit : IJodit) (style : Style).
Implicit Types (d : Document).

Lemma suitable_nil_app d l1 l2 :
  suitable_nodes jodit style d (l1 ++ l2) = [] ->
  suitable_nodes jodit style d l1 = [] /\ suitable_nodes jodit style d l2 = [].
Proof.
  unfold suitable_nodes. rewrite List.filter_app. by intros [? ?]%app_eq_nil.
Qed.

(** Where no suitable node lies inside a first child, the suitable nodes
    that the search tests are the suitable descendants. *)
Lemma suitable_scan_kids d h :
  forall kids,
    suitable_nodes jodit style d (inside_first h d kids) = [] ->
    suitable_nodes jodit style d (scan_kids (S h) d kids)
    = suitable_nodes jodit style d (flat_map (subtree h d) kids).
Proof.
  induction h as [|h IH]; intros [|first others] Hin; try done.
  cbn [inside_first] in Hin.
  apply suitable_nil_app in Hin as [Hfirst Hothers].
  rewrite scan_kids_cons.
  change (first :: scan_later (S h) d others)
    with ([first] ++ scan_later (S h) d others).
  change (flat_map (subtree (S h) d) (first :: others))
    with ([first] ++ flat_map (subtree h d) (children_of d first)
                  ++ flat_map (subtree (S h) d) others).
  rewrite !(suitable_app jodit style). rewrite Hfirst. cbn [app]. f_equal.
  clear Hfirst. induction others as [|nx others IHo]; [done|].
  cbn [flat_map] in Hothers.
  apply suitable_nil_app in Hothers as [Hnx Hothers].
  rewrite scan_later_cons.
  change (nx :: scan_kids (S h) d (children_of d nx)
             ++ scan_later (S h) d others)
    with ([nx] ++ scan_kids (S h) d (children_of d nx)
               ++ scan_later (S h) d others).
  change (flat_map (subtree (S h) d) (nx :: others))
    with ([nx] ++ flat_map (subtree h d) (children_of d nx)
               ++ flat_map (subtree (S h) d) others).
  rewrite !(suitable_app jodit style). f_equal.
  rewrite (IH _ Hnx). f_equal. by apply IHo.
Qed.

Lemma suitable_scan d font :
  suitable_nodes jodit style d (inside_first_children d font) = [] ->
  suitable_nodes jodit style d (scan d font)
  = suitable_nodes jodit style d (descendants d font).
Proof. apply suitable_scan_kids. Qed.

End Inside.

(** C4, amended. On a well-formed document, with fuel for it, and where no
    suitable element lies inside the first child of a node of the
    fragment, the step of [applyToElement] that unwraps suitable
    descendants completes; it unwraps, one after the other in document
    order, every suitable descendant of the fragment, those inside other
    matches too; it reports success exactly when the first child of the
    fragment is suitable; and the state of the applicator, its mode
    included, is what it was. *)
Theorem unwrapChildren_reports_first_child
  (jodit : IJodit) (style : Style) (fuel : nat) (font : NodeId)
  (c : ApplyStyle.State) (d : Document) :
  wf d = true ->
  (length d + 1) * (length d + 1) <= fuel ->
  suitable_nodes jodit style d (inside_first_children d font) = [] ->
  exists d',
    ApplyStyle.unwrapChildren jodit style fuel font c d
    = Ok (ApplyStyle.isSuitableElement jodit style d (firstChild d font) true,
          c, d')
    /\ forEach (suitable_nodes jodit style d (descendants d font))
         (Dom.unwrap fuel) c d
       = Ok (tt, c, d').
Proof.
  intros Hwf%wf_WF Hfuel Hinside.
  destruct (unwrapChildren_run jodit style fuel font c d Hwf Hfuel)
    as (d' & Hrun & Hall).
  exists d'. split; [exact Hrun|].
  by rewrite <- (suitable_scan jodit style d font Hinside).
Qed.

(** In [<p><font><strong>b</strong>a<em>x<strong>y<strong>z</strong>
    </strong></em></font></p>] the three [strong] go, the one inside the
    other too, and the step reports success. *)
Lemma unwrapChildren_witness :
  exists d',
    ApplyStyle.unwrapChildren UnwrapChildrenExample.jodit
      UnwrapChildrenExample.bold 200 1 (ApplyStyle.mkState None [])
      UnwrapChildrenExample.bold_run
    = Ok (true, ApplyStyle.mkState None [], d')
    /\ outerHTML d' 0 = "<p><font>ba<em>xyz</em></font></p>"%string.
Proof.
  assert ((length UnwrapChildrenExample.bold_run + 1)
          * (length UnwrapChildrenExample.bold_run + 1) <= 200) as Hfuel
    by (vm_compute; lia).
  destruct (unwrapChildren_reports_first_child UnwrapChildrenExample.jodit
              UnwrapChildrenExample.bold 200 1 (ApplyStyle.mkState None [])
              UnwrapChildrenExample.bold_run eq_refl Hfuel eq_refl)
    as (d' & Hrun & _).
  exists d'. split; [exact Hrun|].
  vm_compute in Hrun. injection Hrun as <-. reflexivity.
Defined.

(** C4, as stated, fails.  In [<font>a<strong>b</strong>...</font>] the
    step finds suitable descendants and unwraps them, yet it reports no
    success and the mode stays unset, because the first child is a text.
    In [<font><strong>b</strong>a<em>x<strong>y<strong>z</strong></strong>
    </em></font>] the [strong] inside the other one is suitable and is
    unwrapped as well: the step does go into matches. *)
Lemma unwrapChildren_text_first_reports_failure :
  ApplyStyle.isSuitableElement UnwrapChildrenExample.jodit
    UnwrapChildrenExample.bold UnwrapChildrenExample.text_first (Some 3) true
  = true
  /\ (exists d',
      ApplyStyle.unwrapChildren UnwrapChildrenExample.jodit
        UnwrapChildrenExample.bold 10 1 (ApplyStyle.mkState None [])
        UnwrapChildrenExample.text_first
      = Ok (false, ApplyStyle.mkState None [], d')
      /\ outerHTML UnwrapChildrenExample.text_first 0
         = ("<p><font>a<strong>b</strong><em><strong>c</strong></em>" +:+
            "<strong>d</strong></font></p>")%string
      /\ outerHTML d' 0 = "<p><font>ab<em>c</em>d</font></p>"%string)
  /\ (exists d',
      ApplyStyle.unwrapChildren UnwrapChildrenExample.jodit
        UnwrapChildrenExample.bold 12 1 (ApplyStyle.mkState None [])
        UnwrapChildrenExample.bold_run
      = Ok (true, ApplyStyle.mkState None [], d')
      /\ outerHTML UnwrapChildrenExample.bold_run 0
         = ("<p><font><strong>b</strong>a<em>x<strong>y<strong>z</strong>" +:+
            "</strong></em></font></p>")%string
      /\ outerHTML d' 0 = "<p><font>ba<em>xyz</em></font></p>"%string).
Proof.
  split; [reflexivity|]. split.
  - eexists. split; [vm_compute; reflexivity|]. split; reflexivity.
  - eexists. split; [vm_compute; reflexivity|]. split; reflexivity.
Qed.

(** A suitable element inside a first child is not reached by the search
    of [Dom.find], which never goes into the child at which it enters a
    node: in [<p><font><em><strong>c</strong></em>x</font></p>] the step
    changes nothing, and [applyToElement] then wraps the fragment, the
    [strong] included, in another [strong]. *)
Example unwrapChildren_misses_inside_a_first_child :
  suitable_nodes UnwrapChildrenExample.jodit UnwrapChildrenExample.bold
    UnwrapChildrenExample.bold_inside
    (inside_first_children UnwrapChildrenExample.bold_inside 1)
  = [3]
  /\ ApplyStyle.unwrapChildren UnwrapChildrenExample.jodit
       UnwrapChildrenExample.bold 49 1 (ApplyStyle.mkState None [])
       UnwrapChildrenExample.bold_inside
     = Ok (false, ApplyStyle.mkState None [],
           UnwrapChildrenExample.bold_inside)
  /\ exists c' d',
       ApplyStyle.applyToElement UnwrapChildrenExample.jodit
         UnwrapChildrenExample.bold 49 1 (ApplyStyle.mkState None [])
         UnwrapChildrenExample.bold_inside
       = Ok (tt, c', d')
       /\ outerHTML d' 0
          = "<p><strong><em><strong>c</strong></em>x</strong></p>"%string.
Proof.
  split; [reflexivity|]. split; [reflexivity|].
  eexists _, _. split; [vm_compute; reflexivity|]. reflexivity.
Qed.
(** * Further properties of the DOM helpers *)

(** ** Removing nodes: [Dom.safeRemove] and [Dom.detach] *)

Section Removal.
Context {C : Type}.
Implicit Types (d : Document) (n p q x node : NodeId).

(** [Dom.safeRemove] raises nothing, whatever it is given.  A node that has
    a parent leaves the children of that parent and has no parent
    afterwards; everything else is as before; a missing node and a node
    without parent leave the document as it is, so that removing twice is
    removing once. *)
Theorem safeRemove_is_safe (node : option NodeId) (c : C) (d : Document) :
  exists d',
    Dom.safeRemove node c d = Ok (tt, c, d')
    /\ (forall n, node = Some n -> parent_of d' n = None)
    /\ (forall n p, node = Some n -> parent_of d n = Some p ->
          children_of d' p = remove_id n (children_of d p))
    /\ (forall x, node <> Some x -> parent_of d' x = parent_of d x)
    /\ (forall q, (forall n, node = Some n -> parent_of d n <> Some q) ->
          children_of d' q = children_of d q)
    /\ (forall x, data_of d' x = data_of d x)
    /\ ((forall n, node = Some n -> parent_of d n = None) -> d' = d)
    /\ Dom.safeRemove node c d' = Ok (tt, c, d').
Proof.
  destruct node as [n|]; [|exists d; by split_conj].
  assert (forall d0, Dom.safeRemove (Some n) c d0 = Ok (tt, c, unlink d0 n))
    as Hrun.
  { intros d0. unfold Dom.safeRemove, removeChild, bind, read, write, ret.
    unfold unlink. destruct (parent_of d0 n) as [p|] eqn:Hp; [|done].
    rewrite bool_decide_eq_true_2 by done. simpl. by rewrite Hp. }
  exists (unlink d n). split_conj.
  - apply Hrun.
  - intros ? [= <-]. by rewrite parent_of_unlink, decide_True.
  - intros ? p [= <-] Hp. by rewrite children_of_unlink, decide_True.
  - intros x Hx. rewrite parent_of_unlink, decide_False; [done|congruence].
  - intros q Hq. rewrite children_of_unlink, decide_False; [done|].
    by apply Hq.
  - intros x. apply data_of_unlink.
  - intros H. unfold unlink. by rewrite (H n eq_refl).
  - rewrite Hrun.
    assert (unlink (unlink d n) n = unlink d n) as ->; [|done].
    unfold unlink at 1. by rewrite parent_of_unlink, decide_True.
Qed.

(** [Dom.detach] run on a well-formed document with fuel for its children:
    the node is left without children, its children without parent, and
    nothing else changes. *)
Theorem detach_removes_every_child (fuel : nat) (node : NodeId) (c : C)
  (d : Document) :
  wf d = true ->
  length (children_of d node) <= fuel ->
  exists d',
    Dom.detach fuel node c d = Ok (tt, c, d')
    /\ children_of d' node = []
    /\ (forall x, x ∈ children_of d node -> parent_of d' x = None)
    /\ (forall x, x ∉ children_of d node -> parent_of d' x = parent_of d x)
    /\ (forall q, q <> node -> children_of d' q = children_of d q)
    /\ (forall x, data_of d' x = data_of d x)
    /\ WF d'.
Proof.
  intros Hwf%wf_WF Hfuel.
  assert (forall rest fuel d,
            WF d -> children_of d node = rest -> length rest <= fuel ->
            Dom.detach fuel node c d = Ok (tt, c, foldl unlink d rest)
            /\ WF (foldl unlink d rest)
            /\ forall x, data_of (foldl unlink d rest) x = data_of d x) as Hrun.
  { clear. induction rest as [|k rest IH]; intros fuel d Hwf Hkids Hfuel.
    - split; [|done].
      destruct fuel; simpl; unfold bind, read, firstChild; by rewrite Hkids.
    - destruct fuel as [|fuel]; [simpl in Hfuel; lia|]. simpl in Hfuel.
      assert (parent_of d k = Some node) as Hk.
      { apply (WF_child _ Hwf). rewrite Hkids. by left. }
      pose proof (WF_nodup _ Hwf node) as Hnd. rewrite Hkids in Hnd.
      apply NoDup_cons in Hnd as [Hk' Hnd].
      destruct (IH fuel (unlink d k)) as (H1 & H2 & H3).
      + by apply WF_unlink.
      + rewrite children_of_unlink, decide_True by done. rewrite Hkids.
        rewrite remove_id_cons_eq. by apply remove_id_notin.
      + lia.
      + simpl. split_conj; [|done|].
        * unfold bind at 1, read, firstChild. rewrite Hkids. simpl.
          unfold bind at 1, removeChild. unfold bind at 1, read.
          rewrite Hk, bool_decide_eq_true_2 by done.
          unfold bind at 1, write. simpl. exact H1.
        * intros x. by rewrite H3, data_of_unlink. }
  destruct (Hrun (children_of d node) fuel d) as (H1 & H2 & H3); try done.
  destruct (foldl_unlink_children d node (children_of d node))
    as (G1 & G2 & G3 & G4); try done.
  { apply (WF_nodup _ Hwf). }
  { intros k Hk. by apply (WF_child _ Hwf). }
  exists (foldl unlink d (children_of d node)). by split_conj.
Qed.

End Removal.

(** [<p>a<em>b</em>c</p>] loses its three children. *)
Lemma detach_removes_every_child_witness :
  exists d',
    Dom.detach 3 0 tt WrapExample.doc = Ok (tt, tt, d')
    /\ children_of d' 0 = []
    /\ outerHTML d' 0 = "<p></p>"%string
    /\ outerHTML d' 2 = "<em>b</em>"%string.
Proof.
  destruct (detach_removes_every_child 3 0 tt WrapExample.doc)
    as (d' & H1 & H2 & _); [reflexivity|vm_compute; lia|].
  exists d'. split; [exact H1|]. split; [exact H2|].
  vm_compute in H1. injection H1 as <-. split; reflexivity.
Defined.
(** ** Inserting one node: [Dom.after] and [Dom.appendChildFirst] *)

Section InsertNode.
Context {C : Type}.
Implicit Types (d : Document) (n p q x elm : NodeId) (ref : option NodeId)
  (u v pre post l : list NodeId).

Lemma children_of_unlink_WF d n q :
  WF d -> children_of (unlink d n) q = remove_id n (children_of d q).
Proof.
  intros Hwf. rewrite children_of_unlink.
  destruct (decide (parent_of d n = Some q)) as [|Hne]; [done|].
  symmetry. apply remove_id_notin. intros Hin.
  by apply (WF_child _ Hwf) in Hin.
Qed.

(** Inserting a node, wherever it was, before a reference node other than
    itself. *)
Lemma insert_node (c : C) d p n ref u v :
  WF d ->
  is_Some (d !! n) ->
  type_of d n <> Some DOCUMENT_FRAGMENT_NODE ->
  is_Some (d !! p) ->
  type_of d p <> Some TEXT_NODE ->
  ~ ancestor_or_self d n p ->
  placed_at ref (remove_id n (children_of d p)) u v ->
  let d' := insert_one p ref d n in
  pre_insert_validity d p n ref = None
  /\ WF d'
  /\ length d' = length d
  /\ (forall x, data_of d' x = data_of d x)
  /\ children_of d' p = u ++ n :: tail_at ref v
  /\ (forall q, q <> p -> children_of d' q = remove_id n (children_of d q))
  /\ (forall x, parent_of d' x = if decide (x = n) then Some p else parent_of d x).
Proof.
  intros Hwf Hn Hfrag Hp Htext Habove Hplace d'.
  split_conj.
  - unfold pre_insert_validity.
    rewrite bool_decide_eq_false_2 by done.
    rewrite contains_false by done.
    destruct ref as [r|]; [|done]. simpl in Hplace.
    rewrite bool_decide_eq_true_2; [done|].
    apply (WF_child _ Hwf).
    assert (r ∈ remove_id n (children_of d p)) as Hin.
    { rewrite Hplace. apply elem_of_app. right. by left. }
    by apply elem_of_remove_id in Hin as [? _].
  - by apply WF_insert_one.
  - apply length_insert_one.
  - intros x. apply data_of_insert_one.
  - unfold d'. rewrite children_of_insert_one by done.
    rewrite decide_True by done. rewrite children_of_unlink_WF by done.
    apply place_at; [|done]. apply NoDup_remove_id, (WF_nodup _ Hwf).
  - intros q Hq. unfold d'. rewrite children_of_insert_one by done.
    rewrite decide_False by done. by apply children_of_unlink_WF.
  - intros x. unfold d'. by rewrite parent_of_insert_one.
Qed.

(** [Dom.after] on a well-formed document.  An element without parent has
    nothing put after it.  Otherwise the new node, wherever it was, becomes
    the sibling that follows the element, the other children of the parent
    keeping their order. *)
Theorem after_places_next_to (elm newElement : NodeId) (c : C) (d : Document) :
  wf d = true ->
  (parent_of d elm = None -> Dom.after elm newElement c d = Ok (tt, c, d))
  /\ forall p pre post,
      parent_of d elm = Some p ->
      children_of d p = pre ++ elm :: post ->
      newElement < length d ->
      newElement <> elm ->
      type_of d newElement <> Some DOCUMENT_FRAGMENT_NODE ->
      contains d newElement p = false ->
      exists d',
        Dom.after elm newElement c d = Ok (tt, c, d')
        /\ children_of d' p
           = remove_id newElement pre ++ elm :: newElement
               :: remove_id newElement post
        /\ nextSibling d' elm = Some newElement
        /\ (forall q, q <> p ->
              children_of d' q = remove_id newElement (children_of d q))
        /\ (forall x, parent_of d' x
                      = if decide (x = newElement) then Some p
                        else parent_of d x)
        /\ (forall x, data_of d' x = data_of d x)
        /\ WF d'.
Proof.
  intros Hwf%wf_WF. split.
  { intros Hp. unfold Dom.after, bind, read. by rewrite Hp. }
  intros p pre post Hp Hkids Hn Hne Hfrag Hcont.
  set (n := newElement) in *.
  pose proof (WF_nodup _ Hwf p) as Hnd. rewrite Hkids in Hnd.
  assert ((elm ∉ pre) /\ (elm ∉ post) /\ NoDup pre /\ NoDup post)
    as (Hpre & Hpost & Hndpre & Hndpost).
  { apply NoDup_app in Hnd as (H1 & H2 & H3).
    apply NoDup_cons in H3 as [H3 H4]. split_conj; try done.
    intros Hin. apply (H2 _ Hin). by left. }
  assert (is_Some (d !! n)) as Hns by (by apply lookup_lt_is_Some).
  assert (is_Some (d !! p)) as Hps.
  { apply lookup_lt_is_Some. apply (children_of_valid d p elm).
    by apply (WF_parent _ Hwf). }
  assert (type_of d p <> Some TEXT_NODE) as Htext.
  { intros E. apply (WF_text _ Hwf) in E. rewrite Hkids in E.
    by destruct pre. }
  assert (~ ancestor_or_self d n p) as Habove.
  { intros H. apply (WF_ancestor_contains _ _ _ Hwf) in H. congruence. }
  assert (remove_id n (children_of d p)
          = remove_id n pre ++ elm :: remove_id n post) as Hrm.
  { rewrite Hkids, remove_id_app, remove_id_cons_ne; done. }
  set (ref := head (remove_id n post)).
  assert (placed_at ref (remove_id n (children_of d p))
            (remove_id n pre ++ [elm]) (tail (remove_id n post))) as Hplace.
  { rewrite Hrm. unfold ref. destruct (remove_id n post) as [|y l]; simpl.
    - split; [done|done].
    - by rewrite <- app_assoc. }
  destruct (insert_node c d p n ref _ _ Hwf Hns Hfrag Hps Htext Habove Hplace)
    as (Hvalid & G1 & G2 & G3 & G4 & G5 & G6).
  assert (remove_id n pre ++ elm :: n :: remove_id n post
          = (remove_id n pre ++ [elm]) ++ n
              :: tail_at ref (tail (remove_id n post))) as Hshape.
  { rewrite <- app_assoc. simpl. do 3 f_equal. unfold ref.
    by destruct (remove_id n post). }
  assert (Dom.after elm n c d = Ok (tt, c, insert_one p ref d n)) as Hrun.
  { unfold Dom.after. unfold bind at 1, read. rewrite Hp.
    unfold bind at 1. unfold lastChild. rewrite Hkids.
    destruct post as [|y post].
    - rewrite last_snoc, bool_decide_eq_true_2 by done.
      unfold appendChild, insertBefore, bind, read, write, ret.
      change ref with (@None NodeId) in *. rewrite Hvalid.
      rewrite pre_insert_node; done.
    - rewrite bool_decide_eq_false_2.
      2:{ rewrite last_app, last_cons, last_cons.
          destruct (last post) eqn:E; [|by intros [= ->]; apply Hpost; left].
          intros [= ->]. apply last_Some in E as [l' ->]. apply Hpost.
          right. apply elem_of_app. right. by left. }
      unfold bind at 1. unfold nextSibling. rewrite Hp. simpl.
      rewrite Hkids, after_in_middle by done. simpl.
      apply NoDup_cons in Hndpost as [Hy Hndpost].
      destruct (decide (y = n)) as [->|Hyn].
      + assert (parent_of d n = Some p) as Hnp.
        { apply (WF_child _ Hwf). rewrite Hkids. apply elem_of_app. right.
          right. by left. }
        assert (ref = nextSibling d n) as Href.
        { unfold ref, nextSibling. rewrite Hnp. simpl. rewrite Hkids.
          rewrite remove_id_cons_eq, remove_id_notin by done.
          change (pre ++ elm :: n :: post) with (pre ++ [elm] ++ n :: post).
          rewrite app_assoc. rewrite after_in_middle; [done|].
          intros [Hin| ->%list_elem_of_singleton]%elem_of_app; [|done].
          apply NoDup_app in Hnd as (_ & H & _). apply (H _ Hin).
          right. by left. }
        unfold insertBefore, bind, read, write, ret.
        unfold pre_insert_validity.
        rewrite bool_decide_eq_false_2 by done.
        rewrite contains_false by done.
        rewrite bool_decide_eq_true_2 by done.
        unfold pre_insert. rewrite bool_decide_eq_true_2 by done.
        rewrite <- Href.
        destruct (type_of d n) as [[]|]; done.
      + assert (ref = Some y) as Href.
        { unfold ref. by rewrite remove_id_cons_ne. }
        rewrite <- Href.
        unfold insertBefore, bind, read, write, ret. rewrite Hvalid.
        rewrite pre_insert_node; [done|done|]. rewrite Href. congruence. }
  exists (insert_one p ref d n). split_conj; try done.
  - by rewrite G4, Hshape.
  - unfold nextSibling. rewrite G6, decide_False by done. rewrite Hp. simpl.
    rewrite G4, <- Hshape.
    rewrite after_in_middle; [done|].
    intros Hin. by apply elem_of_remove_id in Hin as [? _].
Qed.

(** [Dom.appendChildFirst] on a well-formed document: the new node,
    wherever it was, becomes the first child of the root, the other
    children keeping their order; when it is the first child already, the
    document stays as it is. *)
Theorem appendChildFirst_puts_first (root newElement : NodeId) (c : C)
  (d : Document) :
  wf d = true ->
  root < length d ->
  newElement < length d ->
  type_of d root <> Some TEXT_NODE ->
  type_of d newElement <> Some DOCUMENT_FRAGMENT_NODE ->
  contains d newElement root = false ->
  exists d',
    Dom.appendChildFirst root newElement c d = Ok (tt, c, d')
    /\ children_of d' root
       = newElement :: remove_id newElement (children_of d root)
    /\ (firstChild d root = Some newElement -> d' = d)
    /\ (forall q, q <> root ->
          children_of d' q = remove_id newElement (children_of d q))
    /\ (forall x, parent_of d' x
                  = if decide (x = newElement) then Some root
                    else parent_of d x)
    /\ (forall x, data_of d' x = data_of d x)
    /\ WF d'.
Proof.
  intros Hwf%wf_WF Hroot Hn Htext Hfrag Hcont.
  set (n := newElement) in *.
  pose proof (WF_nodup _ Hwf root) as Hnd.
  assert (is_Some (d !! n)) as Hns by (by apply lookup_lt_is_Some).
  assert (is_Some (d !! root)) as Hps by (by apply lookup_lt_is_Some).
  assert (~ ancestor_or_self d n root) as Habove.
  { intros H. apply (WF_ancestor_contains _ _ _ Hwf) in H. congruence. }
  unfold Dom.appendChildFirst. unfold bind at 1, read, firstChild.
  destruct (children_of d root) as [|ch rest] eqn:Hkids; simpl.
  - destruct (insert_node c d root n None [] [] Hwf Hns Hfrag Hps Htext Habove)
      as (Hvalid & G1 & G2 & G3 & G4 & G5 & G6).
    { by rewrite Hkids. }
    exists (insert_one root None d n). split_conj; try done.
    unfold appendChild, insertBefore, bind, read, write, ret.
    rewrite Hvalid. by rewrite pre_insert_node.
  - apply NoDup_cons in Hnd as [Hch Hnd].
    destruct (decide (ch = n)) as [->|Hne].
    + rewrite bool_decide_eq_true_2 by done. simpl.
      assert (parent_of d n = Some root) as Hp.
      { apply (WF_child _ Hwf). rewrite Hkids. by left. }
      exists d. split_conj; try done.
      * by rewrite Hkids, remove_id_cons_eq, remove_id_notin.
      * intros q Hq. symmetry. apply remove_id_notin. intros Hin.
        apply (WF_child _ Hwf) in Hin. congruence.
      * intros x. destruct (decide (x = n)) as [->|]; done.
    + rewrite bool_decide_eq_false_2 by done. simpl.
      destruct (insert_node c d root n (Some ch) [] (remove_id n rest)
                  Hwf Hns Hfrag Hps Htext Habove)
        as (Hvalid & G1 & G2 & G3 & G4 & G5 & G6).
      { simpl. by rewrite Hkids, remove_id_cons_ne. }
      exists (insert_one root (Some ch) d n). split_conj; try done.
      * unfold insertBefore, bind, read, write, ret.
        rewrite Hvalid. rewrite pre_insert_node; [done|done|congruence].
      * rewrite G4. simpl. by rewrite remove_id_cons_ne.
      * intros [= ->]. done.
Qed.

End InsertNode.

(** In [<p>a<em>b</em>c</p>] the last text is put after the first, and
    then in front. *)
Lemma after_places_next_to_witness :
  exists d',
    Dom.after 1 4 tt WrapExample.doc = Ok (tt, tt, d')
    /\ children_of d' 0 = [1; 4; 2]
    /\ outerHTML d' 0 = "<p>ac<em>b</em></p>"%string.
Proof.
  destruct (proj2 (after_places_next_to 1 4 tt WrapExample.doc eq_refl)
              0 [] [2; 4])
    as (d' & H1 & H2 & _); try (vm_compute; (reflexivity || lia || congruence)).
  exists d'. split; [exact H1|]. split; [exact H2|].
  vm_compute in H1. injection H1 as <-. reflexivity.
Defined.

Lemma appendChildFirst_puts_first_witness :
  exists d',
    Dom.appendChildFirst 0 4 tt WrapExample.doc = Ok (tt, tt, d')
    /\ children_of d' 0 = [4; 1; 2]
    /\ outerHTML d' 0 = "<p>ca<em>b</em></p>"%string.
Proof.
  destruct (appendChildFirst_puts_first 0 4 tt WrapExample.doc)
    as (d' & H1 & H2 & _); try (vm_compute; (reflexivity || lia || congruence)).
  exists d'. split; [exact H1|]. split; [exact H2|].
  vm_compute in H1. injection H1 as <-. reflexivity.
Defined.
(** ** Moving the content of a node: [Dom.moveContent] *)

Section MoveContent.
Context {C : Type}.
Implicit Types (d : Document) (n p q x from to : NodeId).

Lemma not_above_new_node d a n :
  WF d -> n < length d -> length d <= a -> ~ ancestor_or_self d a n.
Proof.
  intros Hwf Hn Ha H. apply (ancestor_valid _ _ _ Hwf) in H; lia.
Qed.

(** [Dom.moveContent] on a well-formed document, for a target that is
    neither the source nor inside it: the children of the source become
    children of the target, in their order, behind the children it had or,
    with [inStart], in front of them; the source is left empty, and so is
    the fragment that held the nodes on their way. *)
Theorem moveContent_moves_children (from to : NodeId) (inStart : bool)
  (c : C) (d : Document) :
  wf d = true ->
  from < length d ->
  to < length d ->
  type_of d to <> Some TEXT_NODE ->
  contains d from to = false ->
  exists d',
    Dom.moveContent from to inStart c d = Ok (tt, c, d')
    /\ children_of d' to
       = (if inStart then children_of d from ++ children_of d to
          else children_of d to ++ children_of d from)
    /\ children_of d' from = []
    /\ (forall x, x ∈ children_of d from -> parent_of d' x = Some to)
    /\ (forall x, x ∉ children_of d from -> x < length d ->
          parent_of d' x = parent_of d x)
    /\ (forall q, q < length d -> q <> from -> q <> to ->
          children_of d' q = children_of d q)
    /\ (forall x, x < length d -> data_of d' x = data_of d x)
    /\ length d' = S (length d)
    /\ children_of d' (length d) = []
    /\ WF d'.
Proof.
  intros Hwf%wf_WF Hfrom Hto Htext Hcont.
  assert (~ ancestor_or_self d from to) as Hnot.
  { intros H. apply (WF_ancestor_contains _ _ _ Hwf) in H. congruence. }
  assert (to <> from) as Hne.
  { intros ->. apply Hnot, ancestor_or_self_refl. }
  set (frag := length d).
  set (d1 := d ++ [new_fragment]).
  set (ks := children_of d from).
  assert (WF d1) as Hwf1 by (by apply WF_alloc).
  assert (forall x, parent_of d1 x = parent_of d x) as Hpar1
    by (intros x; by apply parent_of_alloc).
  assert (forall x, children_of d1 x = children_of d x) as Hkids1
    by (intros x; by apply children_of_alloc).
  assert (forall x, x < length d -> data_of d1 x = data_of d x) as Hdata1.
  { intros x Hx. unfold data_of, d1. by rewrite lookup_app_l. }
  assert (type_of d1 frag = Some DOCUMENT_FRAGMENT_NODE) as Hfrag1
    by apply type_of_alloc_new.
  assert (length d1 = S (length d)) as Hlen1.
  { unfold d1. rewrite length_app. simpl. lia. }
  assert (is_Some (d1 !! frag)) as Hfs.
  { apply lookup_lt_is_Some. unfold frag. lia. }
  assert (forall a x, x < length d -> ancestor_or_self d1 a x ->
            ancestor_or_self d a x) as Hanc1.
  { intros a x Hx. apply ancestor_or_self_agree. intros y _. apply Hpar1. }
  destruct (move_nodes c ks d1 from frag None [] [] [] [])
    as (Hwf2 & Hlen2 & Hdata2 & Hsrc2 & Hp2 & Hoth2 & Hpar2 & Hmoved2 & Hrun2).
  { done. }
  { rewrite Hkids1. simpl. by rewrite app_nil_r. }
  { unfold frag. lia. }
  { done. }
  { by rewrite Hfrag1. }
  { intros [k Hk]. destruct k as [|k]; simpl in Hk; [injection Hk; unfold frag; lia|].
    rewrite Hpar1 in Hk. unfold frag in Hk.
    by rewrite (proj1 (proj2 (out_of_range d (length d) (le_n _)))) in Hk. }
  { simpl. split; [|done]. rewrite Hkids1.
    apply (out_of_range d (length d) (le_n _)). }
  set (d2 := foldl (insert_one frag None) d1 ks) in *.
  simpl in Hsrc2, Hp2. rewrite app_nil_r in Hp2.
  assert (children_of d2 to = children_of d to) as Hto2.
  { rewrite Hoth2; [apply Hkids1|done|unfold frag; lia]. }
  assert (~ ancestor_or_self d2 frag to) as Habove.
  { intros H. apply (not_above_new_node d frag to Hwf Hto (le_n _)).
    apply (ancestor_or_self_agree d d2); [|done].
    intros x Hx. rewrite Hpar2, Hpar1; [done|].
    intros Hin. apply Hnot. destruct Hx as [k Hk]. exists (S k).
    rewrite nth_parent_S_r, Hk. simpl. by apply (WF_child _ Hwf). }
  set (ref := if inStart then firstChild d to else None).
  destruct (insert_fragment c d2 to frag ref
              (if inStart then [] else children_of d to)
              (if inStart then tail (children_of d to) else []))
    as (d' & Hrun & Hwf' & Hlen' & Hdata' & Hfrag' & Hto' & Hoth' & Hpar'
        & Hmoved'); try done.
  { by rewrite (data_of_type d1 d2). }
  { unfold frag. lia. }
  { apply lookup_lt_is_Some. rewrite Hlen2, Hlen1. lia. }
  { rewrite (data_of_type d1 d2), (data_of_type d d1); [done| |done].
    by apply Hdata1. }
  { unfold ref, firstChild. rewrite Hto2.
    destruct inStart; [|done].
    by destruct (children_of d to). }
  exists d'. split_conj.
  - unfold Dom.moveContent, createDocumentFragment, alloc.
    unfold bind at 1. fold frag d1. unfold bind at 1, read.
    rewrite Hkids1. fold ks. unfold bind at 1.
    unfold appendChild. rewrite Hrun2.
    unfold bind at 1, read. unfold firstChild. rewrite Hto2.
    unfold ref, firstChild in Hrun. unfold appendChild.
    destruct inStart; simpl in *.
    + destruct (children_of d to) as [|fc rest]; simpl in *;
        unfold bind; by rewrite Hrun.
    + destruct (children_of d to) as [|fc rest]; simpl in *;
        unfold bind; by rewrite Hrun.
  - rewrite Hto', Hp2. unfold ref, firstChild.
    destruct inStart; simpl.
    + by destruct (children_of d to).
    + by rewrite app_nil_r.
  - rewrite Hoth'; [done|unfold frag; lia|done].
  - intros x Hx. apply Hmoved'. by rewrite Hp2.
  - intros x Hx Hlt. rewrite Hpar' by (by rewrite Hp2).
    rewrite Hpar2 by done. apply Hpar1.
  - intros q Hq Hq1 Hq2. rewrite Hoth'; [|unfold frag; lia|done].
    rewrite Hoth2; [apply Hkids1|done|unfold frag; lia].
  - intros x Hx. rewrite Hdata', Hdata2. by apply Hdata1.
  - by rewrite Hlen', Hlen2.
  - exact Hfrag'.
  - exact Hwf'.
Qed.

End MoveContent.

(** [<div><span>a<b>b</b></span></div>]: the content of the [span] moves
    into the [div], in front of the [span]. *)
Lemma moveContent_moves_children_witness :
  exists d',
    Dom.moveContent 1 0 true tt UnwrapExample.doc = Ok (tt, tt, d')
    /\ children_of d' 0 = [2; 3; 1]
    /\ outerHTML d' 0 = "<div>a<b>b</b><span></span></div>"%string.
Proof.
  destruct (moveContent_moves_children 1 0 true tt UnwrapExample.doc)
    as (d' & H1 & H2 & _); try (vm_compute; (reflexivity || lia || congruence)).
  exists d'. split; [exact H1|]. split; [exact H2|].
  vm_compute in H1. injection H1 as <-. reflexivity.
Defined.
(** ** Replacing an element by another: [Dom.replace] *)

Section Replace.
Context {C : Type}.
Implicit Types (d : Document) (n p q x elm tag : NodeId)
  (pre post : list NodeId).

Lemma WF_same_tree d d' :
  WF d ->
  (forall x, parent_of d' x = parent_of d x) ->
  (forall x, children_of d' x = children_of d x) ->
  (forall x, type_of d' x = type_of d x) ->
  WF d'.
Proof.
  intros Hwf Hp Hc Ht. apply WF_intro.
  - intros n k. rewrite Hc, Hp. apply (WF_child _ Hwf).
  - intros n p. rewrite Hc, Hp. apply (WF_parent _ Hwf).
  - intros n. rewrite Hc. apply (WF_nodup _ Hwf).
  - intros x k Hk. apply (WF_no_cycle d x k Hwf).
    rewrite <- Hk. symmetry. apply nth_parent_agree. intros y _. apply Hp.
  - intros n. rewrite Hc, Ht. apply (WF_text _ Hwf).
  - intros n. rewrite Hp, Ht. apply (WF_fragment _ Hwf).
Qed.

(** The loop of [Dom.replace] appends the children one after the other. *)
Lemma replace_loop_run (c : C) elm tag :
  forall rest fuel d,
    WF d -> children_of d elm = rest -> tag <> elm ->
    is_Some (d !! tag) -> type_of d tag <> Some TEXT_NODE ->
    ~ ancestor_or_self d elm tag ->
    length rest <= fuel ->
    Dom.replace_loop fuel elm tag c d
    = Ok (tt, c, foldl (insert_one tag None) d rest).
Proof.
  induction rest as [|x rest IH];
    intros fuel d Hwf Hkids Hne Htag Htext Habove Hfuel.
  - destruct fuel; simpl; unfold bind, read, firstChild; by rewrite Hkids.
  - destruct fuel as [|fuel]; [simpl in Hfuel; lia|]. simpl in Hfuel.
    assert (parent_of d x = Some elm) as Hx.
    { apply (WF_child _ Hwf). rewrite Hkids. by left. }
    assert (~ ancestor_or_self d x tag) as Hxabove.
    { intros [j Hj]. apply Habove. exists (S j).
      rewrite nth_parent_S_r, Hj. exact Hx. }
    assert (type_of d x <> Some DOCUMENT_FRAGMENT_NODE) as Hfrag.
    { intros E. apply (WF_fragment _ Hwf) in E. congruence. }
    assert (is_Some (d !! x)) as Hxs by (by eapply parent_of_Some_lookup).
    set (d1 := insert_one tag None d x).
    simpl. unfold bind at 1, read, firstChild. rewrite Hkids. simpl.
    unfold bind at 1. unfold appendChild.
    rewrite insertBefore_run; [|done|done|done].
    rewrite pre_insert_node; [|done|done]. fold d1.
    assert (forall y, parent_of d1 y = if decide (y = x) then Some tag
                                       else parent_of d y) as Hpar1.
    { intros y. unfold d1. by rewrite parent_of_insert_one. }
    apply IH; [| |done| | | |lia].
    + by apply WF_insert_one.
    + unfold d1. rewrite children_of_insert_one by done.
      rewrite decide_False by congruence. rewrite children_of_unlink.
      rewrite decide_True by done. rewrite Hkids.
      rewrite remove_id_cons_eq. apply remove_id_notin.
      pose proof (WF_nodup _ Hwf elm) as Hnd. rewrite Hkids in Hnd.
      by apply NoDup_cons in Hnd as [? _].
    + apply lookup_lt_is_Some. unfold d1. rewrite length_insert_one.
      by apply lookup_lt_is_Some.
    + unfold d1. by rewrite type_of_insert_one.
    + intros H. apply Habove. apply (ancestor_or_self_agree d d1); [|done].
      intros y Hy. rewrite Hpar1. destruct (decide (y = x)) as [->|]; done.
Qed.

(** The browser's [replaceChild], for a new node that has no parent. *)
Lemma replaceChild_run (c : C) d p new old pre post :
  WF d ->
  children_of d p = pre ++ old :: post ->
  parent_of d new = None ->
  is_Some (d !! new) ->
  type_of d new <> Some DOCUMENT_FRAGMENT_NODE ->
  ~ ancestor_or_self d new p ->
  exists d',
    replaceChild p new old c d = Ok (old, c, d')
    /\ WF d'
    /\ length d' = length d
    /\ (forall x, data_of d' x = data_of d x)
    /\ children_of d' p = pre ++ new :: post
    /\ (forall q, q <> p -> children_of d' q = children_of d q)
    /\ (forall x, parent_of d' x
                  = if decide (x = new) then Some p
                    else if decide (x = old) then None else parent_of d x).
Proof.
  intros Hwf Hkids Hnew Hns Hfrag Habove.
  assert (parent_of d old = Some p) as Hold.
  { apply (WF_child _ Hwf). rewrite Hkids. apply elem_of_app. right. by left. }
  pose proof (WF_nodup _ Hwf p) as Hnd. rewrite Hkids in Hnd.
  assert ((old ∉ pre) /\ (old ∉ post)) as (Hpre & Hpost).
  { apply NoDup_app in Hnd as (H1 & H2 & H3).
    apply NoDup_cons in H3 as [H3 H4]. split; [|done].
    intros Hin. apply (H2 _ Hin). by left. }
  assert (new <> old) as Hne by congruence.
  assert (type_of d p <> Some TEXT_NODE) as Htext.
  { intros E. apply (WF_text _ Hwf) in E. rewrite Hkids in E.
    by destruct pre. }
  assert (is_Some (d !! p)) as Hps.
  { apply lookup_lt_is_Some. apply (children_of_valid d p old).
    by apply (WF_parent _ Hwf). }
  set (ref := head post).
  assert (nextSibling d old = ref) as Href
    by (by apply (nextSibling_middle d old p pre post)).
  assert (ref <> Some new) as Hrefne.
  { unfold ref. destruct post as [|y post]; [done|]. simpl. intros [= ->].
    assert (parent_of d new = Some p) as E; [|congruence].
    apply (WF_child _ Hwf). rewrite Hkids. apply elem_of_app. right. right.
    by left. }
  set (d1 := unlink d old).
  assert (WF d1) as Hwf1 by (by apply WF_unlink).
  assert (children_of d1 p = pre ++ post) as Hkids1.
  { unfold d1. rewrite children_of_unlink, decide_True by done.
    rewrite Hkids. by apply remove_id_middle. }
  destruct (insert_detached c d1 p new ref pre (tail post))
    as (_ & G1 & G2 & G3 & G4 & G5 & G6); try done.
  { unfold d1. rewrite parent_of_unlink. by destruct (decide (new = old)). }
  { apply lookup_unlink_is_Some. done. }
  { unfold d1. by rewrite type_of_unlink. }
  { by apply lookup_unlink_is_Some. }
  { unfold d1. by rewrite type_of_unlink. }
  { intros H. apply Habove. by apply (ancestor_or_self_unlink d old). }
  { rewrite Hkids1. unfold ref. destruct post; simpl; [|done].
    by rewrite app_nil_r. }
  exists (insert_one p ref d1 new). split_conj.
  - unfold replaceChild. unfold bind at 1, read, id.
    rewrite bool_decide_eq_false_2 by done.
    rewrite contains_false by done.
    rewrite bool_decide_eq_true_2 by done. simpl.
    rewrite Href. rewrite bool_decide_eq_false_2 by done.
    unfold bind, write, ret. fold d1.
    destruct (type_of d1 new) as [[]|] eqn:E; try done.
    unfold d1 in E. by rewrite type_of_unlink in E.
  - done.
  - rewrite G2. apply length_unlink.
  - intros x. rewrite G3. apply data_of_unlink.
  - rewrite G4. unfold ref. by destruct post.
  - intros q Hq. rewrite G5 by done. unfold d1.
    rewrite children_of_unlink, decide_False; [done|congruence].
  - intros x. rewrite G6. destruct (decide (x = new)); [done|].
    unfold d1. by rewrite parent_of_unlink.
Qed.

Lemma NoDup_split_unique (x : NodeId) pre post pre' post' :
  NoDup (pre ++ x :: post) ->
  pre ++ x :: post = pre' ++ x :: post' ->
  pre = pre' /\ post = post'.
Proof.
  revert pre'. induction pre as [|y pre IH]; intros pre' Hnd Heq.
  - destruct pre' as [|z pre']; simpl in *.
    + by injection Heq as ->.
    + injection Heq as <- ->. apply NoDup_cons in Hnd as [Hx _].
      exfalso. apply Hx. apply elem_of_app. right. by left.
  - simpl in Hnd. apply NoDup_cons in Hnd as [Hy Hnd].
    destruct pre' as [|z pre']; simpl in *.
    + injection Heq as -> _. exfalso. apply Hy. apply elem_of_app. right.
      by left.
    + injection Heq as <- Heq. destruct (IH pre' Hnd Heq) as [-> ->]. done.
Qed.

Lemma replace_run (fuel : nat) (elm : NodeId) (t : string)
  (withAttributes : bool) (c : C) (d : Document) :
  WF d ->
  elm < length d ->
  length (children_of d elm) <= fuel ->
  exists d',
    let tag := length d in
    Dom.replace fuel elm (TagName t) withAttributes false c d
    = Ok (tag, c, d')
    /\ type_of d' tag = Some ELEMENT_NODE
    /\ name_of d' tag = Str.toUpperCase t
    /\ style_of d' tag = (if withAttributes then style_of d elm else [])
    /\ children_of d' tag = children_of d elm
    /\ children_of d' elm = []
    /\ parent_of d' elm = None
    /\ parent_of d' tag = parent_of d elm
    /\ (forall p pre post,
          children_of d p = pre ++ elm :: post ->
          children_of d' p = pre ++ tag :: post)
    /\ (forall q, q < length d -> q <> elm -> parent_of d elm <> Some q ->
          children_of d' q = children_of d q)
    /\ (forall x, x ∈ children_of d elm -> parent_of d' x = Some tag)
    /\ (forall x, x < length d -> x <> elm -> x ∉ children_of d elm ->
          parent_of d' x = parent_of d x)
    /\ (forall x, x < length d -> data_of d' x = data_of d x)
    /\ WF d'.
Proof.
  intros Hwf Helm Hfuel.
  set (tag := length d). set (ks := children_of d elm) in *.
  set (d1 := d ++ [new_element t]).
  assert (WF d1) as Hwf1 by (by apply WF_alloc).
  assert (forall x, parent_of d1 x = parent_of d x) as Hpar1
    by (intros x; by apply parent_of_alloc).
  assert (forall x, children_of d1 x = children_of d x) as Hkids1
    by (intros x; by apply children_of_alloc).
  assert (forall x, x < length d -> d1 !! x = d !! x) as Hold1.
  { intros x Hx. unfold d1. by rewrite lookup_app_l. }
  assert (d1 !! tag = Some (new_element t)) as Htag1.
  { unfold d1, tag. rewrite lookup_app_r by lia.
    by rewrite Nat.sub_diag. }
  assert (length d1 = S (length d)) as Hlen1.
  { unfold d1. rewrite length_app. simpl. lia. }
  assert (tag <> elm) as Hne by (unfold tag; lia).
  assert (parent_of d tag = None /\ children_of d tag = []) as [Hpt Hct].
  { split; apply (out_of_range d tag); unfold tag; lia. }
  assert (~ ancestor_or_self d1 elm tag) as Habove1.
  { intros [k Hk]. destruct k as [|k]; simpl in Hk; [congruence|].
    by rewrite Hpar1, Hpt in Hk. }
  assert (type_of d1 tag = Some ELEMENT_NODE) as Htype1.
  { unfold type_of. by rewrite Htag1. }
  destruct (move_nodes c ks d1 elm tag None [] [] [] [])
    as (Hwf2 & Hlen2 & Hdata2 & Hsrc2 & Hp2 & Hoth2 & Hpar2 & Hmoved2 & _).
  { done. }
  { rewrite Hkids1. simpl. by rewrite app_nil_r. }
  { done. }
  { by rewrite Htag1. }
  { by rewrite Htype1. }
  { done. }
  { simpl. by rewrite Hkids1, Hct. }
  set (d2 := foldl (insert_one tag None) d1 ks) in *.
  simpl in Hsrc2, Hp2. rewrite app_nil_r in Hp2.
  assert (Dom.replace_loop fuel elm tag c d1 = Ok (tt, c, d2)) as Hloop.
  { apply replace_loop_run;
      [done|apply Hkids1|done|by rewrite Htag1|by rewrite Htype1|done|done]. }
  set (copy := fun dd : Document =>
                 alter (fun nd =>
                          mkNode (nodeType nd) (nodeName nd) (nodeValue nd)
                                 (parentNode nd) (childNodes nd)
                                 (match style_of dd elm with
                                  | [] => style nd
                                  | st => st
                                  end)
                                 (foldl (fun acc kv => setAttribute kv.1 kv.2 acc)
                                        (attributes nd) (attributes_of dd elm)))
                       tag dd).
  set (d3 := if withAttributes then copy d2 else d2).
  assert (forall x, parent_of d3 x = parent_of d2 x) as Hpar3.
  { intros x. unfold d3. destruct withAttributes; [|done].
    unfold copy, parent_of. destruct (decide (tag = x)) as [<-|Hx].
    - rewrite list_lookup_alter_eq. by destruct (d2 !! tag).
    - by rewrite list_lookup_alter_ne. }
  assert (forall x, children_of d3 x = children_of d2 x) as Hkids3.
  { intros x. unfold d3. destruct withAttributes; [|done].
    unfold copy, children_of. destruct (decide (tag = x)) as [<-|Hx].
    - rewrite list_lookup_alter_eq. by destruct (d2 !! tag).
    - by rewrite list_lookup_alter_ne. }
  assert (forall x, type_of d3 x = type_of d2 x) as Htype3.
  { intros x. unfold d3. destruct withAttributes; [|done].
    unfold copy. by apply type_of_alter. }
  assert (forall x, name_of d3 x = name_of d2 x) as Hname3.
  { intros x. unfold d3. destruct withAttributes; [|done].
    unfold copy. by apply name_of_alter. }
  assert (forall x, x <> tag -> data_of d3 x = data_of d2 x) as Hdata3.
  { intros x Hx. unfold d3. destruct withAttributes; [|done].
    unfold copy, data_of. by rewrite list_lookup_alter_ne. }
  assert (length d3 = length d2) as Hlen3.
  { unfold d3. destruct withAttributes; [|done]. apply length_alter. }
  assert (WF d3) as Hwf3 by (by apply (WF_same_tree d2)).
  assert (data_of d2 tag = data_of d1 tag) as Hdt2 by apply Hdata2.
  assert (style_of d3 tag = (if withAttributes then style_of d elm else []))
    as Hstyle3.
  { assert (style_of d2 tag = []) as E2.
    { unfold data_of in Hdt2. rewrite Htag1 in Hdt2. unfold style_of.
      destruct (d2 !! tag); [|done]. simpl in *. by injection Hdt2. }
    assert (style_of d2 elm = style_of d elm) as E3.
    { pose proof (Hdata2 elm) as E. unfold data_of in E.
      rewrite Hold1 in E by done. unfold style_of.
      destruct (d2 !! elm), (d !! elm); simpl in *; try done.
      by injection E. }
    unfold d3. destruct withAttributes; [|done].
    unfold copy, style_of at 1. rewrite list_lookup_alter_eq.
    unfold style_of at 1 in E2. destruct (d2 !! tag) as [nd|] eqn:E.
    - simpl in *. rewrite E3. rewrite E2. by destruct (style_of d elm).
    - apply lookup_ge_None in E. rewrite Hlen2, Hlen1 in E. unfold tag in E.
      lia. }
  assert (elm ∉ ks) as Helmks.
  { intros Hin. apply (WF_child _ Hwf) in Hin.
    assert (nth_parent 1 d elm = Some elm) as Hc by (simpl; by rewrite Hin).
    by apply WF_no_cycle in Hc. }
  assert (tag ∉ ks) as Htagks.
  { intros Hin. apply (WF_child _ Hwf) in Hin. congruence. }
  assert (parent_of d3 elm = parent_of d elm) as Hpelm.
  { by rewrite Hpar3, Hpar2, Hpar1. }
  assert (parent_of d3 tag = None) as Hptag.
  { by rewrite Hpar3, Hpar2, Hpar1. }
  assert (Dom.replace fuel elm (TagName t) withAttributes false c d
          = (let* parent := read (fun d => parent_of d elm) in
             match parent with
             | Some p => replaceChild p tag elm ;; ret tag
             | None => ret tag
             end) c d3) as Hrun.
  { unfold Dom.replace, createElement, alloc. unfold bind at 1.
    fold tag d1. simpl negb. cbv iota. unfold bind at 1. rewrite Hloop.
    unfold bind at 1. unfold d3, copy. by destruct withAttributes. }
  assert (forall x, x < length d -> data_of d3 x = data_of d x) as Hdata.
  { intros x Hx. rewrite Hdata3 by (unfold tag; lia). rewrite Hdata2.
    unfold data_of. by rewrite Hold1. }
  assert (type_of d3 tag = Some ELEMENT_NODE) as Htype.
  { rewrite Htype3. by rewrite (data_of_type d1 d2). }
  assert (name_of d3 tag = Str.toUpperCase t) as Hname.
  { rewrite Hname3. unfold data_of in Hdt2. rewrite Htag1 in Hdt2.
    unfold name_of. destruct (d2 !! tag); [|done]. simpl in *.
    by injection Hdt2. }
  destruct (parent_of d elm) as [p|] eqn:Hp.
  - assert (elm ∈ children_of d p) as Hin by (by apply (WF_parent _ Hwf)).
    apply list_elem_of_split in Hin as (pre0 & post0 & Hsplit).
    assert (p < length d) as Hplt by (by apply (WF_parent_valid d elm)).
    assert (p <> elm) as Hpe.
    { intros ->. assert (nth_parent 1 d elm = Some elm) as Hc
        by (simpl; by rewrite Hp).
      by apply WF_no_cycle in Hc. }
    assert (children_of d3 p = pre0 ++ elm :: post0) as Hkp.
    { rewrite Hkids3, Hoth2, Hkids1; [done|done|unfold tag; lia]. }
    destruct (replaceChild_run c d3 p tag elm pre0 post0)
      as (d' & Hrc & Hwf' & Hlen' & Hdata' & Hkp' & Hoth' & Hpar'); try done.
    { apply lookup_lt_is_Some. rewrite Hlen3, Hlen2, Hlen1. unfold tag. lia. }
    { by rewrite Htype. }
    { intros H. apply (not_above_new_node d tag p Hwf Hplt (le_n _)).
      apply (ancestor_or_self_agree d d3); [|done].
      intros x Hx. rewrite Hpar3, Hpar2, Hpar1; [done|].
      intros Hxin. apply (WF_child _ Hwf) in Hxin.
      by apply (WF_grandchild_not_above d x elm p Hwf). }
    exists d'. simpl. split_conj.
    + rewrite Hrun. unfold bind at 1, read. rewrite Hpelm.
      unfold bind. by rewrite Hrc.
    + by rewrite (data_of_type d3 d').
    + pose proof (Hdata' tag) as E. unfold data_of in E.
      unfold name_of in *.
      destruct (d' !! tag), (d3 !! tag); simpl in *; try done.
      injection E as _ E _ _ _. congruence.
    + pose proof (Hdata' tag) as E. unfold data_of in E.
      unfold style_of in *.
      destruct (d' !! tag), (d3 !! tag); simpl in *; try done.
      injection E as _ _ _ E _. congruence.
    + rewrite Hoth' by (unfold tag; lia). by rewrite Hkids3.
    + rewrite Hoth' by done. by rewrite Hkids3.
    + rewrite Hpar'. rewrite decide_False by done. by rewrite decide_True.
    + rewrite Hpar'. by rewrite decide_True.
    + intros p' pre post Hsp.
      assert (p' = p) as ->.
      { assert (parent_of d elm = Some p') as E; [|congruence].
        apply (WF_child _ Hwf). rewrite Hsp. apply elem_of_app. right.
        by left. }
      rewrite Hsplit in Hsp.
      destruct (NoDup_split_unique elm pre0 post0 pre post) as [-> ->];
        [|done|done].
      rewrite <- Hsplit. apply (WF_nodup _ Hwf).
    + intros q Hq Hqe Hqp. rewrite Hoth' by congruence.
      rewrite Hkids3, Hoth2, Hkids1; [done|done|unfold tag; lia].
    + intros x Hx. rewrite Hpar'.
      rewrite decide_False by congruence.
      rewrite decide_False by congruence.
      rewrite Hpar3. by apply Hmoved2.
    + intros x Hx Hxe Hxk. rewrite Hpar'.
      rewrite decide_False by (unfold tag; lia).
      rewrite decide_False by done.
      by rewrite Hpar3, Hpar2, Hpar1.
    + intros x Hx. rewrite Hdata'. by apply Hdata.
    + done.
  - exists d3. simpl. split_conj; try done.
    + rewrite Hrun. unfold bind, read. by rewrite Hpelm.
    + by rewrite Hkids3.
    + by rewrite Hkids3.
    + intros p pre post Hsp.
      assert (parent_of d elm = Some p) as E; [|congruence].
      apply (WF_child _ Hwf). rewrite Hsp. apply elem_of_app. right. by left.
    + intros q Hq Hqe _.
      rewrite Hkids3, Hoth2, Hkids1; [done|done|unfold tag; lia].
    + intros x Hx. rewrite Hpar3. by apply Hmoved2.
    + intros x Hx Hxe Hxk. by rewrite Hpar3, Hpar2, Hpar1.
Qed.


(** [Dom.replace] with a tag name, on a well-formed document: a new
    element of that name takes the place of the element among the children
    of its parent and holds its children; the element is left alone and
    empty.  An element without parent is emptied into the new one, which
    has no parent either. *)
Theorem replace_takes_the_place (fuel : nat) (elm : NodeId) (t : string)
  (withAttributes : bool) (c : C) (d : Document) :
  wf d = true ->
  elm < length d ->
  length (children_of d elm) <= fuel ->
  exists d',
    let tag := length d in
    Dom.replace fuel elm (TagName t) withAttributes false c d
    = Ok (tag, c, d')
    /\ type_of d' tag = Some ELEMENT_NODE
    /\ name_of d' tag = Str.toUpperCase t
    /\ style_of d' tag = (if withAttributes then style_of d elm else [])
    /\ children_of d' tag = children_of d elm
    /\ children_of d' elm = []
    /\ parent_of d' elm = None
    /\ parent_of d' tag = parent_of d elm
    /\ (forall p pre post,
          children_of d p = pre ++ elm :: post ->
          children_of d' p = pre ++ tag :: post)
    /\ (forall q, q < length d -> q <> elm -> parent_of d elm <> Some q ->
          children_of d' q = children_of d q)
    /\ (forall x, x ∈ children_of d elm -> parent_of d' x = Some tag)
    /\ (forall x, x < length d -> x <> elm -> x ∉ children_of d elm ->
          parent_of d' x = parent_of d x)
    /\ (forall x, x < length d -> data_of d' x = data_of d x)
    /\ WF d'.
Proof. intros Hwf%wf_WF. by apply replace_run. Qed.

End Replace.

(** In [<p>a<em>b</em>c</p>] the [em] becomes a [strong]. *)
Lemma replace_takes_the_place_witness :
  exists d',
    Dom.replace 1 2 (TagName "strong") false false tt WrapExample.doc
    = Ok (5, tt, d')
    /\ children_of d' 0 = [1; 5; 4]
    /\ outerHTML d' 0 = "<p>a<strong>b</strong>c</p>"%string.
Proof.
  destruct (replace_takes_the_place 1 2 "strong" false tt WrapExample.doc)
    as (d' & H1 & _ & _ & _ & _ & _ & _ & _ & H2 & _);
    try (vm_compute; (reflexivity || lia)).
  exists d'. split; [exact H1|]. split; [exact (H2 0 [1] [4] eq_refl)|].
  vm_compute in H1. injection H1 as <-. reflexivity.
Defined.
(** ** Searching upwards: [Dom.up] and [Dom.closest] *)

Section Up.
Context {C : Type}.
Implicit Types (d : Document) (n p node start : NodeId)
  (root : option NodeId) (f : Document -> option NodeId -> bool).

Lemma up_loop_nearest (condition : Dom.NodeCondition (C := C)) f root node
  (c : C) d :
  WF d -> node < length d -> reads_as condition f ->
  forall fuel j start,
    nth_parent j d node = Some start ->
    up_reaches d root node j ->
    (forall i b, i < j -> nth_parent i d node = Some b -> f d (Some b) = false) ->
    length d <= fuel + j ->
    exists r,
      Dom.up_loop fuel start condition root c d = Ok (r, c, d)
      /\ nearest d f root node r.
Proof.
  intros Hwf Hnode Hcond.
  induction fuel as [|fuel IH]; intros j start Hj Hreach Hbefore Hfuel.
  { pose proof (WF_acyclic _ Hwf node Hnode) as Hac.
    rewrite (nth_parent_None_mono (length d) j d node) in Hj; [done|done|lia]. }
  simpl. unfold bind at 1. rewrite Hcond.
  destruct (f d (Some start)) eqn:Hf.
  { exists (Some start). split; [done|]. by exists j. }
  assert (forall i b, i < S j -> nth_parent i d node = Some b ->
            f d (Some b) = false) as Hbefore'.
  { intros i b Hi Hb. destruct (decide (i = j)) as [->|].
    - congruence.
    - apply (Hbefore i); [lia|done]. }
  assert (forall k a, nth_parent k d node = Some a -> k <= j ->
            f d (Some a) = false) as Hlow.
  { intros k a Hk Hle. apply (Hbefore' k); [lia|done]. }
  unfold bind at 1, read.
  destruct (parent_of d start) as [p|] eqn:Hp.
  - assert (nth_parent (S j) d node = Some p) as Hj'.
    { by rewrite nth_parent_S_r, Hj. }
    destruct (decide (Some start = root)) as [Hsr|Hsr].
    { rewrite bool_decide_eq_true_2 by done.
      exists None. split; [done|]. intros k a Hk Hr.
      destruct (decide (k <= j)) as [|Hgt]; [by apply (Hlow k)|].
      destruct Hr as [->|Hr]; [lia|].
      exfalso. apply (Hr j start); [lia|done|done]. }
    rewrite bool_decide_eq_false_2 by done.
    destruct (decide (Some p = root)) as [Hpr|Hpr].
    { rewrite bool_decide_eq_true_2 by done.
      exists None. split; [done|]. intros k a Hk Hr.
      destruct (decide (k <= j)) as [|Hgt]; [by apply (Hlow k)|].
      destruct Hr as [->|Hr]; [lia|].
      exfalso. apply (Hr (S j) p); [lia|done|done]. }
    rewrite bool_decide_eq_false_2 by done.
    apply (IH (S j) p); [done| |done|lia].
    right. intros i b Hi Hb.
    destruct (decide (i = S j)) as [->|]; [congruence|].
    destruct (decide (i = j)) as [->|]; [congruence|].
    destruct Hreach as [->|Hreach]; [lia|].
    apply (Hreach i b); [lia|done].
  - exists None. split; [done|]. intros k a Hk Hr.
    destruct (decide (k <= j)) as [|Hgt]; [by apply (Hlow k)|].
    replace k with (j + (k - j)) in Hk by lia.
    rewrite nth_parent_add, Hj in Hk. simpl in Hk.
    destruct (k - j) as [|m] eqn:E; [lia|]. simpl in Hk.
    by rewrite Hp in Hk.
Qed.

(** [Dom.up] with a condition that only reads the document, on a
    well-formed document with fuel for its depth: it returns the nearest
    node that satisfies the condition among the node and its ancestors
    below the root, nothing when there is none, and changes nothing.  The
    root is never tested, unless the search starts on it. *)
Theorem up_finds_the_nearest (fuel : nat) (node : NodeId)
  (condition : Dom.NodeCondition (C := C)) f root (c : C) (d : Document) :
  wf d = true ->
  node < length d ->
  length d <= fuel ->
  reads_as condition f ->
  exists r,
    Dom.up fuel node condition root c d = Ok (r, c, d)
    /\ nearest d f root node r.
Proof.
  intros Hwf%wf_WF Hnode Hfuel Hcond.
  apply (up_loop_nearest condition f root node c d Hwf Hnode Hcond fuel 0 node);
    [done|by left|intros; lia|lia].
Qed.

(** [Dom.closest] with a tag name or a list of tag names: the nearest
    node, among the node and its ancestors below the root, whose name in
    lower case is the tag, or is in the list. *)
Theorem closest_finds_the_nearest_tag (fuel : nat) (node root : NodeId)
  (tags : Dom.Tags (C := C)) (names : list string) (c : C) (d : Document) :
  wf d = true ->
  node < length d ->
  length d <= fuel ->
  tags = Dom.SomeTags names
  \/ (exists tag, tags = Dom.OneTag tag /\ names = [tag]) ->
  exists r,
    Dom.closest fuel node tags root c d = Ok (r, c, d)
    /\ nearest d
         (fun d o => match o with
                     | Some n => bool_decide (Str.toLowerCase (name_of d n) ∈ names)
                     | None => false
                     end)
         (Some root) node r.
Proof.
  intros Hwf%wf_WF Hnode Hfuel Htags. unfold Dom.closest, Dom.up.
  eapply (up_loop_nearest _ _ (Some root) node c d Hwf Hnode _ fuel 0 node);
    [done|by left|intros; lia|lia].
  Unshelve.
  destruct Htags as [->|(tag & -> & ->)]; intros [n|] c' d'; try done.
  unfold read. do 3 f_equal.
  apply bool_decide_ext. rewrite list_elem_of_singleton. split; congruence.
Qed.

End Up.

(** In [<div><span>a<b>b</b></span></div>], from the text of the [b]: the
    nearest [span] is found, and the [div], which is the root, is not. *)
Lemma up_finds_the_nearest_witness :
  Dom.up 5 4 (ApplyStyle.condition (fun d o => Dom.isTag d o "span"))
         (Some 0) tt UnwrapExample.doc
  = Ok (Some 1, tt, UnwrapExample.doc)
  /\ Dom.up 5 4 (ApplyStyle.condition (fun d o => Dom.isTag d o "div"))
            (Some 0) tt UnwrapExample.doc
     = Ok (None, tt, UnwrapExample.doc).
Proof.
  split.
  - destruct (up_finds_the_nearest 5 4
                (ApplyStyle.condition (fun d o => Dom.isTag d o "span"))
                (fun d o => Dom.isTag d o "span") (Some 0) tt
                UnwrapExample.doc)
      as (r & H & _);
      [reflexivity|vm_compute; lia|vm_compute; lia|by intros o c d|].
    rewrite H. vm_compute in H. by injection H as <-.
  - reflexivity.
Defined.

Lemma closest_finds_the_nearest_tag_witness :
  Dom.closest 5 4 (Dom.SomeTags ["b"; "span"]%string) 0 tt UnwrapExample.doc
  = Ok (Some 3, tt, UnwrapExample.doc).
Proof.
  destruct (closest_finds_the_nearest_tag 5 4 0
              (Dom.SomeTags ["b"; "span"]%string) ["b"; "span"]%string tt
              UnwrapExample.doc)
    as (r & H & _); [reflexivity|vm_compute; lia|vm_compute; lia|by left|].
  rewrite H. vm_compute in H. by injection H as <-.
Defined.
(** ** [Dom.all] and [Dom.isOrContains] *)

Section All.
Context {C : Type}.
Implicit Types (d : Document) (n node : NodeId)
  (f : Document -> option NodeId -> bool).

Lemma forEach_unchanged {A} (l : list A) (g : A -> M C unit) (c : C) d :
  (forall x, x ∈ l -> g x c d = Ok (tt, c, d)) ->
  forEach l g c d = Ok (tt, c, d).
Proof.
  induction l as [|x l IH]; intros H; simpl; [done|].
  unfold bind. rewrite H by (by left). apply IH. intros y Hy. apply H.
  by right.
Qed.

(** [Dom.all] with a condition that only reads the document, on a
    well-formed document with fuel for its depth: the result is the node
    itself when it satisfies the condition and nothing otherwise, whatever
    its descendants are; nothing changes. *)
Theorem all_never_returns_a_descendant (fuel : nat) (node : NodeId)
  (condition : Dom.NodeCondition (C := C)) f (prev : bool) (c : C)
  (d : Document) :
  wf d = true ->
  node < length d ->
  length d <= fuel ->
  reads_as condition f ->
  Dom.all fuel node condition prev c d
  = Ok (if f d (Some node) then Some node else None, c, d).
Proof.
  intros Hwf%wf_WF Hnode Hfuel Hcond.
  assert (forall fuel n k top,
            n < length d -> nth_parent k d n = Some top ->
            length d <= fuel + k ->
            Dom.all fuel n condition prev c d
            = Ok (if f d (Some n) then Some n else None, c, d)) as Hall.
  { clear fuel node Hnode Hfuel.
    induction fuel as [|fuel IH]; intros n k top Hn Hk Hfuel.
    { pose proof (WF_acyclic _ Hwf n Hn) as Hac.
      rewrite (nth_parent_None_mono (length d) k d n) in Hk; [done|done|lia]. }
    simpl. unfold bind at 1, read. unfold bind at 1. rewrite Hcond.
    destruct (f d (Some n)); [done|].
    unfold bind. rewrite forEach_unchanged; [done|].
    intros x Hx.
    assert (x ∈ children_of d n) as Hin.
    { destruct prev; [|done].
      apply list_elem_of_In. apply in_rev. by apply list_elem_of_In. }
    apply (WF_child _ Hwf) in Hin.
    rewrite (IH x (S k) top); [done| | |lia].
    - apply lookup_lt_is_Some. by eapply parent_of_Some_lookup.
    - simpl. by rewrite Hin. }
  apply (Hall fuel node 0 node); [done|done|lia].
Qed.

End All.

(** [Dom.isOrContains] on a well-formed document holds exactly when the
    root is the child or one of its ancestors, and, with [onlyContains],
    is not the child itself. *)
Theorem isOrContains_iff (d : Document) (root child : NodeId)
  (onlyContains : bool) :
  wf d = true ->
  Dom.isOrContains d root child onlyContains = true
  <-> (exists k, nth_parent k d child = Some root)
      /\ (onlyContains = true -> root <> child).
Proof.
  intros Hwf%wf_WF. unfold Dom.isOrContains.
  destruct (decide (root = child)) as [->|Hne].
  - rewrite bool_decide_eq_true_2 by done. destruct onlyContains; simpl.
    + split; [done|]. intros [_ H]. by destruct H.
    + rewrite contains_refl. split; [|done]. intros _. split; [|done].
      by exists 0.
  - rewrite bool_decide_eq_false_2 by done. simpl. split.
    + intros H. split; [|done]. by apply contains_ancestor.
    + intros [H _]. by apply WF_ancestor_contains.
Qed.

(** In [<div><span>a<b>b</b></span></div>] the search for a [b] from the
    [span] returns nothing, and the search from the [b] returns the [b]. *)
Lemma all_never_returns_a_descendant_witness :
  Dom.all 5 1 (ApplyStyle.condition (fun d o => Dom.isTag d o "b")) false tt
          UnwrapExample.doc
  = Ok (None, tt, UnwrapExample.doc)
  /\ Dom.all 5 3 (ApplyStyle.condition (fun d o => Dom.isTag d o "b")) false tt
             UnwrapExample.doc
     = Ok (Some 3, tt, UnwrapExample.doc).
Proof.
  split.
  - rewrite (all_never_returns_a_descendant 5 1 _
               (fun d o => Dom.isTag d o "b") false tt UnwrapExample.doc);
      [reflexivity|reflexivity|vm_compute; lia|vm_compute; lia
      |by intros o c d].
  - reflexivity.
Defined.

(** In [<div><span>a<b>b</b></span></div>] the [span] contains the text of
    the [b], and does not contain itself when only containment counts. *)
Lemma isOrContains_iff_witness :
  Dom.isOrContains UnwrapExample.doc 1 4 true = true
  /\ Dom.isOrContains UnwrapExample.doc 1 1 true = false
  /\ Dom.isOrContains UnwrapExample.doc 1 1 false = true.
Proof.
  split; [|split; reflexivity].
  apply (isOrContains_iff UnwrapExample.doc 1 4 true); [reflexivity|].
  split; [by exists 2|done].
Defined.
(** ** [Dom.each] visits the descendants in document order *)

Section EachVisits.
Context {C : Type}.
Implicit Types (d : Document) (n elm : NodeId) (c : C)
  (callback : NodeId -> M C (option bool)).

Lemma same_tree_refl d : same_tree d d.
Proof. by split. Qed.

Lemma same_tree_trans d1 d2 d3 :
  same_tree d1 d2 -> same_tree d2 d3 -> same_tree d1 d3.
Proof.
  intros [H1 H2] [H3 H4]. split; [congruence|]. intros x.
  destruct (H2 x) as (? & ? & ?), (H4 x) as (? & ? & ?).
  split_conj; congruence.
Qed.

Lemma same_tree_WF d d' : WF d -> same_tree d d' -> WF d'.
Proof.
  intros Hwf [_ H]. apply (WF_same_tree d); [done|..]; intros x; apply H.
Qed.

Lemma forEach_app {A} (l1 l2 : list A) (g : A -> M C unit) c d :
  forEach (l1 ++ l2) g c d = (forEach l1 g ;; forEach l2 g) c d.
Proof.
  revert c d. induction l1 as [|x l1 IH]; intros c d; simpl.
  { unfold bind, ret. done. }
  unfold bind in *. destruct (g x c d) as [[[[] c'] d']| |]; [|done..].
  apply IH.
Qed.

(** Calling a callback that keeps the tree on the nodes of a list. *)
Lemma forEach_keeps_tree callback l :
  keeps_tree callback ->
  forall c d,
    exists c' d',
      forEach l (fun n => callback n ;; ret tt) c d = Ok (tt, c', d')
      /\ same_tree d d'.
Proof.
  intros Hcb. induction l as [|x l IH]; intros c d; simpl.
  - exists c, d. split; [done|apply same_tree_refl].
  - destruct (Hcb x c d) as (r & c1 & d1 & Hrun & _ & Ht1).
    destruct (IH c1 d1) as (c' & d' & Hrest & Ht').
    exists c', d'. split; [|by apply (same_tree_trans d d1)].
    unfold bind at 1 2. rewrite Hrun. unfold ret at 1. exact Hrest.
Qed.

Lemma subtree_cons h d n :
  subtree (S h) d n = n :: flat_map (subtree h d) (children_of d n).
Proof. reflexivity. Qed.

Lemma forEach_app_Ok {A} (l1 l2 : list A) (g : A -> M C unit) c d c1 d1 r :
  forEach l1 g c d = Ok (tt, c1, d1) ->
  forEach l2 g c1 d1 = r ->
  forEach (l1 ++ l2) g c d = r.
Proof.
  intros H1 H2. rewrite forEach_app. unfold bind. by rewrite H1.
Qed.

(** The loop of [Dom.each] over the children from [n] on. *)
Lemma each_loop_visits callback d0 :
  WF d0 -> keeps_tree callback ->
  forall fuel elm j before after n h c d,
    same_tree d0 d ->
    children_of d0 elm = before ++ n :: after ->
    is_Some (nth_parent j d0 n) ->
    (length d0 - j) * (length d0 + 2) + length after + 2 < fuel ->
    length d0 <= h + j ->
    exists c' d',
      forEach (flat_map (subtree h d0) (n :: after))
              (fun x => callback x ;; ret tt) c d = Ok (tt, c', d')
      /\ Dom.each_loop fuel elm callback (Some n) c d = Ok (true, c', d')
      /\ same_tree d0 d'.
Proof.
  intros Hwf Hcb fuel. induction fuel as [fuel IH] using lt_wf_ind.
  intros elm j before after n h c d Hsame Hkids Hj Hfuel Hh.
  destruct fuel as [|f]; [lia|].
  assert (parent_of d0 n = Some elm) as Hp.
  { apply (WF_child _ Hwf). rewrite Hkids. apply elem_of_app. right. by left. }
  assert (n < length d0) as Hnv
    by (by apply parent_of_Some_lookup, lookup_lt_is_Some in Hp).
  pose proof (nth_parent_is_Some_lt d0 n j Hwf Hnv Hj) as Hjlt.
  pose proof (WF_nodup _ Hwf elm) as Hnd. rewrite Hkids in Hnd.
  assert (n ∉ before) as Hnb.
  { apply NoDup_app in Hnd as (_ & H & _). intros Hin. apply (H _ Hin).
    by left. }
  destruct h as [|h']; [lia|].
  assert (length d0 - j = S (length d0 - S j)) as Hsub by lia.
  rewrite Hsub, Nat.mul_succ_l in Hfuel.
  set (M := (length d0 - S j) * (length d0 + 2)) in *.
  assert (parent_of d n = Some elm) as Hpd
    by (by rewrite (proj1 (proj2 Hsame n))).
  assert (nextSibling d n = head after) as Hnext.
  { apply (nextSibling_middle d n elm before after); [done| |done].
    by rewrite (proj1 (proj2 (proj2 Hsame elm))). }
  set (g := fun x => callback x ;; ret tt).
  destruct (Hcb n c d) as (r & c1 & d1 & Hrun & Hr & Hsame1).
  assert (same_tree d0 d1) as Hsame01 by (by apply (same_tree_trans d0 d)).
  assert (parent_of d1 n = Some elm) as Hpd1
    by (by rewrite (proj1 (proj2 Hsame01 n))).
  (* the children of [n] *)
  assert (exists c2 d2,
            forEach (flat_map (subtree h' d0) (children_of d0 n)) g c1 d1
            = Ok (tt, c2, d2)
            /\ Dom.each f n callback c1 d1 = Ok (true, c2, d2)
            /\ same_tree d0 d2) as (c2 & d2 & Hkidsrun & Hinner & Hsame02).
  { destruct f as [|f2]; [lia|]. cbn [Dom.each]. rewrite bind_read.
    unfold firstChild. rewrite (proj1 (proj2 (proj2 Hsame01 n))).
    destruct (children_of d0 n) as [|k0 ks] eqn:Hnk; cbn [head].
    - exists c1, d1. split_conj; [done|by destruct f2|done].
    - pose proof (children_bound d0 n Hwf) as Hbound.
      rewrite Hnk in Hbound. cbn [length] in Hbound.
      apply (IH f2 ltac:(lia) n (S j) [] ks k0 h' c1 d1);
        [done|done| |lia|lia].
      simpl. assert (parent_of d0 k0 = Some n) as ->; [|done].
      apply (WF_child _ Hwf). rewrite Hnk. by left. }
  (* the siblings behind [n] *)
  assert (exists c3 d3,
            forEach (flat_map (subtree (S h') d0) after) g c2 d2
            = Ok (tt, c3, d3)
            /\ Dom.each_loop f elm callback (head after) c2 d2
               = Ok (true, c3, d3)
            /\ same_tree d0 d3) as (c3 & d3 & Hrestrun & Hrest & Hsame03).
  { destruct after as [|n' after'].
    - exists c2, d2. split_conj; [done|by destruct f|done].
    - cbn [head].
      apply (IH f ltac:(lia) elm j (before ++ [n]) after' n' (S h') c2 d2);
        [done| | | |lia].
      + rewrite Hkids. by rewrite <- app_assoc.
      + destruct j as [|j]; [by eexists|]. simpl in Hj |- *.
        rewrite Hp in Hj.
        assert (parent_of d0 n' = Some elm) as ->; [|done].
        apply (WF_child _ Hwf). rewrite Hkids. apply elem_of_app. right.
        right. by left.
      + rewrite Hsub, Nat.mul_succ_l. fold M. cbn [length] in Hfuel. lia. }
  exists c3, d3. split_conj; [| |done].
  - cbn [flat_map]. rewrite subtree_cons.
    change ((n :: flat_map (subtree h' d0) (children_of d0 n))
            ++ flat_map (subtree (S h') d0) after)
      with (n :: (flat_map (subtree h' d0) (children_of d0 n)
                  ++ flat_map (subtree (S h') d0) after)).
    cbn [forEach]. fold g.
    assert (g n c d = Ok (tt, c1, d1)) as Hg.
    { unfold g, bind. by rewrite Hrun. }
    rewrite (bind_Ok _ _ _ _ _ _ _ Hg).
    by apply (forEach_app_Ok _ _ g c1 d1 c2 d2).
  - cbn [Dom.each_loop].
    rewrite (bind_Ok _ _ _ _ _ _ _ (next_Boolean f n elm c d Hpd ltac:(lia))).
    rewrite Hnext. rewrite (bind_Ok _ _ _ _ _ _ _ Hrun).
    assert ((let* parent := read (fun d => parent_of d n) in
             let* inner := match parent with
                           | Some _ => Dom.each f n callback
                           | None => ret true
                           end in
             if negb inner then ret false
             else Dom.each_loop f elm callback (head after)) c1 d1
            = Ok (true, c3, d3)) as Hgo.
    { rewrite bind_read, Hpd1. by rewrite (bind_Ok _ _ _ _ _ _ _ Hinner). }
    destruct r as [[|]|]; [exact Hgo|done|exact Hgo].
Qed.

Lemma each_run (fuel : nat) (elm : NodeId) callback c d :
  WF d ->
  (length d + 2) * (length d + 2) <= fuel ->
  keeps_tree callback ->
  exists c' d',
    forEach (descendants d elm) (fun n => callback n ;; ret tt) c d
    = Ok (tt, c', d')
    /\ Dom.each fuel elm callback c d = Ok (true, c', d')
    /\ same_tree d d'.
Proof.
  intros Hwf Hfuel Hcb. unfold descendants.
  assert ((length d + 2) * (length d + 2)
          = length d * (length d + 2) + length d + length d + 4) as E by ring.
  rewrite E in Hfuel. clear E.
  destruct fuel as [|f]; [lia|]. cbn [Dom.each]. rewrite bind_read.
  unfold firstChild.
  destruct (children_of d elm) as [|k0 ks] eqn:Hkids; cbn [head].
  - exists c, d. split_conj; [done|by destruct f|apply same_tree_refl].
  - pose proof (children_bound d elm Hwf) as Hbound.
    rewrite Hkids in Hbound. cbn [length] in Hbound.
    apply (each_loop_visits callback d Hwf Hcb f elm 0 [] ks k0 (length d) c d);
      [apply same_tree_refl|done|by eexists| |lia].
    rewrite Nat.sub_0_r. set (M := length d * (length d + 2)) in *. lia.
Qed.

(** [Dom.each] with a callback that never stops the traversal and leaves
    the tree as it is, on a well-formed document with fuel for it: the
    traversal returns [true], and it has run the callback on every
    descendant of the element, once and in document order. *)
Theorem each_visits_the_descendants (fuel : nat) (elm : NodeId) callback c
  (d : Document) :
  wf d = true ->
  (length d + 2) * (length d + 2) <= fuel ->
  keeps_tree callback ->
  exists c' d',
    forEach (descendants d elm) (fun n => callback n ;; ret tt) c d
    = Ok (tt, c', d')
    /\ Dom.each fuel elm callback c d = Ok (true, c', d')
    /\ same_tree d d'.
Proof. intros Hwf%wf_WF. by apply each_run. Qed.

End EachVisits.

(** The traversal of [<p>a<em>b</em>c</p>] from the [p] calls the callback
    on the text, on the [em], on the text in it and on the last text. *)
Lemma each_visits_the_descendants_witness :
  Dom.each 49 0 (traced (fun _ => ret None)) (tt, []) WrapExample.doc
  = Ok (true, (tt, [(1, None); (2, None); (3, None); (4, None)]),
        WrapExample.doc).
Proof.
  destruct (each_visits_the_descendants 49 0 (traced (fun _ => ret None))
              (tt, []) WrapExample.doc)
    as (c' & d' & H1 & H2 & _); [reflexivity|vm_compute; lia| |].
  - intros n c d. exists None, (c.1, c.2 ++ [(n, None)]), d.
    split; [reflexivity|]. split; [done|]. by split.
  - rewrite H2. vm_compute in H1. by injection H1 as <- <-.
Defined.
(** ** The alignment commands: [clearAlign] and [alignElement] *)

Section Strings.

Lemma rev_onto_app s acc : Str.rev_onto s acc = Str.rev_onto s EmptyString +:+ acc.
Proof.
  revert acc. induction s as [|a s IH]; intros acc; simpl; [done|].
  rewrite (IH (String a acc)), (IH (String a EmptyString)).
  by rewrite append_assoc.
Qed.

Lemma rev_String a s : Str.rev (String a s) = Str.rev s +:+ String a EmptyString.
Proof. unfold Str.rev. simpl. apply rev_onto_app. Qed.

Lemma rev_append s1 s2 : Str.rev (s1 +:+ s2) = Str.rev s2 +:+ Str.rev s1.
Proof.
  induction s1 as [|a s1 IH].
  - change (EmptyString +:+ s2) with s2. by rewrite append_nil_r.
  - change (String a s1 +:+ s2) with (String a (s1 +:+ s2)).
    rewrite !rev_String, IH. by rewrite append_assoc.
Qed.

Lemma rev_involutive s : Str.rev (Str.rev s) = s.
Proof.
  induction s as [|a s IH]; [done|].
  rewrite rev_String, rev_append, IH. done.
Qed.

Lemma trimStart_keeps s a r :
  Str.is_space a = false ->
  exists s', Str.trimStart (s +:+ String a r) = s' +:+ String a r.
Proof.
  intros Ha. induction s as [|b s IH].
  - exists EmptyString. change (EmptyString +:+ String a r) with (String a r).
    simpl. by rewrite Ha.
  - change (String b s +:+ String a r) with (String b (s +:+ String a r)).
    simpl. destruct (Str.is_space b); [exact IH|].
    by exists (String b s).
Qed.

(** A string with a character that is no white space does not trim to
    nothing. *)
Lemma trim_not_blank s a r :
  Str.is_space a = false ->
  String.length (Str.trim (s +:+ String a r)) <> 0.
Proof.
  intros Ha. unfold Str.trim, Str.trimEnd.
  rewrite rev_append, rev_String, append_assoc.
  change (String a EmptyString +:+ Str.rev s) with (String a (Str.rev s)).
  destruct (trimStart_keeps (Str.rev r) a (Str.rev s) Ha) as [s1 ->].
  rewrite rev_append, rev_String, rev_involutive, append_assoc.
  change (String a EmptyString +:+ Str.rev s1) with (String a (Str.rev s1)).
  destruct (trimStart_keeps s a (Str.rev s1) Ha) as [s2 ->].
  destruct s2; done.
Qed.

Lemma css_text_not_blank l :
  l <> [] -> String.length (Str.trim (css_text l)) <> 0.
Proof.
  destruct l as [|[k v] l]; [done|]. intros _. simpl.
  change (k +:+ ":" +:+ v +:+ ";" +:+ css_text l)
    with (k +:+ String ":" (v +:+ ";" +:+ css_text l)).
  by apply trim_not_blank.
Qed.

End Strings.

Section Css.
Implicit Types (l : list (string * string)) (p q v : string).

Lemma css_lookup_update_other p q v l :
  p <> q -> css_lookup p (css_update q v l) = css_lookup p l.
Proof.
  intros Hne. induction l as [|[k w] l IH]; simpl.
  - destruct (bool_decide (v = EmptyString)); simpl; [done|].
    by rewrite bool_decide_eq_false_2 by congruence.
  - destruct (decide (k = q)) as [->|Hk].
    + rewrite bool_decide_eq_true_2 by done.
      rewrite (bool_decide_eq_false_2 (q = p)) by congruence.
      destruct (bool_decide (v = EmptyString)); simpl; [done|].
      by rewrite bool_decide_eq_false_2 by congruence.
    + rewrite (bool_decide_eq_false_2 (k = q)) by done. simpl.
      by rewrite IH.
Qed.

Lemma css_lookup_update_same q v l :
  v <> EmptyString -> css_lookup q (css_update q v l) = v.
Proof.
  intros Hv. induction l as [|[k w] l IH]; simpl.
  - rewrite bool_decide_eq_false_2 by done. simpl.
    by rewrite bool_decide_eq_true_2.
  - destruct (decide (k = q)) as [->|Hk].
    + rewrite bool_decide_eq_true_2 by done.
      rewrite bool_decide_eq_false_2 by done. simpl.
      by rewrite bool_decide_eq_true_2.
    + rewrite (bool_decide_eq_false_2 (k = q)) by done. simpl.
      by rewrite bool_decide_eq_false_2.
Qed.

Lemma css_lookup_absent q l : q ∉ l.*1 -> css_lookup q l = EmptyString.
Proof.
  induction l as [|[k w] l IH]; simpl; [done|].
  intros [Hk Hl]%not_elem_of_cons.
  rewrite bool_decide_eq_false_2 by congruence. by apply IH.
Qed.

Lemma css_lookup_update_clear q l :
  NoDup l.*1 -> css_lookup q (css_update q EmptyString l) = EmptyString.
Proof.
  induction l as [|[k w] l IH]; simpl; [done|].
  intros [Hk Hl]%NoDup_cons.
  destruct (decide (k = q)) as [->|Hne].
  - rewrite bool_decide_eq_true_2 by done. simpl. by apply css_lookup_absent.
  - rewrite (bool_decide_eq_false_2 (k = q)) by done. simpl.
    rewrite bool_decide_eq_false_2 by done. by apply IH.
Qed.

Lemma css_update_keys q v l x : x ∈ (css_update q v l).*1 -> x = q \/ x ∈ l.*1.
Proof.
  induction l as [|[k w] l IH]; simpl.
  - destruct (bool_decide (v = EmptyString)); simpl.
    + by intros ?%elem_of_nil.
    + intros ->%list_elem_of_singleton. by left.
  - destruct (bool_decide (k = q)) eqn:E.
    + destruct (bool_decide (v = EmptyString)); simpl.
      * intros H. right. by right.
      * rewrite !elem_of_cons. tauto.
    + simpl. rewrite !elem_of_cons. intros [->|H]; [tauto|].
      apply IH in H. tauto.
Qed.

Lemma NoDup_css_update q v l : NoDup l.*1 -> NoDup (css_update q v l).*1.
Proof.
  induction l as [|[k w] l IH]; simpl.
  - intros _. destruct (bool_decide (v = EmptyString)); simpl.
    + apply NoDup_nil_2.
    + apply NoDup_singleton.
  - intros [Hk Hl]%NoDup_cons.
    destruct (bool_decide (k = q)) eqn:E.
    + destruct (bool_decide (v = EmptyString)); simpl; [done|].
      by apply NoDup_cons.
    + simpl. apply NoDup_cons. split; [|by apply IH].
      intros [->|H]%css_update_keys; [|done].
      by rewrite bool_decide_eq_true_2 in E.
Qed.

End Css.

Section Restyle.
Implicit Types (d : Document) (x y : NodeId)
  (F : list (string * string) -> list (string * string)).

Lemma restyle_alter d x F :
  restyle_spec d (alter (fun nd => with_style (F (style nd)) nd) x d) x F.
Proof.
  set (d' := alter _ x d).
  assert (forall y, y <> x -> d' !! y = d !! y) as Hne.
  { intros y Hy. unfold d'. by rewrite list_lookup_alter_ne. }
  assert (d' !! x = (fun nd => with_style (F (style nd)) nd) <$> d !! x) as Hx.
  { unfold d'. by rewrite list_lookup_alter_eq. }
  split; [|split; [|split]].
  - split; [apply length_alter|]. intros y.
    unfold parent_of, children_of, type_of.
    destruct (decide (y = x)) as [->|Hy]; [|by rewrite Hne].
    rewrite Hx. by destruct (d !! x).
  - intros y. unfold name_of, value_of, attributes_of.
    destruct (decide (y = x)) as [->|Hy]; [|by rewrite Hne].
    rewrite Hx. by destruct (d !! x).
  - done.
  - unfold style_of. rewrite Hx. by destruct (d !! x).
Qed.

Lemma styles_ok_spec d :
  Justify.styles_ok d = true <-> forall y, NoDup (style_of d y).*1.
Proof.
  unfold Justify.styles_ok. rewrite forallb_forall. split.
  - intros H y. unfold style_of. destruct (d !! y) as [nd|] eqn:E; simpl.
    + eapply bool_decide_eq_true_1. apply H. apply list_elem_of_In.
      by eapply list_elem_of_lookup_2.
    + apply NoDup_nil_2.
  - intros H nd Hin. apply list_elem_of_In in Hin.
    apply list_elem_of_lookup in Hin as [y Hy].
    apply bool_decide_eq_true_2. specialize (H y). unfold style_of in H.
    by rewrite Hy in H.
Qed.

End Restyle.

Section Align.
Context {C : Type}.
Implicit Types (d : Document) (x y box : NodeId) (c : C) (X : list NodeId).

Lemma style_of_same d d' y : d' !! y = d !! y -> style_of d' y = style_of d y.
Proof. intros H. unfold style_of. by rewrite H. Qed.

Lemma alignment_cleared_refl d :
  Justify.styles_ok d = true -> alignment_cleared d d [].
Proof.
  intros Hok. split; [apply same_tree_refl|]. split_conj; try done.
  - by right.
  - intros y Hy. by apply elem_of_nil in Hy.
Qed.

Lemma alignment_cleared_trans d d1 d2 X1 X2 :
  alignment_cleared d d1 X1 -> alignment_cleared d1 d2 X2 ->
  alignment_cleared d d2 (X1 ++ X2).
Proof.
  intros (A1 & A2 & A3 & A4 & A5 & A6 & A7) (B1 & B2 & B3 & B4 & B5 & B6 & B7).
  split; [by apply (same_tree_trans d d1)|]. split_conj.
  - intros y. destruct (A2 y) as (? & ? & ?), (B2 y) as (? & ? & ?).
    split_conj; congruence.
  - intros y p Hp. by rewrite B3, A3.
  - intros y [H1 H2]%not_elem_of_app. by rewrite B4, A4.
  - intros y. destruct (B5 y) as [H|H]; [by left|]. rewrite H. apply A5.
  - done.
  - intros y [Hy|Hy]%elem_of_app Ht.
    + destruct (B5 y) as [H|H]; [done|]. rewrite H. by apply A7.
    + apply B7; [done|]. by rewrite (proj2 (proj2 (proj2 A1 y))).
Qed.

(** One call of the callback of [clearAlign]. *)
Lemma clearAlign_callback_run x c d :
  exists d',
    Justify.clearAlign_callback x c d = Ok (None, c, d')
    /\ same_tree d d'
    /\ (Justify.styles_ok d = true -> alignment_cleared d d' [x]).
Proof.
  unfold Justify.clearAlign_callback. rewrite bind_read.
  destruct (Dom.isHTMLElement d (Some x)) eqn:Hhtml.
  2:{ exists d. split_conj; [done|apply same_tree_refl|].
      intros Hok. destruct (alignment_cleared_refl d Hok)
        as (A1 & A2 & A3 & A4 & A5 & A6 & A7).
      split; [done|]. split_conj; try done.
      intros y ->%list_elem_of_singleton Ht.
      unfold Dom.isHTMLElement, Dom.isNode, Dom.isElement in Hhtml.
      rewrite (bool_decide_eq_true_2 _ Ht) in Hhtml.
      rewrite bool_decide_eq_true_2 in Hhtml; [done|].
      by apply (type_of_is_Some d x ELEMENT_NODE). }
  rewrite bind_read.
  destruct (decide (Justify.textAlign d x = EmptyString)) as [Hta|Hta].
  { rewrite bool_decide_eq_true_2 by done. simpl.
    exists d. split_conj; [done|apply same_tree_refl|].
    intros Hok. destruct (alignment_cleared_refl d Hok)
      as (A1 & A2 & A3 & A4 & A5 & A6 & A7).
    split; [done|]. split_conj; try done.
    by intros y ->%list_elem_of_singleton _. }
  rewrite bool_decide_eq_false_2 by done. simpl.
  unfold Justify.set_textAlign. rewrite bind_write.
  set (F := css_update "text-align" EmptyString).
  set (d1 := alter (fun nd => with_style (F (style nd)) nd) x d).
  destruct (restyle_alter d x F) as (R1 & R2 & R3 & R4). fold d1 in R1, R2, R3, R4.
  assert (is_Some (d !! x)) as [nd Hnd].
  { unfold Dom.isHTMLElement, Dom.isNode in Hhtml.
    apply andb_true_iff in Hhtml as [H _]. by apply bool_decide_eq_true in H. }
  rewrite Hnd in R4.
  rewrite bind_read.
  assert (exists d2, (if (String.length (Str.trim (css_text (style_of d1 x))) =? 0)%nat
                      then Justify.remove_style x ;; ret None
                      else ret None) c d1 = Ok (None, c, d2) /\ d2 = d1)
    as (d2 & -> & ->).
  { destruct (Nat.eqb_spec (String.length (Str.trim (css_text (style_of d1 x)))) 0)
      as [E|E]; [|by exists d1].
    eexists. split; [reflexivity|].
    assert (style_of d1 x = []) as Hnil.
    { destruct (style_of d1 x) eqn:E'; [done|].
      by apply css_text_not_blank in E. }
    apply list_eq. intros i. destruct (decide (i = x)) as [->|Hi].
    - rewrite list_lookup_alter_eq. unfold style_of in Hnil.
      destruct (d1 !! x) as [[]|]; simpl in *; [|done]. by subst.
    - by rewrite list_lookup_alter_ne. }
  exists d1. split_conj; [done|done|].
  intros Hok. pose proof (proj1 (styles_ok_spec d) Hok) as Hnodup.
  assert (Justify.textAlign d1 x = EmptyString) as Hclear.
  { unfold Justify.textAlign. rewrite R4. apply css_lookup_update_clear.
    apply Hnodup. }
  split; [done|]. split_conj.
  - done.
  - intros y p Hp. unfold css_get. destruct (decide (y = x)) as [->|Hy].
    + rewrite R4. by apply css_lookup_update_other.
    + by rewrite (style_of_same d d1 y (R3 y Hy)).
  - intros y Hy. apply R3. intros ->. apply Hy. by left.
  - intros y. destruct (decide (y = x)) as [->|Hy]; [by left|].
    right. unfold Justify.textAlign.
    by rewrite (style_of_same d d1 y (R3 y Hy)).
  - apply styles_ok_spec. intros y. destruct (decide (y = x)) as [->|Hy].
    + rewrite R4. apply NoDup_css_update, Hnodup.
    + rewrite (style_of_same d d1 y (R3 y Hy)). apply Hnodup.
  - by intros y ->%list_elem_of_singleton _.
Qed.

Lemma clearAlign_keeps_tree :
  keeps_tree (C := C) Justify.clearAlign_callback.
Proof.
  intros n c d. destruct (clearAlign_callback_run n c d) as (d' & H1 & H2 & _).
  by exists None, c, d'.
Qed.

Lemma forEach_clearAlign l :
  forall c d,
    Justify.styles_ok d = true ->
    exists d',
      forEach l (fun n => Justify.clearAlign_callback n ;; ret tt) c d
      = Ok (tt, c, d')
      /\ alignment_cleared d d' l.
Proof.
  induction l as [|x l IH]; intros c d Hok.
  - exists d. split; [done|]. by apply alignment_cleared_refl.
  - destruct (clearAlign_callback_run x c d) as (d1 & H1 & _ & H2).
    specialize (H2 Hok).
    destruct (IH c d1) as (d' & H3 & H4); [apply H2|].
    exists d'. split.
    + simpl. unfold bind at 1 2. rewrite H1. exact H3.
    + by apply (alignment_cleared_trans d d1 d' [x] l).
Qed.

Lemma elem_of_subtree d h :
  WF d -> forall n x, x ∈ subtree h d n -> exists k, nth_parent k d x = Some n.
Proof.
  intros Hwf. induction h as [|h IH]; intros n x; simpl.
  - intros ->%list_elem_of_singleton. by exists 0.
  - intros [->|Hx]%elem_of_cons; [by exists 0|].
    apply list_elem_of_In, in_flat_map in Hx as (k0 & Hk0 & Hx).
    apply list_elem_of_In in Hk0, Hx.
    destruct (IH k0 x Hx) as [k Hk]. exists (S k).
    rewrite nth_parent_S_r, Hk. simpl. by apply (WF_child _ Hwf).
Qed.

Lemma elem_of_descendants d n x :
  WF d -> x ∈ descendants d n -> exists k, nth_parent (S k) d x = Some n.
Proof.
  intros Hwf Hx. unfold descendants in Hx.
  apply list_elem_of_In, in_flat_map in Hx as (k0 & Hk0 & Hx).
  apply list_elem_of_In in Hk0, Hx.
  destruct (elem_of_subtree d _ Hwf k0 x Hx) as [k Hk]. exists k.
  rewrite nth_parent_S_r, Hk. simpl. by apply (WF_child _ Hwf).
Qed.

Lemma alignElement_run (fuel : nat) (command : string)
  (box : NodeId) (c : C) (d : Document) :
  WF d ->
  Justify.styles_ok d = true ->
  (length d + 2) * (length d + 2) <= fuel ->
  (type_of d box <> Some ELEMENT_NODE ->
     Justify.alignElement fuel command box c d = Ok (tt, c, d))
  /\ (type_of d box = Some ELEMENT_NODE ->
      exists d',
        Justify.alignElement fuel command box c d = Ok (tt, c, d')
        /\ same_tree d d'
        /\ (forall value,
              (Str.toLowerCase command, value) ∈ Justify.alignments ->
              Justify.textAlign d' box = value)
        /\ (Str.toLowerCase command ∉ Justify.alignments.*1 ->
              Justify.textAlign d' box = Justify.textAlign d box)
        /\ (forall x, x ∈ descendants d box ->
              type_of d x = Some ELEMENT_NODE ->
              Justify.textAlign d' x = EmptyString)
        /\ (forall x property, property <> "text-align"%string ->
              css_get d' x property = css_get d x property)
        /\ (forall x, x <> box -> x ∉ descendants d box -> d' !! x = d !! x)
        /\ (forall x, name_of d' x = name_of d x
                      /\ value_of d' x = value_of d x
                      /\ attributes_of d' x = attributes_of d x)).
Proof.
  intros Hwf Hok Hfuel. split.
  { intros Ht. unfold Justify.alignElement. rewrite bind_read.
    unfold Dom.isElement. rewrite (bool_decide_eq_false_2 _ Ht).
    by rewrite andb_false_r. }
  intros Ht.
  assert (is_Some (d !! box)) as Hbox
    by (by apply (type_of_is_Some d box ELEMENT_NODE)).
  destruct (each_run fuel box Justify.clearAlign_callback c d Hwf Hfuel
              clearAlign_keeps_tree) as (c1 & d1 & Hrun & Heach & _).
  destruct (forEach_clearAlign (descendants d box) c d Hok)
    as (d1' & Hrun' & Hcl).
  rewrite Hrun in Hrun'. injection Hrun' as -> ->.
  destruct Hcl as (A1 & A2 & A3 & A4 & A5 & A6 & A7).
  assert (box ∉ descendants d box) as Hnot.
  { intros Hin. apply (elem_of_descendants d box box Hwf) in Hin as [k Hk].
    by apply WF_no_cycle in Hk. }
  assert (d1' !! box = d !! box) as Hsame by (by apply A4).
  set (cmd := Str.toLowerCase command).
  assert (forall v, v <> EmptyString ->
            exists d',
              Justify.set_textAlign box v c d1' = Ok (tt, c, d')
              /\ same_tree d d'
              /\ Justify.textAlign d' box = v
              /\ (forall x, x <> box -> d' !! x = d1' !! x)
              /\ (forall x property, property <> "text-align"%string ->
                    css_get d' x property = css_get d x property)
              /\ (forall x, name_of d' x = name_of d x
                            /\ value_of d' x = value_of d x
                            /\ attributes_of d' x = attributes_of d x))
    as Hset.
  { intros v Hv. eexists. split; [reflexivity|].
    destruct (restyle_alter d1' box (css_update "text-align" v))
      as (R1 & R2 & R3 & R4).
    destruct Hbox as [nd Hnd]. rewrite Hsame, Hnd in R4.
    split_conj.
    - by apply (same_tree_trans d d1').
    - unfold Justify.textAlign. rewrite R4. by apply css_lookup_update_same.
    - done.
    - intros x p Hp. unfold css_get. destruct (decide (x = box)) as [->|Hx].
      + rewrite R4. rewrite css_lookup_update_other by done. by apply A3.
      + rewrite (style_of_same _ _ x (R3 x Hx)). by apply A3.
    - intros x. destruct (R2 x) as (? & ? & ?), (A2 x) as (? & ? & ?).
      split_conj; congruence. }
  assert (Justify.alignElement fuel command box c d
          = (if bool_decide (cmd = "justifyfull"%string)
             then Justify.set_textAlign box "justify"
             else if bool_decide (cmd = "justifyright"%string)
             then Justify.set_textAlign box "right"
             else if bool_decide (cmd = "justifyleft"%string)
             then Justify.set_textAlign box "left"
             else if bool_decide (cmd = "justifycenter"%string)
             then Justify.set_textAlign box "center"
             else ret tt) c d1') as Hgo.
  { unfold Justify.alignElement. rewrite bind_read.
    unfold Dom.isNode, Dom.isElement.
    rewrite (bool_decide_eq_true_2 _ Hbox), (bool_decide_eq_true_2 _ Ht).
    simpl. unfold Justify.clearAlign. unfold bind at 1 2. by rewrite Heach. }
  rewrite Hgo. unfold Justify.alignments.
  assert (forall v,
            v <> EmptyString ->
            (forall value, (cmd, value) ∈ Justify.alignments -> value = v) ->
            cmd ∈ Justify.alignments.*1 ->
            exists d',
              Justify.set_textAlign box v c d1' = Ok (tt, c, d')
              /\ same_tree d d'
              /\ (forall value, (cmd, value) ∈ Justify.alignments ->
                    Justify.textAlign d' box = value)
              /\ (cmd ∉ Justify.alignments.*1 ->
                    Justify.textAlign d' box = Justify.textAlign d box)
              /\ (forall x, x ∈ descendants d box ->
                    type_of d x = Some ELEMENT_NODE ->
                    Justify.textAlign d' x = EmptyString)
              /\ (forall x property, property <> "text-align"%string ->
                    css_get d' x property = css_get d x property)
              /\ (forall x, x <> box -> x ∉ descendants d box ->
                    d' !! x = d !! x)
              /\ (forall x, name_of d' x = name_of d x
                            /\ value_of d' x = value_of d x
                            /\ attributes_of d' x = attributes_of d x))
    as Hcase.
  { intros v Hv Hval Hin.
    destruct (Hset v Hv) as (d' & S1 & S2 & S3 & S4 & S5 & S6).
    exists d'. split_conj; try done.
    - intros value Hvalue. by rewrite (Hval value Hvalue).
    - intros x Hx Hxt. unfold Justify.textAlign.
      rewrite (style_of_same _ _ x (S4 x ltac:(by intros ->))).
      by apply A7.
    - intros x Hx1 Hx2. rewrite S4 by done. by apply A4. }
  destruct (decide (cmd = "justifyfull"%string)) as [E|E1].
  { rewrite bool_decide_eq_true_2 by done. apply Hcase; [done| |].
    - rewrite E. intros value Hin. apply list_elem_of_In in Hin.
      simpl in Hin. intuition congruence.
    - rewrite E. apply list_elem_of_In. simpl. tauto. }
  rewrite bool_decide_eq_false_2 by done.
  destruct (decide (cmd = "justifyright"%string)) as [E|E2].
  { rewrite bool_decide_eq_true_2 by done. apply Hcase; [done| |].
    - rewrite E. intros value Hin. apply list_elem_of_In in Hin.
      simpl in Hin. intuition congruence.
    - rewrite E. apply list_elem_of_In. simpl. tauto. }
  rewrite bool_decide_eq_false_2 by done.
  destruct (decide (cmd = "justifyleft"%string)) as [E|E3].
  { rewrite bool_decide_eq_true_2 by done. apply Hcase; [done| |].
    - rewrite E. intros value Hin. apply list_elem_of_In in Hin.
      simpl in Hin. intuition congruence.
    - rewrite E. apply list_elem_of_In. simpl. tauto. }
  rewrite bool_decide_eq_false_2 by done.
  destruct (decide (cmd = "justifycenter"%string)) as [E|E4].
  { rewrite bool_decide_eq_true_2 by done. apply Hcase; [done| |].
    - rewrite E. intros value Hin. apply list_elem_of_In in Hin.
      simpl in Hin. intuition congruence.
    - rewrite E. apply list_elem_of_In. simpl. tauto. }
  rewrite bool_decide_eq_false_2 by done.
  exists d1'. split_conj; try done.
  - intros value Hin. apply list_elem_of_In in Hin. simpl in Hin.
    exfalso. intuition congruence.
  - intros _. unfold Justify.textAlign. by rewrite (style_of_same _ _ _ Hsame).
  - intros x Hx1 Hx2. by apply A4.
Qed.

(** [alignElement] on a well-formed document, with fuel for it.  A box that
    is no element is left alone.  Otherwise the elements below the box
    lose their alignment and the box gets the one that the command asks
    for, or keeps its own when the command is none of the four; the tree,
    the other properties and the nodes that are not below the box stay as
    they are. *)
Theorem alignElement_aligns_the_box (fuel : nat) (command : string)
  (box : NodeId) (c : C) (d : Document) :
  wf d = true ->
  Justify.styles_ok d = true ->
  (length d + 2) * (length d + 2) <= fuel ->
  (type_of d box <> Some ELEMENT_NODE ->
     Justify.alignElement fuel command box c d = Ok (tt, c, d))
  /\ (type_of d box = Some ELEMENT_NODE ->
      exists d',
        Justify.alignElement fuel command box c d = Ok (tt, c, d')
        /\ same_tree d d'
        /\ (forall value,
              (Str.toLowerCase command, value) ∈ Justify.alignments ->
              Justify.textAlign d' box = value)
        /\ (Str.toLowerCase command ∉ Justify.alignments.*1 ->
              Justify.textAlign d' box = Justify.textAlign d box)
        /\ (forall x, x ∈ descendants d box ->
              type_of d x = Some ELEMENT_NODE ->
              Justify.textAlign d' x = EmptyString)
        /\ (forall x property, property <> "text-align"%string ->
              css_get d' x property = css_get d x property)
        /\ (forall x, x <> box -> x ∉ descendants d box -> d' !! x = d !! x)
        /\ (forall x, name_of d' x = name_of d x
                      /\ value_of d' x = value_of d x
                      /\ attributes_of d' x = attributes_of d x)).
Proof. intros Hwf%wf_WF. by apply alignElement_run. Qed.

End Align.

(** Aligning the [div] of the example to the right takes the alignment
    from the [p] and the [span] in it. *)
Lemma alignElement_aligns_the_box_witness :
  exists d',
    Justify.alignElement 49 "justifyRight" 0 tt AlignExample.doc
    = Ok (tt, tt, d')
    /\ Justify.textAlign d' 0 = "right"%string
    /\ outerHTML d' 0
       = ("<div style='text-align:right;'><p style='color:red;'>a" +:+
          "<span>b</span></p></div>")%string.
Proof.
  destruct (proj2 (alignElement_aligns_the_box 49 "justifyRight" 0 tt
                     AlignExample.doc eq_refl eq_refl ltac:(vm_compute; lia))
              eq_refl)
    as (d' & H1 & _ & H2 & _).
  exists d'. split; [exact H1|]. split.
  - apply H2. vm_compute. set_solver.
  - vm_compute in H1. injection H1 as <-. reflexivity.
Defined.
(** ** Wrapping a run of inline siblings: [Dom.wrapInline] *)

Section Siblings.
Implicit Types (d : Document) (n p : NodeId) (pre post l : list NodeId).

Lemma before_in_notin n l : n ∉ l -> before_in n l = None.
Proof.
  induction l as [|x l IH]; [done|]. intros [Hx Hl]%not_elem_of_cons.
  simpl. destruct l as [|y l]; [done|].
  apply not_elem_of_cons in Hl as [Hy Hl'].
  rewrite decide_False by congruence. apply IH.
  by apply not_elem_of_cons.
Qed.

Lemma before_in_middle n pre post :
  n ∉ pre -> n ∉ post -> before_in n (pre ++ n :: post) = last pre.
Proof.
  intros Hpre Hpost. induction pre as [|x pre IH]; simpl.
  - destruct post as [|y post]; [done|].
    apply not_elem_of_cons in Hpost as [Hy Hpost].
    rewrite decide_False by congruence.
    apply before_in_notin. by apply not_elem_of_cons.
  - apply not_elem_of_cons in Hpre as [Hx Hpre].
    destruct pre as [|y pre]; simpl.
    + by rewrite decide_True.
    + apply not_elem_of_cons in Hpre as [Hy Hpre].
      rewrite decide_False by congruence.
      rewrite <- (IH ltac:(by apply not_elem_of_cons)). done.
Qed.

Lemma previousSibling_middle d n p pre post :
  WF d -> children_of d p = pre ++ n :: post ->
  previousSibling d n = last pre.
Proof.
  intros Hwf Hkids.
  assert (parent_of d n = Some p) as Hp.
  { apply (WF_child _ Hwf). rewrite Hkids. apply elem_of_app. right. by left. }
  pose proof (WF_nodup _ Hwf p) as Hnd. rewrite Hkids in Hnd.
  apply NoDup_app in Hnd as (_ & H1 & H2). apply NoDup_cons in H2 as [H2 _].
  unfold previousSibling. rewrite Hp. simpl. rewrite Hkids.
  apply before_in_middle; [|done]. intros Hin. apply (H1 _ Hin). by left.
Qed.

Lemma nextSibling_middle_WF d n p pre post :
  WF d -> children_of d p = pre ++ n :: post ->
  nextSibling d n = head post.
Proof.
  intros Hwf Hkids.
  assert (parent_of d n = Some p) as Hp.
  { apply (WF_child _ Hwf). rewrite Hkids. apply elem_of_app. right. by left. }
  pose proof (WF_nodup _ Hwf p) as Hnd. rewrite Hkids in Hnd.
  apply NoDup_app in Hnd as (_ & H1 & _).
  apply (nextSibling_middle d n p pre post); [done|done|].
  intros Hin. apply (H1 _ Hin). by left.
Qed.

End Siblings.

Section WrapInline.
Context {C : Type}.
Implicit Types (d : Document) (n p e k wrapper : NodeId) (c : C)
  (pre post left right rest ks a b u : list NodeId).

(** The first loop: the edge moves to the left over the inline siblings. *)
Lemma wrapInline_edge_left c d p pre :
  WF d ->
  match last pre with
  | Some b => Dom.isBlock d (Some b) = true
  | None => True
  end ->
  forall left fuel e rest,
    children_of d p = pre ++ left ++ e :: rest ->
    (forall x, x ∈ left -> Dom.isBlock d (Some x) = false) ->
    length left < fuel ->
    Dom.wrapInline_edge fuel PpreviousSibling e c d
    = Ok (default e (head left), c, d).
Proof.
  intros Hwf Hstop. induction left as [|y l IH] using rev_ind;
    intros fuel e rest Hkids Hinline Hfuel.
  - destruct fuel as [|f]; [simpl in Hfuel; lia|]. simpl.
    rewrite bind_read.
    rewrite (previousSibling_middle d e p pre rest Hwf Hkids).
    destruct (last pre) as [t|]; [|done].
    rewrite bind_read, Hstop. done.
  - destruct fuel as [|f]; [simpl in Hfuel; lia|].
    rewrite length_app in Hfuel. simpl in Hfuel. simpl.
    rewrite bind_read.
    assert (children_of d p = (pre ++ l ++ [y]) ++ e :: rest) as Hkids'.
    { rewrite Hkids. by rewrite <- !app_assoc. }
    rewrite (previousSibling_middle d e p _ rest Hwf Hkids').
    rewrite app_assoc, last_snoc. rewrite bind_read.
    rewrite Hinline by (apply elem_of_app; right; by left). simpl.
    rewrite (IH f y (e :: rest)); [| |intros x Hx; apply Hinline|lia].
    + destruct l; done.
    + rewrite Hkids. by rewrite <- !app_assoc.
    + apply elem_of_app. by left.
Qed.

(** The second loop: the edge moves to the right. *)
Lemma wrapInline_edge_right c d p post :
  WF d ->
  match head post with
  | Some b => Dom.isBlock d (Some b) = true
  | None => True
  end ->
  forall right fuel e a,
    children_of d p = a ++ e :: right ++ post ->
    (forall x, x ∈ right -> Dom.isBlock d (Some x) = false) ->
    length right < fuel ->
    Dom.wrapInline_edge fuel PnextSibling e c d
    = Ok (default e (last right), c, d).
Proof.
  intros Hwf Hstop. induction right as [|y r IH];
    intros fuel e a Hkids Hinline Hfuel.
  - destruct fuel as [|f]; [simpl in Hfuel; lia|]. simpl.
    rewrite bind_read.
    rewrite (nextSibling_middle_WF d e p a post Hwf Hkids).
    destruct (head post) as [t|]; [|done].
    rewrite bind_read, Hstop. done.
  - destruct fuel as [|f]; [simpl in Hfuel; lia|]. simpl in Hfuel. simpl.
    rewrite bind_read.
    rewrite (nextSibling_middle_WF d e p a _ Hwf Hkids). cbn [app head].
    rewrite bind_read.
    rewrite Hinline by (by left). cbn [negb].
    rewrite (IH f y (a ++ [e])); [| |intros x Hx; apply Hinline|lia].
    + rewrite last_cons. by destruct (last r).
    + rewrite Hkids. by rewrite <- !app_assoc.
    + by right.
Qed.

(** The last loop: the run [k :: ks] moves into the wrapper. *)
Lemma wrapInline_move_run c p wrapper :
  forall ks fuel d a b u k,
    WF d ->
    children_of d p = a ++ (k :: ks) ++ b ->
    children_of d wrapper = u ->
    parent_of d wrapper = Some p ->
    wrapper ∉ k :: ks ->
    type_of d wrapper <> Some TEXT_NODE ->
    length ks < fuel ->
    exists d',
      Dom.wrapInline_move fuel wrapper k (default k (last ks)) c d
      = Ok (tt, c, d')
      /\ WF d'
      /\ length d' = length d
      /\ (forall x, data_of d' x = data_of d x)
      /\ children_of d' p = a ++ b
      /\ children_of d' wrapper = u ++ k :: ks
      /\ (forall q, q <> p -> q <> wrapper ->
            children_of d' q = children_of d q)
      /\ (forall x, x ∈ k :: ks -> parent_of d' x = Some wrapper)
      /\ (forall x, x ∉ k :: ks -> parent_of d' x = parent_of d x).
Proof.
  induction ks as [|k2 ks IH];
    intros fuel d a b u k Hwf Hkids Hu Hpw Hnotin Htext Hfuel.
  - destruct fuel as [|f]; [simpl in Hfuel; lia|].
    (* facts about the step *)
    assert (k ∈ children_of d p) as Hkin.
    { rewrite Hkids. apply elem_of_app. right. by left. }
    pose proof (WF_child _ Hwf _ _ Hkin) as Hkp.
    pose proof (WF_nodup _ Hwf p) as Hnd. rewrite Hkids in Hnd.
    assert (wrapper <> p) as Hwp.
    { intros ->. assert (nth_parent 1 d p = Some p) as Hc
        by (simpl; by rewrite Hpw).
      by apply WF_no_cycle in Hc. }
    assert (k <> wrapper) as Hkw by (intros ->; apply Hnotin; by left).
    assert (~ ancestor_or_self d k wrapper) as Habove.
    { intros H. apply ancestor_or_self_inv in H as [->|(q & Hq & H)]; [done|].
      rewrite Hpw in Hq. injection Hq as <-.
      by apply (WF_child_not_above d k p Hwf). }
    assert (is_Some (d !! k)) as Hks by (by eapply parent_of_Some_lookup).
    assert (is_Some (d !! wrapper)) as Hws
      by (by eapply parent_of_Some_lookup).
    assert (type_of d k <> Some DOCUMENT_FRAGMENT_NODE) as Hfrag.
    { intros E. apply (WF_fragment _ Hwf) in E. congruence. }
    assert (k ∉ u) as Hku.
    { intros Hin. rewrite <- Hu in Hin. apply (WF_child _ Hwf) in Hin.
      congruence. }
    destruct (insert_node c d wrapper k None u [] Hwf Hks Hfrag Hws Htext
                Habove)
      as (Hvalid & G1 & G2 & G3 & G4 & G5 & G6).
    { simpl. split; [|done]. rewrite Hu. by apply remove_id_notin. }
    exists (insert_one wrapper None d k). split_conj.
    + assert (appendChild wrapper k c d
              = Ok (k, c, insert_one wrapper None d k)) as Happend.
      { unfold appendChild, insertBefore. rewrite bind_read, Hvalid.
        rewrite bind_write. by rewrite pre_insert_node. }
      simpl. rewrite bind_read. rewrite (bind_Ok _ _ _ _ _ _ _ Happend).
      destruct (nextSibling d k); [|done].
      by rewrite bool_decide_eq_true_2.
    + done.
    + done.
    + done.
    + rewrite G5 by done. rewrite Hkids. simpl.
      apply remove_id_middle.
      * apply NoDup_app in Hnd as (_ & H & _). intros Hin. apply (H _ Hin).
        by left.
      * apply NoDup_app in Hnd as (_ & _ & H).
        by apply NoDup_cons in H as [? _].
    + by rewrite G4.
    + intros q Hq1 Hq2. rewrite G5 by done. apply remove_id_notin.
      intros Hin. apply (WF_child _ Hwf) in Hin. congruence.
    + intros x ->%list_elem_of_singleton. by rewrite G6, decide_True.
    + intros x Hx. rewrite G6, decide_False; [done|].
      intros ->. apply Hx. by left.
  - destruct fuel as [|f]; [simpl in Hfuel; lia|]. simpl in Hfuel.
    assert (k ∈ children_of d p) as Hkin.
    { rewrite Hkids. apply elem_of_app. right. by left. }
    pose proof (WF_child _ Hwf _ _ Hkin) as Hkp.
    pose proof (WF_nodup _ Hwf p) as Hnd. rewrite Hkids in Hnd.
    assert ((k ∉ a) /\ (k ∉ k2 :: ks) /\ (k ∉ b)) as (Hka & Hkks & Hkb).
    { apply NoDup_app in Hnd as (_ & Ha & Hnd).
      simpl in Hnd. apply NoDup_cons in Hnd as [Hk' _].
      change (k2 :: ks ++ b) with ((k2 :: ks) ++ b) in Hk'.
      rewrite not_elem_of_app in Hk'. destruct Hk' as [H1 H2].
      split; [|done]. intros H. apply (Ha _ H). by left. }
    assert (wrapper <> p) as Hwp.
    { intros ->. assert (nth_parent 1 d p = Some p) as Hc
        by (simpl; by rewrite Hpw).
      by apply WF_no_cycle in Hc. }
    assert (k <> wrapper) as Hkw by (intros ->; apply Hnotin; by left).
    assert (~ ancestor_or_self d k wrapper) as Habove.
    { intros H. apply ancestor_or_self_inv in H as [->|(q & Hq & H)]; [done|].
      rewrite Hpw in Hq. injection Hq as <-.
      by apply (WF_child_not_above d k p Hwf). }
    assert (is_Some (d !! k)) as Hks by (by eapply parent_of_Some_lookup).
    assert (is_Some (d !! wrapper)) as Hws
      by (by eapply parent_of_Some_lookup).
    assert (type_of d k <> Some DOCUMENT_FRAGMENT_NODE) as Hfrag.
    { intros E. apply (WF_fragment _ Hwf) in E. congruence. }
    assert (k ∉ u) as Hku.
    { intros Hin. rewrite <- Hu in Hin. apply (WF_child _ Hwf) in Hin.
      congruence. }
    destruct (insert_node c d wrapper k None u [] Hwf Hks Hfrag Hws Htext
                Habove)
      as (Hvalid & G1 & G2 & G3 & G4 & G5 & G6).
    { simpl. split; [|done]. rewrite Hu. by apply remove_id_notin. }
    set (d1 := insert_one wrapper None d k) in *.
    assert (children_of d1 p = a ++ (k2 :: ks) ++ b) as Hkids1.
    { rewrite G5 by done. rewrite Hkids.
      change ((k :: k2 :: ks) ++ b) with (k :: ((k2 :: ks) ++ b)).
      apply remove_id_middle; [done|]. by rewrite not_elem_of_app. }
    destruct (IH f d1 a b (u ++ [k]) k2)
      as (d' & Hrun & Hwf' & Hlen' & Hdata' & Hp' & Hw' & Hoth' & Hin'
          & Hout');
      [exact G1|exact Hkids1|by rewrite G4|rewrite G6, decide_False; done
      |intros H; apply Hnotin; by right|by rewrite (data_of_type d d1)|lia|].
    exists d'. split_conj.
    + simpl. rewrite bind_read.
      rewrite (nextSibling_middle_WF d k p a ((k2 :: ks) ++ b) Hwf Hkids).
      cbn [app head].
      assert (appendChild wrapper k c d = Ok (k, c, d1)) as Happend.
      { unfold appendChild, insertBefore. rewrite bind_read, Hvalid.
        rewrite bind_write. by rewrite pre_insert_node. }
      rewrite (bind_Ok _ _ _ _ _ _ _ Happend).
      assert (default k (last (k2 :: ks)) = default k2 (last ks)) as Hlast.
      { rewrite last_cons. by destruct (last ks). }
      rewrite Hlast.
      rewrite bool_decide_eq_false_2; [exact Hrun|].
      intros Heq. apply Hkks. rewrite Heq.
      destruct (last ks) as [z|] eqn:E; simpl; [|by left].
      right. apply last_Some in E as [l' ->]. apply elem_of_app. right.
      by left.
    + done.
    + by rewrite Hlen'.
    + intros x. by rewrite Hdata'.
    + done.
    + rewrite Hw'. by rewrite <- app_assoc.
    + intros q Hq1 Hq2. rewrite Hoth' by done. rewrite G5 by done.
      apply remove_id_notin. intros Hin. apply (WF_child _ Hwf) in Hin.
      congruence.
    + intros x [->|Hx]%elem_of_cons; [|by apply Hin'].
      rewrite Hout' by done. by rewrite G6, decide_True.
    + intros x [Hx1 Hx2]%not_elem_of_cons. rewrite Hout' by done.
      by rewrite G6, decide_False.
Qed.

End WrapInline.

Section WrapInlineRun.
Implicit Types (d : Document) (n p current : NodeId)
  (pre post left right : list NodeId).

Lemma last_default (x : NodeId) l : last (x :: l) = Some (default x (last l)).
Proof. rewrite last_cons. by destruct (last l). Qed.

Lemma wrapInline_run (fuel : nat) (current p : NodeId)
  (t : string) (pre left right post : list NodeId) (sel : Select)
  (d : Document) :
  WF d ->
  children_of d p = pre ++ left ++ current :: right ++ post ->
  (forall x, x ∈ left ++ right -> Dom.isBlock d (Some x) = false) ->
  match last pre with
  | Some b => Dom.isBlock d (Some b) = true
  | None => True
  end ->
  match head post with
  | Some b => Dom.isBlock d (Some b) = true
  | None => True
  end ->
  length (left ++ right) < fuel ->
  exists d',
    let wrapper := length d in
    let run := left ++ current :: right in
    Dom.wrapInline fuel current (TagName t) sel d
    = Ok (wrapper,
          sel ++ [Saved (length sel) d; Restored (length sel) d'], d')
    /\ type_of d' wrapper = Some ELEMENT_NODE
    /\ name_of d' wrapper = Str.toUpperCase t
    /\ children_of d' p = pre ++ wrapper :: post
    /\ children_of d' wrapper = run
    /\ parent_of d' wrapper = Some p
    /\ (forall x, x ∈ run -> parent_of d' x = Some wrapper)
    /\ (forall x, x < length d -> x ∉ run -> parent_of d' x = parent_of d x)
    /\ (forall q, q < length d -> q <> p ->
          children_of d' q = children_of d q)
    /\ (forall x, x < length d -> data_of d' x = data_of d x)
    /\ length d' = S (length d)
    /\ style_of d' wrapper = []
    /\ WF d'.
Proof.
  intros Hwf Hkids Hinline Hstopl Hstopr Hfuel.
  rewrite length_app in Hfuel.
  set (c1 := sel ++ [Saved (length sel) d]).
  set (wrapper := length d).
  set (run := left ++ current :: right).
  set (first := default current (head left)).
  set (lst := default current (last right)).
  set (ks := tail run).
  assert (run = first :: ks) as Hrun.
  { unfold run, first, ks. by destruct left. }
  assert (last run = Some lst) as Hlast.
  { unfold run, lst. rewrite last_app, last_default. done. }
  assert (lst = default first (last ks)) as Hlst.
  { rewrite Hrun, last_default in Hlast. by injection Hlast. }
  assert (length ks < fuel) as Hks.
  { assert (length run = S (length ks)) as E by (by rewrite Hrun).
    unfold run in E. rewrite length_app in E. simpl in E. lia. }
  assert (children_of d p = pre ++ run ++ post) as Hkids'.
  { rewrite Hkids. unfold run. by rewrite <- app_assoc. }
  assert (forall x, x ∈ run -> x < length d) as Hvalid.
  { intros x Hx. assert (x ∈ children_of d p) as Hin.
    { rewrite Hkids'. apply elem_of_app. right. apply elem_of_app. by left. }
    apply (WF_child _ Hwf) in Hin.
    by apply parent_of_Some_lookup, lookup_lt_is_Some in Hin. }
  assert (p < length d) as Hp.
  { apply (children_of_valid d p current). rewrite Hkids.
    apply elem_of_app. right. apply elem_of_app. right. by left. }
  (* the two edges *)
  assert (Dom.wrapInline_edge fuel PpreviousSibling current c1 d
          = Ok (first, c1, d)) as Hedge1.
  { apply (wrapInline_edge_left c1 d p pre Hwf Hstopl left fuel current
             (right ++ post)); [done| |lia].
    intros x Hx. apply Hinline. apply elem_of_app. by left. }
  assert (Dom.wrapInline_edge fuel PnextSibling current c1 d
          = Ok (lst, c1, d)) as Hedge2.
  { apply (wrapInline_edge_right c1 d p post Hwf Hstopr right fuel current
             (pre ++ left)); [by rewrite <- app_assoc| |lia].
    intros x Hx. apply Hinline. apply elem_of_app. by right. }
  (* the wrapper *)
  set (d1 := d ++ [new_element t]).
  assert (WF d1) as Hwf1 by (by apply WF_alloc).
  assert (forall x, parent_of d1 x = parent_of d x) as Hpar1
    by (intros x; by apply parent_of_alloc).
  assert (forall x, children_of d1 x = children_of d x) as Hkids1
    by (intros x; by apply children_of_alloc).
  assert (d1 !! wrapper = Some (new_element t)) as Hw1.
  { unfold d1, wrapper. rewrite lookup_app_r by lia.
    by rewrite Nat.sub_diag. }
  assert (forall x, x < length d -> data_of d1 x = data_of d x) as Hdata1.
  { intros x Hx. unfold data_of, d1. by rewrite lookup_app_l. }
  assert (parent_of d wrapper = None /\ children_of d wrapper = [])
    as [Hpw Hcw].
  { split; apply (out_of_range d wrapper); unfold wrapper; lia. }
  assert (type_of d1 wrapper = Some ELEMENT_NODE) as Htype1.
  { unfold type_of. by rewrite Hw1. }
  assert (parent_of d first = Some p) as Hfirst.
  { apply (WF_child _ Hwf). rewrite Hkids', Hrun. apply elem_of_app. right.
    by left. }
  destruct (insert_detached c1 d1 p wrapper (Some first) pre (ks ++ post))
    as (Hins & Hwf2 & Hlen2 & Hdata2 & Hp2 & Hoth2 & Hpar2).
  { done. }
  { by rewrite Hpar1. }
  { by rewrite Hw1. }
  { by rewrite Htype1. }
  { apply lookup_lt_is_Some. unfold d1. rewrite length_app. simpl. lia. }
  { rewrite (data_of_type d d1) by (by apply Hdata1).
    intros E. apply (WF_text _ Hwf) in E. rewrite Hkids in E.
    by destruct pre, left. }
  { intros H. apply (not_above_new_node d wrapper p Hwf Hp (le_n _)).
    apply (ancestor_or_self_agree d d1); [|done]. intros y _. apply Hpar1. }
  { simpl. by rewrite Hkids1, Hkids', Hrun. }
  set (d2 := insert_one p (Some first) d1 wrapper) in *.
  simpl in Hp2.
  destruct (wrapInline_move_run c1 p wrapper ks fuel d2 (pre ++ [wrapper])
              post [] first)
    as (d3 & Hmove & Hwf3 & Hlen3 & Hdata3 & Hp3 & Hw3 & Hoth3 & Hin3
        & Hout3).
  { done. }
  { rewrite Hp2. by rewrite <- app_assoc. }
  { rewrite Hoth2 by (unfold wrapper; lia). by rewrite Hkids1. }
  { by rewrite Hpar2, decide_True. }
  { rewrite <- Hrun. intros Hin. apply Hvalid in Hin. unfold wrapper in Hin.
    lia. }
  { rewrite (data_of_type d1 d2) by done. by rewrite Htype1. }
  { done. }
  rewrite <- Hlst in Hmove. rewrite <- Hrun in Hw3, Hin3, Hout3.
  exists d3. simpl. split_conj.
  - unfold Dom.wrapInline. unfold bind at 1, save. simpl. fold c1.
    rewrite (bind_Ok _ _ _ _ _ _ _ Hedge1).
    rewrite (bind_Ok _ _ _ _ _ _ _ Hedge2).
    unfold bind at 1, createElement, alloc. fold wrapper d1.
    unfold bind at 1. unfold bind at 1, read. rewrite Hpar1, Hfirst.
    unfold bind at 1. rewrite Hins. unfold ret at 1.
    rewrite (bind_Ok _ _ _ _ _ _ _ Hmove).
    unfold bind, restore, ret, c1. simpl. by rewrite <- app_assoc.
  - rewrite (data_of_type d1 d3); [done|]. by rewrite Hdata3, Hdata2.
  - assert (data_of d3 wrapper = data_of d1 wrapper) as E
      by (by rewrite Hdata3, Hdata2).
    unfold data_of in E. rewrite Hw1 in E. unfold name_of.
    destruct (d3 !! wrapper); [|done]. simpl in *. by injection E.
  - rewrite Hp3. by rewrite <- app_assoc.
  - done.
  - rewrite Hout3.
    + by rewrite Hpar2, decide_True.
    + intros Hin. apply Hvalid in Hin. unfold wrapper in Hin. lia.
  - done.
  - intros x Hx Hxr. rewrite Hout3 by done.
    rewrite Hpar2, decide_False by (unfold wrapper; lia). apply Hpar1.
  - intros q Hq Hqp. rewrite Hoth3; [|done|unfold wrapper; lia].
    rewrite Hoth2 by done. apply Hkids1.
  - intros x Hx. rewrite Hdata3, Hdata2. by apply Hdata1.
  - rewrite Hlen3, Hlen2. unfold d1. rewrite length_app. simpl. lia.
  - assert (data_of d3 wrapper = data_of d1 wrapper) as E
      by (by rewrite Hdata3, Hdata2).
    unfold data_of in E. rewrite Hw1 in E. unfold style_of.
    destruct (d3 !! wrapper); [|done]. simpl in *. by injection E.
  - done.
Qed.


(** [Dom.wrapInline] with a tag name, on a well-formed document, for a node
    that has a parent: the node and the siblings around it that are no
    blocks, up to the nearest block on either side, move into a new element
    of that name and without style, which takes their place; the selection
    is saved before and restored after. *)
Theorem wrapInline_wraps_the_inline_run (fuel : nat) (current p : NodeId)
  (t : string) (pre left right post : list NodeId) (sel : Select)
  (d : Document) :
  wf d = true ->
  children_of d p = pre ++ left ++ current :: right ++ post ->
  (forall x, x ∈ left ++ right -> Dom.isBlock d (Some x) = false) ->
  match last pre with
  | Some b => Dom.isBlock d (Some b) = true
  | None => True
  end ->
  match head post with
  | Some b => Dom.isBlock d (Some b) = true
  | None => True
  end ->
  length (left ++ right) < fuel ->
  exists d',
    let wrapper := length d in
    let run := left ++ current :: right in
    Dom.wrapInline fuel current (TagName t) sel d
    = Ok (wrapper,
          sel ++ [Saved (length sel) d; Restored (length sel) d'], d')
    /\ type_of d' wrapper = Some ELEMENT_NODE
    /\ name_of d' wrapper = Str.toUpperCase t
    /\ children_of d' p = pre ++ wrapper :: post
    /\ children_of d' wrapper = run
    /\ parent_of d' wrapper = Some p
    /\ (forall x, x ∈ run -> parent_of d' x = Some wrapper)
    /\ (forall x, x < length d -> x ∉ run -> parent_of d' x = parent_of d x)
    /\ (forall q, q < length d -> q <> p ->
          children_of d' q = children_of d q)
    /\ (forall x, x < length d -> data_of d' x = data_of d x)
    /\ length d' = S (length d)
    /\ style_of d' wrapper = []
    /\ WF d'.
Proof. intros Hwf%wf_WF. by apply wrapInline_run. Qed.

End WrapInlineRun.

(** In [<div><p>x</p>a<em>b</em>c<p>y</p></div>], from the [em]: the run
    between the two paragraphs is wrapped. *)
Lemma wrapInline_wraps_the_inline_run_witness :
  exists d',
    Dom.wrapInline 3 4 (TagName "p") [] InlineExample.doc
    = Ok (9, [Saved 0 InlineExample.doc; Restored 0 d'], d')
    /\ children_of d' 0 = [1; 9; 7]
    /\ outerHTML d' 0
       = "<div><p>x</p><p>a<em>b</em>c</p><p>y</p></div>"%string.
Proof.
  destruct (wrapInline_wraps_the_inline_run 3 4 0 "p" [1] [3] [6] [7] []
              InlineExample.doc)
    as (d' & H1 & _ & _ & H2 & _);
    [reflexivity|reflexivity| |reflexivity|reflexivity|vm_compute; lia|].
  - intros x Hx. apply list_elem_of_In in Hx. simpl in Hx.
    destruct Hx as [<-|[<-|[]]]; reflexivity.
  - exists d'. split; [exact H1|]. split; [exact H2|].
    vm_compute in H1. injection H1 as _ <-. reflexivity.
Defined.
(** ** The search of [Dom.find], [Dom.next] and [Dom.prev] *)

Section Find.
Context {C : Type}.
Implicit Types (d : Document) (n start root nx : NodeId)
  (before after : list NodeId) (f : Document -> option NodeId -> bool).

Lemma sibling_prop_ahead d start root before after sibling :
  WF d -> children_of d root = before ++ start :: after ->
  sibling_prop d start sibling = head (ahead sibling before after).
Proof.
  intros Hwf Hkids. destruct sibling; simpl.
  - by apply (nextSibling_middle_WF d start root before after).
  - rewrite (previousSibling_middle d start root before after Hwf Hkids).
    by rewrite head_reverse.
Qed.

Lemma ahead_step sibling before after start nx rest :
  ahead sibling before after = nx :: rest ->
  exists before' after',
    before ++ start :: after = before' ++ nx :: after'
    /\ ahead sibling before' after' = rest.
Proof.
  destruct sibling; simpl.
  - intros ->. exists (before ++ [start]), rest. by rewrite <- app_assoc.
  - intros H. exists (reverse rest), (start :: after).
    rewrite reverse_involutive. split; [|done].
    apply (f_equal reverse) in H. rewrite reverse_involutive in H.
    rewrite H, reverse_cons. by rewrite <- app_assoc.
Qed.

Lemma ahead_length sibling before after :
  length (ahead sibling before after) <= length before + length after.
Proof. destruct sibling; simpl; [lia|]. rewrite length_reverse. lia. Qed.

Lemma child_step d nx child c0 sibling :
  child_prop d nx child = Some c0 ->
  exists b0 a0,
    children_of d nx = b0 ++ c0 :: a0
    /\ ahead sibling b0 a0
       = ahead_of_child sibling child (children_of d nx).
Proof.
  destruct child; simpl; unfold firstChild, lastChild.
  - destruct (children_of d nx) as [|k ks]; [done|]. intros [= ->].
    by exists [], ks.
  - intros H. apply last_Some in H as [l' H]. rewrite H.
    exists l', []. split; [done|]. by rewrite removelast_last.
Qed.

Lemma first_match_app f d l1 l2 :
  first_match f d (l1 ++ l2)
  = match first_match f d l1 with
    | Some r => Some r
    | None => first_match f d l2
    end.
Proof.
  unfold first_match. rewrite List.filter_app.
  by destruct (List.filter _ l1).
Qed.

Lemma first_match_cons f d x l :
  first_match f d (x :: l)
  = if f d (Some x) then Some x else first_match f d l.
Proof. unfold first_match. simpl. by destruct (f d (Some x)). Qed.

Lemma visited_cons h d sibling child nx rest :
  visited h d sibling child (nx :: rest)
  = (nx :: match h, child with
           | S h', Some ch =>
               match child_prop d nx ch with
               | Some c0 =>
                   c0 :: visited h' d sibling child
                           (ahead_of_child sibling ch (children_of d nx))
               | None => []
               end
           | _, _ => []
           end) ++ visited h d sibling child rest.
Proof. by destruct h. Qed.

(** The loop of [Dom.find], started on a child of the root. *)
Lemma find_loop_visited (condition : Dom.NodeCondition (C := C)) f d :
  WF d -> reads_as condition f ->
  forall fuel start root j before after sibling child h (c : C),
    children_of d root = before ++ start :: after ->
    is_Some (nth_parent j d start) ->
    (length d - j) * S (length d) + length (ahead sibling before after)
    < fuel ->
    length d <= h + j ->
    Dom.find_loop fuel start condition root sibling child c d
    = Ok (first_match f d
            (visited h d sibling child (ahead sibling before after)), c, d).
Proof.
  intros Hwf Hcond fuel. induction fuel as [fuel IH] using lt_wf_ind.
  intros start root j before after sibling child h c Hkids Hj Hfuel Hh.
  destruct fuel as [|fl]; [lia|].
  assert (parent_of d start = Some root) as Hp.
  { apply (WF_child _ Hwf). rewrite Hkids. apply elem_of_app. right. by left. }
  assert (start < length d) as Hsv
    by (by apply parent_of_Some_lookup, lookup_lt_is_Some in Hp).
  pose proof (nth_parent_is_Some_lt d start j Hwf Hsv Hj) as Hjlt.
  destruct h as [|h']; [lia|].
  cbn [Dom.find_loop]. rewrite bind_read.
  rewrite (sibling_prop_ahead d start root before after sibling Hwf Hkids).
  destruct (ahead sibling before after) as [|nx rest] eqn:Hahead; cbn [head].
  - unfold bind at 1. rewrite Hcond.
    destruct (f d None); [done|].
    assert ((let* nextOne := match child with
                             | Some _ => ret None
                             | None => ret None
                             end in
             match nextOne with
             | Some r => ret (Some r)
             | None =>
                 let* next' := read (fun d => parent_of d start) in
                 match next' with
                 | Some s =>
                     if bool_decide (s = root) then ret None
                     else Dom.find_loop fl s condition root sibling child
                 | None => ret None
                 end
             end) c d = Ok (None, c, d)) as Hgo.
    { destruct child; rewrite bind_ret, bind_read, Hp;
        by rewrite bool_decide_eq_true_2. }
    destruct child; exact Hgo.
  - destruct (ahead_step sibling before after start nx rest Hahead)
      as (before' & after' & Hsplit & Hahead').
    assert (children_of d root = before' ++ nx :: after') as Hkids'
      by (by rewrite Hkids).
    assert (parent_of d nx = Some root) as Hpn.
    { apply (WF_child _ Hwf). rewrite Hkids'. apply elem_of_app. right.
      by left. }
    assert (nx <> root) as Hnr.
    { intros ->. assert (nth_parent 1 d root = Some root) as Hc
        by (simpl; by rewrite Hpn).
      by apply WF_no_cycle in Hc. }
    assert (is_Some (nth_parent j d nx)) as Hjn.
    { destruct j as [|j]; [by eexists|]. simpl in Hj |- *.
      by rewrite Hp in Hj; rewrite Hpn. }
    rewrite visited_cons. rewrite <- app_comm_cons, first_match_cons.
    unfold bind at 1. rewrite Hcond.
    destruct (f d (Some nx)) eqn:Hfnx; [done|].
    set (sub := match child with
                | Some ch =>
                    match child_prop d nx ch with
                    | Some c0 =>
                        c0 :: visited h' d sibling child
                                (ahead_of_child sibling ch (children_of d nx))
                    | None => []
                    end
                | None => []
                end).
    rewrite first_match_app.
    cbn [length] in Hfuel.
    assert (length d - j = S (length d - S j)) as Hsub by lia.
    rewrite Hsub, Nat.mul_succ_l in Hfuel.
    set (M := (length d - S j) * S (length d)) in *.
    match goal with |- bind ?m _ _ _ = _ =>
      assert (m c d = Ok (first_match f d sub, c, d)) as Hone
    end.
    { destruct child as [ch|]; [|done]. rewrite bind_read. unfold sub.
      destruct (child_prop d nx ch) as [c0|] eqn:Hc0; [|done].
      destruct (child_step d nx ch c0 sibling Hc0) as (b0 & a0 & Hnk & Ha0).
      rewrite <- Ha0.
      assert (parent_of d c0 = Some nx) as Hpc.
      { apply (WF_child _ Hwf). rewrite Hnk. apply elem_of_app. right.
        by left. }
      pose proof (children_bound d nx Hwf) as Hbound.
      rewrite Hnk, length_app in Hbound. cbn [length] in Hbound.
      pose proof (ahead_length sibling b0 a0) as Hal.
      destruct fl as [|f2]; [lia|]. cbn [Dom.find].
      unfold bind at 1. rewrite Hcond. rewrite first_match_cons.
      destruct (f d (Some c0)); [done|].
      apply (IH f2 ltac:(lia) c0 nx (S j) b0 a0 sibling (Some ch) h' c);
        [done| |lia|lia].
      simpl. by rewrite Hpc. }
    rewrite (bind_Ok _ _ _ _ _ _ _ Hone).
    destruct (first_match f d sub) as [r|]; [done|].
    rewrite bind_ret. rewrite bool_decide_eq_false_2 by done.
    rewrite <- Hahead'.
    apply (IH fl ltac:(lia) nx root j before' after' sibling child (S h') c);
      [done|done| |lia].
    rewrite Hahead'. rewrite Hsub, Nat.mul_succ_l. fold M. lia.
Qed.

End Find.

Section FindTheorem.
Context {C : Type}.

Lemma find_run (fuel : nat) (node root : NodeId)
  (condition : Dom.NodeCondition (C := C))
  (f : Document -> option NodeId -> bool) (recurse : bool)
  (sibling : SiblingProp) (child : option ChildProp)
  (before after : list NodeId) (c : C) (d : Document) :
  WF d ->
  children_of d root = before ++ node :: after ->
  (length d + 1) * (length d + 1) <= fuel ->
  reads_as condition f ->
  Dom.find fuel node condition root recurse sibling child c d
  = Ok (first_match f d
          ((if recurse then [node] else [])
           ++ visited (length d) d sibling child
                (ahead sibling before after)), c, d).
Proof.
  intros Hwf Hkids Hfuel Hcond.
  assert ((length d + 1) * (length d + 1)
          = length d * S (length d) + length d + 1) as E by ring.
  rewrite E in Hfuel. clear E.
  pose proof (children_bound d root Hwf) as Hbound.
  rewrite Hkids, length_app in Hbound. cbn [length] in Hbound.
  pose proof (ahead_length sibling before after) as Hal.
  destruct fuel as [|fl]; [lia|]. cbn [Dom.find].
  assert (Dom.find_loop fl node condition root sibling child c d
          = Ok (first_match f d
                  (visited (length d) d sibling child
                     (ahead sibling before after)), c, d)) as Hloop.
  { apply (find_loop_visited condition f d Hwf Hcond fl node root 0 before
             after sibling child (length d) c); [done|by eexists| |lia].
    rewrite Nat.sub_0_r. set (M := length d * S (length d)) in *. lia. }
  destruct recurse.
  - unfold bind at 1. rewrite Hcond. cbn [app]. rewrite first_match_cons.
    by destruct (f d (Some node)).
  - by rewrite bind_ret.
Qed.

(** [Dom.find], and so [Dom.next] and [Dom.prev], started on a child of
    the root with a condition that only reads the document, on a
    well-formed document with fuel for it: the search completes, changes
    nothing, and returns the first node that satisfies the condition among
    the nodes it tests, in the order in which it gets to them: the node
    itself with [recurse], then each sibling ahead followed by the child
    at which the search enters it and what is tested from that child on;
    it returns nothing when no such node satisfies the condition. *)
Theorem find_returns_the_first_match (fuel : nat) (node root : NodeId)
  (condition : Dom.NodeCondition (C := C))
  (f : Document -> option NodeId -> bool) (recurse : bool)
  (sibling : SiblingProp) (child : option ChildProp)
  (before after : list NodeId) (c : C) (d : Document) :
  wf d = true ->
  children_of d root = before ++ node :: after ->
  (length d + 1) * (length d + 1) <= fuel ->
  reads_as condition f ->
  Dom.find fuel node condition root recurse sibling child c d
  = Ok (first_match f d
          ((if recurse then [node] else [])
           ++ visited (length d) d sibling child
                (ahead sibling before after)), c, d).
Proof. intros Hwf%wf_WF. by apply find_run. Qed.

End FindTheorem.

(** In [<div><p><img></p><p>  </p><p><span></span>x</p><form> </form>
    </div>], from the first paragraph: the next [span] is the one in the
    third paragraph; from the second paragraph, the previous [img] is the
    one in the first. *)
Lemma find_returns_the_first_match_witness :
  Dom.next 121 1 (ApplyStyle.condition (fun d o => Dom.isTag d o "span")) 0
           true tt EmptyExample.doc
  = Ok (Some 6, tt, EmptyExample.doc)
  /\ Dom.prev 121 3 (ApplyStyle.condition (fun d o => Dom.isTag d o "img")) 0
              true tt EmptyExample.doc
     = Ok (Some 2, tt, EmptyExample.doc).
Proof.
  split.
  - unfold Dom.next.
    rewrite (find_returns_the_first_match 121 1 0 _
               (fun d o => Dom.isTag d o "span") false PnextSibling
               (Some PfirstChild) [] [3; 5; 8] tt EmptyExample.doc);
      [reflexivity|reflexivity|reflexivity|vm_compute; lia|by intros o c d].
  - unfold Dom.prev.
    rewrite (find_returns_the_first_match 121 3 0 _
               (fun d o => Dom.isTag d o "img") false PpreviousSibling
               (Some PlastChild) [1] [5; 8] tt EmptyExample.doc);
      [reflexivity|reflexivity|reflexivity|vm_compute; lia|by intros o c d].
Defined.
(** ** The first two checks of [applyToElement] *)

Section SuitableParent.
Variables (jodit : IJodit) (style : Style).
Implicit Types (d : Document) (c : ApplyStyle.State) (font p g : NodeId)
  (before after pre post : list NodeId).

Lemma reads_as_condition {C} (f : Document -> option NodeId -> bool) :
  reads_as (C := C) (ApplyStyle.condition f) f.
Proof. by intros o c d. Qed.

(** [toggleStyles] on an element that is no block and whose tag is not the
    default tag of the style: the element is unwrapped. *)
Lemma toggleStyles_unwraps fuel elm g pre post c d :
  WF d ->
  children_of d g = pre ++ elm :: post ->
  Str.toLowerCase (name_of d elm) <> defaultTag style ->
  Dom.isBlock d (Some elm) = false ->
  length (children_of d elm) <= fuel ->
  exists d',
    ApplyStyle.toggleStyles style fuel elm c d = Ok (tt, unwrapped c, d')
    /\ Dom.unwrap fuel elm c d = Ok (tt, c, d').
Proof.
  intros Hwf Hkids Hname Hblock Hfuel.
  destruct (unwrap_run c d g elm pre post fuel Hwf Hkids Hfuel)
    as (d' & Hrun & _).
  exists d'. split; [|done].
  unfold ApplyStyle.toggleStyles. rewrite bind_read.
  assert ((match options_style style with
           | Some rules =>
               if bool_decide (Str.toLowerCase (name_of d elm)
                               = defaultTag style)
               then forEach rules (fun kv =>
                      let rule := kv.1 in
                      let value := kv.2 in
                      let* m := ApplyStyle.get_mode in
                      let* current := read (fun d => css_get d elm rule) in
                      if bool_decide (m = Some UNWRAP)
                         || bool_decide (Some current
                                         = normalizeCssValue rule value)
                      then
                        css_set elm rule (Some EmptyString) ;;
                        let* m := ApplyStyle.get_mode in
                        match m with
                        | None => ApplyStyle.set_mode UNWRAP
                        | Some _ => ret tt
                        end
                      else
                        css_set elm rule value ;;
                        let* m := ApplyStyle.get_mode in
                        match m with
                        | None => ApplyStyle.set_mode WRAP
                        | Some _ => ret tt
                        end)
               else ret tt
           | None => ret tt
           end) c d = Ok (tt, c, d)) as Hcss.
  { destruct (options_style style); [|done].
    by rewrite bool_decide_eq_false_2. }
  rewrite (bind_Ok _ _ _ _ _ _ _ Hcss).
  rewrite !bind_read. rewrite Hblock.
  rewrite (bool_decide_eq_false_2 _ Hname). cbn [negb andb orb].
  rewrite orb_true_r. cbn [orb].
  rewrite (bind_Ok _ _ _ _ _ _ _ Hrun).
  unfold ApplyStyle.get_mode, ApplyStyle.set_mode, bind, get, modify, ret,
    unwrapped.
  destruct c as [[m|] s]; done.
Qed.

Lemma next_normal fuel node root before after c d :
  WF d ->
  children_of d root = before ++ node :: after ->
  (length d + 1) * (length d + 1) <= fuel ->
  Dom.next fuel node (ApplyStyle.condition (ApplyStyle.isNormalNode jodit))
           root true c d
  = Ok (normal_ahead jodit d PnextSibling PfirstChild before after, c, d).
Proof.
  intros Hwf Hkids Hfuel. unfold Dom.next.
  by rewrite (find_run fuel node root _ (ApplyStyle.isNormalNode jodit) false
                PnextSibling (Some PfirstChild) before after c d Hwf Hkids
                Hfuel (reads_as_condition _)).
Qed.

Lemma prev_normal fuel node root before after c d :
  WF d ->
  children_of d root = before ++ node :: after ->
  (length d + 1) * (length d + 1) <= fuel ->
  Dom.prev fuel node (ApplyStyle.condition (ApplyStyle.isNormalNode jodit))
           root true c d
  = Ok (normal_ahead jodit d PpreviousSibling PlastChild before after, c, d).
Proof.
  intros Hwf Hkids Hfuel. unfold Dom.prev.
  by rewrite (find_run fuel node root _ (ApplyStyle.isNormalNode jodit) false
                PpreviousSibling (Some PlastChild) before after c d Hwf Hkids
                Hfuel (reads_as_condition _)).
Qed.

(** What unwrapping the element [elm], a child of [g], does. *)
Lemma unwrap_effect fuel elm g pre post c d :
  WF d ->
  children_of d g = pre ++ elm :: post ->
  length (children_of d elm) <= fuel ->
  exists d',
    Dom.unwrap fuel elm c d = Ok (tt, c, d')
    /\ children_of d' g = pre ++ children_of d elm ++ post
    /\ children_of d' elm = []
    /\ parent_of d' elm = None
    /\ (forall x, x ∈ children_of d elm -> parent_of d' x = Some g)
    /\ (forall x, x <> elm -> x ∉ children_of d elm ->
          parent_of d' x = parent_of d x)
    /\ (forall q, q <> g -> q <> elm -> children_of d' q = children_of d q)
    /\ (forall x, data_of d' x = data_of d x)
    /\ length d' = length d
    /\ WF d'.
Proof.
  intros Hwf Hkids Hfuel.
  destruct (unwrap_run c d g elm pre post fuel Hwf Hkids Hfuel)
    as (d' & H1 & H2 & H3 & H4 & H5 & H6 & H7 & H8 & H9).
  exists d'. split_conj; try done.
  intros x Hx. apply (WF_child _ H2). rewrite H5.
  apply elem_of_app. right. apply elem_of_app. by left.
Qed.

Lemma children_fuel d n fuel :
  WF d -> (length d + 1) * (length d + 1) <= fuel ->
  length (children_of d n) <= fuel.
Proof.
  intros Hwf Hfuel. pose proof (children_bound d n Hwf).
  assert ((length d + 1) * (length d + 1)
          = length d * S (length d) + length d + 1) as E by ring.
  rewrite E in Hfuel. lia.
Qed.

Lemma checkSuitableParent_run fuel font p before after c d :
  WF d ->
  (length d + 1) * (length d + 1) <= fuel ->
  children_of d p = before ++ font :: after ->
  ApplyStyle.checkSuitableParent jodit style fuel font c d
  = (if alone jodit d before after
        && ApplyStyle.isSuitableElement jodit style d (Some p) false
        && negb (bool_decide (p = area jodit))
        && (negb (Dom.isBlock d (Some p)) || elementIsBlock style)
     then ApplyStyle.toggleStyles style fuel p ;; ret true
     else ret false) c d.
Proof.
  intros Hwf Hfuel Hkids.
  assert (parent_of d font = Some p) as Hp.
  { apply (WF_child _ Hwf). rewrite Hkids. apply elem_of_app. right. by left. }
  unfold ApplyStyle.checkSuitableParent. rewrite bind_read, Hp.
  rewrite (bind_Ok _ _ _ _ _ _ _
             (next_normal fuel font p before after c d Hwf Hkids Hfuel)).
  unfold alone.
  destruct (normal_ahead jodit d PnextSibling PfirstChild before after)
    as [nx|] eqn:Hnx.
  { rewrite bool_decide_eq_true_2 by eauto.
    by rewrite (bool_decide_eq_false_2 (Some nx = None)). }
  rewrite bool_decide_eq_false_2 by (by intros [? ?]).
  rewrite (bool_decide_eq_true_2 (None = None)) by done.
  rewrite (bind_Ok _ _ _ _ _ _ _
             (prev_normal fuel font p before after c d Hwf Hkids Hfuel)).
  destruct (normal_ahead jodit d PpreviousSibling PlastChild before after)
    as [pv|] eqn:Hpv.
  { rewrite bool_decide_eq_true_2 by eauto.
    by rewrite (bool_decide_eq_false_2 (Some pv = None)). }
  rewrite bool_decide_eq_false_2 by (by intros [? ?]).
  rewrite (bool_decide_eq_true_2 (None = None)) by done.
  rewrite bind_read. cbn [andb].
  rewrite <- andb_assoc.
  by destruct (ApplyStyle.isSuitableElement jodit style d (Some p) false
               && (negb (bool_decide (p = area jodit))
                   && (negb (Dom.isBlock d (Some p))
                       || elementIsBlock style))).
Qed.

Lemma checkSuitableChild_run fuel font fc rest c d :
  WF d ->
  (length d + 1) * (length d + 1) <= fuel ->
  children_of d font = fc :: rest ->
  ApplyStyle.checkSuitableChild jodit style fuel font c d
  = (if alone jodit d [] rest
        && ApplyStyle.isSuitableElement jodit style d (Some fc) false
     then ApplyStyle.toggleStyles style fuel fc ;; ret true
     else ret false) c d.
Proof.
  intros Hwf Hfuel Hkids.
  assert (children_of d font = [] ++ fc :: rest) as Hkids' by done.
  unfold ApplyStyle.checkSuitableChild. rewrite bind_read.
  unfold firstChild. rewrite Hkids. cbn [head].
  rewrite (bind_Ok _ _ _ _ _ _ _
             (next_normal fuel fc font [] rest c d Hwf Hkids' Hfuel)).
  unfold alone.
  destruct (normal_ahead jodit d PnextSibling PfirstChild [] rest)
    as [nx|] eqn:Hnx.
  { rewrite bool_decide_eq_true_2 by eauto.
    by rewrite (bool_decide_eq_false_2 (Some nx = None)). }
  rewrite bool_decide_eq_false_2 by (by intros [? ?]).
  rewrite (bool_decide_eq_true_2 (None = None)) by done.
  rewrite (bind_Ok _ _ _ _ _ _ _
             (prev_normal fuel fc font [] rest c d Hwf Hkids' Hfuel)).
  destruct (normal_ahead jodit d PpreviousSibling PlastChild [] rest)
    as [pv|] eqn:Hpv.
  { rewrite bool_decide_eq_true_2 by eauto.
    by rewrite (bool_decide_eq_false_2 (Some pv = None)). }
  rewrite bool_decide_eq_false_2 by (by intros [? ?]).
  rewrite (bool_decide_eq_true_2 (None = None)) by done.
  rewrite bind_read. cbn [andb].
  by destruct (ApplyStyle.isSuitableElement jodit style d (Some fc) false).
Qed.

(** [checkSuitableParent] on a well-formed document with fuel for it.  The
    check accepts exactly when the fragment has no normal node on either
    side and its parent is suitable, is not the area of the selection, and
    is no block unless the style makes blocks; it then toggles the style
    on the parent, and else leaves everything as it is.  When the parent
    is no block and its tag is not the default tag of the style, the
    toggle removes the parent: its children take its place. *)
Theorem checkSuitableParent_toggles_the_parent (fuel : nat)
  (font p : NodeId) (before after : list NodeId) (c : ApplyStyle.State)
  (d : Document) :
  wf d = true ->
  (length d + 1) * (length d + 1) <= fuel ->
  children_of d p = before ++ font :: after ->
  let accepts :=
    alone jodit d before after
    && ApplyStyle.isSuitableElement jodit style d (Some p) false
    && negb (bool_decide (p = area jodit))
    && (negb (Dom.isBlock d (Some p)) || elementIsBlock style) in
  ApplyStyle.checkSuitableParent jodit style fuel font c d
  = (if accepts then ApplyStyle.toggleStyles style fuel p ;; ret true
     else ret false) c d
  /\ (accepts = true ->
      Str.toLowerCase (name_of d p) <> defaultTag style ->
      Dom.isBlock d (Some p) = false ->
      forall g pre post,
        children_of d g = pre ++ p :: post ->
        exists d',
          ApplyStyle.checkSuitableParent jodit style fuel font c d
          = Ok (true, unwrapped c, d')
          /\ children_of d' g = pre ++ (before ++ font :: after) ++ post
          /\ children_of d' p = []
          /\ parent_of d' p = None
          /\ parent_of d' font = Some g
          /\ (forall x, data_of d' x = data_of d x)
          /\ WF d').
Proof.
  intros Hwf%wf_WF Hfuel Hkids accepts.
  pose proof (checkSuitableParent_run fuel font p before after c d Hwf Hfuel
                Hkids) as Hrun.
  split; [exact Hrun|].
  intros Hacc Hname Hblock g pre post Hg.
  destruct (unwrap_effect fuel p g pre post c d Hwf Hg
              (children_fuel d p fuel Hwf Hfuel))
    as (d' & U1 & U2 & U3 & U4 & U5 & U6 & U7 & U8 & U9 & U10).
  destruct (toggleStyles_unwraps fuel p g pre post c d Hwf Hg Hname Hblock
              (children_fuel d p fuel Hwf Hfuel)) as (d'' & T1 & T2).
  rewrite U1 in T2. injection T2 as <-.
  exists d'. split_conj; try done.
  - rewrite Hrun. fold accepts. rewrite Hacc. unfold bind. by rewrite T1.
  - by rewrite U2, Hkids.
  - apply U5. rewrite Hkids. apply elem_of_app. right. by left.
Qed.

(** [checkSuitableChild] on a well-formed document with fuel for it.  A
    fragment without children is left alone.  Otherwise the check accepts
    exactly when the first child of the fragment has no normal node beside
    it and is suitable; it then toggles the style on that child, and else
    leaves everything as it is.  When the child is no block and its tag is
    not the default tag of the style, the toggle removes the child: its
    children take its place in the fragment. *)
Theorem checkSuitableChild_toggles_the_child (fuel : nat) (font : NodeId)
  (c : ApplyStyle.State) (d : Document) :
  wf d = true ->
  (length d + 1) * (length d + 1) <= fuel ->
  (children_of d font = [] ->
     ApplyStyle.checkSuitableChild jodit style fuel font c d
     = Ok (false, c, d))
  /\ forall fc rest,
      children_of d font = fc :: rest ->
      let accepts :=
        alone jodit d [] rest
        && ApplyStyle.isSuitableElement jodit style d (Some fc) false in
      ApplyStyle.checkSuitableChild jodit style fuel font c d
      = (if accepts then ApplyStyle.toggleStyles style fuel fc ;; ret true
         else ret false) c d
      /\ (accepts = true ->
          Str.toLowerCase (name_of d fc) <> defaultTag style ->
          Dom.isBlock d (Some fc) = false ->
          exists d',
            ApplyStyle.checkSuitableChild jodit style fuel font c d
            = Ok (true, unwrapped c, d')
            /\ children_of d' font = children_of d fc ++ rest
            /\ children_of d' fc = []
            /\ parent_of d' fc = None
            /\ (forall x, x ∈ children_of d fc ->
                  parent_of d' x = Some font)
            /\ (forall x, data_of d' x = data_of d x)
            /\ WF d').
Proof.
  intros Hwf%wf_WF Hfuel. split.
  { intros Hkids. unfold ApplyStyle.checkSuitableChild.
    rewrite bind_read. unfold firstChild. by rewrite Hkids. }
  intros fc rest Hkids accepts.
  pose proof (checkSuitableChild_run fuel font fc rest c d Hwf Hfuel Hkids)
    as Hrun.
  split; [exact Hrun|].
  intros Hacc Hname Hblock.
  assert (children_of d font = [] ++ fc :: rest) as Hkids' by done.
  destruct (unwrap_effect fuel fc font [] rest c d Hwf Hkids'
              (children_fuel d fc fuel Hwf Hfuel))
    as (d' & U1 & U2 & U3 & U4 & U5 & U6 & U7 & U8 & U9 & U10).
  destruct (toggleStyles_unwraps fuel fc font [] rest c d Hwf Hkids' Hname
              Hblock (children_fuel d fc fuel Hwf Hfuel)) as (d'' & T1 & T2).
  rewrite U1 in T2. injection T2 as <-.
  exists d'. split_conj; try done.
  rewrite Hrun. fold accepts. rewrite Hacc. unfold bind. by rewrite T1.
Qed.

End SuitableParent.

(** In [<p><strong><font>a</font></strong>...</p>] the fragment is alone in
    the [strong], which the check removes; in [<p><font><strong>sel
    </strong></font></p>] the [strong] is alone in the fragment, and the
    check removes it. *)
Lemma checkSuitableParent_toggles_the_parent_witness :
  exists d',
    ApplyStyle.checkSuitableParent ModeExample.jodit ModeExample.bold 100 2
      (ApplyStyle.mkState None []) ModeExample.doc
    = Ok (true, ApplyStyle.mkState (Some UNWRAP) [], d')
    /\ outerHTML d' 0
       = "<p><font>a</font><font>b</font><em><font>c</font></em></p>"%string.
Proof.
  destruct (proj2 (checkSuitableParent_toggles_the_parent ModeExample.jodit
                     ModeExample.bold 100 2 1 [] []
                     (ApplyStyle.mkState None []) ModeExample.doc eq_refl
                     ltac:(vm_compute; lia) eq_refl)
              eq_refl ltac:(by vm_compute) eq_refl 0 [] [4; 6] eq_refl)
    as (d' & H1 & _).
  exists d'. split; [exact H1|].
  vm_compute in H1. injection H1 as <-. reflexivity.
Defined.

Lemma checkSuitableChild_toggles_the_child_witness :
  exists d',
    ApplyStyle.checkSuitableChild ModeExample.jodit ModeExample.bold 25 1
      (ApplyStyle.mkState None []) ChildExample.doc
    = Ok (true, ApplyStyle.mkState (Some UNWRAP) [], d')
    /\ outerHTML d' 0 = "<p><font>sel</font></p>"%string.
Proof.
  destruct (proj2 (proj2 (checkSuitableChild_toggles_the_child
                            ModeExample.jodit ModeExample.bold 25 1
                            (ApplyStyle.mkState None []) ChildExample.doc
                            eq_refl ltac:(vm_compute; lia))
                     2 [] eq_refl)
              eq_refl ltac:(by vm_compute) eq_refl)
    as (d' & H1 & _).
  exists d'. split; [exact H1|].
  vm_compute in H1. injection H1 as <-. reflexivity.
Defined.
(** ** The fallback of [applyToElement]: the fragment is wrapped *)

Section Fallback.
Variables (jodit : IJodit) (style : Style).
Implicit Types (d : Document) (c : ApplyStyle.State) (font : NodeId).

Lemma strict_suitable d o :
  ApplyStyle.isSuitableElement jodit style d o false = false ->
  ApplyStyle.isSuitableElement jodit style d o true = false.
Proof.
  destruct o as [e|]; [|done]. unfold ApplyStyle.isSuitableElement.
  destruct (bool_decide (element style = defaultTag style)),
    (bool_decide (Str.toLowerCase (name_of d e) = element style)),
    (ApplyStyle.elementHasSameStyle d e (options_style style)
     && ApplyStyle.isNormalNode jodit d (Some e)); done.
Qed.

(** No suitable element on the way up: the third check declines. *)
Lemma checkClosestWrapper_declines fuel font c d :
  WF d -> font < length d -> length d <= fuel ->
  (forall k a, nth_parent k d font = Some a ->
     ApplyStyle.isSuitableElement jodit style d (Some a) true = false) ->
  ApplyStyle.checkClosestWrapper jodit style fuel font c d = Ok (false, c, d).
Proof.
  intros Hwf Hfont Hfuel Hnone.
  destruct (up_loop_nearest
              (ApplyStyle.condition
                 (fun d elm => ApplyStyle.isSuitableElement jodit style d elm
                                 true))
              (fun d elm => ApplyStyle.isSuitableElement jodit style d elm true)
              (Some (editor jodit)) font c d Hwf Hfont
              (reads_as_condition _) fuel 0 font)
    as (r & Hrun & Hnear); [done|by left|intros; lia|lia|].
  destruct r as [a|].
  { destruct Hnear as (k & Hk & _ & Hf & _). by rewrite (Hnone k a Hk) in Hf. }
  unfold ApplyStyle.checkClosestWrapper, Dom.closest, Dom.up.
  by rewrite (bind_Ok _ _ _ _ _ _ _ Hrun).
Qed.

(** Nothing suitable in the scan: the fourth check changes nothing and
    declines. *)
Lemma unwrapChildren_declines fuel font c d :
  WF d ->
  (length d + 1) * (length d + 1) <= fuel ->
  suitable_nodes jodit style d (scan d font) = [] ->
  ApplyStyle.unwrapChildren jodit style fuel font c d = Ok (false, c, d).
Proof.
  intros Hwf Hfuel Hnone.
  unfold ApplyStyle.unwrapChildren, firstChild. rewrite bind_read.
  unfold scan in Hnone.
  destruct (children_of d font) as [|fc kids] eqn:Hkids; cbn [head].
  { by rewrite bind_ret. }
  pose proof (children_bound d font Hwf) as Hbound.
  rewrite Hkids in Hbound. cbn [length] in Hbound.
  destruct fuel as [|f]; [lia|].
  rewrite scan_kids_cons in Hnone.
  set (b := ApplyStyle.isSuitableElement jodit style d (Some fc) true).
  assert (b = false) as Hb.
  { unfold suitable_nodes in Hnone. cbn [List.filter] in Hnone. fold b in Hnone.
    by destruct b. }
  set (v1 := ApplyStyle.mkFound (suitable_nodes jodit style d [fc]) (Some b)).
  assert (ApplyStyle.collect jodit style (Some fc)
            (ApplyStyle.mkFound [] None) d = Ok (false, v1, d)) as Hfirst.
  { unfold ApplyStyle.collect, bind, read, modify, ret, v1, suitable_nodes.
    cbn [List.filter]. fold b. by destruct b. }
  assert (Dom.find (S f) fc (ApplyStyle.collect jodit style) font true
            PnextSibling (Some PfirstChild) (ApplyStyle.mkFound [] None) d
          = Ok (None,
                ApplyStyle.mkFound
                  (suitable_nodes jodit style d
                     (fc :: scan_later (length d) d kids)) (Some b), d))
    as Hscan.
  { cbn [Dom.find]. rewrite (bind_Ok _ _ _ _ _ _ _ Hfirst).
    rewrite (find_loop_scan jodit style d Hwf f fc font 0 [] kids v1 b
               (length d)); [|done|by eexists| |lia|done].
    - unfold v1. cbn [ApplyStyle.needUnwrap]. unfold suitable_nodes.
      by rewrite <- List.filter_app.
    - assert ((length d + 1) * (length d + 1)
              = length d * S (length d) + length d + 1) as E by ring.
      rewrite E in Hfuel. rewrite Nat.sub_0_r.
      set (M := length d * S (length d)) in *. lia. }
  match goal with |- bind ?m _ _ _ = _ =>
    assert (m c d = Ok (ApplyStyle.mkFound [] (Some false), c, d)) as Hfound
  end.
  { unfold bind at 1, scoped. rewrite Hscan. rewrite Hnone, Hb. reflexivity. }
  by rewrite (bind_Ok _ _ _ _ _ _ _ Hfound).
Qed.

(** None of the four checks applies. *)
Lemma checks_decline (fuel : nat) (font p : NodeId)
  (before after : list NodeId) c d :
  WF d ->
  (length d + 1) * (length d + 1) <= fuel ->
  children_of d p = before ++ font :: after ->
  alone jodit d before after
    && ApplyStyle.isSuitableElement jodit style d (Some p) false
    && negb (bool_decide (p = area jodit))
    && (negb (Dom.isBlock d (Some p)) || elementIsBlock style) = false ->
  (forall fc rest, children_of d font = fc :: rest ->
     alone jodit d [] rest
     && ApplyStyle.isSuitableElement jodit style d (Some fc) false = false) ->
  (forall k a, nth_parent k d font = Some a ->
     ApplyStyle.isSuitableElement jodit style d (Some a) true = false) ->
  suitable_nodes jodit style d (scan d font) = [] ->
  ApplyStyle.checks jodit style fuel font c d = Ok (false, c, d).
Proof.
  intros Hwf Hfuel Hkids Hpar Hchild Hup Hscan.
  assert (parent_of d font = Some p) as Hp.
  { apply (WF_child _ Hwf). rewrite Hkids. apply elem_of_app. right. by left. }
  assert (font < length d) as Hfont.
  { apply lookup_lt_is_Some. by eapply parent_of_Some_lookup. }
  assert (length d <= fuel) as Hfuel1 by nia.
  unfold ApplyStyle.checks.
  assert (ApplyStyle.checkSuitableParent jodit style fuel font c d
          = Ok (false, c, d)) as ->%(bind_Ok _ _ _ _ _ _ _).
  { rewrite (checkSuitableParent_run jodit style fuel font p before after c d)
      by done. by rewrite Hpar. }
  cbv iota.
  assert (ApplyStyle.checkSuitableChild jodit style fuel font c d
          = Ok (false, c, d)) as ->%(bind_Ok _ _ _ _ _ _ _).
  { destruct (children_of d font) as [|fc rest] eqn:Hfk.
    - unfold ApplyStyle.checkSuitableChild. rewrite bind_read.
      unfold firstChild. by rewrite Hfk.
    - rewrite (checkSuitableChild_run jodit style fuel font fc rest c d)
        by done. by rewrite (Hchild fc rest). }
  cbv iota.
  rewrite (bind_Ok _ _ _ _ _ _ _
             (checkClosestWrapper_declines fuel font c d Hwf
                Hfont Hfuel1 Hup)).
  cbv iota. by apply unwrapChildren_declines.
Qed.

End Fallback.

(** ** Writing a property map *)

Lemma restyle_spec_id (d : Document) x : x < length d -> restyle_spec d d x (fun st => st).
Proof.
  intros Hx. split; [apply same_tree_refl|]. split; [done|]. split; [done|].
  destruct (lookup_lt_is_Some_2 d x Hx) as [nd Hnd]. by rewrite Hnd.
Qed.

Lemma restyle_spec_trans (d1 d2 d3 : Document) x F G :
  x < length d1 ->
  restyle_spec d1 d2 x F -> restyle_spec d2 d3 x G ->
  restyle_spec d1 d3 x (fun st => G (F st)).
Proof.
  intros Hx (Ht1 & Hn1 & Ho1 & Hs1) (Ht2 & Hn2 & Ho2 & Hs2).
  split; [by eapply same_tree_trans|]. split.
  { intros y. destruct (Hn1 y) as (? & ? & ?), (Hn2 y) as (? & ? & ?).
    split_conj; congruence. }
  split.
  { intros y Hy. by rewrite Ho2, Ho1. }
  assert (x < length d2) as Hx2 by (destruct Ht1 as [E _]; lia).
  destruct (lookup_lt_is_Some_2 d1 x Hx) as [n1 Hn1x].
  destruct (lookup_lt_is_Some_2 d2 x Hx2) as [n2 Hn2x].
  rewrite Hn1x in *. rewrite Hn2x in *. by rewrite Hs2, Hs1.
Qed.

(** Writing a property map changes the style attribute of one element. *)
Lemma forEach_css_set {C} (rules : list (string * option string)) (x : NodeId)
  (c : C) (d : Document) :
  x < length d ->
  exists d',
    forEach rules (fun kv => css_set x kv.1 kv.2) c d = Ok (tt, c, d')
    /\ restyle_spec d d' x (written rules).
Proof.
  revert d. induction rules as [|[k o] rules IH]; intros d Hx.
  { exists d. split; [done|]. by apply restyle_spec_id. }
  cbn [forEach]. destruct o as [v|]; cbn [css_set fst snd].
  - set (d1 := alter (fun nd => with_style (css_update k v (style nd)) nd) x d).
    pose proof (restyle_alter d x (css_update k v)) as Hd1. fold d1 in Hd1.
    assert (x < length d1) as Hx1.
    { destruct Hd1 as [[E _] _]. lia. }
    destruct (IH d1 Hx1) as (d' & Hrun & Hspec).
    exists d'. split.
    + rewrite bind_write. exact Hrun.
    + apply (restyle_spec_trans d d1 d' x (css_update k v) (written rules));
        done.
  - destruct (IH d Hx) as (d' & Hrun & Hspec).
    exists d'. split; [|done]. by rewrite bind_ret.
Qed.

(** What [written] leaves behind for a property of the map. *)
Lemma written_lookup (rules : list (string * option string)) k v st :
  NoDup rules.*1 -> (k, Some v) ∈ rules -> v <> EmptyString ->
  css_lookup k (written rules st) = v.
Proof.
  induction rules as [|[k' o] rules IH] using rev_ind; intros Hnd Hin Hv.
  { by apply elem_of_nil in Hin. }
  unfold written. rewrite foldl_app. cbn [foldl fst snd].
  fold (written rules st).
  rewrite fmap_app in Hnd. apply NoDup_app in Hnd as (Hnd & Hnot & _).
  apply elem_of_app in Hin as [Hin|Hin].
  - assert (k <> k') as Hne.
    { intros ->. apply (Hnot k').
      + apply list_elem_of_fmap. by exists (k', Some v).
      + simpl. by left. }
    destruct o as [w|]; [|by apply IH].
    rewrite css_lookup_update_other by done. by apply IH.
  - apply list_elem_of_singleton in Hin. injection Hin as <- <-.
    by apply css_lookup_update_same.
Qed.

Section Wrap.
Variables (jodit : IJodit) (style : Style).
Implicit Types (d : Document) (c : ApplyStyle.State) (font : NodeId).

Lemma applyToElement_wrap_run (fuel : nat) (font p : NodeId)
  (before after : list NodeId) c d :
  WF d ->
  (length d + 1) * (length d + 1) <= fuel ->
  children_of d p = before ++ font :: after ->
  elementIsBlock style = false ->
  ApplyStyle.mode_ c <> Some UNWRAP ->
  alone jodit d before after
    && ApplyStyle.isSuitableElement jodit style d (Some p) false
    && negb (bool_decide (p = area jodit))
    && (negb (Dom.isBlock d (Some p)) || elementIsBlock style) = false ->
  (forall fc rest, children_of d font = fc :: rest ->
     alone jodit d [] rest
     && ApplyStyle.isSuitableElement jodit style d (Some fc) false = false) ->
  (forall k a, nth_parent k d font = Some a ->
     ApplyStyle.isSuitableElement jodit style d (Some a) true = false) ->
  suitable_nodes jodit style d (scan d font) = [] ->
  exists d',
    let tag := length d in
    ApplyStyle.applyToElement jodit style fuel font c d
    = Ok (tt, ApplyStyle.mkState (Some WRAP) (ApplyStyle.sel c), d')
    /\ type_of d' tag = Some ELEMENT_NODE
    /\ name_of d' tag = Str.toUpperCase (element style)
    /\ style_of d' tag
       = written (if bool_decide (element style = defaultTag style)
                  then default [] (options_style style) else []) []
    /\ children_of d' tag = children_of d font
    /\ children_of d' p = before ++ tag :: after
    /\ children_of d' font = []
    /\ parent_of d' font = None
    /\ (forall x, x < length d -> data_of d' x = data_of d x)
    /\ WF d'.
Proof.
  intros Hwf Hfuel Hkids Hinline Hmode Hpar Hchild Hup Hscan.
  assert (parent_of d font = Some p) as Hp.
  { apply (WF_child _ Hwf). rewrite Hkids. apply elem_of_app. right. by left. }
  assert (font < length d) as Hfont.
  { apply lookup_lt_is_Some. by eapply parent_of_Some_lookup. }
  assert (length d <= fuel) as Hfuel1 by nia.
  pose proof (children_bound d font Hwf) as Hbound.
  destruct (replace_run fuel font (element style) false
              (ApplyStyle.mkState (Some WRAP) (ApplyStyle.sel c)) d Hwf Hfont
              ltac:(lia))
    as (d1 & Hrep & Htype & Hname & Hstyle & Hk1 & Hk2 & Hp1 & _ & Hk3 & _ & _
        & _ & Hdata & Hwf1).
  cbv zeta in *. set (tag := length d) in *.
  assert (tag < length d1) as Htag.
  { apply lookup_lt_is_Some. unfold type_of in Htype.
    destruct (d1 !! tag); [by eexists|done]. }
  destruct (forEach_css_set
              (if bool_decide (element style = defaultTag style)
               then default [] (options_style style) else []) tag
              (ApplyStyle.mkState (Some WRAP) (ApplyStyle.sel c)) d1 Htag)
    as (d' & Hcss & (Htree & Hnames & Hother & Hst)).
  exists d'.
  assert (is_Some (d1 !! tag)) as [nd Hnd] by (by apply lookup_lt_is_Some).
  rewrite Hnd, Hstyle in Hst.
  destruct Htree as [Hlen Htree].
  pose proof (checks_decline jodit style fuel font p before after c d Hwf
                Hfuel Hkids Hpar Hchild Hup Hscan) as Hchecks.
  split_conj.
  - unfold ApplyStyle.applyToElement.
    rewrite (bind_Ok _ _ _ _ _ _ _ Hchecks). cbv iota.
    set (fb := ApplyStyle.fallbackWrap jodit style fuel font).
    assert (fb (ApplyStyle.mkState (Some WRAP) (ApplyStyle.sel c)) d
            = Ok (tt, ApplyStyle.mkState (Some WRAP) (ApplyStyle.sel c), d'))
      as Hfb.
    { unfold fb, ApplyStyle.fallbackWrap. rewrite Hinline, bind_ret.
      rewrite (bind_Ok _ _ _ _ _ _ _ Hrep). exact Hcss. }
    destruct c as [[[|]|] s]; first [exact Hfb | by simpl in Hmode].
  - by destruct (Htree tag) as (_ & _ & ->).
  - destruct (Hnames tag) as (-> & _). done.
  - done.
  - destruct (Htree tag) as (_ & -> & _). done.
  - destruct (Htree p) as (_ & -> & _). by apply Hk3.
  - destruct (Htree font) as (_ & -> & _). done.
  - destruct (Htree font) as (-> & _). done.
  - intros x Hx. rewrite <- Hdata by done. unfold data_of.
    rewrite Hother; [done|]. unfold tag. lia.
  - apply (same_tree_WF d1); [done|]. by split.
Qed.


(** [applyToElement] on a well-formed document with fuel for it, for an
    inline style and a mode that is not UNWRAP.  When none of the four checks
    applies, the fragment is wrapped: the mode becomes WRAP, the [font] is
    replaced, where it stood, by a new element named after the style that
    takes over its children, and the property map is written to the new
    element when the style's element is its default tag. *)
Theorem applyToElement_wraps_the_fragment (fuel : nat) (font p : NodeId)
  (before after : list NodeId) c d :
  wf d = true ->
  (length d + 1) * (length d + 1) <= fuel ->
  children_of d p = before ++ font :: after ->
  elementIsBlock style = false ->
  ApplyStyle.mode_ c <> Some UNWRAP ->
  alone jodit d before after
    && ApplyStyle.isSuitableElement jodit style d (Some p) false
    && negb (bool_decide (p = area jodit))
    && (negb (Dom.isBlock d (Some p)) || elementIsBlock style) = false ->
  (forall fc rest, children_of d font = fc :: rest ->
     alone jodit d [] rest
     && ApplyStyle.isSuitableElement jodit style d (Some fc) false = false) ->
  (forall k a, nth_parent k d font = Some a ->
     ApplyStyle.isSuitableElement jodit style d (Some a) true = false) ->
  suitable_nodes jodit style d (scan d font) = [] ->
  exists d',
    let tag := length d in
    ApplyStyle.applyToElement jodit style fuel font c d
    = Ok (tt, ApplyStyle.mkState (Some WRAP) (ApplyStyle.sel c), d')
    /\ type_of d' tag = Some ELEMENT_NODE
    /\ name_of d' tag = Str.toUpperCase (element style)
    /\ style_of d' tag
       = written (if bool_decide (element style = defaultTag style)
                  then default [] (options_style style) else []) []
    /\ children_of d' tag = children_of d font
    /\ children_of d' p = before ++ tag :: after
    /\ children_of d' font = []
    /\ parent_of d' font = None
    /\ (forall x, x < length d -> data_of d' x = data_of d x)
    /\ WF d'.
Proof. intros Hwf%wf_WF. by apply applyToElement_wrap_run. Qed.

End Wrap.

Lemma applyToElement_wraps_the_fragment_witness :
  exists d',
    ApplyStyle.applyToElement ModeExample.jodit PlainExample.red 36 2
      (ApplyStyle.mkState None []) PlainExample.doc
    = Ok (tt, ApplyStyle.mkState (Some WRAP) [], d')
    /\ outerHTML d' 0
       = "<p>a<span style='color:red;'>sel</span>b</p>"%string.
Proof.
  destruct (applyToElement_wraps_the_fragment ModeExample.jodit
              PlainExample.red 36 2 0 [1] [4] (ApplyStyle.mkState None [])
              PlainExample.doc eq_refl ltac:(vm_compute; lia) eq_refl eq_refl
              ltac:(done) eq_refl)
    as (d' & H1 & _).
  - intros fc rest H. vm_compute in H. injection H as <- <-. reflexivity.
  - intros k a H. destruct k as [|[|k]]; vm_compute in H.
    + injection H as <-. reflexivity.
    + injection H as <-. reflexivity.
    + discriminate.
  - reflexivity.
  - exists d'. split; [exact H1|].
    vm_compute in H1. injection H1 as <-. reflexivity.
Defined.

(** ** The command [justify] *)

Section JustifyCurrent.
Implicit Types (d : Document) (sel : Select).

Lemma styles_ok_new_element d d' :
  Justify.styles_ok d = true ->
  (forall x, x < length d -> data_of d' x = data_of d x) ->
  length d' = S (length d) ->
  style_of d' (length d) = [] ->
  Justify.styles_ok d' = true.
Proof.
  intros Hok Hdata Hlen Hnew. apply styles_ok_spec. intros y.
  destruct (lt_eq_lt_dec y (length d)) as [[Hy| ->]|Hy].
  - pose proof (proj1 (styles_ok_spec d) Hok y) as Hnd.
    assert (style_of d' y = style_of d y) as ->; [|done].
    specialize (Hdata y Hy). unfold data_of in Hdata. unfold style_of.
    destruct (d' !! y), (d !! y); simpl in *; congruence.
  - rewrite Hnew. constructor.
  - unfold style_of. rewrite lookup_ge_None_2 by lia. constructor.
Qed.

Lemma justify_current_run (fuel : nat) (editor : NodeId)
  (enterBlock command : string) (current : NodeId) sel d :
  WF d ->
  Justify.styles_ok d = true ->
  current < length d ->
  (length d + 3) * (length d + 3) <= fuel ->
  exists box,
    Dom.up fuel current (fun node => read (fun d => Dom.isBlock d node))
           (Some editor) sel d
    = Ok (box, sel, d)
    /\ nearest d (fun d o => Dom.isBlock d o) (Some editor) current box
    /\ match box with
       | Some b =>
           Justify.justify_current fuel editor enterBlock command
             (Some current) sel d
           = Justify.alignElement fuel command b sel d
       | None =>
           forall p pre left right post,
             children_of d p = pre ++ left ++ current :: right ++ post ->
             (forall x, x ∈ left ++ right -> Dom.isBlock d (Some x) = false) ->
             match last pre with
             | Some b => Dom.isBlock d (Some b) = true
             | None => True
             end ->
             match head post with
             | Some b => Dom.isBlock d (Some b) = true
             | None => True
             end ->
             exists d1 d',
               let wrapper := length d in
               let run := left ++ current :: right in
               let sel' :=
                 sel ++ [Saved (length sel) d; Restored (length sel) d1] in
               Dom.wrapInline fuel current (TagName enterBlock) sel d
               = Ok (wrapper, sel', d1)
               /\ Justify.justify_current fuel editor enterBlock command
                    (Some current) sel d
                  = Ok (tt, sel', d')
               /\ same_tree d1 d'
               /\ children_of d' p = pre ++ wrapper :: post
               /\ children_of d' wrapper = run
               /\ name_of d' wrapper = Str.toUpperCase enterBlock
               /\ (forall value,
                     (Str.toLowerCase command, value) ∈ Justify.alignments ->
                     Justify.textAlign d' wrapper = value)
               /\ (Str.toLowerCase command ∉ Justify.alignments.*1 ->
                     Justify.textAlign d' wrapper = EmptyString)
               /\ (forall x, x ∈ descendants d1 wrapper ->
                     type_of d1 x = Some ELEMENT_NODE ->
                     Justify.textAlign d' x = EmptyString)
               /\ (forall x property, x < length d ->
                     property <> "text-align"%string ->
                     css_get d' x property = css_get d x property)
       end.
Proof.
  intros Hwf Hok Hcur Hfuel.
  destruct (up_loop_nearest
              (fun node => read (fun d => Dom.isBlock d node))
              (fun d o => Dom.isBlock d o) (Some editor) current sel d Hwf
              Hcur ltac:(by intros o c0 d0) fuel 0 current)
    as (box & Hup & Hnear); [done|by left|intros; lia|nia|].
  exists box. split; [exact Hup|]. split; [exact Hnear|].
  destruct box as [b|].
  { unfold Justify.justify_current. unfold Dom.up.
    by rewrite (bind_Ok _ _ _ _ _ _ _ Hup). }
  intros p pre left right post Hkids Hinline Hstopl Hstopr.
  pose proof (children_bound d p Hwf) as Hbound.
  rewrite Hkids in Hbound. rewrite !length_app in Hbound.
  cbn [length] in Hbound. rewrite length_app in Hbound.
  destruct (wrapInline_run fuel current p enterBlock pre left right post sel d
              Hwf Hkids Hinline Hstopl Hstopr)
    as (d1 & Hwrap & Htype & Hname & Hkp & Hkw & _ & _ & _ & _ & Hdata & Hlen
        & Hstyle & Hwf1).
  { rewrite length_app. nia. }
  cbv zeta in *. set (wrapper := length d) in *.
  set (sel' := sel ++ [Saved (length sel) d; Restored (length sel) d1]) in *.
  assert (Justify.styles_ok d1 = true) as Hok1
    by (by apply (styles_ok_new_element d d1)).
  destruct (proj2 (alignElement_run fuel command wrapper sel' d1 Hwf1 Hok1
                     ltac:(rewrite Hlen; nia)) Htype)
    as (d' & Halign & Htree & Hval & Hkeep & Hdesc & Hcss & _ & Hnames).
  exists d1, d'. split_conj.
  - exact Hwrap.
  - unfold Justify.justify_current. unfold Dom.up.
    rewrite (bind_Ok _ _ _ _ _ _ _ Hup).
    rewrite (bind_Ok _ _ _ _ _ _ _ Hwrap). exact Halign.
  - exact Htree.
  - destruct Htree as [_ Htree]. destruct (Htree p) as (_ & -> & _). done.
  - destruct Htree as [_ Htree]. destruct (Htree wrapper) as (_ & -> & _).
    done.
  - destruct (Hnames wrapper) as (-> & _). done.
  - exact Hval.
  - intros Hno. rewrite (Hkeep Hno). unfold Justify.textAlign.
    by rewrite Hstyle.
  - exact Hdesc.
  - intros x property Hx Hprop. rewrite (Hcss x property Hprop).
    unfold css_get. f_equal. specialize (Hdata x Hx).
    unfold data_of in Hdata. unfold style_of.
    destruct (d1 !! x), (d !! x); simpl in *; congruence.
Qed.

(** The callback of [justify] for one node of the selection, on a
    well-formed document whose style attributes declare no property twice,
    with fuel for it.  The box is the nearest block among the node and its
    ancestors below the editor, and it is aligned as [alignElement] does.
    When there is none, the node and the siblings around it that are no
    blocks are wrapped in a new [enterBlock] element, which gets the
    alignment of the command, while the elements inside lose theirs. *)
Theorem justify_aligns_the_nearest_block (fuel : nat) (editor : NodeId)
  (enterBlock command : string) (current : NodeId) sel d :
  wf d = true ->
  Justify.styles_ok d = true ->
  current < length d ->
  (length d + 3) * (length d + 3) <= fuel ->
  exists box,
    Dom.up fuel current (fun node => read (fun d => Dom.isBlock d node))
           (Some editor) sel d
    = Ok (box, sel, d)
    /\ nearest d (fun d o => Dom.isBlock d o) (Some editor) current box
    /\ match box with
       | Some b =>
           Justify.justify_current fuel editor enterBlock command
             (Some current) sel d
           = Justify.alignElement fuel command b sel d
       | None =>
           forall p pre left right post,
             children_of d p = pre ++ left ++ current :: right ++ post ->
             (forall x, x ∈ left ++ right -> Dom.isBlock d (Some x) = false) ->
             match last pre with
             | Some b => Dom.isBlock d (Some b) = true
             | None => True
             end ->
             match head post with
             | Some b => Dom.isBlock d (Some b) = true
             | None => True
             end ->
             exists d1 d',
               let wrapper := length d in
               let run := left ++ current :: right in
               let sel' :=
                 sel ++ [Saved (length sel) d; Restored (length sel) d1] in
               Dom.wrapInline fuel current (TagName enterBlock) sel d
               = Ok (wrapper, sel', d1)
               /\ Justify.justify_current fuel editor enterBlock command
                    (Some current) sel d
                  = Ok (tt, sel', d')
               /\ same_tree d1 d'
               /\ children_of d' p = pre ++ wrapper :: post
               /\ children_of d' wrapper = run
               /\ name_of d' wrapper = Str.toUpperCase enterBlock
               /\ (forall value,
                     (Str.toLowerCase command, value) ∈ Justify.alignments ->
                     Justify.textAlign d' wrapper = value)
               /\ (Str.toLowerCase command ∉ Justify.alignments.*1 ->
                     Justify.textAlign d' wrapper = EmptyString)
               /\ (forall x, x ∈ descendants d1 wrapper ->
                     type_of d1 x = Some ELEMENT_NODE ->
                     Justify.textAlign d' x = EmptyString)
               /\ (forall x property, x < length d ->
                     property <> "text-align"%string ->
                     css_get d' x property = css_get d x property)
       end.
Proof. intros Hwf%wf_WF. by apply justify_current_run. Qed.

End JustifyCurrent.

(** In [<div><p>x</p>a<em>b</em>c<p>y</p></div>], with the [div] as the
    editor and the selection in the [em]: the run between the paragraphs
    becomes a centred paragraph. *)
Lemma justify_aligns_the_nearest_block_witness :
  exists sel' d',
    Justify.justify_current 144 0 "p" "justifyCenter" (Some 4) []
      InlineExample.doc
    = Ok (tt, sel', d')
    /\ outerHTML d' 0
       = "<div><p>x</p><p style='text-align:center;'>a<em>b</em>c</p><p>y</p></div>"%string.
Proof.
  destruct (justify_aligns_the_nearest_block 144 0 "p" "justifyCenter" 4 []
              InlineExample.doc eq_refl eq_refl ltac:(vm_compute; lia)
              ltac:(vm_compute; lia))
    as (box & Hup & _ & Hcase).
  vm_compute in Hup. injection Hup as <-.
  destruct (Hcase 0 [1] [3] [6] [7]) as (d1 & d' & _ & H & _);
    [reflexivity| |reflexivity|reflexivity|].
  - intros x Hx. apply list_elem_of_In in Hx. simpl in Hx.
    destruct Hx as [<-|[<-|[]]]; reflexivity.
  - eexists _, d'. split; [exact H|].
    vm_compute in H. injection H as _ <-. reflexivity.
Defined.

(** ** [toggleStyles] while unwrapping *)

Lemma cleared_NoDup rules st : NoDup st.*1 -> NoDup (cleared rules st).*1.
Proof.
  revert st. induction rules as [|kv rules IH]; intros st Hnd; [done|].
  apply (IH (css_update kv.1 EmptyString st)). by apply NoDup_css_update.
Qed.

Lemma cleared_lookup_other rules st k :
  k ∉ rules.*1 -> css_lookup k (cleared rules st) = css_lookup k st.
Proof.
  revert st. induction rules as [|kv rules IH]; intros st Hk; [done|].
  rewrite fmap_cons in Hk. apply not_elem_of_cons in Hk as [Hne Hk].
  unfold cleared. cbn [foldl]. fold (cleared rules (css_update kv.1 "" st)).
  rewrite IH by done. by apply css_lookup_update_other.
Qed.

Lemma cleared_lookup rules st k :
  NoDup st.*1 -> k ∈ rules.*1 -> css_lookup k (cleared rules st) = EmptyString.
Proof.
  revert st. induction rules as [|kv rules IH]; intros st Hnd Hk.
  { by apply elem_of_nil in Hk. }
  unfold cleared. cbn [foldl]. fold (cleared rules (css_update kv.1 "" st)).
  destruct (decide (k ∈ rules.*1)) as [Hin|Hout].
  - apply IH; [by apply NoDup_css_update|done].
  - rewrite fmap_cons in Hk. apply elem_of_cons in Hk as [->|Hk]; [|done].
    rewrite cleared_lookup_other by done. by apply css_lookup_update_clear.
Qed.

Lemma isBlock_same_tree (d d' : Document) o :
  same_tree d d' -> (forall y, name_of d' y = name_of d y) ->
  Dom.isBlock d' o = Dom.isBlock d o.
Proof.
  intros [Hlen _] Hname. destruct o as [n|]; [|done]. unfold Dom.isBlock.
  rewrite Hname. f_equal. unfold Dom.isNode.
  destruct (decide (n < length d)) as [Hn|Hn].
  - rewrite !bool_decide_eq_true_2; [done|..]; apply lookup_lt_is_Some; lia.
  - rewrite !bool_decide_eq_false_2; [done|..];
      rewrite lookup_lt_is_Some; lia.
Qed.

Section Toggle.
Variables (jodit : IJodit) (style : Style).
Implicit Types (d : Document) (c : ApplyStyle.State).

(** With the mode UNWRAP the loop over the property map clears every
    property. *)
Lemma forEach_clear (rules : list (string * option string)) (elm : NodeId)
  c d :
  ApplyStyle.mode_ c = Some UNWRAP ->
  elm < length d ->
  exists d1,
    forEach rules (fun kv =>
      let rule := kv.1 in
      let value := kv.2 in
      let* m := ApplyStyle.get_mode in
      let* current := read (fun d => css_get d elm rule) in
      if bool_decide (m = Some UNWRAP)
         || bool_decide (Some current = normalizeCssValue rule value)
      then
        css_set elm rule (Some EmptyString) ;;
        let* m := ApplyStyle.get_mode in
        match m with
        | None => ApplyStyle.set_mode UNWRAP
        | Some _ => ret tt
        end
      else
        css_set elm rule value ;;
        let* m := ApplyStyle.get_mode in
        match m with
        | None => ApplyStyle.set_mode WRAP
        | Some _ => ret tt
        end) c d
    = Ok (tt, c, d1)
    /\ restyle_spec d d1 elm (cleared rules).
Proof.
  intros Hmode. revert d.
  induction rules as [|[k o] rules IH]; intros d Helm.
  { exists d. split; [done|]. by apply restyle_spec_id. }
  pose proof (restyle_alter d elm (css_update k EmptyString)) as Hd1.
  set (d1 := alter _ elm d) in Hd1.
  assert (elm < length d1) as Helm1.
  { destruct Hd1 as [[E _] _]. lia. }
  destruct (IH d1 Helm1) as (d2 & Hrun & Hspec).
  exists d2. split.
  - cbn [forEach]. unfold bind at 1. unfold bind at 1.
    unfold ApplyStyle.get_mode at 1. unfold bind at 1, get at 1, ret at 1.
    rewrite Hmode. rewrite bind_read.
    rewrite (bool_decide_eq_true_2 (Some UNWRAP = Some UNWRAP)) by done.
    cbn [orb fst snd]. unfold bind at 1. unfold css_set at 1, write at 1.
    unfold bind at 1, ApplyStyle.get_mode at 1, bind at 1, get at 1, ret at 1.
    rewrite Hmode. unfold ret at 1. exact Hrun.
  - apply (restyle_spec_trans d d1 d2 elm (css_update k EmptyString)
             (cleared rules)); done.
Qed.

Lemma toggleStyles_clear_run (fuel : nat) (elm g : NodeId)
  (pre post : list NodeId) (rules : list (string * option string)) c d :
  WF d ->
  NoDup (style_of d elm).*1 ->
  ApplyStyle.mode_ c = Some UNWRAP ->
  options_style style = Some rules ->
  Str.toLowerCase (name_of d elm) = defaultTag style ->
  children_of d g = pre ++ elm :: post ->
  length (children_of d elm) <= fuel ->
  exists d1,
    same_tree d d1
    /\ (forall y, y <> elm -> d1 !! y = d !! y)
    /\ (forall y, name_of d1 y = name_of d y
                  /\ value_of d1 y = value_of d y
                  /\ attributes_of d1 y = attributes_of d y)
    /\ (forall k, k ∈ rules.*1 -> css_get d1 elm k = EmptyString)
    /\ (forall k, k ∉ rules.*1 -> css_get d1 elm k = css_get d elm k)
    /\ if (if Dom.isBlock d (Some elm)
           then bool_decide (defaultTag style = element style)
           else bool_decide (style_of d1 elm = []))
       then exists d',
              ApplyStyle.toggleStyles style fuel elm c d = Ok (tt, c, d')
              /\ Dom.unwrap fuel elm c d1 = Ok (tt, c, d')
              /\ children_of d' g = pre ++ children_of d elm ++ post
              /\ children_of d' elm = []
              /\ parent_of d' elm = None
       else ApplyStyle.toggleStyles style fuel elm c d = Ok (tt, c, d1).
Proof.
  intros Hwf Hnd Hmode Hrules Hname Hkids Hfuel.
  assert (parent_of d elm = Some g) as Hp.
  { apply (WF_child _ Hwf). rewrite Hkids. apply elem_of_app. right. by left. }
  assert (elm < length d) as Helm.
  { apply lookup_lt_is_Some. by eapply parent_of_Some_lookup. }
  destruct (forEach_clear rules elm c d Hmode Helm)
    as (d1 & Hloop & Htree & Hnames & Hother & Hst).
  destruct (lookup_lt_is_Some_2 d elm Helm) as [nd Hnd']. rewrite Hnd' in Hst.
  exists d1. split; [done|]. split; [done|]. split; [done|]. split.
  { intros k Hk. unfold css_get. rewrite Hst. by apply cleared_lookup. }
  split.
  { intros k Hk. unfold css_get. rewrite Hst.
    by apply cleared_lookup_other. }
  assert (WF d1) as Hwf1 by (by apply (same_tree_WF d)).
  assert (forall x, children_of d1 x = children_of d x) as Hkids1.
  { intros x. destruct Htree as [_ Htree].
    by destruct (Htree x) as (_ & -> & _). }
  assert (Dom.isBlock d1 (Some elm) = Dom.isBlock d (Some elm)) as Hblock.
  { apply isBlock_same_tree; [done|]. intros y. by destruct (Hnames y). }
  assert (ApplyStyle.toggleStyles style fuel elm c d
          = (if (if Dom.isBlock d (Some elm)
                 then bool_decide (defaultTag style = element style)
                 else bool_decide (style_of d1 elm = []))
             then
               Dom.unwrap fuel elm ;;
               let* m := ApplyStyle.get_mode in
               match m with
               | None => ApplyStyle.set_mode UNWRAP
               | Some _ => ret tt
               end
             else ret tt) c d1) as Htoggle.
  { unfold ApplyStyle.toggleStyles. rewrite bind_read.
    rewrite Hrules. rewrite (bool_decide_eq_true_2 _ Hname).
    erewrite bind_Ok by exact Hloop.
    rewrite !bind_read. rewrite Hblock, Hname.
    destruct (Dom.isBlock d (Some elm)),
      (bool_decide (defaultTag style = element style)),
      (bool_decide (style_of d1 elm = [])); reflexivity. }
  rewrite Htoggle.
  destruct (unwrap_effect fuel elm g pre post c d1 Hwf1)
    as (d' & Hun & Hk1 & Hk2 & Hk3 & _);
    [by rewrite Hkids1|by rewrite Hkids1|].
  rewrite Hkids1 in Hk1.
  assert ((Dom.unwrap fuel elm ;;
           let* m := ApplyStyle.get_mode in
           match m with
           | None => ApplyStyle.set_mode UNWRAP
           | Some _ => ret tt
           end) c d1 = Ok (tt, c, d')) as Hthen.
  { rewrite (bind_Ok _ _ _ _ _ _ _ Hun).
    unfold ApplyStyle.get_mode, bind, get, ret. by rewrite Hmode. }
  destruct (if Dom.isBlock d (Some elm)
            then bool_decide (defaultTag style = element style)
            else bool_decide (style_of d1 elm = [])); [|done].
  by exists d'.
Qed.

(** [toggleStyles] in the mode UNWRAP, on an element that carries the default
    tag of a style with a property map, in a well-formed document: every
    property of the map is removed from the element's style, the other
    properties stay, and the mode is kept.  The element is then unwrapped
    when it is no block and has no declaration left (or is a block and the
    default tag is the style's element), and stays otherwise. *)
Theorem toggleStyles_clears_when_unwrapping (fuel : nat) (elm g : NodeId)
  (pre post : list NodeId) (rules : list (string * option string)) c d :
  wf d = true ->
  NoDup (style_of d elm).*1 ->
  ApplyStyle.mode_ c = Some UNWRAP ->
  options_style style = Some rules ->
  Str.toLowerCase (name_of d elm) = defaultTag style ->
  children_of d g = pre ++ elm :: post ->
  length (children_of d elm) <= fuel ->
  exists d1,
    same_tree d d1
    /\ (forall y, y <> elm -> d1 !! y = d !! y)
    /\ (forall y, name_of d1 y = name_of d y
                  /\ value_of d1 y = value_of d y
                  /\ attributes_of d1 y = attributes_of d y)
    /\ (forall k, k ∈ rules.*1 -> css_get d1 elm k = EmptyString)
    /\ (forall k, k ∉ rules.*1 -> css_get d1 elm k = css_get d elm k)
    /\ if (if Dom.isBlock d (Some elm)
           then bool_decide (defaultTag style = element style)
           else bool_decide (style_of d1 elm = []))
       then exists d',
              ApplyStyle.toggleStyles style fuel elm c d = Ok (tt, c, d')
              /\ Dom.unwrap fuel elm c d1 = Ok (tt, c, d')
              /\ children_of d' g = pre ++ children_of d elm ++ post
              /\ children_of d' elm = []
              /\ parent_of d' elm = None
       else ApplyStyle.toggleStyles style fuel elm c d = Ok (tt, c, d1).
Proof. intros Hwf%wf_WF. by apply toggleStyles_clear_run. Qed.

End Toggle.

(** In [<p><span style='color:red;font-size:12px'>a</span>b</p>], while
    unwrapping: a style that asks for the colour only leaves the [span]
    with its size, a style that asks for both removes the [span]. *)
Lemma toggleStyles_clears_when_unwrapping_witness :
  (exists d',
     ApplyStyle.toggleStyles PlainExample.red 5 1
       (ApplyStyle.mkState (Some UNWRAP) []) StyledExample.doc
     = Ok (tt, ApplyStyle.mkState (Some UNWRAP) [], d')
     /\ outerHTML d' 0
        = "<p><span style='font-size:12px;'>a</span>b</p>"%string)
  /\ (exists d',
        ApplyStyle.toggleStyles StyledExample.big_red 5 1
          (ApplyStyle.mkState (Some UNWRAP) []) StyledExample.doc
        = Ok (tt, ApplyStyle.mkState (Some UNWRAP) [], d')
        /\ outerHTML d' 0 = "<p>ab</p>"%string).
Proof.
  split.
  - destruct (toggleStyles_clears_when_unwrapping PlainExample.red 5 1 0 []
                [3] [("color", Some "red")]%string
                (ApplyStyle.mkState (Some UNWRAP) []) StyledExample.doc)
      as (d1 & _ & _ & _ & _ & H5 & H);
      [reflexivity|apply (bool_decide_unpack _); by vm_compute
      |reflexivity|reflexivity|reflexivity|reflexivity|vm_compute; lia|].
    exists d1.
    destruct (Dom.isBlock StyledExample.doc (Some 1)) eqn:Hb;
      [by vm_compute in Hb|].
    destruct (bool_decide (style_of d1 1 = [])) eqn:Hs.
    + apply bool_decide_eq_true_1 in Hs.
      assert ("font-size"%string ∉ ([("color"%string, Some "red"%string)].*1)) as Hno
        by (apply (bool_decide_unpack _); by vm_compute).
      specialize (H5 "font-size"%string Hno).
      unfold css_get in H5. rewrite Hs in H5. by vm_compute in H5.
    + split; [exact H|]. vm_compute in H. injection H as <-. reflexivity.
  - destruct (toggleStyles_clears_when_unwrapping StyledExample.big_red 5 1 0
                [] [3] [("color", Some "red"); ("font-size", Some "12px")]%string
                (ApplyStyle.mkState (Some UNWRAP) []) StyledExample.doc)
      as (d1 & _ & _ & _ & _ & _ & H);
      [reflexivity|apply (bool_decide_unpack _); by vm_compute
      |reflexivity|reflexivity|reflexivity|reflexivity|vm_compute; lia|].
    destruct (Dom.isBlock StyledExample.doc (Some 1)) eqn:Hb;
      [by vm_compute in Hb|].
    destruct (bool_decide (style_of d1 1 = [])) eqn:Hs.
    + destruct H as (d' & H & _). exists d'. split; [exact H|].
      vm_compute in H. injection H as <-. reflexivity.
    + vm_compute in H. injection H as <-. by vm_compute in Hs.
Defined.
(** ** The search of [Dom.findWithCurrent] *)

Section FindWithCurrent.
Context {C : Type}.
Implicit Types (d : Document) (n node root nx : NodeId)
  (before after : list NodeId) (f : Document -> option NodeId -> bool).

Lemma explored_cons h d sibling child n rest :
  explored h d sibling child (n :: rest)
  = (n :: match h with
          | S h' =>
              match child_prop d n child with
              | Some c0 =>
                  explored h' d sibling child
                    (c0 :: ahead_of_child sibling child (children_of d n))
              | None => []
              end
          | 0 => []
          end) ++ explored h d sibling child rest.
Proof. by destruct h. Qed.

(** The loop of [Dom.findWithCurrent], started on a child of the root. *)
Lemma findWithCurrent_explored (condition : Dom.NodeCondition (C := C)) f d :
  WF d -> reads_as condition f ->
  forall fuel node root j before after sibling child h (c : C),
    children_of d root = before ++ node :: after ->
    is_Some (nth_parent j d node) ->
    (length d - j) * S (length d) + length (ahead sibling before after)
    < fuel ->
    length d <= h + j ->
    Dom.findWithCurrent fuel node condition root sibling child c d
    = Ok (first_match f d
            (explored h d sibling child
               (node :: ahead sibling before after)), c, d).
Proof.
  intros Hwf Hcond fuel. induction fuel as [fuel IH] using lt_wf_ind.
  intros node root j before after sibling child h c Hkids Hj Hfuel Hh.
  destruct fuel as [|fl]; [lia|].
  assert (parent_of d node = Some root) as Hp.
  { apply (WF_child _ Hwf). rewrite Hkids. apply elem_of_app. right. by left. }
  assert (node < length d) as Hnv
    by (by apply parent_of_Some_lookup, lookup_lt_is_Some in Hp).
  pose proof (nth_parent_is_Some_lt d node j Hwf Hnv Hj) as Hjlt.
  assert (node <> root) as Hnr.
  { intros ->. assert (nth_parent 1 d root = Some root) as Hc
      by (simpl; by rewrite Hp).
    by apply WF_no_cycle in Hc. }
  destruct h as [|h']; [lia|].
  assert (length d - j = S (length d - S j)) as Hsub by lia.
  rewrite Hsub, Nat.mul_succ_l in Hfuel.
  set (M := (length d - S j) * S (length d)) in *.
  cbn [Dom.findWithCurrent]. unfold bind at 1. rewrite Hcond.
  rewrite explored_cons, <- app_comm_cons, first_match_cons.
  destruct (f d (Some node)) eqn:Hfn; [done|].
  rewrite bind_read.
  set (sub := match child_prop d node child with
              | Some c0 =>
                  explored h' d sibling child
                    (c0 :: ahead_of_child sibling child (children_of d node))
              | None => []
              end).
  rewrite first_match_app.
  match goal with |- bind ?m _ _ _ = _ =>
    assert (m c d = Ok (first_match f d sub, c, d)) as Hone
  end.
  { unfold sub. destruct (child_prop d node child) as [c0|] eqn:Hc0; [|done].
    destruct (child_step d node child c0 sibling Hc0) as (b0 & a0 & Hnk & Ha0).
    rewrite <- Ha0.
    assert (parent_of d c0 = Some node) as Hpc.
    { apply (WF_child _ Hwf). rewrite Hnk. apply elem_of_app. right.
      by left. }
    pose proof (children_bound d node Hwf) as Hbound.
    rewrite Hnk, length_app in Hbound. cbn [length] in Hbound.
    pose proof (ahead_length sibling b0 a0) as Hal.
    apply (IH fl ltac:(lia) c0 node (S j) b0 a0 sibling child h' c);
      [done| |fold M; lia|lia].
    simpl. by rewrite Hpc. }
  rewrite (bind_Ok _ _ _ _ _ _ _ Hone).
  destruct (first_match f d sub) as [r|]; [done|].
  pose proof (sibling_prop_ahead d node root before after sibling Hwf Hkids)
    as Hsib.
  destruct (ahead sibling before after) as [|nx rest] eqn:Hahead;
    cbn [head] in Hsib.
  - (* the last sibling: the search climbs to the root and ends *)
    destruct fl as [|[|f2]]; [lia|lia|].
    assert (Dom.findWithCurrent_climb (C := C) (S (S f2)) (Some node) root
              sibling c d = Ok (Some root, c, d)) as Hclimb.
    { cbn [Dom.findWithCurrent_climb]. rewrite bind_read, Hsib.
      rewrite (bool_decide_eq_true_2 (None = None)) by done.
      rewrite (bool_decide_eq_false_2 (node = root)) by done.
      cbn [andb negb]. rewrite bind_read, Hp. rewrite bind_read.
      rewrite (bool_decide_eq_true_2 (root = root)) by done.
      cbn [negb]. by rewrite andb_false_r. }
    rewrite (bind_Ok _ _ _ _ _ _ _ Hclimb).
    match goal with |- bind ?m _ _ _ = _ =>
      assert (m c d = Ok (Some root, c, d)) as Hstep
    end.
    { rewrite bind_read.
      rewrite (bool_decide_eq_true_2 (root = root)) by done.
      by destruct (sibling_prop d root sibling). }
    rewrite (bind_Ok _ _ _ _ _ _ _ Hstep).
    by rewrite (bool_decide_eq_true_2 (root = root)).
  - destruct (ahead_step sibling before after node nx rest Hahead)
      as (before' & after' & Hsplit & Hahead').
    assert (children_of d root = before' ++ nx :: after') as Hkids'
      by (by rewrite Hkids).
    assert (parent_of d nx = Some root) as Hpn.
    { apply (WF_child _ Hwf). rewrite Hkids'. apply elem_of_app. right.
      by left. }
    assert (nx <> root) as Hxr.
    { intros ->. assert (nth_parent 1 d root = Some root) as Hc
        by (simpl; by rewrite Hpn).
      by apply WF_no_cycle in Hc. }
    assert (is_Some (nth_parent j d nx)) as Hjn.
    { destruct j as [|j]; [by eexists|]. simpl in Hj |- *.
      by rewrite Hp in Hj; rewrite Hpn. }
    cbn [length] in Hfuel.
    destruct fl as [|f2]; [lia|].
    assert (Dom.findWithCurrent_climb (C := C) (S f2) (Some node) root
              sibling c d = Ok (Some node, c, d)) as Hclimb.
    { cbn [Dom.findWithCurrent_climb]. rewrite bind_read, Hsib.
      by rewrite (bool_decide_eq_false_2 (Some nx = None)). }
    rewrite (bind_Ok _ _ _ _ _ _ _ Hclimb).
    match goal with |- bind ?m _ _ _ = _ =>
      assert (m c d = Ok (Some nx, c, d)) as Hstep
    end.
    { rewrite bind_read, Hsib.
      by rewrite (bool_decide_eq_false_2 (node = root)). }
    rewrite (bind_Ok _ _ _ _ _ _ _ Hstep).
    rewrite (bool_decide_eq_false_2 (nx = root)) by done.
    rewrite <- Hahead'.
    apply (IH (S f2) ltac:(lia) nx root j before' after' sibling child (S h')
             c); [done|done| |lia].
    rewrite Hahead'. rewrite Hsub, Nat.mul_succ_l. fold M. lia.
Qed.

Lemma findWithCurrent_run (fuel : nat) (node root : NodeId)
  (condition : Dom.NodeCondition (C := C))
  (f : Document -> option NodeId -> bool)
  (sibling : SiblingProp) (child : ChildProp)
  (before after : list NodeId) (c : C) (d : Document) :
  WF d ->
  children_of d root = before ++ node :: after ->
  (length d + 1) * (length d + 1) <= fuel ->
  reads_as condition f ->
  Dom.findWithCurrent fuel node condition root sibling child c d
  = Ok (first_match f d
          (explored (length d) d sibling child
             (node :: ahead sibling before after)), c, d).
Proof.
  intros Hwf Hkids Hfuel Hcond.
  assert ((length d + 1) * (length d + 1)
          = length d * S (length d) + length d + 1) as E by ring.
  rewrite E in Hfuel. clear E.
  pose proof (children_bound d root Hwf) as Hbound.
  rewrite Hkids, length_app in Hbound. cbn [length] in Hbound.
  pose proof (ahead_length sibling before after) as Hal.
  apply (findWithCurrent_explored condition f d Hwf Hcond fuel node root 0
           before after sibling child (length d) c); [done|by eexists| |lia].
  rewrite Nat.sub_0_r. set (M := length d * S (length d)) in *. lia.
Qed.

(** [Dom.findWithCurrent], started on a child of the root with a condition
    that only reads the document, on a well-formed document with fuel for
    it: the search completes, changes nothing, and returns the first node
    that satisfies the condition among the node itself and the siblings
    ahead of it, each followed by everything below it, from the child at
    which the search enters it on; it returns nothing when no such node
    satisfies the condition. *)
Theorem findWithCurrent_returns_the_first_match (fuel : nat)
  (node root : NodeId) (condition : Dom.NodeCondition (C := C))
  (f : Document -> option NodeId -> bool)
  (sibling : SiblingProp) (child : ChildProp)
  (before after : list NodeId) (c : C) (d : Document) :
  wf d = true ->
  children_of d root = before ++ node :: after ->
  (length d + 1) * (length d + 1) <= fuel ->
  reads_as condition f ->
  Dom.findWithCurrent fuel node condition root sibling child c d
  = Ok (first_match f d
          (explored (length d) d sibling child
             (node :: ahead sibling before after)), c, d).
Proof. intros Hwf%wf_WF. by apply findWithCurrent_run. Qed.

End FindWithCurrent.

(** In [<div><a></a><p><b><i></i></b></p></div>], from the [a]: the [i]
    is found, two levels below the next sibling. *)
Lemma findWithCurrent_returns_the_first_match_witness :
  Dom.findWithCurrent 36 1
    (ApplyStyle.condition (fun d o => Dom.isTag d o "i")) 0 PnextSibling
    PfirstChild tt DeepExample.doc
  = Ok (Some 4, tt, DeepExample.doc).
Proof.
  rewrite (findWithCurrent_returns_the_first_match 36 1 0 _
             (fun d o => Dom.isTag d o "i") PnextSibling PfirstChild [] [2]
             tt DeepExample.doc);
    [reflexivity|reflexivity|reflexivity|vm_compute; lia|by intros o c d].
Defined.
(** ** One instance of one module *)

Section OneInstance.
Context {Component Options : Type}.
Implicit Types (modules : gmap string (View.ModuleValue Component Options))
  (mi : gmap string Component) (options : option Options).

(** [View.getInstance] of [core/view/view.ts], for a name registered with
    a constructor function: the instance is made with the options of the
    first request and kept; every later request for the name, whatever its
    options, returns that instance and leaves the instances as they are,
    and the instances of the other modules are never touched. *)
Theorem getInstance_makes_one_instance modules moduleName options options' mi
  make :
  modules !! moduleName = Some (View.Constructor _ _ make) ->
  exists instance mi',
    View.getInstance _ _ modules moduleName options mi = Ok (instance, mi')
    /\ View.getInstance _ _ modules moduleName options' mi'
       = Ok (instance, mi')
    /\ (mi !! moduleName = None -> instance = make options)
    /\ (forall cached, mi !! moduleName = Some cached ->
          instance = cached /\ mi' = mi)
    /\ (forall other, other <> moduleName -> mi' !! other = mi !! other).
Proof.
  intros Hreg.
  destruct (getInstance_registered modules moduleName options mi make Hreg)
    as (instance & mi' & Hrun & _ & Hcase & Hagain).
  exists instance, mi'. split; [done|]. split; [by apply Hagain|].
  destruct (mi !! moduleName) as [cached|] eqn:E.
  - destruct Hcase as [-> ->]. split; [done|]. split; [|done].
    by intros ? [= <-].
  - destruct Hcase as [-> ->]. split; [done|]. split; [done|].
    intros other Hne. by rewrite lookup_insert_ne.
Qed.

End OneInstance.

(** The options of the second request are not used. *)
Lemma getInstance_makes_one_instance_witness :
  exists mi',
    View.getInstance _ _ InstanceExample.modules "Dom" (Some 1) ∅
    = Ok ("a Dom for 1"%string, mi')
    /\ View.getInstance _ _ InstanceExample.modules "Dom" (Some 2) mi'
       = Ok ("a Dom for 1"%string, mi').
Proof.
  destruct (getInstance_makes_one_instance InstanceExample.modules
              "Dom"%string (Some 1) (Some 2) ∅ _ eq_refl)
    as (instance & mi' & H1 & H2 & H3 & _).
  rewrite (H3 eq_refl) in H1, H2. by exists mi'.
Defined.
(** ** The fallback of [applyToElement] for a block style *)

(** With a condition that only reads the document the closure does not
    matter to [Dom.up]. *)
Lemma up_loop_any_closure {C} (condition : Dom.NodeCondition (C := C)) f root
  (d : Document) :
  reads_as condition f ->
  forall fuel start (c c' : C) r,
    Dom.up_loop fuel start condition root c d = Ok (r, c, d) ->
    Dom.up_loop fuel start condition root c' d = Ok (r, c', d).
Proof.
  intros Hcond. induction fuel as [|fuel IH]; intros start c c' r; [done|].
  cbn [Dom.up_loop]. unfold bind at 1 3. rewrite !Hcond.
  destruct (f d (Some start)).
  { unfold ret. by intros [= <-]. }
  rewrite !bind_read. destruct (parent_of d start) as [p|].
  - destruct (bool_decide (Some start = root)).
    { unfold ret. by intros [= <-]. }
    destruct (bool_decide (Some p = root)).
    { unfold ret. by intros [= <-]. }
    apply IH.
  - unfold ret. by intros [= <-].
Qed.

Section Block.
Variables (jodit : IJodit) (style : Style).
Implicit Types (d : Document) (c : ApplyStyle.State) (font : NodeId).

Lemma applyToElement_block_run (fuel : nat) (font p : NodeId)
  (before after : list NodeId) c d :
  WF d ->
  (length d + 1) * (length d + 1) <= fuel ->
  children_of d p = before ++ font :: after ->
  elementIsBlock style = true ->
  ApplyStyle.mode_ c <> Some UNWRAP ->
  alone jodit d before after
    && ApplyStyle.isSuitableElement jodit style d (Some p) false
    && negb (bool_decide (p = area jodit))
    && (negb (Dom.isBlock d (Some p)) || elementIsBlock style) = false ->
  (forall fc rest, children_of d font = fc :: rest ->
     alone jodit d [] rest
     && ApplyStyle.isSuitableElement jodit style d (Some fc) false = false) ->
  (forall k a, nth_parent k d font = Some a ->
     ApplyStyle.isSuitableElement jodit style d (Some a) true = false) ->
  suitable_nodes jodit style d (scan d font) = [] ->
  exists box,
    Dom.up fuel font (ApplyStyle.condition (fun d node => Dom.isBlock d node))
           (Some (area jodit)) c d
    = Ok (box, c, d)
    /\ nearest d (fun d o => Dom.isBlock d o) (Some (area jodit)) font box
    /\ match box with
       | None => True
       | Some b =>
           exists d',
             let tag := length d in
             ApplyStyle.applyToElement jodit style fuel font c d
             = Ok (tt, ApplyStyle.mkState (Some WRAP) (ApplyStyle.sel c), d')
             /\ type_of d' tag = Some ELEMENT_NODE
             /\ name_of d' tag = Str.toUpperCase (element style)
             /\ style_of d' tag
                = written (if bool_decide (element style = defaultTag style)
                           then default [] (options_style style) else []) []
             /\ children_of d' tag = children_of d b
             /\ parent_of d' tag = parent_of d b
             /\ (forall q pre post,
                   children_of d q = pre ++ b :: post ->
                   children_of d' q = pre ++ tag :: post)
             /\ children_of d' b = []
             /\ parent_of d' b = None
             /\ (forall x, x < length d -> data_of d' x = data_of d x)
             /\ WF d'
       end.
Proof.
  intros Hwf Hfuel Hkids Hblock Hmode Hpar Hchild Hup Hscan.
  assert (parent_of d font = Some p) as Hp.
  { apply (WF_child _ Hwf). rewrite Hkids. apply elem_of_app. right. by left. }
  assert (font < length d) as Hfont.
  { apply lookup_lt_is_Some. by eapply parent_of_Some_lookup. }
  assert (length d <= fuel) as Hfuel1 by nia.
  destruct (up_loop_nearest
              (ApplyStyle.condition (fun d node => Dom.isBlock d node))
              (fun d o => Dom.isBlock d o) (Some (area jodit)) font c d Hwf
              Hfont (reads_as_condition _) fuel 0 font)
    as (box & Hrun & Hnear); [done|by left|intros; lia|lia|].
  exists box. split; [exact Hrun|]. split; [exact Hnear|].
  destruct box as [b|]; [|done].
  assert (b < length d) as Hb.
  { destruct Hnear as (k & Hk & _). apply (ancestor_valid d b font Hwf);
      [by exists k|done]. }
  pose proof (children_bound d b Hwf) as Hbound.
  set (c' := ApplyStyle.mkState (Some WRAP) (ApplyStyle.sel c)).
  assert (Dom.up fuel font
            (ApplyStyle.condition (fun d node => Dom.isBlock d node))
            (Some (area jodit)) c' d = Ok (Some b, c', d)) as Hrun'.
  { unfold Dom.up in *.
    apply (up_loop_any_closure _ (fun d o => Dom.isBlock d o) _ d
             (reads_as_condition _) fuel font c c' (Some b) Hrun). }
  destruct (replace_run fuel b (element style) false c' d Hwf Hb ltac:(lia))
    as (d1 & Hrep & Htype & Hname & Hstyle & Hk1 & Hk2 & Hp1 & Hp2 & Hk3 & _
        & _ & _ & Hdata & Hwf1).
  cbv zeta in *. set (tag := length d) in *.
  assert (tag < length d1) as Htag.
  { apply lookup_lt_is_Some. unfold type_of in Htype.
    destruct (d1 !! tag); [by eexists|done]. }
  destruct (forEach_css_set
              (if bool_decide (element style = defaultTag style)
               then default [] (options_style style) else []) tag c' d1 Htag)
    as (d' & Hcss & (Htree & Hnames & Hother & Hst)).
  exists d'.
  assert (is_Some (d1 !! tag)) as [nd Hnd] by (by apply lookup_lt_is_Some).
  rewrite Hnd, Hstyle in Hst.
  destruct Htree as [Hlen Htree].
  split_conj.
  - unfold ApplyStyle.applyToElement.
    rewrite (bind_Ok _ _ _ _ _ _ _
               (checks_decline jodit style fuel font p before after c d Hwf Hfuel
                  Hkids
                  Hpar Hchild Hup Hscan)).
    cbv iota.
    set (fb := ApplyStyle.fallbackWrap jodit style fuel font).
    assert (fb c' d = Ok (tt, c', d')) as Hfb.
    { unfold fb, ApplyStyle.fallbackWrap. rewrite Hblock.
      unfold bind at 1. unfold bind at 1. rewrite Hrun'.
      unfold ret at 1. rewrite (bind_Ok _ _ _ _ _ _ _ Hrep). exact Hcss. }
    unfold c' in Hfb.
    destruct c as [[[|]|] s]; first [exact Hfb | by simpl in Hmode].
  - by destruct (Htree tag) as (_ & _ & ->).
  - destruct (Hnames tag) as (-> & _). done.
  - done.
  - destruct (Htree tag) as (_ & -> & _). done.
  - destruct (Htree tag) as (-> & _). done.
  - intros q pre post Hq. destruct (Htree q) as (_ & -> & _). by apply Hk3.
  - destruct (Htree b) as (_ & -> & _). done.
  - destruct (Htree b) as (-> & _). done.
  - intros x Hx. rewrite <- Hdata by done. unfold data_of.
    rewrite Hother; [done|]. unfold tag. lia.
  - apply (same_tree_WF d1); [done|]. by split.
Qed.

(** [applyToElement] on a well-formed document with fuel for it, for a block
    style and a mode that is not UNWRAP.  When none of the four checks
    applies and there is a block among the fragment and its ancestors below
    the editing area, the mode becomes WRAP and the nearest such block is
    replaced, where it stood, by a new element named after the style that
    takes over its children; the property map is written to the new element
    when the style's element is its default tag. *)
Theorem applyToElement_replaces_the_block (fuel : nat) (font p : NodeId)
  (before after : list NodeId) c d :
  wf d = true ->
  (length d + 1) * (length d + 1) <= fuel ->
  children_of d p = before ++ font :: after ->
  elementIsBlock style = true ->
  ApplyStyle.mode_ c <> Some UNWRAP ->
  alone jodit d before after
    && ApplyStyle.isSuitableElement jodit style d (Some p) false
    && negb (bool_decide (p = area jodit))
    && (negb (Dom.isBlock d (Some p)) || elementIsBlock style) = false ->
  (forall fc rest, children_of d font = fc :: rest ->
     alone jodit d [] rest
     && ApplyStyle.isSuitableElement jodit style d (Some fc) false = false) ->
  (forall k a, nth_parent k d font = Some a ->
     ApplyStyle.isSuitableElement jodit style d (Some a) true = false) ->
  suitable_nodes jodit style d (scan d font) = [] ->
  exists box,
    Dom.up fuel font (ApplyStyle.condition (fun d node => Dom.isBlock d node))
           (Some (area jodit)) c d
    = Ok (box, c, d)
    /\ nearest d (fun d o => Dom.isBlock d o) (Some (area jodit)) font box
    /\ match box with
       | None => True
       | Some b =>
           exists d',
             let tag := length d in
             ApplyStyle.applyToElement jodit style fuel font c d
             = Ok (tt, ApplyStyle.mkState (Some WRAP) (ApplyStyle.sel c), d')
             /\ type_of d' tag = Some ELEMENT_NODE
             /\ name_of d' tag = Str.toUpperCase (element style)
             /\ style_of d' tag
                = written (if bool_decide (element style = defaultTag style)
                           then default [] (options_style style) else []) []
             /\ children_of d' tag = children_of d b
             /\ parent_of d' tag = parent_of d b
             /\ (forall q pre post,
                   children_of d q = pre ++ b :: post ->
                   children_of d' q = pre ++ tag :: post)
             /\ children_of d' b = []
             /\ parent_of d' b = None
             /\ (forall x, x < length d -> data_of d' x = data_of d x)
             /\ WF d'
       end.
Proof. intros Hwf%wf_WF. by apply applyToElement_block_run. Qed.

End Block.

(** In [<div><p>a<font>sel</font>b</p></div>], with the [div] as the editing
    area: the paragraph becomes a heading. *)
Lemma applyToElement_replaces_the_block_witness :
  exists d',
    ApplyStyle.applyToElement ModeExample.jodit BlockExample.heading 49 3
      (ApplyStyle.mkState None []) BlockExample.doc
    = Ok (tt, ApplyStyle.mkState (Some WRAP) [], d')
    /\ outerHTML d' 0 = "<div><h1>a<font>sel</font>b</h1></div>"%string.
Proof.
  destruct (applyToElement_replaces_the_block ModeExample.jodit
              BlockExample.heading 49 3 1 [2] [5] (ApplyStyle.mkState None [])
              BlockExample.doc eq_refl ltac:(vm_compute; lia) eq_refl eq_refl
              ltac:(done) eq_refl)
    as (box & Hup & _ & H).
  - intros fc rest H. vm_compute in H. injection H as <- <-. reflexivity.
  - intros k a H. destruct k as [|[|[|k]]]; vm_compute in H.
    + injection H as <-. reflexivity.
    + injection H as <-. reflexivity.
    + injection H as <-. reflexivity.
    + discriminate.
  - reflexivity.
  - vm_compute in Hup. injection Hup as <-.
    destruct H as (d' & H1 & _). exists d'. split; [exact H1|].
    vm_compute in H1. injection H1 as <-. reflexivity.
Defined.
(** ** Wrapping and unwrapping *)

Section RoundTrip.
Implicit Types (d : Document) (sel : Select).

(** Two tables with the same parents, children and data are the same. *)
Lemma document_ext d d' :
  length d = length d' ->
  (forall x, parent_of d x = parent_of d' x) ->
  (forall x, children_of d x = children_of d' x) ->
  (forall x, data_of d x = data_of d' x) ->
  d = d'.
Proof.
  intros Hlen Hpar Hkids Hdata. apply list_eq. intros x.
  specialize (Hpar x). specialize (Hkids x). specialize (Hdata x).
  unfold parent_of, children_of, data_of in *.
  destruct (d !! x) as [[]|], (d' !! x) as [[]|]; simpl in *; congruence.
Qed.

Lemma wrap_unwrap_run {C} (fuel : nat) (current p : NodeId) (t : string)
  (pre post : list NodeId) sel d :
  WF d ->
  children_of d p = pre ++ current :: post ->
  0 < fuel ->
  exists d1,
    Dom.wrap current (TagName t) sel d
    = Ok (Some (length d),
          sel ++ [Saved (length sel) d; Restored (length sel) d1], d1)
    /\ children_of d1 p = pre ++ length d :: post
    /\ children_of d1 (length d) = [current]
    /\ forall c : C,
         Dom.unwrap fuel (length d) c d1 = Ok (tt, c, d ++ [new_element t]).
Proof.
  intros Hwf Hkids Hfuel.
  set (w := length d). set (d0 := d ++ [new_element t]).
  set (c1 := sel ++ [Saved (length sel) d]).
  assert (WF d0) as Hwf0 by (by apply WF_alloc).
  assert (forall x, parent_of d0 x = parent_of d x) as Hpar0
    by (intros x; by apply parent_of_alloc).
  assert (forall x, children_of d0 x = children_of d x) as Hkids0
    by (intros x; by apply children_of_alloc).
  assert (d0 !! w = Some (new_element t)) as Hw0.
  { unfold d0, w. rewrite lookup_app_r by lia. by rewrite Nat.sub_diag. }
  assert (length d0 = S (length d)) as Hlen0.
  { unfold d0. rewrite length_app. simpl. lia. }
  destruct (out_of_range d w (le_n _)) as (_ & Hpw & Hcw & _).
  assert (parent_of d current = Some p) as Hp.
  { apply (WF_child _ Hwf). rewrite Hkids. apply elem_of_app. right. by left. }
  assert (current < length d) as Hcur
    by (by apply parent_of_Some_lookup, lookup_lt_is_Some in Hp).
  assert (p < length d) as Hpv.
  { apply (children_of_valid d p current). rewrite Hkids.
    apply elem_of_app. right. by left. }
  assert (NoDup (pre ++ current :: post)) as Hnd.
  { rewrite <- Hkids. apply (WF_nodup _ Hwf). }
  assert ((current ∉ pre) /\ (current ∉ post)) as [Hnpre Hnpost].
  { apply NoDup_app in Hnd as (_ & H1 & H2). apply NoDup_cons in H2 as [H2 _].
    split; [|done]. intros Hin. apply (H1 _ Hin). by left. }
  assert (type_of d0 w = Some ELEMENT_NODE) as Htype0.
  { unfold type_of. by rewrite Hw0. }
  (* the wrapper goes before the node *)
  destruct (insert_detached c1 d0 p w (Some current) pre post)
    as (HinsA & HwfA & HlenA & HdataA & HpA & HothA & HparA).
  { done. }
  { by rewrite Hpar0. }
  { by rewrite Hw0. }
  { by rewrite Htype0. }
  { apply lookup_lt_is_Some. lia. }
  { rewrite (data_of_type d d0).
    - intros E. apply (WF_text _ Hwf) in E. rewrite Hkids in E.
      by destruct pre.
    - unfold data_of, d0. by rewrite lookup_app_l. }
  { intros H. apply (not_above_new_node d w p Hwf Hpv (le_n _)).
    apply (ancestor_or_self_agree d d0); [|done]. intros y _. apply Hpar0. }
  { simpl. by rewrite Hkids0. }
  set (dA := insert_one p (Some current) d0 w) in *. simpl in HpA.
  assert (w <> current) as Hwc by (unfold w; lia).
  assert (w <> p) as Hwp by (unfold w; lia).
  (* the node goes into the wrapper *)
  destruct (insert_node c1 dA w current None [] [])
    as (HvalidB & HwfB & HlenB & HdataB & HwB & HothB & HparB).
  { done. }
  { apply lookup_lt_is_Some. lia. }
  { rewrite (data_of_type d0 dA) by done. rewrite (data_of_type d d0).
    - intros E. apply (WF_fragment _ Hwf) in E. congruence.
    - unfold data_of, d0. by rewrite lookup_app_l. }
  { apply lookup_lt_is_Some. lia. }
  { rewrite (data_of_type d0 dA) by done. by rewrite Htype0. }
  { intros H. apply ancestor_or_self_inv in H as [E|(q & Hq & H)]; [done|].
    rewrite HparA, decide_True in Hq by done. injection Hq as <-.
    apply (WF_child_not_above dA current p HwfA); [|done].
    rewrite HparA, decide_False by done. by rewrite Hpar0. }
  { rewrite HothA by done. rewrite Hkids0, Hcw. by split. }
  set (dB := insert_one w None dA current) in *. simpl in HwB.
  assert (children_of dB p = pre ++ w :: post) as HpB.
  { rewrite HothB by done. rewrite HpA.
    rewrite remove_id_app, remove_id_cons_ne by done.
    rewrite remove_id_cons_eq. by rewrite !remove_id_notin. }
  assert (Dom.wrap current (TagName t) sel d
          = Ok (Some w, sel ++ [Saved (length sel) d; Restored (length sel) dB],
                dB)) as Hwrap.
  { unfold Dom.wrap. unfold bind at 1, save. simpl. fold c1.
    unfold bind at 1, createElement, alloc. fold w d0.
    rewrite bind_read, Hpar0, Hp.
    unfold bind at 1. rewrite HinsA.
    unfold bind at 1.
    assert (appendChild w current c1 dA = Ok (current, c1, dB)) as ->.
    { unfold appendChild, insertBefore, bind, read, write, ret.
      rewrite HvalidB. rewrite pre_insert_node; [done| |done].
      rewrite (data_of_type d0 dA) by done. rewrite (data_of_type d d0).
      - intros E. apply (WF_fragment _ Hwf) in E. congruence.
      - unfold data_of, d0. by rewrite lookup_app_l. }
    unfold bind, restore, ret, c1. simpl. by rewrite <- app_assoc. }
  exists dB. split; [exact Hwrap|]. split; [exact HpB|]. split; [exact HwB|].
  intros c.
  destruct (unwrap_run c dB p w pre post fuel HwfB HpB)
    as (d2 & Hun & Hwf2 & Hlen2 & Hdata2 & Hp2 & Hw2 & Hpw2 & Hoth2 & Hpar2).
  { rewrite HwB. simpl. lia. }
  rewrite HwB in Hp2, Hpar2. simpl in Hp2.
  rewrite Hun. do 3 f_equal. fold d0. apply document_ext.
  - lia.
  - intros x. destruct (decide (x = w)) as [->|Hxw].
    { rewrite Hpw2, Hpar0. by rewrite Hpw. }
    destruct (decide (x = current)) as [->|Hxc].
    { rewrite Hpar0, Hp. apply (WF_child _ Hwf2). rewrite Hp2.
      apply elem_of_app. right. by left. }
    rewrite Hpar2; [|done|by intros ->%list_elem_of_singleton].
    rewrite HparB, decide_False by done.
    by rewrite HparA, decide_False.
  - intros x. destruct (decide (x = p)) as [->|Hxp].
    { by rewrite Hp2, Hkids0, Hkids. }
    destruct (decide (x = w)) as [->|Hxw].
    { by rewrite Hw2, Hkids0, Hcw. }
    rewrite Hoth2, HothB, HothA by done.
    apply remove_id_notin. intros Hin.
    apply (WF_child _ Hwf0) in Hin. rewrite Hpar0, Hp in Hin. congruence.
  - intros x. by rewrite Hdata2, HdataB, HdataA.
Qed.

(** [Dom.unwrap] undoes [Dom.wrap]: on a well-formed document, wrapping a
    node that has a parent in a new element and unwrapping that element
    gives the document back, with the new element left over in the table,
    without parent and empty. *)
Theorem unwrap_undoes_wrap {C} (fuel : nat) (current p : NodeId) (t : string)
  (pre post : list NodeId) sel d :
  wf d = true ->
  children_of d p = pre ++ current :: post ->
  0 < fuel ->
  exists d1,
    Dom.wrap current (TagName t) sel d
    = Ok (Some (length d),
          sel ++ [Saved (length sel) d; Restored (length sel) d1], d1)
    /\ children_of d1 p = pre ++ length d :: post
    /\ children_of d1 (length d) = [current]
    /\ forall c : C,
         Dom.unwrap fuel (length d) c d1 = Ok (tt, c, d ++ [new_element t]).
Proof. intros Hwf%wf_WF. by apply wrap_unwrap_run. Qed.

End RoundTrip.

(** In [<div><p>x</p>a<em>b</em>c<p>y</p></div>], around the [em]. *)
Lemma unwrap_undoes_wrap_witness :
  exists d1,
    Dom.wrap 4 (TagName "strong") [] InlineExample.doc
    = Ok (Some 9, [Saved 0 InlineExample.doc; Restored 0 d1], d1)
    /\ outerHTML d1 0
       = "<div><p>x</p>a<strong><em>b</em></strong>c<p>y</p></div>"%string
    /\ Dom.unwrap 1 9 tt d1
       = Ok (tt, tt, InlineExample.doc ++ [new_element "strong"]).
Proof.
  destruct (unwrap_undoes_wrap (C := unit) 1 4 0 "strong" [1; 3] [6; 7] []
              InlineExample.doc eq_refl eq_refl ltac:(lia))
    as (d1 & H1 & _ & _ & H2).
  exists d1. split; [exact H1|]. split; [|exact (H2 tt)].
  vm_compute in H1. injection H1 as _ <-. reflexivity.
Defined.
(** ** [toggleStyles] *)

Section ToggleStyles.
Variable style : Style.
Implicit Types (d : Document) (c : ApplyStyle.State) (elm g : NodeId)
  (rules : list (string * option string)).

(** The body of the loop of [toggleStyles] over the property map. *)
Local Abbreviation toggle_rule elm :=
  (fun kv : string * option string =>
     let* m := ApplyStyle.get_mode in
     let* current := read (fun d => css_get d elm kv.1) in
     if bool_decide (m = Some UNWRAP)
        || bool_decide (Some current = normalizeCssValue kv.1 kv.2)
     then
       css_set elm kv.1 (Some EmptyString) ;;
       let* m := ApplyStyle.get_mode in
       match m with
       | None => ApplyStyle.set_mode UNWRAP
       | Some _ => ret tt
       end
     else
       css_set elm kv.1 kv.2 ;;
       let* m := ApplyStyle.get_mode in
       match m with
       | None => ApplyStyle.set_mode WRAP
       | Some _ => ret tt
       end).






End ToggleStyles.

Section ClosestWrapperToggled.
Implicit Types (d : Document) (c : ApplyStyle.State).



End ClosestWrapperToggled.


